(** * Pantheon Pandemonium: a shallow embedding of the rules engine

    The TypeScript engine (GameEngine and its resolver classes) is embedded
    as pure functions over explicit state.  Conventions:

    - a JS [number] that the engine only ever uses as a whole count
      (currencies, stability, corruption, coordinates, yields, content-table
      modifier values) is a [Z]; quantities the source makes fractional
      (the running capture cost with its -0.5 adjustment, probabilities,
      the conquest threshold, utility scores) are [Q];
    - a tile key, the string "x,y" in the source, is the pair [(x, y)];
    - [Map<string, Tile>] and [Map<string, Unit>] are [gmap]s, a [Set] of
      tile keys is a [gset]; the player table, whose insertion order the
      engine relies on for the round-robin and for "first match wins", is
      an association list;
    - every [Math.random()] and [crypto.randomUUID()] is an explicit oracle
      argument;
    - objects are mutated in place in the source and threaded as values here.
*)

From Stdlib Require Import ZArith QArith Qround Qminmax String List Bool Lia.
From stdpp Require Import base decidable countable gmap strings pretty list fin_maps.

Open Scope Z_scope.

#[local] Set Warnings "-clear-no-such-hyp,-register-all".

(* ================================================================== *)
(** * src/types/game.ts                                                *)
(* ================================================================== *)

Module TileVisibility.
Inductive t := Hidden | Seen | Visible.
#[global] Instance eq_dec : EqDecision t.
Proof. solve_decision. Defined.
End TileVisibility.

Module Owner.
Inductive t := Neutral | Player | AI1 | AI2 | AI3 | Shadow.
#[global] Instance eq_dec : EqDecision t.
Proof. solve_decision. Defined.
Definition to_nat (o : t) : nat :=
  match o with
  | Neutral => 0 | Player => 1 | AI1 => 2 | AI2 => 3 | AI3 => 4 | Shadow => 5
  end%nat.
Definition of_nat (n : nat) : t :=
  match n with
  | 0 => Neutral | 1 => Player | 2 => AI1 | 3 => AI2 | 4 => AI3 | _ => Shadow
  end%nat.
#[global] Instance countable : Countable t.
Proof. apply (inj_countable' to_nat of_nat). by intros []. Defined.
End Owner.

Module ActionType.
Inductive t :=
  | Explore | Move | Capture | ManageFortify | ManagePurify
  | ManageBuildShrine | ManageRepair | Sanctify | SummonUnit
  | UseAbility | UseMiracle | EndTurn.
#[global] Instance eq_dec : EqDecision t.
Proof. solve_decision. Defined.
End ActionType.

Module DomainType.
Inductive t := Fire | Water | Earth | Air | Life | Death | Order | Chaos.
#[global] Instance eq_dec : EqDecision t.
Proof. solve_decision. Defined.
End DomainType.

Module TileType.
Inductive t :=
  | Plains | Forest | Swamp | Hills | Desert | Mountain | Coast | Water
  | SacredWell | Village | AncientRuins | Volcano | SnowPeak.
#[global] Instance eq_dec : EqDecision t.
Proof. solve_decision. Defined.
End TileType.

Module UnitType.
Inductive t :=
  | Explorer | Warden | Cultivator | Herald | Guardian
  | ElementalAvatar | Shadowborn | Wight.
#[global] Instance eq_dec : EqDecision t.
Proof. solve_decision. Defined.
End UnitType.

Module GamePhase.
Inductive t := Setup | Playing | Victory | Defeat.
#[global] Instance eq_dec : EqDecision t.
Proof. solve_decision. Defined.
End GamePhase.

Module VictoryCondition.
Inductive t := Conquest | Sanctifier | ShadowAccord | RelicAscension.
#[global] Instance eq_dec : EqDecision t.
Proof. solve_decision. Defined.
Definition to_nat (c : t) : nat :=
  match c with
  | Conquest => 0 | Sanctifier => 1 | ShadowAccord => 2 | RelicAscension => 3
  end%nat.
Definition of_nat (n : nat) : t :=
  match n with
  | 0 => Conquest | 1 => Sanctifier | 2 => ShadowAccord | _ => RelicAscension
  end%nat.
#[global] Instance countable : Countable t.
Proof. apply (inj_countable' to_nat of_nat). by intros []. Defined.
End VictoryCondition.

Module Position.
Record t := mk { x : Z; y : Z }.
#[global] Instance eq_dec : EqDecision t.
Proof. solve_decision. Defined.
End Position.

(** [TileKey] is the template string [`${x},${y}`]. *)
Abbreviation TileKey := (Z * Z)%type.

Definition tileKey (x y : Z) : TileKey := (x, y).

Module Tile.
Record t := mk {
  position : Position.t;
  type : TileType.t;
  owner : Owner.t;
  stability : Z;
  corruption : Z;
  sanctified : bool;
  domainAttunement : option DomainType.t;
  visibility : TileVisibility.t;
  hasShrine : bool;
  hasFortification : bool;
  eventTriggered : bool;
  divinityYield : Z;
  faithYield : Z;
  moveCost : Z;
  impassable : bool
}.
Definition set_owner (v : Owner.t) (a : t) : t :=
  mk (position a) (type a) v (stability a) (corruption a) (sanctified a)
     (domainAttunement a) (visibility a) (hasShrine a) (hasFortification a)
     (eventTriggered a) (divinityYield a) (faithYield a) (moveCost a)
     (impassable a).
Definition set_stability (v : Z) (a : t) : t :=
  mk (position a) (type a) (owner a) v (corruption a) (sanctified a)
     (domainAttunement a) (visibility a) (hasShrine a) (hasFortification a)
     (eventTriggered a) (divinityYield a) (faithYield a) (moveCost a)
     (impassable a).
Definition set_corruption (v : Z) (a : t) : t :=
  mk (position a) (type a) (owner a) (stability a) v (sanctified a)
     (domainAttunement a) (visibility a) (hasShrine a) (hasFortification a)
     (eventTriggered a) (divinityYield a) (faithYield a) (moveCost a)
     (impassable a).
Definition set_sanctified (v : bool) (a : t) : t :=
  mk (position a) (type a) (owner a) (stability a) (corruption a) v
     (domainAttunement a) (visibility a) (hasShrine a) (hasFortification a)
     (eventTriggered a) (divinityYield a) (faithYield a) (moveCost a)
     (impassable a).
Definition set_domainAttunement (v : option DomainType.t) (a : t) : t :=
  mk (position a) (type a) (owner a) (stability a) (corruption a)
     (sanctified a) v (visibility a) (hasShrine a) (hasFortification a)
     (eventTriggered a) (divinityYield a) (faithYield a) (moveCost a)
     (impassable a).
Definition set_visibility (v : TileVisibility.t) (a : t) : t :=
  mk (position a) (type a) (owner a) (stability a) (corruption a)
     (sanctified a) (domainAttunement a) v (hasShrine a) (hasFortification a)
     (eventTriggered a) (divinityYield a) (faithYield a) (moveCost a)
     (impassable a).
Definition set_hasShrine (v : bool) (a : t) : t :=
  mk (position a) (type a) (owner a) (stability a) (corruption a)
     (sanctified a) (domainAttunement a) (visibility a) v (hasFortification a)
     (eventTriggered a) (divinityYield a) (faithYield a) (moveCost a)
     (impassable a).
Definition set_eventTriggered (v : bool) (a : t) : t :=
  mk (position a) (type a) (owner a) (stability a) (corruption a)
     (sanctified a) (domainAttunement a) (visibility a) (hasShrine a)
     (hasFortification a) v (divinityYield a) (faithYield a) (moveCost a)
     (impassable a).
Definition set_divinityYield (v : Z) (a : t) : t :=
  mk (position a) (type a) (owner a) (stability a) (corruption a)
     (sanctified a) (domainAttunement a) (visibility a) (hasShrine a)
     (hasFortification a) (eventTriggered a) v (faithYield a) (moveCost a)
     (impassable a).
Definition set_faithYield (v : Z) (a : t) : t :=
  mk (position a) (type a) (owner a) (stability a) (corruption a)
     (sanctified a) (domainAttunement a) (visibility a) (hasShrine a)
     (hasFortification a) (eventTriggered a) (divinityYield a) v (moveCost a)
     (impassable a).
End Tile.

Module Unit.
Record t := mk {
  id : string;
  type : UnitType.t;
  owner : Owner.t;
  position : Position.t;
  movePoints : Z;
  maxMovePoints : Z;
  perception : Z;
  abilities : list string;
  cooldowns : gmap string Z;
  turnsAlive : Z
}.
Definition set_position (v : Position.t) (a : t) : t :=
  mk (id a) (type a) (owner a) v (movePoints a) (maxMovePoints a)
     (perception a) (abilities a) (cooldowns a) (turnsAlive a).
Definition set_movePoints (v : Z) (a : t) : t :=
  mk (id a) (type a) (owner a) (position a) v (maxMovePoints a)
     (perception a) (abilities a) (cooldowns a) (turnsAlive a).
Definition set_cooldowns (v : gmap string Z) (a : t) : t :=
  mk (id a) (type a) (owner a) (position a) (movePoints a) (maxMovePoints a)
     (perception a) (abilities a) v (turnsAlive a).
Definition set_turnsAlive (v : Z) (a : t) : t :=
  mk (id a) (type a) (owner a) (position a) (movePoints a) (maxMovePoints a)
     (perception a) (abilities a) (cooldowns a) v.
End Unit.

Module ResourceCost.
Record t := mk {
  divinity : option Z;
  faith : option Z;
  shadowEnergy : option Z
}.
End ResourceCost.

Module ModifierType.
(** The union in [GameModifier.type], plus ['shadow_energy_income'], which
    TurnSystem tests for although the declared union omits it. *)
Inductive t :=
  | capture_cost | move_cost | stability | divinity_income | faith_income
  | perception | shadow_resistance | sanctify_cost | shadow_energy_income.
#[global] Instance eq_dec : EqDecision t.
Proof. solve_decision. Defined.
End ModifierType.

(** [value] is a JS number.  The currencies, counters and perception it
    is added to are whole numbers here, and so is the value; where the code
    adds it to a running number that may be fractional (the capture cost),
    it is added before the floor is taken, as in the code. *)
Module GameModifier.
Record t := mk { type : ModifierType.t; value : Z }.
End GameModifier.

Module Rarity.
Inductive t := common | rare | mythic.
#[global] Instance eq_dec : EqDecision t.
Proof. solve_decision. Defined.
End Rarity.

Module Relic.
(** [victoryPoints] is read by VictorySystem although the interface does
    not declare it; a relic without it has [None]. *)
Record t := mk {
  id : string;
  rarity : Rarity.t;
  passive : option (list GameModifier.t);
  victoryPoints : option Z;
  isConsumed : bool
}.
End Relic.

Module Miracle.
Record t := mk { id : string; cost : ResourceCost.t; isUsed : bool }.
Definition set_isUsed (v : bool) (a : t) : t := mk (id a) (cost a) v.
End Miracle.

Module Personality.
Inductive t := aggressive | defensive | balanced | opportunist.
End Personality.

(** A JS number that may be the result of a division by zero. *)
Inductive Progress := Pct (q : Q) | PctInfinity | PctNaN.

Module PlayerState.
Record t := mk {
  id : string;
  name : string;
  owner : Owner.t;
  domain : DomainType.t;
  isAI : bool;
  divinity : Z;
  faith : Z;
  shadowEnergy : Z;
  aegis : Z;
  units : list Unit.t;
  ownedTiles : gset TileKey;
  sanctifiedTiles : gset TileKey;
  relics : list Relic.t;
  miracles : list Miracle.t;
  victoryProgress : gmap VictoryCondition.t Progress;
  capturedThisTurn : Z;
  sanctifiedThisTurn : Z;
  aiPersonality : option Personality.t
}.
Definition set_divinity (v : Z) (a : t) : t :=
  mk (id a) (name a) (owner a) (domain a) (isAI a) v (faith a)
     (shadowEnergy a) (aegis a) (units a) (ownedTiles a) (sanctifiedTiles a)
     (relics a) (miracles a) (victoryProgress a) (capturedThisTurn a)
     (sanctifiedThisTurn a) (aiPersonality a).
Definition set_faith (v : Z) (a : t) : t :=
  mk (id a) (name a) (owner a) (domain a) (isAI a) (divinity a) v
     (shadowEnergy a) (aegis a) (units a) (ownedTiles a) (sanctifiedTiles a)
     (relics a) (miracles a) (victoryProgress a) (capturedThisTurn a)
     (sanctifiedThisTurn a) (aiPersonality a).
Definition set_shadowEnergy (v : Z) (a : t) : t :=
  mk (id a) (name a) (owner a) (domain a) (isAI a) (divinity a) (faith a)
     v (aegis a) (units a) (ownedTiles a) (sanctifiedTiles a)
     (relics a) (miracles a) (victoryProgress a) (capturedThisTurn a)
     (sanctifiedThisTurn a) (aiPersonality a).
Definition set_aegis (v : Z) (a : t) : t :=
  mk (id a) (name a) (owner a) (domain a) (isAI a) (divinity a) (faith a)
     (shadowEnergy a) v (units a) (ownedTiles a) (sanctifiedTiles a)
     (relics a) (miracles a) (victoryProgress a) (capturedThisTurn a)
     (sanctifiedThisTurn a) (aiPersonality a).
Definition set_units (v : list Unit.t) (a : t) : t :=
  mk (id a) (name a) (owner a) (domain a) (isAI a) (divinity a) (faith a)
     (shadowEnergy a) (aegis a) v (ownedTiles a) (sanctifiedTiles a)
     (relics a) (miracles a) (victoryProgress a) (capturedThisTurn a)
     (sanctifiedThisTurn a) (aiPersonality a).
Definition set_ownedTiles (v : gset TileKey) (a : t) : t :=
  mk (id a) (name a) (owner a) (domain a) (isAI a) (divinity a) (faith a)
     (shadowEnergy a) (aegis a) (units a) v (sanctifiedTiles a)
     (relics a) (miracles a) (victoryProgress a) (capturedThisTurn a)
     (sanctifiedThisTurn a) (aiPersonality a).
Definition set_sanctifiedTiles (v : gset TileKey) (a : t) : t :=
  mk (id a) (name a) (owner a) (domain a) (isAI a) (divinity a) (faith a)
     (shadowEnergy a) (aegis a) (units a) (ownedTiles a) v
     (relics a) (miracles a) (victoryProgress a) (capturedThisTurn a)
     (sanctifiedThisTurn a) (aiPersonality a).
Definition set_miracles (v : list Miracle.t) (a : t) : t :=
  mk (id a) (name a) (owner a) (domain a) (isAI a) (divinity a) (faith a)
     (shadowEnergy a) (aegis a) (units a) (ownedTiles a) (sanctifiedTiles a)
     (relics a) v (victoryProgress a) (capturedThisTurn a)
     (sanctifiedThisTurn a) (aiPersonality a).
Definition set_victoryProgress (v : gmap VictoryCondition.t Progress) (a : t)
  : t :=
  mk (id a) (name a) (owner a) (domain a) (isAI a) (divinity a) (faith a)
     (shadowEnergy a) (aegis a) (units a) (ownedTiles a) (sanctifiedTiles a)
     (relics a) (miracles a) v (capturedThisTurn a)
     (sanctifiedThisTurn a) (aiPersonality a).
Definition set_capturedThisTurn (v : Z) (a : t) : t :=
  mk (id a) (name a) (owner a) (domain a) (isAI a) (divinity a) (faith a)
     (shadowEnergy a) (aegis a) (units a) (ownedTiles a) (sanctifiedTiles a)
     (relics a) (miracles a) (victoryProgress a) v
     (sanctifiedThisTurn a) (aiPersonality a).
Definition set_sanctifiedThisTurn (v : Z) (a : t) : t :=
  mk (id a) (name a) (owner a) (domain a) (isAI a) (divinity a) (faith a)
     (shadowEnergy a) (aegis a) (units a) (ownedTiles a) (sanctifiedTiles a)
     (relics a) (miracles a) (victoryProgress a) (capturedThisTurn a)
     v (aiPersonality a).
End PlayerState.

Module GameEffect.
(** The effect records the event pool and [applyEventEffects] use. *)
Inductive kind :=
  | grant_divinity | grant_faith | grant_shadow_energy | reveal_tiles
  | add_corruption | remove_corruption | damage_stability | add_stability.
Record t := mk {
  type : kind;
  value : option Z;
  targetTags : option (list string)
}.
End GameEffect.

Module GlobalEvent.
Record t := mk { id : string; duration : Z; isActive : bool }.
Definition set_duration (v : Z) (a : t) : t := mk (id a) v (isActive a).
End GlobalEvent.

Module NeutralAlignment.
Inductive t := hostile | neutral | friendly.
End NeutralAlignment.

Module Aggression.
Inductive t := low | normal | high.
End Aggression.

Module GameState.
Record t := mk {
  turn : Z;
  phase : GamePhase.t;
  currentPlayer : Owner.t;
  players : list (Owner.t * PlayerState.t);
  tiles : gmap TileKey Tile.t;
  units : gmap string Unit.t;
  shadowInfluence : Z;
  shadowAlignmentMeter : gmap Owner.t Z;
  neutralFactionAlignment : NeutralAlignment.t;
  activeGlobalEvents : list GlobalEvent.t;
  victoryConditions : list VictoryCondition.t;
  victoryThresholds : gmap VictoryCondition.t Q;
  mapSize : Z * Z;
  revealedTiles : gset TileKey;
  shadowAggression : Aggression.t;
  encircleRule : bool
}.
Definition width (s : t) : Z := fst (mapSize s).
Definition height (s : t) : Z := snd (mapSize s).
Definition set_turn (v : Z) (a : t) : t :=
  mk v (phase a) (currentPlayer a) (players a) (tiles a) (units a)
     (shadowInfluence a) (shadowAlignmentMeter a) (neutralFactionAlignment a)
     (activeGlobalEvents a) (victoryConditions a) (victoryThresholds a)
     (mapSize a) (revealedTiles a) (shadowAggression a) (encircleRule a).
Definition set_phase (v : GamePhase.t) (a : t) : t :=
  mk (turn a) v (currentPlayer a) (players a) (tiles a) (units a)
     (shadowInfluence a) (shadowAlignmentMeter a) (neutralFactionAlignment a)
     (activeGlobalEvents a) (victoryConditions a) (victoryThresholds a)
     (mapSize a) (revealedTiles a) (shadowAggression a) (encircleRule a).
Definition set_currentPlayer (v : Owner.t) (a : t) : t :=
  mk (turn a) (phase a) v (players a) (tiles a) (units a)
     (shadowInfluence a) (shadowAlignmentMeter a) (neutralFactionAlignment a)
     (activeGlobalEvents a) (victoryConditions a) (victoryThresholds a)
     (mapSize a) (revealedTiles a) (shadowAggression a) (encircleRule a).
Definition set_players (v : list (Owner.t * PlayerState.t)) (a : t) : t :=
  mk (turn a) (phase a) (currentPlayer a) v (tiles a) (units a)
     (shadowInfluence a) (shadowAlignmentMeter a) (neutralFactionAlignment a)
     (activeGlobalEvents a) (victoryConditions a) (victoryThresholds a)
     (mapSize a) (revealedTiles a) (shadowAggression a) (encircleRule a).
Definition set_tiles (v : gmap TileKey Tile.t) (a : t) : t :=
  mk (turn a) (phase a) (currentPlayer a) (players a) v (units a)
     (shadowInfluence a) (shadowAlignmentMeter a) (neutralFactionAlignment a)
     (activeGlobalEvents a) (victoryConditions a) (victoryThresholds a)
     (mapSize a) (revealedTiles a) (shadowAggression a) (encircleRule a).
Definition set_units (v : gmap string Unit.t) (a : t) : t :=
  mk (turn a) (phase a) (currentPlayer a) (players a) (tiles a) v
     (shadowInfluence a) (shadowAlignmentMeter a) (neutralFactionAlignment a)
     (activeGlobalEvents a) (victoryConditions a) (victoryThresholds a)
     (mapSize a) (revealedTiles a) (shadowAggression a) (encircleRule a).
Definition set_shadowInfluence (v : Z) (a : t) : t :=
  mk (turn a) (phase a) (currentPlayer a) (players a) (tiles a) (units a)
     v (shadowAlignmentMeter a) (neutralFactionAlignment a)
     (activeGlobalEvents a) (victoryConditions a) (victoryThresholds a)
     (mapSize a) (revealedTiles a) (shadowAggression a) (encircleRule a).
Definition set_neutralFactionAlignment (v : NeutralAlignment.t) (a : t) : t :=
  mk (turn a) (phase a) (currentPlayer a) (players a) (tiles a) (units a)
     (shadowInfluence a) (shadowAlignmentMeter a) v
     (activeGlobalEvents a) (victoryConditions a) (victoryThresholds a)
     (mapSize a) (revealedTiles a) (shadowAggression a) (encircleRule a).
Definition set_activeGlobalEvents (v : list GlobalEvent.t) (a : t) : t :=
  mk (turn a) (phase a) (currentPlayer a) (players a) (tiles a) (units a)
     (shadowInfluence a) (shadowAlignmentMeter a) (neutralFactionAlignment a)
     v (victoryConditions a) (victoryThresholds a)
     (mapSize a) (revealedTiles a) (shadowAggression a) (encircleRule a).
Definition set_revealedTiles (v : gset TileKey) (a : t) : t :=
  mk (turn a) (phase a) (currentPlayer a) (players a) (tiles a) (units a)
     (shadowInfluence a) (shadowAlignmentMeter a) (neutralFactionAlignment a)
     (activeGlobalEvents a) (victoryConditions a) (victoryThresholds a)
     (mapSize a) v (shadowAggression a) (encircleRule a).
Definition set_shadowAlignmentMeter (v : gmap Owner.t Z) (a : t) : t :=
  mk (turn a) (phase a) (currentPlayer a) (players a) (tiles a) (units a)
     (shadowInfluence a) v (neutralFactionAlignment a)
     (activeGlobalEvents a) (victoryConditions a) (victoryThresholds a)
     (mapSize a) (revealedTiles a) (shadowAggression a) (encircleRule a).
End GameState.

Module GameAction.
Record t := mk {
  id : string;
  type : ActionType.t;
  playerId : string;
  timestamp : Z;
  targetTile : option Position.t;
  targetUnit : option string;
  unitId : option string;
  abilityId : option string;
  miracleId : option string;
  cost : option ResourceCost.t;
  success : bool;
  message : option string
}.
Definition set_cost (v : option ResourceCost.t) (a : t) : t :=
  mk (id a) (type a) (playerId a) (timestamp a) (targetTile a) (targetUnit a)
     (unitId a) (abilityId a) (miracleId a) v (success a) (message a).
Definition set_success (v : bool) (a : t) : t :=
  mk (id a) (type a) (playerId a) (timestamp a) (targetTile a) (targetUnit a)
     (unitId a) (abilityId a) (miracleId a) (cost a) v (message a).
Definition set_message (v : option string) (a : t) : t :=
  mk (id a) (type a) (playerId a) (timestamp a) (targetTile a) (targetUnit a)
     (unitId a) (abilityId a) (miracleId a) (cost a) (success a) v.
End GameAction.

Module ShadowSpreadConfig.
Record t := mk {
  base : Q;
  perCorruptedNeighbor : Q;
  perSanctifiedNeighbor : Q;
  wardenAdjacent : Q;
  orderOwner : Q;
  min : Q;
  max : Q
}.
End ShadowSpreadConfig.

Module GameConfig.
Record t := mk {
  baseDivinity : Z;
  captureBaseCost : Z;
  sanctifyBaseCost : Z;
  fortifyCost : Z;
  purifyCost : Z;
  buildShrineCost : Z;
  repairCost : Z;
  stabilityCap : Z;
  shadowSpread : ShadowSpreadConfig.t;
  conquest : Q;
  sanctifySites : Z;
  shadowAccord : Z;
  relicCount : Z
}.
End GameConfig.

(** src/config/gameConfig.ts, [defaultGameConfig]. *)
Definition defaultGameConfig : GameConfig.t :=
  GameConfig.mk 6 4 6 3 3 5 3 10
    (ShadowSpreadConfig.mk (10 # 100) (5 # 100) (- 3 # 100) (- 5 # 100)
       (- 25 # 100) (2 # 100) (60 # 100))
    (75 # 100) 6 100 3.

(* ================================================================== *)
(** * Shared helpers                                                   *)
(* ================================================================== *)

(** [state.players.get(owner)] on the insertion-ordered player table. *)
Fixpoint players_get (ps : list (Owner.t * PlayerState.t)) (o : Owner.t)
  : option PlayerState.t :=
  match ps with
  | [] => None
  | (o', p) :: rest => if decide (o' = o) then Some p else players_get rest o
  end.

(** In-place mutation of the player object stored under [o]. *)
Fixpoint players_update (ps : list (Owner.t * PlayerState.t)) (o : Owner.t)
  (f : PlayerState.t -> PlayerState.t) : list (Owner.t * PlayerState.t) :=
  match ps with
  | [] => []
  | (o', p) :: rest =>
      if decide (o' = o) then (o', f p) :: rest
      else (o', p) :: players_update rest o f
  end.

Definition getPlayer (s : GameState.t) (o : Owner.t) : option PlayerState.t :=
  players_get (GameState.players s) o.

Definition updatePlayer (o : Owner.t) (f : PlayerState.t -> PlayerState.t)
  (s : GameState.t) : GameState.t :=
  GameState.set_players (players_update (GameState.players s) o f) s.

(** A field of the player stored under [o], when there is one. *)
Definition playerField {A} (f : PlayerState.t -> A) (s : GameState.t)
  (o : Owner.t) : option A := f <$> getPlayer s o.

Definition updateTile (k : TileKey) (f : Tile.t -> Tile.t) (s : GameState.t)
  : GameState.t :=
  GameState.set_tiles (alter f k (GameState.tiles s)) s.

Definition posKey (p : Position.t) : TileKey :=
  tileKey (Position.x p) (Position.y p).

(** [getNeighbors(x, y, state)]: the same private helper is repeated in
    CaptureSystem, ShadowSystem, FogOfWarSystem and AIController
    (north, east, south, west, kept when inside the map). *)
Definition directions : list (Z * Z) := [(0, -1); (1, 0); (0, 1); (-1, 0)].

Definition inBounds (s : GameState.t) (nx ny : Z) : bool :=
  (0 <=? nx) && (nx <? GameState.width s) &&
  (0 <=? ny) && (ny <? GameState.height s).

Definition getNeighbors (x y : Z) (s : GameState.t) : list TileKey :=
  fold_left
    (fun neighbors '(dx, dy) =>
       let nx := x + dx in
       let ny := y + dy in
       if inBounds s nx ny then neighbors ++ [tileKey nx ny] else neighbors)
    directions [].

(** [o !== Owner.Neutral && o !== Owner.Shadow]. *)
Definition isPlayerOwner (o : Owner.t) : bool :=
  negb (bool_decide (o = Owner.Neutral))
  && negb (bool_decide (o = Owner.Shadow)).

(** [a < b] on rationals, as a boolean. *)
Definition Qltb (a b : Q) : bool := negb (Qle_bool b a).

(** [a || 0] on an optional number: [undefined] and [0] both give [0]. *)
Definition orZero (o : option Z) : Z := default 0 o.

(* ================================================================== *)
(** * ResourceSystem (src/unnamed/part_001, first class)               *)
(* ================================================================== *)

Module BALANCE.
Definition MAX_DIVINITY_PER_TURN : Z := 20.
Definition MAX_FAITH_PER_TURN : Z := 10.
Definition MAX_SHADOW_ENERGY : Z := 10.
End BALANCE.

Module ResourceSystem.

Definition spendDivinity (player : PlayerState.t) (amount : Z)
  : bool * PlayerState.t :=
  if PlayerState.divinity player <? amount then (false, player)
  else (true,
        PlayerState.set_divinity (PlayerState.divinity player - amount) player).

Definition grantDivinity (player : PlayerState.t) (amount : Z) : PlayerState.t :=
  PlayerState.set_divinity (Z.min 20 (PlayerState.divinity player + amount))
    player.

(** "Faith has no hard cap". *)
Definition grantFaith (player : PlayerState.t) (amount : Z) : PlayerState.t :=
  PlayerState.set_faith (PlayerState.faith player + amount) player.

Definition grantShadowEnergy (player : PlayerState.t) (amount : Z)
  : PlayerState.t :=
  PlayerState.set_shadowEnergy
    (Z.min 10 (PlayerState.shadowEnergy player + amount)) player.

Definition spendFaith (player : PlayerState.t) (amount : Z)
  : bool * PlayerState.t :=
  if PlayerState.faith player <? amount then (false, player)
  else (true, PlayerState.set_faith (PlayerState.faith player - amount) player).

Definition spendShadowEnergy (player : PlayerState.t) (amount : Z)
  : bool * PlayerState.t :=
  if PlayerState.shadowEnergy player <? amount then (false, player)
  else (true,
        PlayerState.set_shadowEnergy (PlayerState.shadowEnergy player - amount)
          player).

(** [conversionRate] defaults to 5 in the source. *)
Definition convertShadowEnergyToDivinity (player : PlayerState.t)
  (shadowEnergyAmount conversionRate : Z) : bool * PlayerState.t :=
  if PlayerState.shadowEnergy player <? shadowEnergyAmount then (false, player)
  else
    let player :=
      PlayerState.set_shadowEnergy
        (PlayerState.shadowEnergy player - shadowEnergyAmount) player in
    let divinityGained := shadowEnergyAmount * conversionRate in
    (true, grantDivinity player divinityGained).

(** [conversionRate] defaults to 2 in the source. *)
Definition convertFaithToDivinity (player : PlayerState.t)
  (faithAmount conversionRate : Z) : bool * PlayerState.t :=
  if PlayerState.faith player <? faithAmount then (false, player)
  else
    let player :=
      PlayerState.set_faith (PlayerState.faith player - faithAmount) player in
    let divinityGained := faithAmount * conversionRate in
    (true, grantDivinity player divinityGained).

(** [required.c && have < required.c] for an optional component. *)
Definition lacks (required : option Z) (have : Z) : bool :=
  match required with
  | Some c => negb (c =? 0) && (have <? c)
  | None => false
  end.

Definition hasResources (player : PlayerState.t) (required : ResourceCost.t)
  : bool :=
  if lacks (ResourceCost.divinity required) (PlayerState.divinity player)
  then false
  else if lacks (ResourceCost.faith required) (PlayerState.faith player)
  then false
  else if lacks (ResourceCost.shadowEnergy required)
            (PlayerState.shadowEnergy player)
  then false
  else true.

(** [if (cost.c) have -= cost.c]. *)
Definition less (c : option Z) (have : Z) : Z :=
  match c with
  | Some c => if c =? 0 then have else have - c
  | None => have
  end.

Definition spendResources (player : PlayerState.t) (cost : ResourceCost.t)
  : bool * PlayerState.t :=
  if negb (hasResources player cost) then (false, player)
  else
    let player :=
      PlayerState.set_divinity
        (less (ResourceCost.divinity cost) (PlayerState.divinity player))
        player in
    let player :=
      PlayerState.set_faith
        (less (ResourceCost.faith cost) (PlayerState.faith player)) player in
    let player :=
      PlayerState.set_shadowEnergy
        (less (ResourceCost.shadowEnergy cost)
           (PlayerState.shadowEnergy player)) player in
    (true, player).

End ResourceSystem.

(* ================================================================== *)
(** * CaptureSystem (src/unnamed/part_000)                             *)
(* ================================================================== *)

Module CaptureSystem.
Section WithConfig.
Variable config : GameConfig.t.

Definition calculateAdjacencyBonus (s : GameState.t) (player : PlayerState.t)
  (tile : Tile.t) : Z :=
  let neighbors :=
    getNeighbors (Position.x (Tile.position tile))
      (Position.y (Tile.position tile)) s in
  let ownedNeighborCount :=
    fold_left
      (fun count neighborKey =>
         match GameState.tiles s !! neighborKey with
         | Some neighbor =>
             if decide (Tile.owner neighbor = PlayerState.owner player)
             then count + 1 else count
         | None => count
         end)
      neighbors 0 in
  if 4 <=? ownedNeighborCount then 2
  else if 2 <=? ownedNeighborCount then 1
  else 0.

Definition getDomainCaptureModifier (domain : DomainType.t) (tile : Tile.t)
  : Q :=
  match domain with
  | DomainType.Fire =>
      match Tile.type tile with
      | TileType.Desert | TileType.Hills => (-1)%Q
      | _ => 0%Q
      end
  | DomainType.Order => (- (1 # 2))%Q
  | _ => 0%Q
  end.

Definition calculateUnitSupport (s : GameState.t) (player : PlayerState.t)
  (tile : Tile.t) : Z :=
  fold_left
    (fun support unit =>
       match Unit.type unit with
       | UnitType.Herald =>
           let distance :=
             Z.abs (Position.x (Unit.position unit)
                    - Position.x (Tile.position tile))
             + Z.abs (Position.y (Unit.position unit)
                      - Position.y (Tile.position tile)) in
           if distance =? 1 then support + 1 else support
       | _ => support
       end)
    (PlayerState.units player) 0.

(** The running [cost] is a JS number; it is fractional as soon as the
    Order adjustment of -0.5 is applied, so it is a rational here. *)
Definition calculateCaptureCost (s : GameState.t) (player : PlayerState.t)
  (tile : Tile.t) : Z :=
  let cost := inject_Z (GameConfig.captureBaseCost config) in
  let cost := (cost + inject_Z (Tile.stability tile))%Q in
  let adjacencyBonus := calculateAdjacencyBonus s player tile in
  let cost := (cost - inject_Z adjacencyBonus)%Q in
  let domainModifier :=
    getDomainCaptureModifier (PlayerState.domain player) tile in
  let cost := (cost + domainModifier)%Q in
  let unitSupport := calculateUnitSupport s player tile in
  let cost := (cost - inject_Z unitSupport)%Q in
  let cost := if 0 <? Tile.corruption tile then (cost + 1)%Q else cost in
  let cost :=
    fold_left
      (fun cost relic =>
         match Relic.passive relic with
         | Some passive =>
             fold_left
               (fun cost modifier =>
                  match GameModifier.type modifier with
                  | ModifierType.capture_cost =>
                      (cost + inject_Z (GameModifier.value modifier))%Q
                  | _ => cost
                  end)
               passive cost
         | None => cost
         end)
      (PlayerState.relics player) cost in
  Z.max 1 (Qfloor cost).

(** [spawnWight]; [uuid] is the value of [crypto.randomUUID()]. *)
Definition spawnWight (uuid : string) (cur : Owner.t) (player : PlayerState.t)
  (tile : Tile.t) (s : GameState.t) : GameState.t :=
  let wight :=
    Unit.mk uuid UnitType.Wight (PlayerState.owner player)
      (Position.mk (Position.x (Tile.position tile))
         (Position.y (Tile.position tile)))
      0 0 0 ["ephemeral"%string] ∅ 0 in
  let s :=
    updatePlayer cur
      (fun p => PlayerState.set_units (PlayerState.units p ++ [wight]) p) s in
  GameState.set_units (<[Unit.id wight := wight]> (GameState.units s)) s.

(** [applyDomainCaptureEffects]; [cur] is the key under which the acting
    player object is stored, [tileKey] the key of the captured tile.  The
    Chaos branch draws a random number and then does nothing. *)
Definition applyDomainCaptureEffects (uuid : string) (cur : Owner.t)
  (player : PlayerState.t) (tile : Tile.t) (tileKey : TileKey)
  (s : GameState.t) : GameState.t :=
  match PlayerState.domain player with
  | DomainType.Death => spawnWight uuid cur player tile s
  | DomainType.Life =>
      updatePlayer cur
        (fun p => PlayerState.set_faith (PlayerState.faith p + 1) p) s
  | DomainType.Order =>
      updateTile tileKey
        (fun t => Tile.set_stability (Z.min 10 (Tile.stability t + 1)) t) s
  | DomainType.Chaos => s
  | _ => s
  end.

(** [triggerTileEvents], reading the tile as it is after the capture. *)
Definition triggerTileEvents (cur : Owner.t) (player : PlayerState.t)
  (tileKey : TileKey) (s : GameState.t) : GameState.t :=
  match GameState.tiles s !! tileKey with
  | None => s
  | Some tile =>
      if Tile.eventTriggered tile then s
      else
        match Tile.type tile with
        | TileType.AncientRuins =>
            updateTile tileKey (Tile.set_eventTriggered true) s
        | TileType.SacredWell =>
            let s :=
              updatePlayer cur
                (fun p =>
                   let p :=
                     PlayerState.set_divinity (PlayerState.divinity p + 2) p in
                   PlayerState.set_faith (PlayerState.faith p + 1) p) s in
            updateTile tileKey (Tile.set_eventTriggered true) s
        | TileType.Village =>
            let alignment :=
              orZero (GameState.shadowAlignmentMeter s
                        !! PlayerState.owner player) in
            let s :=
              if alignment <? -20 then
                updateTile tileKey
                  (fun t =>
                     Tile.set_stability (Z.max 1 (Tile.stability t - 1)) t) s
              else
                updatePlayer cur
                  (fun p => PlayerState.set_faith (PlayerState.faith p + 1) p)
                  s in
            updateTile tileKey (Tile.set_eventTriggered true) s
        | _ => s
        end
  end.

(** The in-place edits [executeCapture] makes to the captured tile. *)
Definition transferTile (newOwner : Owner.t) (tile : Tile.t) : Tile.t :=
  let tile := Tile.set_owner newOwner tile in
  let tile := Tile.set_stability (Z.max 1 (Tile.stability tile - 1)) tile in
  if Tile.sanctified tile then
    let tile := Tile.set_sanctified false tile in
    let tile := Tile.set_domainAttunement None tile in
    if 0 <? Tile.divinityYield tile then
      Tile.set_divinityYield (Z.max 0 (Tile.divinityYield tile - 1)) tile
    else tile
  else tile.

Definition executeCapture (uuid : string) (s : GameState.t)
  (action : GameAction.t) : bool * GameState.t * GameAction.t :=
  match GameAction.targetTile action with
  | None => (false, s, action)
  | Some target =>
  let cur := GameState.currentPlayer s in
  match getPlayer s cur with
  | None => (false, s, action)
  | Some player =>
  let tileKey := posKey target in
  match GameState.tiles s !! tileKey with
  | None =>
      (false, s,
       GameAction.set_message (Some "Cannot capture impassable tile"%string)
         action)
  | Some tile =>
  if Tile.impassable tile then
    (false, s,
     GameAction.set_message (Some "Cannot capture impassable tile"%string)
       action)
  else if decide (Tile.owner tile = PlayerState.owner player) then
    (false, s,
     GameAction.set_message (Some "Already own this tile"%string) action)
  else
    let cost := calculateCaptureCost s player tile in
    if PlayerState.divinity player <? cost then
      (false, s,
       GameAction.set_message
         (Some ("Insufficient Divinity (need " +:+ pretty cost +:+ ", have "
                +:+ pretty (PlayerState.divinity player) +:+ ")")%string)
         action)
    else
      let previousOwner := Tile.owner tile in
      let s :=
        if isPlayerOwner previousOwner then
          updatePlayer previousOwner
            (fun prevPlayer =>
               let prevPlayer :=
                 PlayerState.set_ownedTiles
                   (PlayerState.ownedTiles prevPlayer ∖ {[tileKey]})
                   prevPlayer in
               PlayerState.set_sanctifiedTiles
                 (PlayerState.sanctifiedTiles prevPlayer ∖ {[tileKey]})
                 prevPlayer) s
        else s in
      let s := updateTile tileKey (transferTile (PlayerState.owner player)) s in
      let s :=
        updatePlayer cur
          (fun p =>
             let p :=
               PlayerState.set_ownedTiles
                 (PlayerState.ownedTiles p ∪ {[tileKey]}) p in
             let p :=
               PlayerState.set_divinity (PlayerState.divinity p - cost) p in
             PlayerState.set_capturedThisTurn
               (PlayerState.capturedThisTurn p + 1) p) s in
      let s := applyDomainCaptureEffects uuid cur player tile tileKey s in
      let s := triggerTileEvents cur player tileKey s in
      (true, s,
       GameAction.set_message
         (Some ("Captured tile at (" +:+ pretty (Position.x (Tile.position tile))
                +:+ ", " +:+ pretty (Position.y (Tile.position tile)) +:+ ")")
            %string)
         (GameAction.set_cost
            (Some (ResourceCost.mk (Some cost) None None)) action))
  end end end.

End WithConfig.

(** ** The cost formula as the specification words it *)

Definition ownedNeighborCount (s : GameState.t) (player : PlayerState.t)
  (tile : Tile.t) : Z :=
  Z.of_nat
    (length
       (List.filter
          (fun k =>
             match GameState.tiles s !! k with
             | Some neighbor =>
                 bool_decide (Tile.owner neighbor = PlayerState.owner player)
             | None => false
             end)
          (getNeighbors (Position.x (Tile.position tile))
             (Position.y (Tile.position tile)) s))).

Definition adjacencyBonus_spec (owned : Z) : Z :=
  if decide (4 <= owned) then 2 else if decide (2 <= owned) then 1 else 0.

Definition manhattan (a b : Position.t) : Z :=
  Z.abs (Position.x a - Position.x b) + Z.abs (Position.y a - Position.y b).

(** The code counts heralds only as support units. *)
Definition isSupportUnit (u : Unit.t) : bool :=
  bool_decide (Unit.type u = UnitType.Herald).

Definition unitSupport_spec (player : PlayerState.t) (tile : Tile.t) : Z :=
  Z.of_nat
    (length
       (List.filter
          (fun u =>
             isSupportUnit u
             && bool_decide
                  (manhattan (Unit.position u) (Tile.position tile) = 1))
          (PlayerState.units player))).

Definition corruptionPenalty_spec (tile : Tile.t) : Z :=
  if decide (Tile.corruption tile > 0) then 1 else 0.

Definition relicCaptureModifiers (player : PlayerState.t) : list Z :=
  GameModifier.value <$>
    List.filter
      (fun m => bool_decide (GameModifier.type m = ModifierType.capture_cost))
      (concat (default [] <$> (Relic.passive <$> PlayerState.relics player))).

Definition sumZ (l : list Z) : Z := foldr Z.add 0 l.

Definition cost_spec (config : GameConfig.t) (s : GameState.t)
  (player : PlayerState.t) (tile : Tile.t) : Z :=
  Z.max 1
    (Qfloor
       (inject_Z (GameConfig.captureBaseCost config)
        + inject_Z (Tile.stability tile)
        - inject_Z (adjacencyBonus_spec (ownedNeighborCount s player tile))
        + getDomainCaptureModifier (PlayerState.domain player) tile
        - inject_Z (unitSupport_spec player tile)
        + inject_Z (corruptionPenalty_spec tile)
        + inject_Z (sumZ (relicCaptureModifiers player)))%Q).


(** ** The two read-only queries *)

Definition canCapture (config : GameConfig.t) (s : GameState.t)
  (player : PlayerState.t) (tile : Tile.t) : bool :=
  if Tile.impassable tile then false
  else if decide (Tile.owner tile = PlayerState.owner player) then false
  else
    let cost := calculateCaptureCost config s player tile in
    cost <=? PlayerState.divinity player.

(** The result of [getCaptureInfo]; a line of the breakdown is the template
    string of the source with the number it interpolates. *)
Module CaptureInfo.
Inductive line :=
  | BaseCost (value : Z)
  | Stability (value : Z)
  | AdjacencyBonus (value : Z)
  | DomainModifier (value : Q)
  | UnitSupport (value : Z)
  | CorruptionPenalty
  | Total (value : Z).
Record t := mk { cost : Z; canAfford : bool; breakdown : list line }.
End CaptureInfo.

Definition getCaptureInfo (config : GameConfig.t) (s : GameState.t)
  (player : PlayerState.t) (tile : Tile.t) : CaptureInfo.t :=
  let cost := inject_Z (GameConfig.captureBaseCost config) in
  let breakdown := [CaptureInfo.BaseCost (GameConfig.captureBaseCost config)] in
  let cost := (cost + inject_Z (Tile.stability tile))%Q in
  let breakdown := breakdown ++ [CaptureInfo.Stability (Tile.stability tile)] in
  let adjacencyBonus := calculateAdjacencyBonus s player tile in
  let '(cost, breakdown) :=
    if 0 <? adjacencyBonus
    then ((cost - inject_Z adjacencyBonus)%Q,
          breakdown ++ [CaptureInfo.AdjacencyBonus adjacencyBonus])
    else (cost, breakdown) in
  let domainModifier :=
    getDomainCaptureModifier (PlayerState.domain player) tile in
  let '(cost, breakdown) :=
    if negb (Qeq_bool domainModifier 0)
    then ((cost + domainModifier)%Q,
          breakdown ++ [CaptureInfo.DomainModifier domainModifier])
    else (cost, breakdown) in
  let unitSupport := calculateUnitSupport s player tile in
  let '(cost, breakdown) :=
    if 0 <? unitSupport
    then ((cost - inject_Z unitSupport)%Q,
          breakdown ++ [CaptureInfo.UnitSupport unitSupport])
    else (cost, breakdown) in
  let '(cost, breakdown) :=
    if 0 <? Tile.corruption tile
    then ((cost + 1)%Q, breakdown ++ [CaptureInfo.CorruptionPenalty])
    else (cost, breakdown) in
  let cost := Z.max 1 (Qfloor cost) in
  let breakdown := breakdown ++ [CaptureInfo.Total cost] in
  CaptureInfo.mk cost (cost <=? PlayerState.divinity player) breakdown.

End CaptureSystem.

(* ================================================================== *)
(** * ShadowSystem (src/lib/game/ShadowSystem.ts, first class)         *)
(* ================================================================== *)

Module ShadowSystem.
Section WithConfig.
Variable config : GameConfig.t.

(** [random source target] is the value of the [Math.random()] drawn when
    the scan, standing on the tile stored under [source], considers the
    neighbour [target].  Each such pair is visited once per pass. *)
Variable random : TileKey -> TileKey -> Q.

Definition initializeShadow (s : GameState.t) : GameState.t :=
  let s :=
    match GameState.shadowAggression s with
    | Aggression.low => GameState.set_shadowInfluence 10 s
    | Aggression.normal => GameState.set_shadowInfluence 20 s
    | Aggression.high => GameState.set_shadowInfluence 35 s
    end in
  GameState.set_neutralFactionAlignment NeutralAlignment.neutral s.

(** The probability computed for one spread candidate [neighbor]. *)
Definition spreadProbability (s : GameState.t) (neighbor : Tile.t) : Q :=
  let shadowSpreadConfig := GameConfig.shadowSpread config in
  let probability := ShadowSpreadConfig.base shadowSpreadConfig in
  let neighborOfNeighbors :=
    getNeighbors (Position.x (Tile.position neighbor))
      (Position.y (Tile.position neighbor)) s in
  let '(corruptedNeighborCount, sanctifiedNeighborCount, hasWardenAdjacent) :=
    fold_left
      (fun '(corrupted, sanctified, warden) nnKey =>
         match GameState.tiles s !! nnKey with
         | None => (corrupted, sanctified, warden)
         | Some nn =>
             let corrupted :=
               if (0 <? Tile.corruption nn)
                  || bool_decide (Tile.owner nn = Owner.Shadow)
               then corrupted + 1 else corrupted in
             let sanctified :=
               if Tile.sanctified nn then sanctified + 1 else sanctified in
             let warden :=
               map_fold
                 (fun _ unit warden =>
                    if bool_decide (Unit.type unit = UnitType.Warden)
                       && (Position.x (Unit.position unit)
                           =? Position.x (Tile.position nn))
                       && (Position.y (Unit.position unit)
                           =? Position.y (Tile.position nn))
                    then true else warden)
                 warden (GameState.units s) in
             (corrupted, sanctified, warden)
         end)
      neighborOfNeighbors (0, 0, false) in
  let probability :=
    (probability
     + ShadowSpreadConfig.perCorruptedNeighbor shadowSpreadConfig
       * inject_Z corruptedNeighborCount)%Q in
  let probability :=
    (probability
     + ShadowSpreadConfig.perSanctifiedNeighbor shadowSpreadConfig
       * inject_Z sanctifiedNeighborCount)%Q in
  let probability :=
    if hasWardenAdjacent
    then (probability + ShadowSpreadConfig.wardenAdjacent shadowSpreadConfig)%Q
    else probability in
  let probability :=
    match getPlayer s (Tile.owner neighbor) with
    | Some owner =>
        if decide (PlayerState.domain owner = DomainType.Order)
        then (probability + ShadowSpreadConfig.orderOwner shadowSpreadConfig)%Q
        else probability
    | None => probability
    end in
  let probability :=
    match GameState.shadowAggression s with
    | Aggression.low => (probability * (1 # 2))%Q
    | Aggression.high => (probability * (3 # 2))%Q
    | Aggression.normal => probability
    end in
  Qmax (ShadowSpreadConfig.min shadowSpreadConfig)
    (Qmin (ShadowSpreadConfig.max shadowSpreadConfig) probability).

(** [tilesToCorrupt.set(neighborKey,
      (tilesToCorrupt.get(neighborKey) || neighbor.corruption) + 1)]. *)
Definition bump (tilesToCorrupt : gmap TileKey Z) (neighborKey : TileKey)
  (neighbor : Tile.t) : gmap TileKey Z :=
  let currentCorruption :=
    match tilesToCorrupt !! neighborKey with
    | Some v => if v =? 0 then Tile.corruption neighbor else v
    | None => Tile.corruption neighbor
    end in
  <[neighborKey := currentCorruption + 1]> tilesToCorrupt.

(** Whether the scan, standing on [key], rolls a success against
    [neighborKey]: the neighbour exists, is passable, is not already a
    fully corrupted Shadow tile, and the draw is below the probability. *)
Definition rollSucceeds (s : GameState.t) (key neighborKey : TileKey) : bool :=
  match GameState.tiles s !! neighborKey with
  | None => false
  | Some neighbor =>
      if Tile.impassable neighbor then false
      else if (2 <=? Tile.corruption neighbor)
              && bool_decide (Tile.owner neighbor = Owner.Shadow) then false
      else Qltb (random key neighborKey) (spreadProbability s neighbor)
  end.

(** The body of the inner [neighbors.forEach]. *)
Definition spreadTo (s : GameState.t) (key : TileKey)
  (tilesToCorrupt : gmap TileKey Z) (neighborKey : TileKey)
  : gmap TileKey Z :=
  match GameState.tiles s !! neighborKey with
  | None => tilesToCorrupt
  | Some neighbor =>
      if Tile.impassable neighbor then tilesToCorrupt
      else if (2 <=? Tile.corruption neighbor)
              && bool_decide (Tile.owner neighbor = Owner.Shadow)
      then tilesToCorrupt
      else if Qltb (random key neighborKey) (spreadProbability s neighbor)
      then bump tilesToCorrupt neighborKey neighbor
      else tilesToCorrupt
  end.

(** "Only spread from corrupted tiles". *)
Definition spreads (tile : Tile.t) : bool :=
  negb ((Tile.corruption tile <? 1)
        && negb (bool_decide (Tile.owner tile = Owner.Shadow))).

(** The body of the outer [state.tiles.forEach]. *)
Definition spreadFrom (s : GameState.t) (tilesToCorrupt : gmap TileKey Z)
  (entry : TileKey * Tile.t) : gmap TileKey Z :=
  let '(key, tile) := entry in
  if spreads tile then
    fold_left (spreadTo s key)
      (getNeighbors (Position.x (Tile.position tile))
         (Position.y (Tile.position tile)) s)
      tilesToCorrupt
  else tilesToCorrupt.

(** The first loop of [spreadShadow]: the map [tilesToCorrupt]. *)
Definition collectSpread (s : GameState.t) : gmap TileKey Z :=
  fold_left (spreadFrom s) (map_to_list (GameState.tiles s)) ∅.

Definition shadowConversion (tile : Tile.t) : Tile.t :=
  let tile := Tile.set_owner Owner.Shadow tile in
  let tile := Tile.set_stability 3 tile in
  let tile := Tile.set_sanctified false tile in
  Tile.set_domainAttunement None tile.

Definition forgetTile (key : TileKey) (player : PlayerState.t)
  : PlayerState.t :=
  let player :=
    PlayerState.set_ownedTiles (PlayerState.ownedTiles player ∖ {[key]})
      player in
  PlayerState.set_sanctifiedTiles
    (PlayerState.sanctifiedTiles player ∖ {[key]}) player.

(** The body of [tilesToCorrupt.forEach]. *)
Definition applyCorruption (s : GameState.t) (entry : TileKey * Z)
  : GameState.t :=
  let '(key, corruptionLevel) := entry in
  match GameState.tiles s !! key with
  | None => s
  | Some tile =>
      let newCorruption := Z.min 2 corruptionLevel in
      let s := updateTile key (Tile.set_corruption newCorruption) s in
      if 2 <=? newCorruption then
        let previousOwner := Tile.owner tile in
        let s := updateTile key shadowConversion s in
        let s :=
          if isPlayerOwner previousOwner
          then updatePlayer previousOwner (forgetTile key) s
          else s in
        GameState.set_shadowInfluence
          (Z.min 100 (GameState.shadowInfluence s + 1)) s
      else s
  end.

Definition updateNeutralAlignment (s : GameState.t) : GameState.t :=
  if 60 <? GameState.shadowInfluence s then
    GameState.set_neutralFactionAlignment NeutralAlignment.hostile s
  else if 30 <? GameState.shadowInfluence s then
    GameState.set_neutralFactionAlignment NeutralAlignment.neutral s
  else GameState.set_neutralFactionAlignment NeutralAlignment.friendly s.

Definition spreadShadow (s : GameState.t) : GameState.t :=
  let tilesToCorrupt := collectSpread s in
  let s := fold_left applyCorruption (map_to_list tilesToCorrupt) s in
  updateNeutralAlignment s.

End WithConfig.

Definition cleanseCorruption (tile : Tile.t) (amount : Z) : Tile.t :=
  let tile :=
    Tile.set_corruption (Z.max 0 (Tile.corruption tile - amount)) tile in
  if (Tile.corruption tile =? 0) && bool_decide (Tile.owner tile = Owner.Shadow)
  then Tile.set_stability 1 (Tile.set_owner Owner.Neutral tile)
  else tile.

Definition convertToShadow (tile : Tile.t) : Tile.t :=
  let tile := Tile.set_owner Owner.Shadow tile in
  let tile := Tile.set_corruption 2 tile in
  let tile := Tile.set_stability 3 tile in
  let tile := Tile.set_sanctified false tile in
  Tile.set_domainAttunement None tile.

(** [aidShadow]; the victory test reads the threshold of the configuration,
    not the one stored in the state. *)
Definition aidShadow (config : GameConfig.t) (s : GameState.t)
  (playerId : Owner.t) (amount : Z) : GameState.t :=
  let current := orZero (GameState.shadowAlignmentMeter s !! playerId) in
  let s :=
    GameState.set_shadowAlignmentMeter
      (<[playerId := current + amount]> (GameState.shadowAlignmentMeter s)) s in
  if GameConfig.shadowAccord config <=? current + amount then
    updatePlayer playerId
      (fun player =>
         PlayerState.set_victoryProgress
           (<[VictoryCondition.ShadowAccord := Pct 100]>
              (PlayerState.victoryProgress player)) player) s
  else s.

Definition fightShadow (s : GameState.t) (playerId : Owner.t) (amount : Z)
  : GameState.t :=
  let s :=
    GameState.set_shadowInfluence
      (Z.max 0 (GameState.shadowInfluence s - amount)) s in
  let current := orZero (GameState.shadowAlignmentMeter s !! playerId) in
  GameState.set_shadowAlignmentMeter
    (<[playerId := Z.max 0 (current - amount)]>
       (GameState.shadowAlignmentMeter s)) s.

(** ** Vocabulary of the claims about one spread pass *)

(** Every (standing tile, neighbour) pair the scan considers, in order. *)
Definition visits (s : GameState.t) : list (TileKey * TileKey) :=
  flat_map
    (fun '(key, tile) =>
       if spreads tile then
         pair key <$>
           getNeighbors (Position.x (Tile.position tile))
             (Position.y (Tile.position tile)) s
       else [])
    (map_to_list (GameState.tiles s)).

(** The successful spread rolls made against the tile [k] in one pass. *)
Definition successfulRolls (config : GameConfig.t)
  (random : TileKey -> TileKey -> Q) (s : GameState.t) (k : TileKey)
  : list (TileKey * TileKey) :=
  List.filter
    (fun v => rollSucceeds config random s v.1 v.2 && bool_decide (v.2 = k))
    (visits s).

(** Whether applying the entry converts a tile of [s] to the Shadow. *)
Definition converts (s : GameState.t) (entry : TileKey * Z) : bool :=
  match GameState.tiles s !! entry.1 with
  | Some _ => 2 <=? entry.2
  | None => false
  end.

(** The number of tiles converted to the Shadow in one pass. *)
Definition conversions (config : GameConfig.t)
  (random : TileKey -> TileKey -> Q) (s : GameState.t) : Z :=
  Z.of_nat
    (length
       (List.filter (converts s)
          (map_to_list (collectSpread config random s)))).

(** The invariant of the data model on corrupted tiles. *)
Definition corruptionInvariant (s : GameState.t) : Prop :=
  forall k tile,
    GameState.tiles s !! k = Some tile ->
    Tile.corruption tile = 2 -> Tile.owner tile = Owner.Shadow.

End ShadowSystem.

(* ================================================================== *)
(** * FogOfWarSystem (src/unnamed/part_001, second class)              *)
(* ================================================================== *)

Module FogOfWarSystem.

Definition addRevealed (k : TileKey) (s : GameState.t) : GameState.t :=
  GameState.set_revealedTiles (GameState.revealedTiles s ∪ {[k]}) s.

Definition calculateUnitPerception (unit : Unit.t) (s : GameState.t) : Z :=
  let perception := Unit.perception unit in
  let perception :=
    match GameState.tiles s !! posKey (Unit.position unit) with
    | Some unitTile =>
        if decide (Tile.type unitTile = TileType.Hills) then
          match getPlayer s (Unit.owner unit) with
          | Some player =>
              if decide (PlayerState.domain player = DomainType.Air)
              then perception + 1 else perception
          | None => perception
          end
        else perception
    | None => perception
    end in
  match getPlayer s (Unit.owner unit) with
  | Some player =>
      fold_left
        (fun perception relic =>
           match Relic.passive relic with
           | Some passive =>
               fold_left
                 (fun perception modifier =>
                    match GameModifier.type modifier with
                    | ModifierType.perception =>
                        perception + GameModifier.value modifier
                    | _ => perception
                    end)
                 passive perception
           | None => perception
           end)
        (PlayerState.relics player) perception
  | None => perception
  end.

(** The two nested [for] loops over the square around the centre. *)
Definition getTilesInRadius (centerX centerY radius : Z) (s : GameState.t)
  : list TileKey :=
  flat_map
    (fun x =>
       flat_map
         (fun y =>
            let distance := Z.abs (x - centerX) + Z.abs (y - centerY) in
            if (distance <=? radius) && inBounds s x y
            then [tileKey x y] else [])
         (seqZ (centerY - radius) (2 * radius + 1)))
    (seqZ (centerX - radius) (2 * radius + 1)).

Definition revealTile (s : GameState.t) (tileKey : TileKey) : GameState.t :=
  match GameState.tiles s !! tileKey with
  | Some _ =>
      addRevealed tileKey
        (updateTile tileKey (Tile.set_visibility TileVisibility.Visible) s)
  | None => s
  end.

Definition revealTilesAroundUnit (s : GameState.t) (unit : Unit.t)
  : GameState.t :=
  let perception := calculateUnitPerception unit s in
  let tilesToReveal :=
    getTilesInRadius (Position.x (Unit.position unit))
      (Position.y (Unit.position unit)) perception s in
  fold_left revealTile tilesToReveal s.

(** "If tile was previously visible, mark as seen". *)
Definition downgrade (tile : Tile.t) : Tile.t :=
  if decide (Tile.visibility tile = TileVisibility.Visible)
  then Tile.set_visibility TileVisibility.Seen tile
  else tile.

Definition glimpse (s : GameState.t) (neighborKey : TileKey) : GameState.t :=
  match GameState.tiles s !! neighborKey with
  | Some neighbor =>
      if decide (Tile.visibility neighbor = TileVisibility.Hidden) then
        addRevealed neighborKey
          (updateTile neighborKey (Tile.set_visibility TileVisibility.Seen) s)
      else s
  | None => s
  end.

(** The body of [currentPlayer.sanctifiedTiles.forEach]. *)
Definition revealSanctified (s : GameState.t) (tileKey : TileKey)
  : GameState.t :=
  match GameState.tiles s !! tileKey with
  | None => s
  | Some tile =>
      let s :=
        updateTile tileKey (Tile.set_visibility TileVisibility.Visible) s in
      let s := addRevealed tileKey s in
      let neighbors :=
        getNeighbors (Position.x (Tile.position tile))
          (Position.y (Tile.position tile)) s in
      fold_left glimpse neighbors s
  end.

Definition updateVisibility (s : GameState.t) : GameState.t :=
  match getPlayer s (GameState.currentPlayer s) with
  | None => s
  | Some currentPlayer =>
      let s := GameState.set_tiles (downgrade <$> GameState.tiles s) s in
      let s :=
        fold_left revealTilesAroundUnit (PlayerState.units currentPlayer) s in
      fold_left revealSanctified
        (elements (PlayerState.sanctifiedTiles currentPlayer)) s
  end.

(** The visible-tile set of a state. *)
Definition isVisible (s : GameState.t) (k : TileKey) : Prop :=
  exists tile, GameState.tiles s !! k = Some tile
               /\ Tile.visibility tile = TileVisibility.Visible.

Definition visibleTiles (s : GameState.t) : gset TileKey :=
  dom (filter (fun kt => Tile.visibility kt.2 = TileVisibility.Visible)
         (GameState.tiles s)).

Definition isVisibleToPlayer (s : GameState.t) (tileKey : TileKey)
  (player : PlayerState.t) : bool :=
  match GameState.tiles s !! tileKey with
  | None => false
  | Some tile =>
      if decide (PlayerState.owner player = GameState.currentPlayer s) then
        bool_decide (Tile.visibility tile = TileVisibility.Visible)
        || bool_decide (Tile.visibility tile = TileVisibility.Seen)
      else false
  end.

(** The body of its [forEach] is that of the neighbour loop of
    [updateVisibility]: a Hidden tile becomes Seen and is recorded. *)
Definition revealArea (s : GameState.t) (centerX centerY radius : Z)
  : GameState.t :=
  fold_left glimpse (getTilesInRadius centerX centerY radius s) s.

(** The two [for] loops with their early [return true]. *)
Definition isTileVisibleToPlayer (s : GameState.t) (tile : Tile.t)
  (player : PlayerState.t) : bool :=
  if existsb
       (fun unit =>
          let perception := calculateUnitPerception unit s in
          let distance :=
            Z.abs (Position.x (Unit.position unit)
                   - Position.x (Tile.position tile))
            + Z.abs (Position.y (Unit.position unit)
                     - Position.y (Tile.position tile)) in
          distance <=? perception)
       (PlayerState.units player)
  then true
  else
    existsb
      (fun sanctifiedKey =>
         match GameState.tiles s !! sanctifiedKey with
         | None => false
         | Some sanctified =>
             let distance :=
               Z.abs (Position.x (Tile.position sanctified)
                      - Position.x (Tile.position tile))
               + Z.abs (Position.y (Tile.position sanctified)
                        - Position.y (Tile.position tile)) in
             distance <=? 1
         end)
      (elements (PlayerState.sanctifiedTiles player)).

Definition getVisibleTiles (s : GameState.t) (player : PlayerState.t)
  : list TileKey :=
  fold_left
    (fun visible '(key, tile) =>
       if decide (Tile.owner tile = PlayerState.owner player)
       then visible ++ [key]
       else if isTileVisibleToPlayer s tile player then visible ++ [key]
       else visible)
    (map_to_list (GameState.tiles s)) [].

End FogOfWarSystem.

(* ================================================================== *)
(** * EventSystem (src/unnamed/part_001, third class)                  *)
(* ================================================================== *)

Module EventSystem.

(** The random numbers one call of [processEvents] may draw. *)
Record Oracle := mkOracle {
  eventRoll : Q;
  eventPick : Q;
  indexPick : nat -> Q
}.

(** [Math.floor(Math.random() * n)] as an array index. *)
Definition randomIndex (r : Q) (n : nat) : nat :=
  Z.to_nat (Qfloor (r * inject_Z (Z.of_nat n))).

(** The keys of the tiles satisfying [P], in the map's iteration order. *)
Definition tileKeysWhere (P : Tile.t -> bool) (s : GameState.t)
  : list TileKey :=
  (List.filter (fun kt => P kt.2) (map_to_list (GameState.tiles s))).*1.

(** The [for] loop of [revealRandomTiles]: its bound is re-evaluated on the
    list that [splice] shortens. *)
Fixpoint revealLoop (fuel : nat) (pick : nat -> Q) (i : nat) (count : Z)
  (hiddenTiles : list TileKey) (s : GameState.t) : GameState.t :=
  match fuel with
  | O => s
  | S fuel =>
      if Z.of_nat i <? Z.min count (Z.of_nat (length hiddenTiles)) then
        let idx := randomIndex (pick i) (length hiddenTiles) in
        let tileKey := hiddenTiles !! idx in
        let hiddenTiles := delete idx hiddenTiles in
        let s :=
          match tileKey with
          | Some k =>
              match GameState.tiles s !! k with
              | Some _ =>
                  FogOfWarSystem.addRevealed k
                    (updateTile k (Tile.set_visibility TileVisibility.Seen) s)
              | None => s
              end
          | None => s
          end in
        revealLoop fuel pick (S i) count hiddenTiles s
      else s
  end.

Definition revealRandomTiles (pick : nat -> Q) (s : GameState.t) (count : Z)
  : GameState.t :=
  let hiddenTiles :=
    tileKeysWhere
      (fun tile => bool_decide (Tile.visibility tile = TileVisibility.Hidden))
      s in
  revealLoop (S (length hiddenTiles)) pick 0 count hiddenTiles s.

Definition addCorruptionToRandomTiles (pick : nat -> Q) (s : GameState.t)
  (player : PlayerState.t) (amount : Z) : GameState.t :=
  let enemyTiles :=
    tileKeysWhere
      (fun tile =>
         negb (bool_decide (Tile.owner tile = PlayerState.owner player))
         && negb (bool_decide (Tile.owner tile = Owner.Neutral))
         && negb (bool_decide (Tile.owner tile = Owner.Shadow)))
      s in
  fold_left
    (fun s i =>
       let idx := randomIndex (pick i) (length enemyTiles) in
       match enemyTiles !! idx with
       | Some tileKey =>
           updateTile tileKey
             (fun tile =>
                Tile.set_corruption (Z.min 2 (Tile.corruption tile + 1)) tile)
             s
       | None => s
       end)
    (seq 0 (Z.to_nat (Z.min amount (Z.of_nat (length enemyTiles))))) s.

Definition removeCorruptionFromTiles (s : GameState.t)
  (player : PlayerState.t) (amount : Z) : GameState.t :=
  let corruptedTiles :=
    List.filter
      (fun key =>
         match GameState.tiles s !! key with
         | Some tile => 0 <? Tile.corruption tile
         | None => false
         end)
      (elements (PlayerState.ownedTiles player)) in
  fold_left
    (fun s key =>
       updateTile key
         (fun tile =>
            Tile.set_corruption (Z.max 0 (Tile.corruption tile - 1)) tile) s)
    corruptedTiles s.

(** [effect.value || 1]. *)
Definition orOne (o : option Z) : Z :=
  match o with Some v => if v =? 0 then 1 else v | None => 1 end.

Definition hasTag (tag : string) (effect : GameEffect.t) : bool :=
  bool_decide (tag ∈ default [] (GameEffect.targetTags effect)).

Definition damageStability (s : GameState.t) (player : PlayerState.t)
  (effect : GameEffect.t) : GameState.t :=
  let value := orOne (GameEffect.value effect) in
  if hasTag "owned" effect then
    fold_left
      (fun s key =>
         updateTile key
           (fun tile =>
              Tile.set_stability (Z.max 0 (Tile.stability tile - value)) tile)
           s)
      (elements (PlayerState.ownedTiles player)) s
  else s.

Definition addStability (s : GameState.t) (player : PlayerState.t)
  (effect : GameEffect.t) : GameState.t :=
  let value := orOne (GameEffect.value effect) in
  let raise s key :=
    updateTile key
      (fun tile =>
         Tile.set_stability (Z.min 10 (Tile.stability tile + value)) tile) s in
  let s :=
    if hasTag "owned" effect
    then fold_left raise (elements (PlayerState.ownedTiles player)) s
    else s in
  if hasTag "sanctified" effect
  then fold_left raise (elements (PlayerState.sanctifiedTiles player)) s
  else s.

(** [applyEventEffects]; [cur] is the key of the player object.  The sets
    of the player that the tile effects iterate over are not changed by any
    effect, so they are read from [player]. *)
Definition applyEventEffect (pick : nat -> Q) (cur : Owner.t)
  (player : PlayerState.t) (s : GameState.t) (effect : GameEffect.t)
  : GameState.t :=
  let value := orZero (GameEffect.value effect) in
  match GameEffect.type effect with
  | GameEffect.grant_divinity =>
      updatePlayer cur
        (fun p =>
           PlayerState.set_divinity
             (Z.min 20 (PlayerState.divinity p + value)) p) s
  | GameEffect.grant_faith =>
      updatePlayer cur
        (fun p => PlayerState.set_faith (PlayerState.faith p + value) p) s
  | GameEffect.grant_shadow_energy =>
      updatePlayer cur
        (fun p =>
           PlayerState.set_shadowEnergy
             (Z.min 10 (PlayerState.shadowEnergy p + value)) p) s
  | GameEffect.reveal_tiles => revealRandomTiles pick s value
  | GameEffect.add_corruption => addCorruptionToRandomTiles pick s player value
  | GameEffect.remove_corruption => removeCorruptionFromTiles s player value
  | GameEffect.damage_stability => damageStability s player effect
  | GameEffect.add_stability => addStability s player effect
  end.

Definition applyEventEffects (pick : nat -> Q) (cur : Owner.t)
  (player : PlayerState.t) (s : GameState.t) (effects : list GameEffect.t)
  : GameState.t :=
  fold_left (applyEventEffect pick cur player) effects s.

(** The two sample events of [triggerRandomEvent]. *)
Definition eventPool : list (list GameEffect.t) :=
  [ [GameEffect.mk GameEffect.grant_divinity (Some 3) None;
     GameEffect.mk GameEffect.reveal_tiles (Some 5) None];
    [GameEffect.mk GameEffect.grant_faith (Some 3) None] ].

Definition triggerRandomEvent (rnd : Oracle) (cur : Owner.t)
  (player : PlayerState.t) (s : GameState.t) : GameState.t :=
  match eventPool !! randomIndex (eventPick rnd) (length eventPool) with
  | Some effects => applyEventEffects (indexPick rnd) cur player s effects
  | None => s
  end.

Definition checkForRandomEvents (rnd : Oracle) (s : GameState.t)
  : GameState.t :=
  let cur := GameState.currentPlayer s in
  match getPlayer s cur with
  | None => s
  | Some player =>
      let eventChance := (15 # 100)%Q in
      let eventChance :=
        if decide (PlayerState.domain player = DomainType.Chaos)
        then (eventChance + (10 # 100))%Q else eventChance in
      if Qltb (eventRoll rnd) eventChance
      then triggerRandomEvent rnd cur player s
      else s
  end.

Definition processEvents (rnd : Oracle) (s : GameState.t) : GameState.t :=
  let s :=
    GameState.set_activeGlobalEvents
      (omap
         (fun event =>
            if GlobalEvent.duration event <=? 0 then None
            else Some (GlobalEvent.set_duration
                         (GlobalEvent.duration event - 1) event))
         (GameState.activeGlobalEvents s)) s in
  checkForRandomEvents rnd s.

Module RuinOutcome.
Inductive t := relic | guardian | curse.
End RuinOutcome.

Definition outcomes : list RuinOutcome.t :=
  [RuinOutcome.relic; RuinOutcome.guardian; RuinOutcome.curse].

(** [triggerTileEvent(state, player, tile)] on the two objects it edits;
    [r] is its [Math.random()]. *)
Definition triggerTileEvent (r : Q) (player : PlayerState.t) (tile : Tile.t)
  : PlayerState.t * Tile.t :=
  if bool_decide (Tile.type tile = TileType.AncientRuins)
     && negb (Tile.eventTriggered tile) then
    let '(player, tile) :=
      match outcomes !! randomIndex r (length outcomes) with
      | Some RuinOutcome.relic => (player, tile)
      | Some RuinOutcome.guardian =>
          (PlayerState.set_divinity
             (Z.min 20 (PlayerState.divinity player + 5)) player,
           Tile.set_stability (Z.min 10 (Tile.stability tile + 2)) tile)
      | Some RuinOutcome.curse =>
          let tile :=
            Tile.set_corruption (Z.min 2 (Tile.corruption tile + 1)) tile in
          let player :=
            PlayerState.set_shadowEnergy
              (Z.min 10 (PlayerState.shadowEnergy player + 2)) player in
          (PlayerState.set_divinity
             (Z.min 20 (PlayerState.divinity player + 3)) player, tile)
      | None => (player, tile)
      end in
    (player, Tile.set_eventTriggered true tile)
  else (player, tile).

Definition addGlobalEvent (s : GameState.t) (event : GlobalEvent.t)
  : GameState.t :=
  GameState.set_activeGlobalEvents (GameState.activeGlobalEvents s ++ [event])
    s.

Definition removeGlobalEvent (s : GameState.t) (eventId : string)
  : GameState.t :=
  GameState.set_activeGlobalEvents
    (List.filter (fun e => negb (bool_decide (GlobalEvent.id e = eventId)))
       (GameState.activeGlobalEvents s)) s.

Definition getActiveEvents (s : GameState.t) : list GlobalEvent.t :=
  GameState.activeGlobalEvents s.

End EventSystem.

(* ================================================================== *)
(** * TurnSystem (src/unnamed/part_004)                                *)
(* ================================================================== *)

(** A unit object is reachable both from its owner's [units] array and from
    [state.units]; the engine itself identifies units by [id].  An in-place
    edit of a unit is therefore applied to every copy carrying that id.
    (This is how the engine builds its states; a state restored by
    [importState] holds separate copies, of which an edit reaches only the
    one it is made through.) *)
Definition editUnit (id : string) (f : Unit.t -> Unit.t) (s : GameState.t)
  : GameState.t :=
  let s := GameState.set_units (alter f id (GameState.units s)) s in
  GameState.set_players
    (prod_map Datatypes.id
       (fun p =>
          PlayerState.set_units
            ((fun u => if decide (Unit.id u = id) then f u else u)
               <$> PlayerState.units p) p)
       <$> GameState.players s) s.

Module TurnSystem.
Section WithConfig.
Variable config : GameConfig.t.

(** The sum of the values of the relic modifiers of one type. *)
Definition relicSum (type : ModifierType.t) (player : PlayerState.t) : Z :=
  fold_left
    (fun income relic =>
       match Relic.passive relic with
       | Some passive =>
           fold_left
             (fun income modifier =>
                if decide (GameModifier.type modifier = type)
                then income + GameModifier.value modifier else income)
             passive income
       | None => income
       end)
    (PlayerState.relics player) 0.

Definition getDomainDivinityBonus (domain : DomainType.t) : Z := 0.

Definition calculateDivinityIncome (s : GameState.t) (player : PlayerState.t)
  : Z :=
  let income := GameConfig.baseDivinity config in
  let income :=
    fold_left
      (fun income tileKey =>
         match GameState.tiles s !! tileKey with
         | Some tile => income + Tile.divinityYield tile
         | None => income
         end)
      (elements (PlayerState.ownedTiles player)) income in
  let income := income + getDomainDivinityBonus (PlayerState.domain player) in
  let income := income + relicSum ModifierType.divinity_income player in
  Z.min 20 income.

Definition calculateFaithIncome (s : GameState.t) (player : PlayerState.t)
  : Z :=
  let income :=
    fold_left
      (fun income tileKey =>
         match GameState.tiles s !! tileKey with
         | Some tile => income + Tile.faithYield tile
         | None => income
         end)
      (elements (PlayerState.ownedTiles player)) 0 in
  let income :=
    if decide (PlayerState.domain player = DomainType.Life) then
      fold_left
        (fun income tileKey =>
           match GameState.tiles s !! tileKey with
           | Some tile =>
               if decide (Tile.type tile = TileType.Village)
               then income + 1 else income
           | None => income
           end)
        (elements (PlayerState.ownedTiles player)) income
    else income in
  let income := income + relicSum ModifierType.faith_income player in
  Z.min 10 income.

Definition calculateShadowEnergyIncome (s : GameState.t)
  (player : PlayerState.t) : Z :=
  let income := inject_Z (relicSum ModifierType.shadow_energy_income player) in
  let income :=
    if bool_decide (PlayerState.domain player = DomainType.Death)
       || bool_decide (PlayerState.domain player = DomainType.Chaos) then
      fold_left
        (fun income tileKey =>
           match GameState.tiles s !! tileKey with
           | Some tile =>
               if 0 <? Tile.corruption tile
               then (income + (1 # 2))%Q else income
           | None => income
           end)
        (elements (PlayerState.ownedTiles player)) income
    else income in
  Qfloor income.

Definition refreshUnit (unit : Unit.t) : Unit.t :=
  let unit := Unit.set_movePoints (Unit.maxMovePoints unit) unit in
  Unit.set_cooldowns
    ((fun value => if 0 <? value then value - 1 else value)
       <$> Unit.cooldowns unit) unit.

Definition isExpiredWight (unit : Unit.t) : bool :=
  bool_decide (Unit.type unit = UnitType.Wight) && (1 <=? Unit.turnsAlive unit).

(** [startTurn(state, player)]; [cur] is the key of the player object. *)
Definition startTurn (cur : Owner.t) (s : GameState.t) : GameState.t :=
  match getPlayer s cur with
  | None => s
  | Some player =>
      let divinityIncome := calculateDivinityIncome s player in
      let faithIncome := calculateFaithIncome s player in
      let shadowEnergyIncome := calculateShadowEnergyIncome s player in
      let s :=
        updatePlayer cur
          (fun p =>
             let p := PlayerState.set_divinity divinityIncome p in
             let p :=
               PlayerState.set_faith (PlayerState.faith p + faithIncome) p in
             PlayerState.set_shadowEnergy
               (Z.min 10 (PlayerState.shadowEnergy p + shadowEnergyIncome)) p)
          s in
      let s :=
        fold_left (fun s unit => editUnit (Unit.id unit) refreshUnit s)
          (PlayerState.units player) s in
      let s :=
        match getPlayer s cur with
        | None => s
        | Some p =>
            let expired := List.filter isExpiredWight (PlayerState.units p) in
            let s :=
              fold_left
                (fun s unit =>
                   GameState.set_units
                     (delete (Unit.id unit) (GameState.units s)) s)
                expired s in
            updatePlayer cur
              (fun p =>
                 PlayerState.set_units
                   (List.filter (fun unit => negb (isExpiredWight unit))
                      (PlayerState.units p)) p) s
        end in
      updatePlayer cur
        (fun p =>
           PlayerState.set_sanctifiedThisTurn 0
             (PlayerState.set_capturedThisTurn 0 p)) s
  end.

(** [Math.floor(player.divinity * this.config.shadowSpread.base)]. *)
Definition aegisConversion (divinity : Z) : Z :=
  Qfloor (inject_Z divinity
          * ShadowSpreadConfig.base (GameConfig.shadowSpread config))%Q.

(** [endTurn(state, player)]; the two relic/effect helpers it calls at the
    end have empty bodies. *)
Definition endTurn (cur : Owner.t) (s : GameState.t) : GameState.t :=
  match getPlayer s cur with
  | None => s
  | Some player =>
      let s :=
        updatePlayer cur
          (fun p =>
             let p :=
               PlayerState.set_aegis
                 (aegisConversion (PlayerState.divinity p)) p in
             PlayerState.set_divinity 0 p) s in
      fold_left
        (fun s unit =>
           editUnit (Unit.id unit)
             (fun u => Unit.set_turnsAlive (Unit.turnsAlive u + 1) u) s)
        (PlayerState.units player) s
  end.

End WithConfig.

Definition checkTurnEnd (s : GameState.t) (player : PlayerState.t) : bool :=
  PlayerState.divinity player =? 0.

(** [players.indexOf(owner)], -1 when absent. *)
Fixpoint indexOf (o : Owner.t) (l : list Owner.t) : Z :=
  match l with
  | [] => -1
  | o' :: rest =>
      if decide (o' = o) then 0
      else let i := indexOf o rest in if i <? 0 then -1 else i + 1
  end.

(** [advanceToNextPlayer].  With an empty player table the index is
    [0 % 0], that is NaN, and [currentPlayer] would become [undefined]:
    [None]. *)
Definition advanceToNextPlayer (s : GameState.t) : option GameState.t :=
  let players := (GameState.players s).*1 in
  let currentIndex := indexOf (GameState.currentPlayer s) players in
  match players with
  | [] => None
  | _ =>
      let nextIndex := (currentIndex + 1) `mod` Z.of_nat (length players) in
      (fun next => GameState.set_currentPlayer next s)
        <$> players !! Z.to_nat nextIndex
  end.

End TurnSystem.

(* ================================================================== *)
(** * VictorySystem (src/lib/game/ShadowSystem.ts, second class)       *)
(* ================================================================== *)

Module VictoryResult.
Record t := mk {
  winner : option Owner.t;
  condition : option VictoryCondition.t
}.
End VictoryResult.

Module VictorySystem.

(** [state.victoryThresholds.get(c) || d]. *)
Definition threshold (s : GameState.t) (c : VictoryCondition.t) (d : Q) : Q :=
  match GameState.victoryThresholds s !! c with
  | Some q => if Qeq_bool q 0 then d else q
  | None => d
  end.

Definition setProgress (cur : Owner.t) (c : VictoryCondition.t)
  (v : Progress) (s : GameState.t) : GameState.t :=
  updatePlayer cur
    (fun p =>
       PlayerState.set_victoryProgress
         (<[c := v]> (PlayerState.victoryProgress p)) p) s.

(** [ownedCount / revealedCount] and the tests on it, with the two
    non-finite results of a division by zero. *)
Definition checkConquestVictory (cur : Owner.t) (player : PlayerState.t)
  (s : GameState.t) : bool * GameState.t :=
  let revealedCount := Z.of_nat (size (GameState.revealedTiles s)) in
  let ownedCount := Z.of_nat (size (PlayerState.ownedTiles player)) in
  let threshold := threshold s VictoryCondition.Conquest (75 # 100) in
  if revealedCount =? 0 then
    if ownedCount =? 0
    then (false, setProgress cur VictoryCondition.Conquest PctNaN s)
    else (true, setProgress cur VictoryCondition.Conquest PctInfinity s)
  else
    let percentage := (inject_Z ownedCount / inject_Z revealedCount)%Q in
    (Qle_bool threshold percentage,
     setProgress cur VictoryCondition.Conquest (Pct (percentage * 100)) s).

Definition isHolySite (tileType : TileType.t) : bool :=
  bool_decide (tileType = TileType.SacredWell)
  || bool_decide (tileType = TileType.AncientRuins).

Definition checkSanctifierVictory (cur : Owner.t) (player : PlayerState.t)
  (s : GameState.t) : bool * GameState.t :=
  let holySitesCount :=
    fold_left
      (fun count tileKey =>
         match GameState.tiles s !! tileKey with
         | Some tile => if isHolySite (Tile.type tile) then count + 1 else count
         | None => count
         end)
      (elements (PlayerState.sanctifiedTiles player)) 0 in
  let threshold := threshold s VictoryCondition.Sanctifier 6 in
  (Qle_bool threshold (inject_Z holySitesCount),
   setProgress cur VictoryCondition.Sanctifier
     (Pct (inject_Z holySitesCount / threshold * 100)) s).

Definition checkShadowAccordVictory (cur : Owner.t) (player : PlayerState.t)
  (s : GameState.t) : bool * GameState.t :=
  let alignment :=
    orZero (GameState.shadowAlignmentMeter s !! PlayerState.owner player) in
  let threshold := threshold s VictoryCondition.ShadowAccord 100 in
  (Qle_bool threshold (inject_Z alignment),
   setProgress cur VictoryCondition.ShadowAccord
     (Pct (inject_Z alignment / threshold * 100)) s).

Definition checkRelicAscensionVictory (cur : Owner.t) (player : PlayerState.t)
  (s : GameState.t) : bool * GameState.t :=
  let mythicRelics :=
    List.filter
      (fun r =>
         bool_decide (Relic.rarity r = Rarity.mythic)
         && match Relic.victoryPoints r with
            | Some v => negb (v =? 0) && (0 <? v)
            | None => false
            end)
      (PlayerState.relics player) in
  let relicCount := Z.of_nat (length mythicRelics) in
  let threshold := threshold s VictoryCondition.RelicAscension 3 in
  (Qle_bool threshold (inject_Z relicCount),
   setProgress cur VictoryCondition.RelicAscension
     (Pct (inject_Z relicCount / threshold * 100)) s).

Definition checkPlayerVictoryCondition (cur : Owner.t)
  (player : PlayerState.t) (condition : VictoryCondition.t) (s : GameState.t)
  : bool * GameState.t :=
  match condition with
  | VictoryCondition.Conquest => checkConquestVictory cur player s
  | VictoryCondition.Sanctifier => checkSanctifierVictory cur player s
  | VictoryCondition.ShadowAccord => checkShadowAccordVictory cur player s
  | VictoryCondition.RelicAscension => checkRelicAscensionVictory cur player s
  end.

(** [shadowTileCount / totalTiles >= 0.60]; 0/0 is NaN and compares false. *)
Definition checkDefeatConditions (s : GameState.t) : option VictoryResult.t :=
  let '(shadowTileCount, totalTiles) :=
    map_fold
      (fun _ tile '(shadow, total) =>
         if Tile.impassable tile then (shadow, total)
         else
           (if decide (Tile.owner tile = Owner.Shadow)
            then shadow + 1 else shadow, total + 1))
      (0, 0) (GameState.tiles s) in
  if totalTiles =? 0 then None
  else if Qle_bool (60 # 100) (inject_Z shadowTileCount / inject_Z totalTiles)
  then Some (VictoryResult.mk (Some Owner.Shadow) None)
  else None.

(** The inner [for] over the enabled conditions, for one player. *)
Fixpoint checkConditions (cur : Owner.t)
  (conditions : list VictoryCondition.t) (s : GameState.t)
  : option VictoryCondition.t * GameState.t :=
  match conditions with
  | [] => (None, s)
  | condition :: rest =>
      match getPlayer s cur with
      | None => checkConditions cur rest s
      | Some player =>
          let '(met, s) := checkPlayerVictoryCondition cur player condition s in
          if met then (Some condition, s) else checkConditions cur rest s
      end
  end.

(** The outer [for] over [state.players.entries()]. *)
Fixpoint checkPlayers (owners : list Owner.t) (s : GameState.t)
  : option VictoryResult.t * GameState.t :=
  match owners with
  | [] => (None, s)
  | owner :: rest =>
      match checkConditions owner (GameState.victoryConditions s) s with
      | (Some condition, s) =>
          (Some (VictoryResult.mk (Some owner) (Some condition)), s)
      | (None, s) => checkPlayers rest s
      end
  end.

(** [checkVictory] returns an object in each of its three branches. *)
Definition checkVictory (s : GameState.t) : VictoryResult.t * GameState.t :=
  match checkPlayers (GameState.players s).*1 s with
  | (Some won, s) => (won, s)
  | (None, s) =>
      match checkDefeatConditions s with
      | Some defeated => (defeated, s)
      | None => (VictoryResult.mk None None, s)
      end
  end.

(** Some enabled victory condition, or the Shadow defeat condition, is met:
    the result names a winner. *)
Definition conditionMet (v : VictoryResult.t) : bool :=
  bool_decide (is_Some (VictoryResult.winner v)).

(** [progress.set(condition, percent)] on a Map under construction, kept
    in insertion order. *)
Fixpoint progressSet (condition : VictoryCondition.t) (percent : Progress)
  (progress : list (VictoryCondition.t * Progress))
  : list (VictoryCondition.t * Progress) :=
  match progress with
  | [] => [(condition, percent)]
  | (c, p) :: rest =>
      if decide (c = condition) then (c, percent) :: rest
      else (c, p) :: progressSet condition percent rest
  end.

(** [(a / b) * 100] on two counts. *)
Definition percentOf (a b : Z) : Progress :=
  if b =? 0 then (if a =? 0 then PctNaN else PctInfinity)
  else Pct (inject_Z a / inject_Z b * 100).

Definition getVictoryProgress (s : GameState.t) (player : PlayerState.t)
  : list (VictoryCondition.t * Progress) :=
  fold_left
    (fun progress condition =>
       match condition with
       | VictoryCondition.Conquest =>
           let revealedCount := Z.of_nat (size (GameState.revealedTiles s)) in
           let ownedCount := Z.of_nat (size (PlayerState.ownedTiles player)) in
           let conquestPercent := percentOf ownedCount revealedCount in
           progressSet condition conquestPercent progress
       | VictoryCondition.Sanctifier =>
           let holySites :=
             fold_left
               (fun count key =>
                  match GameState.tiles s !! key with
                  | Some tile =>
                      if isHolySite (Tile.type tile) then count + 1 else count
                  | None => count
                  end)
               (elements (PlayerState.sanctifiedTiles player)) 0 in
           let threshold := threshold s condition 6 in
           progressSet condition (Pct (inject_Z holySites / threshold * 100))
             progress
       | VictoryCondition.ShadowAccord =>
           let alignment :=
             orZero (GameState.shadowAlignmentMeter s
                       !! PlayerState.owner player) in
           let shadowThreshold := threshold s condition 100 in
           progressSet condition
             (Pct (inject_Z alignment / shadowThreshold * 100)) progress
       | VictoryCondition.RelicAscension =>
           let mythics :=
             Z.of_nat
               (length
                  (List.filter
                     (fun r =>
                        bool_decide (Relic.rarity r = Rarity.mythic)
                        && match Relic.victoryPoints r with
                           | Some v => negb (v =? 0) && (0 <? v)
                           | None => false
                           end)
                     (PlayerState.relics player))) in
           let relicThreshold := threshold s condition 3 in
           progressSet condition
             (Pct (inject_Z mythics / relicThreshold * 100)) progress
       end)
    (GameState.victoryConditions s) [].

(** [percent >= threshold] on a number that may be NaN or Infinity. *)
Definition reaches (percent : Progress) (threshold : Q) : bool :=
  match percent with
  | Pct q => Qle_bool threshold q
  | PctInfinity => true
  | PctNaN => false
  end.

(** [threshold] defaults to 75 in the source. *)
Definition isCloseToVictory (s : GameState.t) (player : PlayerState.t)
  (threshold : Q) : option VictoryCondition.t :=
  fst <$> List.find (fun entry => reaches entry.2 threshold)
            (getVictoryProgress s player).

End VictorySystem.

(* ================================================================== *)
(** * GameEngine (src/lib/game/GameEngine.ts)                          *)
(* ================================================================== *)

Module GameEngine.

(** The engine object: the state it owns, its configuration and the
    action log.  (The listener table only calls back into the front end.) *)
Record t := mk {
  state : GameState.t;
  config : GameConfig.t;
  actionHistory : list GameAction.t
}.

(** Everything random one call into the engine may draw. *)
Record Oracle := mkOracle {
  uuid : string;
  spread : TileKey -> TileKey -> Q;
  events : EventSystem.Oracle
}.

(** [c && have < c] for an optional cost component [c]. *)
Definition cannotPay (c : option Z) (have : Z) : bool :=
  match c with
  | Some c => negb (c =? 0) && (have <? c)
  | None => false
  end.

Definition validateAction (s : GameState.t) (action : GameAction.t) : bool :=
  match getPlayer s (GameState.currentPlayer s) with
  | None => false
  | Some player =>
      if negb (bool_decide (PlayerState.id player = GameAction.playerId action))
      then false
      else
        match GameAction.cost action with
        | Some cost =>
            if cannotPay (ResourceCost.divinity cost)
                 (PlayerState.divinity player) then false
            else if cannotPay (ResourceCost.faith cost)
                      (PlayerState.faith player) then false
            else if cannotPay (ResourceCost.shadowEnergy cost)
                      (PlayerState.shadowEnergy player) then false
            else true
        | None => true
        end
  end.

(** [action.cost?.divinity || 0] and [action.cost?.faith || 0]. *)
Definition costDivinity (action : GameAction.t) : Z :=
  orZero (GameAction.cost action ≫= ResourceCost.divinity).

Definition costFaith (action : GameAction.t) : Z :=
  orZero (GameAction.cost action ≫= ResourceCost.faith).

Definition payDivinity (action : GameAction.t) (s : GameState.t)
  : GameState.t :=
  updatePlayer (GameState.currentPlayer s)
    (fun p =>
       PlayerState.set_divinity (PlayerState.divinity p - costDivinity action)
         p) s.

Definition executeMove (s : GameState.t) (action : GameAction.t)
  : bool * GameState.t :=
  match GameAction.unitId action ≫= (fun id => GameState.units s !! id),
        GameAction.targetTile action with
  | Some unit, Some target =>
      match GameState.tiles s !! posKey target with
      | None => (false, s)
      | Some targetTile =>
          if Tile.impassable targetTile then (false, s)
          else
            let distance :=
              Z.abs (Position.x (Unit.position unit) - Position.x target)
              + Z.abs (Position.y (Unit.position unit) - Position.y target) in
            let moveCost := distance * Tile.moveCost targetTile in
            if Unit.movePoints unit <? moveCost then (false, s)
            else
              let moved u :=
                Unit.set_movePoints (Unit.movePoints u - moveCost)
                  (Unit.set_position target u) in
              let s := editUnit (Unit.id unit) moved s in
              (true, FogOfWarSystem.revealTilesAroundUnit s (moved unit))
      end
  | _, _ => (false, s)
  end.

Section WithConfig.
Variable config : GameConfig.t.

Definition executeFortify (s : GameState.t) (action : GameAction.t)
  : bool * GameState.t :=
  match GameAction.targetTile action with
  | None => (false, s)
  | Some target =>
      let key := posKey target in
      match GameState.tiles s !! key,
            getPlayer s (GameState.currentPlayer s) with
      | Some tile, Some player =>
          if negb (bool_decide (Tile.owner tile = PlayerState.owner player))
          then (false, s)
          else if GameConfig.stabilityCap config <=? Tile.stability tile
          then (false, s)
          else
            let s :=
              updateTile key
                (fun t =>
                   Tile.set_stability
                     (Z.min (Tile.stability t + 2)
                        (GameConfig.stabilityCap config)) t) s in
            (true, payDivinity action s)
      | _, _ => (false, s)
      end
  end.

Definition executePurify (s : GameState.t) (action : GameAction.t)
  : bool * GameState.t :=
  match GameAction.targetTile action with
  | None => (false, s)
  | Some target =>
      let key := posKey target in
      match GameState.tiles s !! key,
            getPlayer s (GameState.currentPlayer s) with
      | Some tile, Some player =>
          if Tile.corruption tile =? 0 then (false, s)
          else
            let s :=
              updateTile key
                (fun t =>
                   let t :=
                     Tile.set_corruption (Z.max 0 (Tile.corruption t - 1)) t in
                   let t :=
                     if (Tile.corruption t =? 0)
                        && bool_decide (Tile.owner t = Owner.Shadow)
                     then Tile.set_owner Owner.Neutral t else t in
                   Tile.set_stability
                     (Z.min (Tile.stability t + 1)
                        (GameConfig.stabilityCap config)) t) s in
            (true, payDivinity action s)
      | _, _ => (false, s)
      end
  end.

Definition executeBuildShrine (s : GameState.t) (action : GameAction.t)
  : bool * GameState.t :=
  match GameAction.targetTile action with
  | None => (false, s)
  | Some target =>
      let key := posKey target in
      match GameState.tiles s !! key,
            getPlayer s (GameState.currentPlayer s) with
      | Some tile, Some player =>
          if negb (bool_decide (Tile.owner tile = PlayerState.owner player))
             || Tile.hasShrine tile
          then (false, s)
          else
            let s :=
              updateTile key
                (fun t =>
                   let t := Tile.set_hasShrine true t in
                   let t :=
                     Tile.set_divinityYield (Tile.divinityYield t + 2) t in
                   Tile.set_faithYield (Tile.faithYield t + 1) t) s in
            (true, payDivinity action s)
      | _, _ => (false, s)
      end
  end.

Definition executeSanctify (s : GameState.t) (action : GameAction.t)
  : bool * GameState.t :=
  match GameAction.targetTile action with
  | None => (false, s)
  | Some target =>
      let key := posKey target in
      match GameState.tiles s !! key,
            getPlayer s (GameState.currentPlayer s) with
      | Some tile, Some player =>
          if negb (bool_decide (Tile.owner tile = PlayerState.owner player))
             || Tile.sanctified tile
          then (false, s)
          else
            let s :=
              updateTile key
                (fun t =>
                   let t := Tile.set_sanctified true t in
                   let t :=
                     Tile.set_domainAttunement
                       (Some (PlayerState.domain player)) t in
                   let t :=
                     Tile.set_divinityYield (Tile.divinityYield t + 1) t in
                   let t :=
                     Tile.set_stability
                       (Z.min (Tile.stability t + 1)
                          (GameConfig.stabilityCap config)) t in
                   Tile.set_corruption 0 t) s in
            let s :=
              updatePlayer (GameState.currentPlayer s)
                (fun p =>
                   let p :=
                     PlayerState.set_sanctifiedTiles
                       (PlayerState.sanctifiedTiles p ∪ {[key]}) p in
                   PlayerState.set_sanctifiedThisTurn
                     (PlayerState.sanctifiedThisTurn p + 1) p) s in
            (true, payDivinity action s)
      | _, _ => (false, s)
      end
  end.

Definition executeSummonUnit (s : GameState.t) (action : GameAction.t)
  : bool * GameState.t :=
  match getPlayer s (GameState.currentPlayer s),
        GameAction.targetTile action with
  | Some player, Some _ => (true, payDivinity action s)
  | _, _ => (false, s)
  end.

Definition executeAbility (s : GameState.t) (action : GameAction.t)
  : bool * GameState.t :=
  match getPlayer s (GameState.currentPlayer s),
        GameAction.abilityId action with
  | Some player, Some _ => (true, s)
  | _, _ => (false, s)
  end.

(** [player.miracles.find(m => m.id === action.miracleId)] and the edit of
    the miracle found. *)
Fixpoint useMiracle (id : string) (miracles : list Miracle.t)
  : option (list Miracle.t) :=
  match miracles with
  | [] => None
  | m :: rest =>
      if decide (Miracle.id m = id) then
        if Miracle.isUsed m then None
        else Some (Miracle.set_isUsed true m :: rest)
      else cons m <$> useMiracle id rest
  end.

Definition executeMiracle (s : GameState.t) (action : GameAction.t)
  : bool * GameState.t :=
  match getPlayer s (GameState.currentPlayer s),
        GameAction.miracleId action with
  | Some player, Some miracleId =>
      match useMiracle miracleId (PlayerState.miracles player) with
      | None => (false, s)
      | Some miracles =>
          (true,
           updatePlayer (GameState.currentPlayer s)
             (fun p =>
                let p := PlayerState.set_miracles miracles p in
                PlayerState.set_faith (PlayerState.faith p - costFaith action)
                  p) s)
      end
  | _, _ => (false, s)
  end.

(** [startTurn].  For an AI player it ends by scheduling, with
    [setTimeout], the AI turn and the next [endTurn]: that callback runs
    after the current call has returned and is not part of it. *)
Definition startTurn (rnd : Oracle) (s : GameState.t) : GameState.t :=
  let s := GameState.set_turn (GameState.turn s + 1) s in
  let cur := GameState.currentPlayer s in
  match getPlayer s cur with
  | None => s
  | Some _ =>
      let s := TurnSystem.startTurn config cur s in
      let s := EventSystem.processEvents (events rnd) s in
      let s :=
        if decide (GameState.currentPlayer s = Owner.Player)
        then ShadowSystem.spreadShadow config (spread rnd) s else s in
      let s := FogOfWarSystem.updateVisibility s in
      let s :=
        updatePlayer cur
          (fun p =>
             PlayerState.set_sanctifiedThisTurn 0
               (PlayerState.set_capturedThisTurn 0 p)) s in
      match getPlayer s cur with
      | None => s
      | Some p =>
          fold_left
            (fun s unit =>
               editUnit (Unit.id unit)
                 (fun u =>
                    let u := Unit.set_movePoints (Unit.maxMovePoints u) u in
                    Unit.set_turnsAlive (Unit.turnsAlive u + 1) u) s)
            (PlayerState.units p) s
      end
  end.

(** [players.indexOf(owner)], -1 when absent. *)
Fixpoint indexOf (o : Owner.t) (l : list Owner.t) : Z :=
  match l with
  | [] => -1
  | o' :: rest =>
      if decide (o' = o) then 0
      else let i := indexOf o rest in if i <? 0 then -1 else i + 1
  end.

(** [endTurn] up to and including the hand-over to the next player, that
    is, everything before its final call of [startTurn]. *)
Definition endTurnHandover (s : GameState.t) : option GameState.t :=
  let cur := GameState.currentPlayer s in
  match getPlayer s cur with
  | None => None
  | Some _ =>
      let s :=
        updatePlayer cur
          (fun p =>
             let p := PlayerState.set_aegis (PlayerState.divinity p / 2) p in
             PlayerState.set_divinity 0 p) s in
      let s := TurnSystem.endTurn config cur s in
      let players := (GameState.players s).*1 in
      let currentIndex := indexOf (GameState.currentPlayer s) players in
      let nextIndex := (currentIndex + 1) `mod` Z.of_nat (length players) in
      Some (GameState.set_currentPlayer
              (default cur (players !! Z.to_nat nextIndex)) s)
  end.

Definition endTurn (rnd : Oracle) (s : GameState.t) : bool * GameState.t :=
  match endTurnHandover s with
  | None => (false, s)
  | Some s => (true, startTurn rnd s)
  end.

(** The [switch] of [executeAction]. *)
Definition dispatch (rnd : Oracle) (s : GameState.t) (action : GameAction.t)
  : bool * GameState.t * GameAction.t :=
  let plain (r : bool * GameState.t) := (r.1, r.2, action) in
  match GameAction.type action with
  | ActionType.Move | ActionType.Explore => plain (executeMove s action)
  | ActionType.Capture =>
      CaptureSystem.executeCapture config (uuid rnd) s action
  | ActionType.ManageFortify => plain (executeFortify s action)
  | ActionType.ManagePurify => plain (executePurify s action)
  | ActionType.ManageBuildShrine => plain (executeBuildShrine s action)
  | ActionType.Sanctify => plain (executeSanctify s action)
  | ActionType.SummonUnit => plain (executeSummonUnit s action)
  | ActionType.UseAbility => plain (executeAbility s action)
  | ActionType.UseMiracle => plain (executeMiracle s action)
  | ActionType.EndTurn => plain (endTurn rnd s)
  | ActionType.ManageRepair => (false, s, action)
  end.

End WithConfig.

(** [if (victory)] tests an object reference, and [checkVictory] returns an
    object in every branch: the test always succeeds. *)
Definition truthy (victory : VictoryResult.t) : bool := true.

Definition executeAction (rnd : Oracle) (e : t) (action : GameAction.t)
  : bool * t :=
  if negb (validateAction (state e) action) then
    let action := GameAction.set_success false action in
    let action := GameAction.set_message (Some "Invalid action"%string) action in
    (false, mk (state e) (config e) (actionHistory e ++ [action]))
  else
    let '(success, s, action) := dispatch (config e) rnd (state e) action in
    let action := GameAction.set_success success action in
    let history := actionHistory e ++ [action] in
    let s := FogOfWarSystem.updateVisibility s in
    let '(victory, s) := VictorySystem.checkVictory s in
    let s :=
      if truthy victory then GameState.set_phase GamePhase.Victory s else s in
    (success, mk s (config e) history).

End GameEngine.

(** What the statements about the engine observe. *)
Module EngineView.

(** The three spendable currencies of a player. *)
Definition currencies (p : PlayerState.t) : Z * Z * Z :=
  (PlayerState.divinity p, PlayerState.faith p, PlayerState.shadowEnergy p).

(** The actions whose handler takes its price from the cost record of the
    request. *)
Definition callerPriced (type : ActionType.t) : Prop :=
  type = ActionType.ManageFortify \/ type = ActionType.ManagePurify
  \/ type = ActionType.ManageBuildShrine \/ type = ActionType.Sanctify
  \/ type = ActionType.SummonUnit \/ type = ActionType.UseMiracle.

(** Two states that differ at most in the phase. *)
Definition samePlay (s s' : GameState.t) : Prop :=
  forall phase, GameState.set_phase phase s = GameState.set_phase phase s'.

(** A stated cost component that is not 0 and above what the player
    holds. *)
Definition unaffordable (c : option Z) (have : Z) : Prop :=
  exists v, c = Some v /\ v <> 0 /\ have < v.

(** The grounds on which an action is invalid: there is no current
    player, the action carries another player's id, or it states a cost
    with an unaffordable component. *)
Definition invalid (s : GameState.t) (action : GameAction.t) : Prop :=
  match getPlayer s (GameState.currentPlayer s) with
  | None => True
  | Some player =>
      PlayerState.id player <> GameAction.playerId action
      \/ exists cost,
           GameAction.cost action = Some cost
           /\ (unaffordable (ResourceCost.divinity cost)
                 (PlayerState.divinity player)
               \/ unaffordable (ResourceCost.faith cost)
                    (PlayerState.faith player)
               \/ unaffordable (ResourceCost.shadowEnergy cost)
                    (PlayerState.shadowEnergy player))
  end.

End EngineView.

(* ================================================================== *)
(** * AIController (src/unnamed/part_002)                              *)
(* ================================================================== *)

Module AIController.

Record Candidate := mkCandidate { action : GameAction.t; score : Q }.

(** What one call of [selectBestAction] draws: the [crypto.randomUUID()]
    and [Date.now()] of the n-th action created, and the [Math.random()]
    of the n-th candidate scored. *)
Record Oracle := mkOracle {
  uuid : nat -> string;
  now : nat -> Z;
  jitter : nat -> Q
}.

(** [candidates.push({ action: {...}, score: 0 })]. *)
Definition push (rnd : Oracle) (type : ActionType.t) (player : PlayerState.t)
  (unitId : option string) (target : option Position.t)
  (candidates : list Candidate) : list Candidate :=
  let n := length candidates in
  candidates
  ++ [mkCandidate
        (GameAction.mk (uuid rnd n) type (PlayerState.id player) (now rnd n)
           target None unitId None None None false None)
        0].

Definition generateCaptureActions (rnd : Oracle) (s : GameState.t)
  (player : PlayerState.t) (candidates : list Candidate) : list Candidate :=
  let capturableTiles :=
    fold_left
      (fun capturable tileKey =>
         match GameState.tiles s !! tileKey with
         | None => capturable
         | Some tile =>
             fold_left
               (fun capturable neighborKey =>
                  match GameState.tiles s !! neighborKey with
                  | Some neighbor =>
                      if negb (bool_decide
                                 (Tile.owner neighbor
                                  = PlayerState.owner player))
                         && negb (Tile.impassable neighbor)
                         && (2 <=? PlayerState.divinity player)
                      then capturable ++ [neighbor] else capturable
                  | None => capturable
                  end)
               (getNeighbors (Position.x (Tile.position tile))
                  (Position.y (Tile.position tile)) s)
               capturable
         end)
      (elements (PlayerState.ownedTiles player)) [] in
  fold_left
    (fun candidates tile =>
       push rnd ActionType.Capture player None (Some (Tile.position tile))
         candidates)
    capturableTiles candidates.

Definition generateSanctifyActions (rnd : Oracle) (s : GameState.t)
  (player : PlayerState.t) (candidates : list Candidate) : list Candidate :=
  fold_left
    (fun candidates tileKey =>
       match GameState.tiles s !! tileKey with
       | Some tile =>
           if negb (Tile.sanctified tile) && (4 <=? PlayerState.divinity player)
           then push rnd ActionType.Sanctify player None
                  (Some (Tile.position tile)) candidates
           else candidates
       | None => candidates
       end)
    (elements (PlayerState.ownedTiles player)) candidates.

Definition generateFortifyActions (rnd : Oracle) (s : GameState.t)
  (player : PlayerState.t) (candidates : list Candidate) : list Candidate :=
  fold_left
    (fun candidates tileKey =>
       match GameState.tiles s !! tileKey with
       | Some tile =>
           if (Tile.stability tile <? 5) && (3 <=? PlayerState.divinity player)
           then push rnd ActionType.ManageFortify player None
                  (Some (Tile.position tile)) candidates
           else candidates
       | None => candidates
       end)
    (elements (PlayerState.ownedTiles player)) candidates.

(** The controller's own [getTilesInRadius], which loops over offsets. *)
Definition getTilesInRadius (x y radius : Z) (s : GameState.t)
  : list TileKey :=
  flat_map
    (fun dx =>
       flat_map
         (fun dy =>
            let distance := Z.abs dx + Z.abs dy in
            if (distance <=? radius) && inBounds s (x + dx) (y + dy)
            then [tileKey (x + dx) (y + dy)] else [])
         (seqZ (- radius) (2 * radius + 1)))
    (seqZ (- radius) (2 * radius + 1)).

Definition generateExploreActions (rnd : Oracle) (s : GameState.t)
  (player : PlayerState.t) (candidates : list Candidate) : list Candidate :=
  fold_left
    (fun candidates unit =>
       if 0 <? Unit.movePoints unit then
         fold_left
           (fun candidates tileKey =>
              match GameState.tiles s !! tileKey with
              | Some tile =>
                  if decide (Tile.visibility tile = TileVisibility.Hidden)
                  then push rnd ActionType.Explore player
                         (Some (Unit.id unit)) (Some (Tile.position tile))
                         candidates
                  else candidates
              | None => candidates
              end)
           (getTilesInRadius (Position.x (Unit.position unit))
              (Position.y (Unit.position unit)) (Unit.movePoints unit) s)
           candidates
       else candidates)
    (PlayerState.units player) candidates.

Definition generateSummonActions (rnd : Oracle) (s : GameState.t)
  (player : PlayerState.t) (candidates : list Candidate) : list Candidate :=
  if (2 <=? PlayerState.divinity player)
     && (Z.of_nat (length (PlayerState.units player)) <? 5) then
    match elements (PlayerState.ownedTiles player) with
    | spawnTile :: _ =>
        push rnd ActionType.SummonUnit player None
          (Tile.position <$> GameState.tiles s !! spawnTile) candidates
    | [] => candidates
    end
  else candidates.

Definition targetOf (s : GameState.t) (a : GameAction.t) : option Tile.t :=
  GameAction.targetTile a ≫= (fun p => GameState.tiles s !! posKey p).

Definition isHoly (tile : Tile.t) : bool :=
  bool_decide (Tile.type tile = TileType.SacredWell)
  || bool_decide (Tile.type tile = TileType.AncientRuins).

Definition estimateVictoryProgressDelta (s : GameState.t)
  (player : PlayerState.t) (a : GameAction.t) : Q :=
  match GameAction.type a with
  | ActionType.Capture => 5%Q
  | ActionType.Sanctify =>
      match targetOf s a with
      | Some tile => if isHoly tile then (8 + 10)%Q else 8%Q
      | None => 8%Q
      end
  | _ => 0%Q
  end.

Definition estimateEconomyGain (s : GameState.t) (player : PlayerState.t)
  (a : GameAction.t) : Q :=
  let gain :=
    match GameAction.type a, targetOf s a with
    | ActionType.Capture, Some tile =>
        (inject_Z (Tile.divinityYield tile) * 2
         + inject_Z (Tile.faithYield tile) * (3 # 2))%Q
    | _, _ => 0%Q
    end in
  match GameAction.type a with
  | ActionType.Sanctify => (gain + 1)%Q
  | _ => gain
  end.

Definition estimateDefenseGain (s : GameState.t) (player : PlayerState.t)
  (a : GameAction.t) : Q :=
  let defense :=
    match GameAction.type a with
    | ActionType.ManageFortify => 5%Q
    | _ => 0%Q
    end in
  match GameAction.type a with
  | ActionType.Sanctify => (defense + 3)%Q
  | _ => defense
  end.

Definition assessRisk (s : GameState.t) (player : PlayerState.t)
  (a : GameAction.t) : Q :=
  match targetOf s a with
  | Some tile =>
      fold_left
        (fun risk key =>
           match GameState.tiles s !! key with
           | Some neighbor =>
               if 0 <? Tile.corruption neighbor then (risk - 2)%Q else risk
           | None => risk
           end)
        (getNeighbors (Position.x (Tile.position tile))
           (Position.y (Tile.position tile)) s) 0%Q
  | None => 0%Q
  end.

Definition assessDomainSynergy (s : GameState.t) (player : PlayerState.t)
  (a : GameAction.t) : Q :=
  match GameAction.type a, targetOf s a with
  | ActionType.Capture, Some tile =>
      let tileIs t := bool_decide (Tile.type tile = t) in
      let domainIs d := bool_decide (PlayerState.domain player = d) in
      let synergy := 0%Q in
      let synergy :=
        if domainIs DomainType.Fire
           && (tileIs TileType.Desert || tileIs TileType.Hills)
        then (synergy + 3)%Q else synergy in
      let synergy :=
        if domainIs DomainType.Earth
           && (tileIs TileType.Forest || tileIs TileType.Hills)
        then (synergy + 3)%Q else synergy in
      if domainIs DomainType.Water
         && (tileIs TileType.Swamp || tileIs TileType.Water)
      then (synergy + 3)%Q else synergy
  | _, _ => 0%Q
  end.

(** [calculateUtility]; [r] is its [Math.random()]. *)
Definition calculateUtility (r : Q) (s : GameState.t) (player : PlayerState.t)
  (a : GameAction.t) : Q :=
  let utility :=
    ((3 # 10) * estimateVictoryProgressDelta s player a
     + (25 # 100) * estimateEconomyGain s player a
     + (2 # 10) * estimateDefenseGain s player a
     + (15 # 100) * assessRisk s player a
     + (1 # 10) * assessDomainSynergy s player a)%Q in
  (utility + (r - (1 # 2)) * (1 # 10))%Q.

Definition applyPersonalityWeights (player : PlayerState.t)
  (candidates : list Candidate) : list Candidate :=
  let personality :=
    default Personality.balanced (PlayerState.aiPersonality player) in
  (fun candidate =>
     let type := GameAction.type (action candidate) in
     let scaled (k : Q) :=
       mkCandidate (action candidate) (score candidate * k) in
     match personality with
     | Personality.aggressive =>
         if bool_decide (type = ActionType.Capture)
         then scaled (15 # 10) else candidate
     | Personality.defensive =>
         if bool_decide (type = ActionType.ManageFortify)
            || bool_decide (type = ActionType.Sanctify)
         then scaled (15 # 10) else candidate
     | Personality.opportunist =>
         if bool_decide (type = ActionType.Capture)
            || bool_decide (type = ActionType.Sanctify)
         then scaled (13 # 10) else candidate
     | Personality.balanced => candidate
     end) <$> candidates.

(** [candidates.sort((a, b) => b.score - a.score)]: a stable sort by
    descending score, here by insertion from the right. *)
Fixpoint insertByScore (c : Candidate) (sorted : list Candidate)
  : list Candidate :=
  match sorted with
  | [] => [c]
  | c' :: rest =>
      if Qle_bool (score c') (score c) then c :: sorted
      else c' :: insertByScore c rest
  end.

Definition sortByScore (candidates : list Candidate) : list Candidate :=
  foldr insertByScore [] candidates.

Definition generateCandidates (rnd : Oracle) (s : GameState.t)
  (player : PlayerState.t) : list Candidate :=
  let candidates := [] in
  let candidates := generateCaptureActions rnd s player candidates in
  let candidates := generateSanctifyActions rnd s player candidates in
  let candidates := generateFortifyActions rnd s player candidates in
  let candidates := generateExploreActions rnd s player candidates in
  generateSummonActions rnd s player candidates.

Definition selectBestAction (rnd : Oracle) (s : GameState.t)
  (player : PlayerState.t) : option GameAction.t :=
  let candidates := generateCandidates rnd s player in
  let candidates :=
    imap
      (fun n candidate =>
         mkCandidate (action candidate)
           (calculateUtility (jitter rnd n) s player (action candidate)))
      candidates in
  let candidates := applyPersonalityWeights player candidates in
  action <$> head (sortByScore candidates).

(** [baseCosts[action.type] || 0]. *)
Definition baseCost (type : ActionType.t) : Z :=
  match type with
  | ActionType.Capture => 4
  | ActionType.Sanctify => 6
  | ActionType.ManageFortify => 3
  | ActionType.SummonUnit => 2
  | _ => 0
  end.

(** [simulateAction]: the only thing it writes is the player's divinity. *)
Definition simulateAction (cur : Owner.t) (s : GameState.t)
  (a : GameAction.t) : GameState.t :=
  let cost := baseCost (GameAction.type a) in
  updatePlayer cur
    (fun p =>
       PlayerState.set_divinity (Z.max 0 (PlayerState.divinity p - cost)) p) s.

(** [executeTurn]: the [while] loop, run for at most [fuel] iterations.
    [None] means that the loop has not ended within [fuel] iterations;
    [rnd n] are the draws of iteration [n]; [cur] is the key of the player
    object the loop reads and writes. *)
Fixpoint executeTurnFrom (fuel : nat) (rnd : nat -> Oracle) (cur : Owner.t)
  (s : GameState.t) (actions : list GameAction.t)
  : option (list GameAction.t * GameState.t) :=
  match fuel with
  | O => None
  | S fuel =>
      match getPlayer s cur with
      | None => Some (actions, s)
      | Some player =>
          if 0 <? PlayerState.divinity player then
            match selectBestAction (rnd (length actions)) s player with
            | None => Some (actions, s)
            | Some bestAction =>
                executeTurnFrom fuel rnd cur (simulateAction cur s bestAction)
                  (actions ++ [bestAction])
            end
          else Some (actions, s)
      end
  end.

Definition executeTurn (fuel : nat) (rnd : nat -> Oracle) (cur : Owner.t)
  (s : GameState.t) : option (list GameAction.t * GameState.t) :=
  executeTurnFrom fuel rnd cur s [].

End AIController.

(** What the statements about the AI observe. *)
Module AIView.
Import AIController.

(** The tiles the explore family proposes, one per (unit, hidden tile in
    range). *)
Definition exploreTargets (s : GameState.t) (player : PlayerState.t)
  : list TileKey :=
  flat_map
    (fun unit =>
       if 0 <? Unit.movePoints unit then
         List.filter
           (fun tileKey =>
              match GameState.tiles s !! tileKey with
              | Some tile =>
                  bool_decide (Tile.visibility tile = TileVisibility.Hidden)
              | None => false
              end)
           (getTilesInRadius (Position.x (Unit.position unit))
              (Position.y (Unit.position unit)) (Unit.movePoints unit) s)
       else [])
    (PlayerState.units player).

End AIView.

(* ================================================================== *)
(** * Save and load (GameEngine.exportState / importState)             *)
(* ================================================================== *)

(** [exportState] is [JSON.stringify(root, replacer)] and [importState] is
    [JSON.parse(text, reviver)].  The replacer and the reviver are the
    engine's; the two traversals that call them belong to the host and are
    embedded here on trees: [stringify] produces the JSON tree whose text
    the host writes, [parse] starts from the tree the host reads back from
    that text. *)
Module Json.

(** A JS number. *)
Inductive number := Finite (q : Q) | NaN | Infinity | NegInfinity.

(** The object graph handed to [JSON.stringify], as a tree.  A [Map] is its
    entries and a [Set] its elements, both in insertion order; an object is
    its own enumerable properties. *)
Inductive value :=
  | Undefined
  | Null
  | Bool (b : bool)
  | Num (n : number)
  | Str (s : string)
  | Arr (items : list value)
  | Obj (fields : list (string * value))
  | MapV (entries : list (value * value))
  | SetV (elements : list value).

(** A JSON text, as a tree. *)
Inductive json :=
  | JNull
  | JBool (b : bool)
  | JNum (q : Q)
  | JStr (s : string)
  | JArr (items : list json)
  | JObj (fields : list (string * json)).

(** The replacer of [exportState]:
    [value instanceof Map] gives [{ dataType: 'Map', value:
    Array.from(value.entries()) }], [value instanceof Set] gives
    [{ dataType: 'Set', value: Array.from(value) }], anything else is
    returned as it is. *)
Definition replacer (v : value) : value :=
  match v with
  | MapV entries =>
      Obj [("dataType"%string, Str "Map");
           ("value"%string, Arr ((fun e => Arr [e.1; e.2]) <$> entries))]
  | SetV elements =>
      Obj [("dataType"%string, Str "Set"); ("value"%string, Arr elements)]
  | _ => v
  end.

(** What serializing one property gives: nothing ([undefined], the
    property is left out), a JSON tree, or no answer within the fuel. *)
Inductive out := OutOfFuel | Skip | Json (j : json).

Fixpoint collectItems (rs : list out) : option (list json) :=
  match rs with
  | [] => Some []
  | OutOfFuel :: _ => None
  | Skip :: rest => cons JNull <$> collectItems rest
  | Json j :: rest => cons j <$> collectItems rest
  end.

Fixpoint collectFields (rs : list (string * out))
  : option (list (string * json)) :=
  match rs with
  | [] => Some []
  | (_, OutOfFuel) :: _ => None
  | (_, Skip) :: rest => collectFields rest
  | (k, Json j) :: rest => cons (k, j) <$> collectFields rest
  end.

(** [JSON.stringify] with the replacer: the replacer is applied to a value
    before the value is serialized; a non-finite number becomes [null], an
    [undefined] array element becomes [null], an [undefined] property is
    left out.  [fuel] bounds the nesting depth explored. *)
Fixpoint stringify (fuel : nat) (v : value) : out :=
  match fuel with
  | O => OutOfFuel
  | S fuel =>
      match replacer v with
      | Undefined => Skip
      | Null => Json JNull
      | Bool b => Json (JBool b)
      | Num (Finite q) => Json (JNum q)
      | Num _ => Json JNull
      | Str s => Json (JStr s)
      | Arr items =>
          match collectItems (stringify fuel <$> items) with
          | Some js => Json (JArr js)
          | None => OutOfFuel
          end
      | Obj fields =>
          match collectFields (prod_map id (stringify fuel) <$> fields) with
          | Some fs => Json (JObj fs)
          | None => OutOfFuel
          end
      | MapV _ | SetV _ => Json (JObj [])
      end
  end.

(** [obj.name] on a tree. *)
Fixpoint getField (name : string) (fields : list (string * value))
  : option value :=
  match fields with
  | [] => None
  | (k, v) :: rest => if decide (k = name) then Some v else getField name rest
  end.

(** The comparison [Map] and [Set] use for keys: primitives by value, two
    objects never (each object of the tree is its own reference). *)
Definition sameValueZero (a b : value) : bool :=
  match a, b with
  | Undefined, Undefined => true
  | Null, Null => true
  | Bool x, Bool y => bool_decide (x = y)
  | Num (Finite x), Num (Finite y) => Qeq_bool x y
  | Num NaN, Num NaN => true
  | Num Infinity, Num Infinity => true
  | Num NegInfinity, Num NegInfinity => true
  | Str x, Str y => bool_decide (x = y)
  | _, _ => false
  end.

(** [map.set(k, x)]. *)
Definition mapSet (entries : list (value * value)) (k x : value)
  : list (value * value) :=
  if existsb (fun e => sameValueZero e.1 k) entries
  then (fun e => if sameValueZero e.1 k then (e.1, x) else e) <$> entries
  else entries ++ [(k, x)].

(** [set.add(x)]. *)
Definition setAdd (elements : list value) (x : value) : list value :=
  if existsb (fun e => sameValueZero e x) elements then elements
  else elements ++ [x].

(** [new Map(arg)].  An entry is read as [entry[0]], [entry[1]].  [None]
    stands for the TypeError of an argument that cannot be iterated or of an
    entry that is not an object; entries that are objects without indices do
    not arise here and are refused as well. *)
Definition newMap (arg : option value) : option value :=
  match arg with
  | None | Some Undefined | Some Null => Some (MapV [])
  | Some (Arr items) =>
      MapV <$>
        foldl
          (fun acc item =>
             entries ← acc;
             match item with
             | Arr [] => Some (mapSet entries Undefined Undefined)
             | Arr [k] => Some (mapSet entries k Undefined)
             | Arr (k :: x :: _) => Some (mapSet entries k x)
             | _ => None
             end)
          (Some []) items
  | Some _ => None
  end.

(** [new Set(arg)], with the same convention; iterating a string, which
    yields its characters, does not arise here and is refused. *)
Definition newSet (arg : option value) : option value :=
  match arg with
  | None | Some Undefined | Some Null => Some (SetV [])
  | Some (Arr items) => Some (SetV (foldl setAdd [] items))
  | Some _ => None
  end.

(** The reviver of [importState]: an object (arrays included) whose
    [dataType] is ['Map'] or ['Set'] is replaced by [new Map(value.value)]
    or [new Set(value.value)]. *)
Definition reviver (v : value) : option value :=
  match v with
  | Obj fields =>
      match getField "dataType" fields with
      | Some (Str dataType) =>
          if decide (dataType = "Map"%string)
          then newMap (getField "value" fields)
          else if decide (dataType = "Set"%string)
          then newSet (getField "value" fields)
          else Some v
      | _ => Some v
      end
  | _ => Some v
  end.

(** [JSON.parse] with the reviver: children first, then the reviver on the
    rebuilt holder. *)
Fixpoint parse (j : json) : option value :=
  match j with
  | JNull => reviver Null
  | JBool b => reviver (Bool b)
  | JNum q => reviver (Num (Finite q))
  | JStr s => reviver (Str s)
  | JArr items => mapM parse items ≫= (fun vs => reviver (Arr vs))
  | JObj fields =>
      mapM (fun f => pair f.1 <$> parse f.2) fields
      ≫= (fun vs => reviver (Obj vs))
  end.

(** ** Which graphs come back *)

Definition isUndefined (v : value) : bool :=
  match v with Undefined => true | _ => false end.

(** A value with the properties that hold [undefined] removed, at every
    level: what any read of a property sees is the same before and after. *)
Fixpoint prune (v : value) : value :=
  match v with
  | Arr items => Arr (prune <$> items)
  | Obj fields =>
      Obj (omap
             (fun f =>
                if isUndefined f.2 then None else Some (f.1, prune f.2))
             fields)
  | MapV entries => MapV ((fun e => (prune e.1, prune e.2)) <$> entries)
  | SetV elements => SetV (prune <$> elements)
  | _ => v
  end.

Fixpoint distinct (l : list value) : bool :=
  match l with
  | [] => true
  | a :: rest =>
      forallb (fun b => negb (sameValueZero a b)) rest && distinct rest
  end.

Definition isTag (v : value) : bool :=
  match v with
  | Str s => bool_decide (s = "Map"%string) || bool_decide (s = "Set"%string)
  | _ => false
  end.

(** The graphs [exportState] is meant for: every number is finite; no array
    element, map key, map value or set element is [undefined]; map keys and
    set elements are pairwise different; property names are not repeated;
    and no plain object carries a [dataType] property equal to ['Map'] or
    ['Set']. *)
Fixpoint serializable (v : value) : bool :=
  match v with
  | Undefined | Null | Bool _ | Str _ => true
  | Num (Finite _) => true
  | Num _ => false
  | Arr items =>
      forallb (fun x => negb (isUndefined x) && serializable x) items
  | Obj fields =>
      bool_decide (NoDup fields.*1)
      && forallb (fun f => serializable f.2) fields
      && negb (from_option isTag false (getField "dataType" fields))
  | MapV entries =>
      forallb
        (fun e =>
           negb (isUndefined e.1) && serializable e.1
           && negb (isUndefined e.2) && serializable e.2) entries
      && distinct (entries.*1)
  | SetV elements =>
      forallb (fun x => negb (isUndefined x) && serializable x) elements
      && distinct elements
  end.

Fixpoint depth (v : value) : nat :=
  match v with
  | Arr items => S (foldr (fun x m => depth x `max` m) 0 items)%nat
  | Obj fields => S (foldr (fun f m => depth f.2 `max` m) 0 fields)%nat
  | MapV entries =>
      (3 + foldr (fun e m => depth e.1 `max` (depth e.2 `max` m)) 0 entries)
        %nat
  | SetV elements =>
      (2 + foldr (fun x m => depth x `max` m) 0 elements)%nat
  | _ => 0%nat
  end.

(** ** The two entry points *)

(** [obj.name]: a property that is absent reads as [undefined], and
    arrays, Maps and Sets have no property of the names used here. *)
Definition prop (name : string) (v : value) : value :=
  match v with
  | Obj fields => default Undefined (getField name fields)
  | _ => Undefined
  end.

(** [map.get(k)]. *)
Definition mapGet (k : value) (m : value) : value :=
  match m with
  | MapV entries =>
      default Undefined (snd <$> find (fun e => sameValueZero e.1 k) entries)
  | _ => Undefined
  end.

(** [exportState]: the root object [{ state, config, actionHistory }] goes
    through [JSON.stringify] with the replacer. *)
Definition exportState (fuel : nat) (state config actionHistory : value)
  : out :=
  stringify fuel
    (Obj [("state"%string, state); ("config"%string, config);
          ("actionHistory"%string, actionHistory)]).

(** [importState]: the text is parsed with the reviver and the three
    properties are read off the result; reading a property of [null] is a
    TypeError ([None]). *)
Definition importState (data : json) : option (value * value * value) :=
  parsed ← parse data;
  match parsed with
  | Undefined | Null => None
  | _ =>
      Some (prop "state" parsed, prop "config" parsed,
            prop "actionHistory" parsed)
  end.

End Json.

(* ================================================================== *)
(** * Concrete boards used by the examples below                       *)
(* ================================================================== *)

Module Board.

Definition tileAt (x y : Z) (type : TileType.t) (owner : Owner.t)
  (stability corruption : Z) : Tile.t :=
  Tile.mk (Position.mk x y) type owner stability corruption false None
    TileVisibility.Hidden false false false 0 0 1 false.

Definition playerOf (id : string) (owner : Owner.t) (domain : DomainType.t)
  (divinity : Z) (owned : gset TileKey) : PlayerState.t :=
  PlayerState.mk id id owner domain (negb (bool_decide (owner = Owner.Player)))
    divinity 0 0 0 [] owned ∅ [] [] ∅ 0 0 None.

Definition stateOf (players : list (Owner.t * PlayerState.t))
  (tiles : list Tile.t) (size : Z) : GameState.t :=
  GameState.mk 1 GamePhase.Playing Owner.Player players
    (list_to_map ((fun t => (posKey (Tile.position t), t)) <$> tiles)) ∅
    20 ∅ NeutralAlignment.neutral []
    [VictoryCondition.Conquest; VictoryCondition.Sanctifier;
     VictoryCondition.ShadowAccord]
    (list_to_map
       [(VictoryCondition.Conquest, 75 # 100);
        (VictoryCondition.Sanctifier, inject_Z 6);
        (VictoryCondition.ShadowAccord, inject_Z 100);
        (VictoryCondition.RelicAscension, inject_Z 3)])
    (size, size) ∅ Aggression.normal false.

Definition actionOf (type : ActionType.t) (playerId : string)
  (target : option Position.t) (cost : option ResourceCost.t) : GameAction.t :=
  GameAction.mk "a1" type playerId 0 target None None None None cost false
    None.

(** A 3x3 map whose centre is a neutral tile of stability 3; the human
    player (Water domain, no units, no relics) owns the tile at (0,0). *)
Definition captureBoard (centre : TileType.t) (divinity : Z) : GameState.t :=
  stateOf
    [(Owner.Player,
      playerOf "p1" Owner.Player DomainType.Water divinity {[ (0, 0) ]})]
    [tileAt 0 0 TileType.Plains Owner.Player 3 0;
     tileAt 1 0 TileType.Plains Owner.Neutral 1 0;
     tileAt 0 1 TileType.Plains Owner.Neutral 1 0;
     tileAt 1 1 centre Owner.Neutral 3 0;
     tileAt 2 1 TileType.Plains Owner.Neutral 1 0;
     tileAt 1 2 TileType.Plains Owner.Neutral 1 0]
    3.

Definition captureCentre : GameAction.t :=
  actionOf ActionType.Capture "p1" (Some (Position.mk 1 1)) None.

(** The same board with a sacred well in the centre and divinity 7. *)
Definition wellBoard : GameState.t := captureBoard TileType.SacredWell 7.

Definition wellPlayer : PlayerState.t :=
  playerOf "p1" Owner.Player DomainType.Water 7 {[ (0, 0) ]}.

Definition wellTile : Tile.t :=
  tileAt 1 1 TileType.SacredWell Owner.Neutral 3 0.

End Board.

Module Board2.
Import Board.

(** Two players on a 2x1 map: the human owns (0,0); the rival AI owns
    (1,0), which already carries corruption 1. *)
Definition human : PlayerState.t :=
  playerOf "p1" Owner.Player DomainType.Water 8 {[ (0, 0) ]}.

Definition rival : PlayerState.t :=
  playerOf "p2" Owner.AI1 DomainType.Earth 6 {[ (1, 0) ]}.

Definition rivalBoard : GameState.t :=
  stateOf [(Owner.Player, human); (Owner.AI1, rival)]
    [tileAt 0 0 TileType.Plains Owner.Player 3 0;
     tileAt 1 0 TileType.Plains Owner.AI1 3 1]
    2.

(** An ancient-ruins tile of the human player with corruption 1. *)
Definition ruins : Tile.t :=
  tileAt 0 0 TileType.AncientRuins Owner.Player 3 1.

(** The human player next to a fully corrupted Shadow tile. *)
Definition shadowBoard : GameState.t :=
  stateOf [(Owner.Player, human)]
    [tileAt 0 0 TileType.Plains Owner.Player 3 0;
     tileAt 1 0 TileType.Plains Owner.Shadow 3 2]
    2.

Definition captureShadowTile : GameAction.t :=
  actionOf ActionType.Capture "p1" (Some (Position.mk 1 0)) None.

(** A Shadow tile next to a sanctified tile of the rival at corruption 1;
    every draw of the pass is 0, so every roll that is made succeeds. *)
Definition spreadBoard : GameState.t :=
  stateOf
    [(Owner.Player, human);
     (Owner.AI1,
      PlayerState.set_sanctifiedTiles {[ (1, 0) ]} rival)]
    [tileAt 0 0 TileType.Plains Owner.Shadow 3 2;
     Tile.set_domainAttunement (Some DomainType.Earth)
       (Tile.set_sanctified true
          (tileAt 1 0 TileType.Plains Owner.AI1 3 1))]
    2.

Definition alwaysZero : TileKey -> TileKey -> Q := fun _ _ => 0%Q.

(** A Shadow tile between two tiles of the rival at corruption 1: the
    Shadow tile is the only neighbour of each of them. *)
Definition twinBoard : GameState.t :=
  stateOf
    [(Owner.Player, playerOf "p1" Owner.Player DomainType.Water 8 ∅);
     (Owner.AI1,
      playerOf "p2" Owner.AI1 DomainType.Earth 6 {[ (0, 0); (2, 0) ]})]
    [tileAt 0 0 TileType.Plains Owner.AI1 3 1;
     tileAt 1 0 TileType.Plains Owner.Shadow 3 2;
     tileAt 2 0 TileType.Plains Owner.AI1 3 1]
    3.

End Board2.

Module Board3.
Import Board Board2.

(** The random draws of the examples: no event fires, every spread draw
    is 0. *)
Definition quiet : GameEngine.Oracle :=
  GameEngine.mkOracle "w1" alwaysZero
    (EventSystem.mkOracle 1 0 (fun _ => 0%Q)).

Definition engineOf (s : GameState.t) : GameEngine.t :=
  GameEngine.mk s defaultGameConfig [].

Definition priced (divinity faith : option Z) : option ResourceCost.t :=
  Some (ResourceCost.mk divinity faith None).

(** The human player fortifies the tile at (0,0) and names 3 divinity as
    the cost. *)
Definition fortifyHome : GameAction.t :=
  actionOf ActionType.ManageFortify "p1" (Some (Position.mk 0 0))
    (priced (Some 3) None).

(** The same request naming 1 divinity and 1 faith. *)
Definition fortifyHomeForFaith : GameAction.t :=
  actionOf ActionType.ManageFortify "p1" (Some (Position.mk 0 0))
    (priced (Some 1) (Some 1)).

(** A request by somebody who is not the current player. *)
Definition fortifyByRival : GameAction.t :=
  actionOf ActionType.ManageFortify "p2" (Some (Position.mk 0 0))
    (priced (Some 3) None).

(** The two-player board with both tiles revealed: each player owns half
    of the revealed tiles and no victory or defeat condition is met. *)
Definition openBoard : GameState.t :=
  GameState.set_revealedTiles {[ (0, 0); (1, 0) ]} rivalBoard.

(** The same board after somebody has won. *)
Definition wonBoard : GameState.t :=
  GameState.set_phase GamePhase.Victory openBoard.

(** The open board with a human player who holds 2 faith. *)
Definition faithfulBoard : GameState.t :=
  updatePlayer Owner.Player (PlayerState.set_faith 2) openBoard.

End Board3.

Module Board4.
Import Board.

(** An AI player with 1 divinity left, whose explorer still has a move
    point and stands next to a tile it has not seen. *)
Definition scout : Unit.t :=
  Unit.mk "u1" UnitType.Explorer Owner.AI1 (Position.mk 0 0) 1 3 1 [] ∅ 0.

Definition scoutPlayer : PlayerState.t :=
  PlayerState.set_units [scout]
    (playerOf "p2" Owner.AI1 DomainType.Earth 1 {[ (0, 0) ]}).

Definition scoutBoard : GameState.t :=
  GameState.set_currentPlayer Owner.AI1
    (GameState.set_units {[ "u1"%string := scout ]}
       (stateOf [(Owner.AI1, scoutPlayer)]
          [Tile.set_visibility TileVisibility.Visible
             (tileAt 0 0 TileType.Plains Owner.AI1 5 0);
           tileAt 1 0 TileType.Plains Owner.Neutral 1 0]
          2)).

End Board4.

(* ================================================================== *)
(** * The object graph the engine saves                                *)
(* ================================================================== *)

(** The graph [exportState] hands to [JSON.stringify], built from the
    engine's state, configuration and action log.  Enum members are their
    string values (src/types/game.ts); an optional property that is not
    set holds [undefined].  The graph of the state and of a player is cut
    down to the properties listed here: [JSON.stringify] serializes every
    property on its own, so the properties left out (tiles, units, relics,
    miracles, global events and the settings) change nothing about the
    ones kept. *)
Module SaveGame.
Import Json.

Definition ownerName (o : Owner.t) : string :=
  match o with
  | Owner.Neutral => "neutral"
  | Owner.Player => "player"
  | Owner.AI1 => "ai1"
  | Owner.AI2 => "ai2"
  | Owner.AI3 => "ai3"
  | Owner.Shadow => "shadow"
  end.

Definition phaseName (p : GamePhase.t) : string :=
  match p with
  | GamePhase.Setup => "setup"
  | GamePhase.Playing => "playing"
  | GamePhase.Victory => "victory"
  | GamePhase.Defeat => "defeat"
  end.

Definition conditionName (c : VictoryCondition.t) : string :=
  match c with
  | VictoryCondition.Conquest => "conquest"
  | VictoryCondition.Sanctifier => "sanctifier"
  | VictoryCondition.ShadowAccord => "shadow_accord"
  | VictoryCondition.RelicAscension => "relic_ascension"
  end.

Definition actionName (a : ActionType.t) : string :=
  match a with
  | ActionType.Explore => "explore"
  | ActionType.Move => "move"
  | ActionType.Capture => "capture"
  | ActionType.ManageFortify => "manage_fortify"
  | ActionType.ManagePurify => "manage_purify"
  | ActionType.ManageBuildShrine => "manage_build_shrine"
  | ActionType.ManageRepair => "manage_repair"
  | ActionType.Sanctify => "sanctify"
  | ActionType.SummonUnit => "summon_unit"
  | ActionType.UseAbility => "use_ability"
  | ActionType.UseMiracle => "use_miracle"
  | ActionType.EndTurn => "end_turn"
  end.

(** The template string [`${x},${y}`]. *)
Definition tileKeyName (k : TileKey) : string :=
  pretty k.1 +:+ "," +:+ pretty k.2.

Definition num (z : Z) : value := Num (Finite (inject_Z z)).

Definition frac (q : Q) : value := Num (Finite q).

(** An optional property: [undefined] when it is not set. *)
Definition optional {A} (f : A -> value) (x : option A) : value :=
  from_option f Undefined x.

(** A progress figure is a JS number; the division by zero of the conquest
    check leaves [Infinity] or [NaN] there. *)
Definition progressNumber (p : Progress) : value :=
  match p with
  | Pct q => Num (Finite q)
  | PctInfinity => Num Infinity
  | PctNaN => Num NaN
  end.

Definition keySet (keys : gset TileKey) : value :=
  SetV ((fun k => Str (tileKeyName k)) <$> elements keys).

Definition positionGraph (p : Position.t) : value :=
  Obj [("x", num (Position.x p)); ("y", num (Position.y p))].

Definition costGraph (c : ResourceCost.t) : value :=
  Obj [("divinity", optional num (ResourceCost.divinity c));
       ("faith", optional num (ResourceCost.faith c));
       ("shadowEnergy", optional num (ResourceCost.shadowEnergy c))].

Definition actionGraph (a : GameAction.t) : value :=
  Obj [("id", Str (GameAction.id a));
       ("type", Str (actionName (GameAction.type a)));
       ("playerId", Str (GameAction.playerId a));
       ("timestamp", num (GameAction.timestamp a));
       ("targetTile", optional positionGraph (GameAction.targetTile a));
       ("targetUnit", optional Str (GameAction.targetUnit a));
       ("unitId", optional Str (GameAction.unitId a));
       ("abilityId", optional Str (GameAction.abilityId a));
       ("miracleId", optional Str (GameAction.miracleId a));
       ("cost", optional costGraph (GameAction.cost a));
       ("success", Bool (GameAction.success a));
       ("message", optional Str (GameAction.message a))].

Definition playerGraph (p : PlayerState.t) : value :=
  Obj [("id", Str (PlayerState.id p));
       ("name", Str (PlayerState.name p));
       ("owner", Str (ownerName (PlayerState.owner p)));
       ("isAI", Bool (PlayerState.isAI p));
       ("divinity", num (PlayerState.divinity p));
       ("faith", num (PlayerState.faith p));
       ("shadowEnergy", num (PlayerState.shadowEnergy p));
       ("aegis", num (PlayerState.aegis p));
       ("ownedTiles", keySet (PlayerState.ownedTiles p));
       ("sanctifiedTiles", keySet (PlayerState.sanctifiedTiles p));
       ("victoryProgress",
        MapV ((fun e => (Str (conditionName e.1), progressNumber e.2))
                <$> map_to_list (PlayerState.victoryProgress p)));
       ("capturedThisTurn", num (PlayerState.capturedThisTurn p));
       ("sanctifiedThisTurn", num (PlayerState.sanctifiedThisTurn p))].

Definition stateGraph (s : GameState.t) : value :=
  Obj [("turn", num (GameState.turn s));
       ("phase", Str (phaseName (GameState.phase s)));
       ("currentPlayer", Str (ownerName (GameState.currentPlayer s)));
       ("players",
        MapV ((fun e => (Str (ownerName e.1), playerGraph e.2))
                <$> GameState.players s));
       ("shadowInfluence", num (GameState.shadowInfluence s));
       ("shadowAlignmentMeter",
        MapV ((fun e => (Str (ownerName e.1), num e.2))
                <$> map_to_list (GameState.shadowAlignmentMeter s)));
       ("victoryConditions",
        SetV ((fun c => Str (conditionName c))
                <$> GameState.victoryConditions s));
       ("victoryThresholds",
        MapV ((fun e => (Str (conditionName e.1), frac e.2))
                <$> map_to_list (GameState.victoryThresholds s)));
       ("mapSize",
        Obj [("width", num (GameState.mapSize s).1);
             ("height", num (GameState.mapSize s).2)]);
       ("revealedTiles", keySet (GameState.revealedTiles s));
       ("encircleRule", Bool (GameState.encircleRule s))].

Definition configGraph (c : GameConfig.t) : value :=
  Obj [("baseDivinity", num (GameConfig.baseDivinity c));
       ("captureBaseCost", num (GameConfig.captureBaseCost c));
       ("sanctifyBaseCost", num (GameConfig.sanctifyBaseCost c));
       ("manageCosts",
        Obj [("fortify", num (GameConfig.fortifyCost c));
             ("purify", num (GameConfig.purifyCost c));
             ("buildShrine", num (GameConfig.buildShrineCost c));
             ("repair", num (GameConfig.repairCost c))]);
       ("stabilityCap", num (GameConfig.stabilityCap c));
       ("shadowSpread",
        let w := GameConfig.shadowSpread c in
        Obj [("base", frac (ShadowSpreadConfig.base w));
             ("perCorruptedNeighbor",
              frac (ShadowSpreadConfig.perCorruptedNeighbor w));
             ("perSanctifiedNeighbor",
              frac (ShadowSpreadConfig.perSanctifiedNeighbor w));
             ("wardenAdjacent", frac (ShadowSpreadConfig.wardenAdjacent w));
             ("orderOwner", frac (ShadowSpreadConfig.orderOwner w));
             ("min", frac (ShadowSpreadConfig.min w));
             ("max", frac (ShadowSpreadConfig.max w))]);
       ("victoryThresholds",
        Obj [("conquest", frac (GameConfig.conquest c));
             ("sanctifySites", num (GameConfig.sanctifySites c));
             ("shadowAccord", num (GameConfig.shadowAccord c));
             ("relicCount", num (GameConfig.relicCount c))])].

Definition historyGraph (actions : list GameAction.t) : value :=
  Arr (actionGraph <$> actions).

(** [engine.exportState()]. *)
Definition export (fuel : nat) (e : GameEngine.t) : out :=
  exportState fuel (stateGraph (GameEngine.state e))
    (configGraph (GameEngine.config e))
    (historyGraph (GameEngine.actionHistory e)).

(** [state.players.get(owner).victoryProgress.get(condition)], read off a
    state graph. *)
Definition progressOf (owner : Owner.t) (condition : VictoryCondition.t)
  (state : value) : value :=
  mapGet (Str (conditionName condition))
    (prop "victoryProgress"
       (mapGet (Str (ownerName owner)) (prop "players" state))).

End SaveGame.

Module Board5.
Import Board Board2 Board3.

(** The human player has fortified on the two-player board on which no
    tile has been revealed yet. *)
Definition unrevealed : GameEngine.t :=
  (GameEngine.executeAction quiet (engineOf rivalBoard) fortifyHome).2.

(** The same on the board with both tiles revealed. *)
Definition revealed : GameEngine.t :=
  (GameEngine.executeAction quiet (engineOf openBoard) fortifyHome).2.

End Board5.

(* ================================================================== *)
(** * What the statements about the board observe                      *)
(* ================================================================== *)

Module BoardView.

(** The indexes the players carry agree with the board: a player object is
    stored under its own [owner], which is one of the four player owners;
    its [ownedTiles] are the keys of the tiles whose [owner] it is, and
    its [sanctifiedTiles] the keys of those of them that are sanctified. *)
Definition indexed (s : GameState.t) : Prop :=
  forall o p,
    getPlayer s o = Some p ->
    isPlayerOwner o = true
    /\ PlayerState.owner p = o
    /\ (forall k,
           k ∈ PlayerState.ownedTiles p
           <-> exists tile,
                 GameState.tiles s !! k = Some tile /\ Tile.owner tile = o)
    /\ (forall k,
           k ∈ PlayerState.sanctifiedTiles p
           <-> exists tile,
                 GameState.tiles s !! k = Some tile
                 /\ Tile.owner tile = o /\ Tile.sanctified tile = true).

(** The keys of the tiles that are still Hidden. *)
Definition hiddenTiles (s : GameState.t) : gset TileKey :=
  dom (filter (fun kt => Tile.visibility kt.2 = TileVisibility.Hidden)
         (GameState.tiles s)).

End BoardView.

Module Board6.
Import Board Board2 Board3.

(** The spread scene with the indexes in order: a Shadow tile next to the
    rival's sanctified tile at corruption 1; the human player owns
    nothing. *)
Definition frontier : GameState.t :=
  stateOf
    [(Owner.Player, playerOf "p1" Owner.Player DomainType.Water 8 ∅);
     (Owner.AI1, PlayerState.set_sanctifiedTiles {[ (1, 0) ]} rival)]
    [tileAt 0 0 TileType.Plains Owner.Shadow 3 2;
     Tile.set_domainAttunement (Some DomainType.Earth)
       (Tile.set_sanctified true
          (tileAt 1 0 TileType.Plains Owner.AI1 3 1))]
    2.

(** The human player asks for the rival's tile, and for the home tile to
    be sanctified. *)
Definition captureRival : GameAction.t :=
  actionOf ActionType.Capture "p1" (Some (Position.mk 1 0)) None.

Definition sanctifyHome : GameAction.t :=
  actionOf ActionType.Sanctify "p1" (Some (Position.mk 0 0)) None.

(** The scout of the AI player is sent one tile to the east. *)
Definition scoutMove : GameAction.t :=
  GameAction.mk "a2" ActionType.Move "p2" 0 (Some (Position.mk 1 0)) None
    (Some "u1"%string) None None None false None.

(** The human player asks for the rival's tile to be purified. *)
Definition purifyRival : GameAction.t :=
  actionOf ActionType.ManagePurify "p1" (Some (Position.mk 1 0)) None.

(** The scout board with a Wight of the AI player that has been alive for
    one turn. *)
Definition wight : Unit.t :=
  Unit.mk "w1" UnitType.Wight Owner.AI1 (Position.mk 0 0) 0 2 1 [] ∅ 1.

Definition hauntedBoard : GameState.t :=
  GameState.set_units
    {[ "u1"%string := Board4.scout; "w1"%string := wight ]}
    (updatePlayer Owner.AI1 (PlayerState.set_units [Board4.scout; wight])
       Board4.scoutBoard).

End Board6.

(** What the statements about the turn order and the events observe. *)
Module TurnView.
Import TurnSystem.

(** [n] calls of [advanceToNextPlayer] in a row. *)
Fixpoint advanceTimes (n : nat) (s : GameState.t) : option GameState.t :=
  match n with
  | O => Some s
  | S n => advanceToNextPlayer s ≫= advanceTimes n
  end.

(** The currencies and the turn counters of a player. *)
Definition ledger (p : PlayerState.t) : Z * Z * Z * Z * Z * Z :=
  (PlayerState.divinity p, PlayerState.faith p, PlayerState.shadowEnergy p,
   PlayerState.aegis p, PlayerState.capturedThisTurn p,
   PlayerState.sanctifiedThisTurn p).

End TurnView.

Module EventView.

(** What [n] calls of [processEvents] make of one event. *)
Definition aged (n : nat) (event : GlobalEvent.t) : option GlobalEvent.t :=
  if (n =? 0)%nat || (Z.of_nat n <=? GlobalEvent.duration event)
  then Some (GlobalEvent.set_duration
               (GlobalEvent.duration event - Z.of_nat n) event)
  else None.

End EventView.

(** What the statements about the fog of war observe. *)
Module FogView.
Import FogOfWarSystem.

(** The tile [k] is within the perception radius of one of the player's
    units, or is one of the player's sanctified tiles. *)
Definition inSight (s : GameState.t) (player : PlayerState.t) (k : TileKey)
  : Prop :=
  (exists unit,
      unit ∈ PlayerState.units player
      /\ k ∈ getTilesInRadius (Position.x (Unit.position unit))
               (Position.y (Unit.position unit))
               (calculateUnitPerception unit s) s)
  \/ k ∈ PlayerState.sanctifiedTiles player.

(** The visibility of the tile stored under [k], if there is one. *)
Definition visibilityAt (s : GameState.t) (k : TileKey)
  : option TileVisibility.t :=
  Tile.visibility <$> GameState.tiles s !! k.

End FogView.

(** What the statements about the victory evaluator observe. *)
Module VictoryView.

(** [progress.get(condition)] on the Map [getVictoryProgress] returns. *)
Definition progressGet (condition : VictoryCondition.t)
  (progress : list (VictoryCondition.t * Progress)) : option Progress :=
  snd <$> List.find (fun entry => bool_decide (entry.1 = condition)) progress.

End VictoryView.

(** What the statements about the choice of the AI observe. *)
Module AIScores.
Import AIController.

(** The candidates of one call of [selectBestAction], in the order of
    their generation, with the weighted scores the sort compares. *)
Definition scored (rnd : Oracle) (s : GameState.t) (player : PlayerState.t)
  : list Candidate :=
  applyPersonalityWeights player
    (imap
       (fun n candidate =>
          mkCandidate (action candidate)
            (calculateUtility (jitter rnd n) s player (action candidate)))
       (generateCandidates rnd s player)).

End AIScores.

(* ================================================================== *)
(** * Properties                                                       *)
(* ================================================================== *)

(** ** The player table and the tile map under in-place edits *)

Lemma players_get_update ps o o' f :
  players_get (players_update ps o f) o'
  = if decide (o = o') then f <$> players_get ps o' else players_get ps o'.
Proof.
  induction ps as [|[k p] ps IH]; simpl; [by case_decide|].
  destruct (decide (k = o)) as [->|Hko]; simpl;
    destruct (decide (o = o')) as [->|Hne]; simpl;
    repeat (case_decide; simpl; subst); try congruence; try done;
    rewrite IH; case_decide; congruence.
Qed.

Lemma getPlayer_updatePlayer s o o' f :
  getPlayer (updatePlayer o f s) o'
  = if decide (o = o') then f <$> getPlayer s o' else getPlayer s o'.
Proof. apply players_get_update. Qed.

Lemma getPlayer_updateTile s k f o :
  getPlayer (updateTile k f s) o = getPlayer s o.
Proof. reflexivity. Qed.

Lemma tiles_updatePlayer s o f :
  GameState.tiles (updatePlayer o f s) = GameState.tiles s.
Proof. reflexivity. Qed.

Lemma tiles_updateTile s k f k' :
  GameState.tiles (updateTile k f s) !! k'
  = if decide (k = k') then f <$> GameState.tiles s !! k'
    else GameState.tiles s !! k'.
Proof.
  unfold updateTile; simpl. rewrite lookup_alter.
  case_decide; by subst.
Qed.

Lemma playerField_updatePlayer {A} (g : PlayerState.t -> A) s o o' f :
  (forall p, g (f p) = g p) ->
  playerField g (updatePlayer o f s) o' = playerField g s o'.
Proof.
  intros Hf. unfold playerField. rewrite getPlayer_updatePlayer.
  case_decide; [|done]. destruct (getPlayer s o'); simpl; by rewrite ?Hf.
Qed.

(** ** Counting folds *)

Lemma fold_left_count {A} (P : A -> bool) (l : list A) (n : Z) :
  fold_left (fun c a => if P a then c + 1 else c) l n
  = n + Z.of_nat (length (List.filter P l)).
Proof.
  revert n. induction l as [|a l IH]; intros n; simpl; [lia|].
  rewrite IH. destruct (P a); simpl; lia.
Qed.

Lemma fold_left_ext_in {A B} (f g : B -> A -> B) (l : list A) (b : B) :
  (forall b a, f b a = g b a) -> fold_left f l b = fold_left g l b.
Proof.
  intros H. revert b. induction l as [|a l IH]; intros b; simpl; [done|].
  by rewrite H, IH.
Qed.

Module CaptureFacts.
Import CaptureSystem.

Lemma calculateAdjacencyBonus_spec s player tile :
  calculateAdjacencyBonus s player tile
  = adjacencyBonus_spec (ownedNeighborCount s player tile).
Proof.
  unfold calculateAdjacencyBonus, adjacencyBonus_spec, ownedNeighborCount.
  set (nbs := getNeighbors _ _ _).
  rewrite (fold_left_ext_in _
             (fun c k =>
                if match GameState.tiles s !! k with
                   | Some nb =>
                       bool_decide (Tile.owner nb = PlayerState.owner player)
                   | None => false
                   end
                then c + 1 else c)).
  - rewrite fold_left_count, Z.add_0_l.
    repeat case_decide; repeat (case_match; try lia); lia.
  - intros c k. destruct (GameState.tiles s !! k) as [nb|]; [|done].
    destruct (decide (Tile.owner nb = PlayerState.owner player)).
    + by rewrite bool_decide_eq_true_2.
    + by rewrite bool_decide_eq_false_2.
Qed.

Lemma calculateUnitSupport_spec s player tile :
  calculateUnitSupport s player tile = unitSupport_spec player tile.
Proof.
  unfold calculateUnitSupport, unitSupport_spec.
  rewrite (fold_left_ext_in _
             (fun c u =>
                if isSupportUnit u
                   && bool_decide
                        (manhattan (Unit.position u) (Tile.position tile) = 1)
                then c + 1 else c)).
  - by rewrite fold_left_count, Z.add_0_l.
  - intros c u. unfold isSupportUnit, manhattan.
    destruct (Unit.type u); simpl; try done.
    destruct (Z.eqb_spec
                (Z.abs (Position.x (Unit.position u)
                        - Position.x (Tile.position tile))
                 + Z.abs (Position.y (Unit.position u)
                          - Position.y (Tile.position tile))) 1) as [E|E].
    + by rewrite bool_decide_eq_true_2.
    + by rewrite bool_decide_eq_false_2.
Qed.

(** The nested [forEach] over relics and their passive modifiers adds up
    the capture-cost modifier values. *)
Lemma passive_fold (ms : list GameModifier.t) (c : Q) :
  (fold_left
     (fun cost modifier =>
        match GameModifier.type modifier with
        | ModifierType.capture_cost =>
            (cost + inject_Z (GameModifier.value modifier))%Q
        | _ => cost
        end) ms c
   == c + inject_Z
            (sumZ (GameModifier.value <$>
                   List.filter
                     (fun m =>
                        bool_decide
                          (GameModifier.type m = ModifierType.capture_cost))
                     ms)))%Q.
Proof.
  revert c. induction ms as [|m ms IH]; intros c; simpl.
  - unfold sumZ; simpl. change (inject_Z 0) with 0%Q. ring.
  - rewrite IH. destruct (GameModifier.type m) eqn:E; simpl;
      try reflexivity.
    unfold sumZ, fmap; simpl. rewrite inject_Z_plus. ring.
Qed.

Lemma sumZ_app (l1 l2 : list Z) : sumZ (l1 ++ l2) = sumZ l1 + sumZ l2.
Proof. unfold sumZ. induction l1; simpl; lia. Qed.

Lemma relic_fold (rs : list Relic.t) (c : Q) :
  (fold_left
     (fun cost relic =>
        match Relic.passive relic with
        | Some passive =>
            fold_left
              (fun cost modifier =>
                 match GameModifier.type modifier with
                 | ModifierType.capture_cost =>
                     (cost + inject_Z (GameModifier.value modifier))%Q
                 | _ => cost
                 end)
              passive cost
        | None => cost
        end) rs c
   == c + inject_Z
            (sumZ (GameModifier.value <$>
                   List.filter
                     (fun m =>
                        bool_decide
                          (GameModifier.type m = ModifierType.capture_cost))
                     (concat (default [] <$> (Relic.passive <$> rs))))))%Q.
Proof.
  revert c. induction rs as [|r rs IH]; intros c.
  - simpl. change (inject_Z (sumZ [])) with 0%Q. ring.
  - cbn [fold_left]. rewrite IH, !fmap_cons. cbn [concat].
    rewrite List.filter_app, fmap_app, sumZ_app, inject_Z_plus.
    destruct (Relic.passive r) as [ms|]; cbn [default from_option id].
    + rewrite passive_fold. ring.
    + change (inject_Z (sumZ (GameModifier.value <$> List.filter _ [])))
        with 0%Q. ring.
Qed.

Lemma calculateCaptureCost_spec config s player tile :
  calculateCaptureCost config s player tile = cost_spec config s player tile.
Proof.
  unfold calculateCaptureCost, cost_spec. f_equal.
  apply Qfloor_comp. rewrite relic_fold.
  rewrite calculateAdjacencyBonus_spec, calculateUnitSupport_spec.
  unfold relicCaptureModifiers, corruptionPenalty_spec.
  destruct (Z.ltb_spec 0 (Tile.corruption tile));
    case_decide; try lia; ring.
Qed.

End CaptureFacts.

Lemma tileField_updateTile {A} (g : Tile.t -> A) s k f k' :
  (forall t, g (f t) = g t) ->
  g <$> GameState.tiles (updateTile k f s) !! k'
  = g <$> GameState.tiles s !! k'.
Proof.
  intros Hf. rewrite tiles_updateTile. case_decide; [|done].
  destruct (GameState.tiles s !! k'); simpl; by rewrite ?Hf.
Qed.

Module CaptureScenario.
Import CaptureSystem CaptureFacts.

(** What the first-capture tile event adds to the acting player's divinity:
    the sacred-well blessing, once. *)
Definition tileEventDivinity (tile : Tile.t) : Z :=
  if negb (Tile.eventTriggered tile)
     && bool_decide (Tile.type tile = TileType.SacredWell)
  then 2 else 0.

Lemma applyDomainCaptureEffects_divinity uuid cur player tile k s :
  playerField PlayerState.divinity
    (applyDomainCaptureEffects uuid cur player tile k s) cur
  = playerField PlayerState.divinity s cur.
Proof.
  unfold applyDomainCaptureEffects, spawnWight.
  destruct (PlayerState.domain player); try done.
  - by apply playerField_updatePlayer.
  - by apply (playerField_updatePlayer PlayerState.divinity).
Qed.

Lemma applyDomainCaptureEffects_tile {A} (g : Tile.t -> A)
  uuid cur player tile k s k' :
  (forall v t, g (Tile.set_stability v t) = g t) ->
  g <$> GameState.tiles (applyDomainCaptureEffects uuid cur player tile k s)
        !! k'
  = g <$> GameState.tiles s !! k'.
Proof.
  intros Hg. unfold applyDomainCaptureEffects, spawnWight.
  destruct (PlayerState.domain player); try done.
  by apply tileField_updateTile.
Qed.

Lemma triggerTileEvents_divinity cur player k s tile :
  GameState.tiles s !! k = Some tile ->
  playerField PlayerState.divinity (triggerTileEvents cur player k s) cur
  = (fun d => d + tileEventDivinity tile)
      <$> playerField PlayerState.divinity s cur.
Proof.
  intros Ht. unfold triggerTileEvents, tileEventDivinity. rewrite Ht.
  assert (Hid : forall o : option Z, o = (fun d => d + 0) <$> o).
  { intros [d|]; simpl; [f_equal; lia|done]. }
  destruct (Tile.eventTriggered tile); simpl; [apply Hid|].
  destruct (Tile.type tile); simpl; try apply Hid.
  - unfold playerField. rewrite getPlayer_updateTile, getPlayer_updatePlayer.
    rewrite decide_True by done. by destruct (getPlayer s cur).
  - destruct (_ <? _); unfold playerField;
      repeat (rewrite getPlayer_updateTile || rewrite getPlayer_updatePlayer);
      rewrite ?decide_True by done; destruct (getPlayer s cur); simpl;
      try done; f_equal; lia.
Qed.

Lemma triggerTileEvents_owner cur player k s k' :
  Tile.owner <$> GameState.tiles (triggerTileEvents cur player k s) !! k'
  = Tile.owner <$> GameState.tiles s !! k'.
Proof.
  unfold triggerTileEvents.
  destruct (GameState.tiles s !! k) as [tile|]; [|done].
  destruct (Tile.eventTriggered tile); [done|].
  destruct (Tile.type tile); try done;
    rewrite ?(tileField_updateTile Tile.owner) by done; try done.
  destruct (_ <? _); by rewrite ?(tileField_updateTile Tile.owner) by done.
Qed.

Lemma transferTile_static newOwner tile :
  Tile.owner (transferTile newOwner tile) = newOwner
  /\ Tile.type (transferTile newOwner tile) = Tile.type tile
  /\ Tile.eventTriggered (transferTile newOwner tile)
     = Tile.eventTriggered tile.
Proof.
  unfold transferTile; simpl.
  destruct (Tile.sanctified tile); simpl; [|done].
  by destruct (0 <? Tile.divinityYield tile).
Qed.

(** A legal, affordable capture: the result, the acting player's divinity
    and the new owner of the tile. *)
Lemma executeCapture_success config uuid s action target player tile :
  GameAction.targetTile action = Some target ->
  getPlayer s (GameState.currentPlayer s) = Some player ->
  GameState.tiles s !! posKey target = Some tile ->
  Tile.impassable tile = false ->
  Tile.owner tile <> PlayerState.owner player ->
  calculateCaptureCost config s player tile <= PlayerState.divinity player ->
  exists s' action',
    executeCapture config uuid s action = (true, s', action')
    /\ playerField PlayerState.divinity s' (GameState.currentPlayer s)
       = Some (PlayerState.divinity player
               - calculateCaptureCost config s player tile
               + tileEventDivinity tile)
    /\ Tile.owner <$> GameState.tiles s' !! posKey target
       = Some (PlayerState.owner player).
Proof.
  intros Htarget Hplayer Htile Himp Hown Hcost.
  unfold executeCapture. rewrite Htarget, Hplayer, Htile, Himp.
  rewrite decide_False by done.
  destruct (Z.ltb_spec (PlayerState.divinity player)
              (calculateCaptureCost config s player tile)) as [?|_]; [lia|].
  set (cost := calculateCaptureCost config s player tile).
  set (cur := GameState.currentPlayer s) in *.
  set (k := posKey target) in *.
  match goal with
  | |- context [updateTile k _ ?s0] => set (s1 := s0)
  end.
  match goal with
  | |- context [applyDomainCaptureEffects _ _ _ _ _ ?s0] => set (s3 := s0)
  end.
  set (s4 := applyDomainCaptureEffects uuid cur player tile k s3).
  eexists _, _. split; [reflexivity|].
  assert (Hd1 : playerField PlayerState.divinity s1 cur
                = Some (PlayerState.divinity player)).
  { subst s1. destruct (isPlayerOwner (Tile.owner tile)).
    - rewrite playerField_updatePlayer by done.
      unfold playerField. by rewrite Hplayer.
    - unfold playerField. by rewrite Hplayer. }
  assert (Hd3 : playerField PlayerState.divinity s3 cur
                = Some (PlayerState.divinity player - cost)).
  { subst s3. unfold playerField in *.
    rewrite getPlayer_updatePlayer, decide_True by done.
    rewrite getPlayer_updateTile.
    destruct (getPlayer s1 cur) as [p1|]; simpl in *; [|done].
    congruence. }
  assert (Ht3 : GameState.tiles s3 !! k
                = Some (transferTile (PlayerState.owner player) tile)).
  { subst s3. rewrite tiles_updatePlayer, tiles_updateTile.
    rewrite decide_True by done.
    subst s1. destruct (isPlayerOwner (Tile.owner tile));
      rewrite ?tiles_updatePlayer, Htile; done. }
  destruct (transferTile_static (PlayerState.owner player) tile)
    as (Ho & Hty & Hev).
  assert (Ht4 : exists t4, GameState.tiles s4 !! k = Some t4
                           /\ Tile.type t4 = Tile.type tile
                           /\ Tile.eventTriggered t4
                              = Tile.eventTriggered tile
                           /\ Tile.owner t4 = PlayerState.owner player).
  { pose proof (applyDomainCaptureEffects_tile Tile.type uuid cur player
                  tile k s3 k (fun _ _ => eq_refl)) as H1.
    pose proof (applyDomainCaptureEffects_tile Tile.eventTriggered uuid cur
                  player tile k s3 k (fun _ _ => eq_refl)) as H2.
    pose proof (applyDomainCaptureEffects_tile Tile.owner uuid cur
                  player tile k s3 k (fun _ _ => eq_refl)) as H3.
    fold s4 in H1, H2, H3. rewrite Ht3 in H1, H2, H3.
    destruct (GameState.tiles s4 !! k) as [t4|]; simpl in *; [|done].
    exists t4. repeat split; congruence. }
  destruct Ht4 as (t4 & Ht4 & Hty4 & Hev4 & Ho4).
  split.
  - rewrite (triggerTileEvents_divinity _ _ _ _ t4 Ht4).
    subst s4. rewrite applyDomainCaptureEffects_divinity, Hd3. simpl.
    unfold tileEventDivinity. by rewrite Hty4, Hev4.
  - rewrite triggerTileEvents_owner, Ht4. simpl. by rewrite Ho4.
Qed.

(** An unaffordable capture is refused and nothing is mutated. *)
Lemma executeCapture_insufficient config uuid s action target player tile :
  GameAction.targetTile action = Some target ->
  getPlayer s (GameState.currentPlayer s) = Some player ->
  GameState.tiles s !! posKey target = Some tile ->
  PlayerState.divinity player < calculateCaptureCost config s player tile ->
  exists action', executeCapture config uuid s action = (false, s, action').
Proof.
  intros Htarget Hplayer Htile Hcost.
  unfold executeCapture. rewrite Htarget, Hplayer, Htile.
  destruct (Tile.impassable tile); [by eexists|].
  case_decide; [by eexists|].
  destruct (Z.ltb_spec (PlayerState.divinity player)
              (calculateCaptureCost config s player tile)); [|lia].
  by eexists.
Qed.

End CaptureScenario.

Module CaptureClaim.
Import CaptureSystem CaptureFacts CaptureScenario.

(** C1 (as amended).  The capture cost is
    max(1, floor(base + stability - adjacencyBonus + domainModifier
    - unitSupport + corruptionPenalty + sum of relic capture-cost
    modifiers)), with adjacencyBonus 2 / 1 / 0 for at least 4 / at least 2 /
    fewer owned orthogonal neighbours, corruptionPenalty 1 exactly when
    corruption > 0 and unitSupport the number of heralds at Manhattan
    distance 1.  In the scenario (base 4, stability 3, no owned neighbour,
    no domain, unit or relic modifier, no corruption) the cost is 7; a legal
    capture with divinity 7 succeeds, transfers the tile and, unless the tile
    is a sacred well whose event has not fired yet, leaves divinity 0; with
    divinity 6 it fails and the whole state, tile ownership included, is
    unchanged. *)
Theorem capture_cost_formula_and_scenario :
  (forall config s player tile,
      calculateCaptureCost config s player tile
      = Z.max 1
          (Qfloor
             (inject_Z (GameConfig.captureBaseCost config)
              + inject_Z (Tile.stability tile)
              - inject_Z
                  (adjacencyBonus_spec (ownedNeighborCount s player tile))
              + getDomainCaptureModifier (PlayerState.domain player) tile
              - inject_Z (unitSupport_spec player tile)
              + inject_Z (corruptionPenalty_spec tile)
              + inject_Z (sumZ (relicCaptureModifiers player)))%Q))
  /\ (forall config uuid s action target player tile,
         GameAction.targetTile action = Some target ->
         getPlayer s (GameState.currentPlayer s) = Some player ->
         GameState.tiles s !! posKey target = Some tile ->
         Tile.impassable tile = false ->
         Tile.owner tile <> PlayerState.owner player ->
         GameConfig.captureBaseCost config = 4 ->
         Tile.stability tile = 3 ->
         ownedNeighborCount s player tile = 0 ->
         getDomainCaptureModifier (PlayerState.domain player) tile = 0%Q ->
         unitSupport_spec player tile = 0 ->
         relicCaptureModifiers player = [] ->
         Tile.corruption tile = 0 ->
         calculateCaptureCost config s player tile = 7
         /\ (PlayerState.divinity player = 7 ->
             (Tile.type tile = TileType.SacredWell ->
              Tile.eventTriggered tile = true) ->
             exists s' action',
               executeCapture config uuid s action = (true, s', action')
               /\ playerField PlayerState.divinity s'
                    (GameState.currentPlayer s) = Some 0
               /\ Tile.owner <$> GameState.tiles s' !! posKey target
                  = Some (PlayerState.owner player))
         /\ (PlayerState.divinity player = 6 ->
             exists action',
               executeCapture config uuid s action = (false, s, action'))).
Proof.
  split; [exact calculateCaptureCost_spec|].
  intros config uuid s action target player tile Htarget Hplayer Htile Hpass
    Hother Hbase Hstab Hadj Hdom Hsup Hrel Hcor.
  assert (Hcost : calculateCaptureCost config s player tile = 7).
  { rewrite calculateCaptureCost_spec. unfold cost_spec.
    rewrite Hbase, Hstab, Hadj, Hdom, Hsup, Hrel.
    unfold corruptionPenalty_spec. rewrite Hcor. reflexivity. }
  split; [exact Hcost|]. split.
  - intros Hdiv Hwell.
    destruct (executeCapture_success config uuid s action target player tile)
      as (s' & action' & Hrun & Hd & Ho); try done; [lia|].
    exists s', action'. repeat split; try done.
    rewrite Hd, Hcost, Hdiv. unfold tileEventDivinity.
    destruct (Tile.eventTriggered tile); simpl; [done|].
    destruct (decide (Tile.type tile = TileType.SacredWell)) as [E|E].
    + by specialize (Hwell E).
    + by rewrite bool_decide_eq_false_2.
  - intros Hdiv.
    apply (executeCapture_insufficient config uuid s action target player
             tile); try done. lia.
Qed.

(** The scenario on a plains tile, with divinity 7 and with divinity 6. *)
Lemma capture_cost_formula_and_scenario_witness :
  (exists s' action',
      executeCapture defaultGameConfig "w1"
        (Board.captureBoard TileType.Plains 7) Board.captureCentre
      = (true, s', action')
      /\ playerField PlayerState.divinity s' Owner.Player = Some 0
      /\ Tile.owner <$> GameState.tiles s' !! (1, 1) = Some Owner.Player)
  /\ (exists action',
         executeCapture defaultGameConfig "w1"
           (Board.captureBoard TileType.Plains 6) Board.captureCentre
         = (false, Board.captureBoard TileType.Plains 6, action')).
Proof.
  split.
  - refine (proj1 (proj2 (proj2 capture_cost_formula_and_scenario
              defaultGameConfig "w1"%string
              (Board.captureBoard TileType.Plains 7) Board.captureCentre
              (Position.mk 1 1)
              (Board.playerOf "p1" Owner.Player DomainType.Water 7
                 {[ (0, 0) ]})
              (Board.tileAt 1 1 TileType.Plains Owner.Neutral 3 0)
              _ _ _ _ _ _ _ _ _ _ _ _)) _ _);
      by vm_compute.
  - refine (proj2 (proj2 (proj2 capture_cost_formula_and_scenario
              defaultGameConfig "w1"%string
              (Board.captureBoard TileType.Plains 6) Board.captureCentre
              (Position.mk 1 1)
              (Board.playerOf "p1" Owner.Player DomainType.Water 6
                 {[ (0, 0) ]})
              (Board.tileAt 1 1 TileType.Plains Owner.Neutral 3 0)
              _ _ _ _ _ _ _ _ _ _ _ _)) _);
      by vm_compute.
Defined.

(** C1 as stated fails on a sacred well: every condition of the scenario
    holds, the capture with divinity 7 succeeds, and the well's blessing
    leaves the player with divinity 2, not 0. *)
Lemma capture_scenario_sacred_well_counterexample :
  getPlayer Board.wellBoard (GameState.currentPlayer Board.wellBoard)
  = Some Board.wellPlayer
  /\ GameState.tiles Board.wellBoard !! (1, 1) = Some Board.wellTile
  /\ Tile.impassable Board.wellTile = false
  /\ Tile.owner Board.wellTile <> PlayerState.owner Board.wellPlayer
  /\ GameConfig.captureBaseCost defaultGameConfig = 4
  /\ Tile.stability Board.wellTile = 3
  /\ ownedNeighborCount Board.wellBoard Board.wellPlayer Board.wellTile = 0
  /\ getDomainCaptureModifier (PlayerState.domain Board.wellPlayer)
       Board.wellTile = 0%Q
  /\ unitSupport_spec Board.wellPlayer Board.wellTile = 0
  /\ relicCaptureModifiers Board.wellPlayer = []
  /\ Tile.corruption Board.wellTile = 0
  /\ calculateCaptureCost defaultGameConfig Board.wellBoard Board.wellPlayer
       Board.wellTile = 7
  /\ PlayerState.divinity Board.wellPlayer = 7
  /\ (executeCapture defaultGameConfig "w1" Board.wellBoard
        Board.captureCentre).1.1 = true
  /\ playerField PlayerState.divinity
       (executeCapture defaultGameConfig "w1" Board.wellBoard
          Board.captureCentre).1.2
       Owner.Player = Some 2.
Proof. by vm_compute. Qed.

End CaptureClaim.

Module ResourceClaim.
Import ResourceSystem.

(** C5 (as amended).  Granting divinity leaves it at or below 20 and
    granting shadow energy leaves it at or below 10, whatever the amount;
    granting faith adds the amount, with no cap at all. *)
Theorem grant_respects_caps_except_faith (player : PlayerState.t) (amount : Z) :
  PlayerState.divinity (grantDivinity player amount)
  <= BALANCE.MAX_DIVINITY_PER_TURN
  /\ PlayerState.shadowEnergy (grantShadowEnergy player amount)
     <= BALANCE.MAX_SHADOW_ENERGY
  /\ PlayerState.faith (grantFaith player amount)
     = PlayerState.faith player + amount.
Proof.
  unfold grantDivinity, grantShadowEnergy, grantFaith,
    BALANCE.MAX_DIVINITY_PER_TURN, BALANCE.MAX_SHADOW_ENERGY; simpl.
  repeat split; lia.
Qed.

(** C5 as stated fails for faith: no number bounds the faith of a player
    after a grant.  Granting 1000 faith to a player with none gives 1000,
    above the per-turn faith constant 10 and above any other cap. *)
Lemma grantFaith_unbounded_counterexample :
  PlayerState.faith
    (grantFaith
       (Board.playerOf "p1" Owner.Player DomainType.Water 0 ∅) 1000) = 1000
  /\ ~ (exists capDivinity capFaith capShadowEnergy : Z,
           forall player amount, 0 <= amount ->
             PlayerState.divinity (grantDivinity player amount) <= capDivinity
             /\ PlayerState.faith (grantFaith player amount) <= capFaith
             /\ PlayerState.shadowEnergy (grantShadowEnergy player amount)
                <= capShadowEnergy).
Proof.
  split; [reflexivity|].
  intros (capD & capF & capS & H).
  destruct (H (Board.playerOf "p1" Owner.Player DomainType.Water 0 ∅)
              (Z.abs capF + 1)) as (_ & Hf & _); [lia|].
  simpl in Hf. lia.
Qed.

End ResourceClaim.

(* ================================================================== *)
(** ** One corruption-spread pass                                      *)
(* ================================================================== *)

Lemma fold_left_flat_map {A B C} (f : C -> B -> C) (g : A -> list B)
  (l : list A) (c : C) :
  fold_left f (flat_map g l) c
  = fold_left (fun c a => fold_left f (g a) c) l c.
Proof.
  revert c. induction l as [|a l IH]; intros c; simpl; [done|].
  by rewrite fold_left_app, IH.
Qed.

Module SpreadFacts.
Import ShadowSystem.

Section Pass.
Variable config : GameConfig.t.
Variable random : TileKey -> TileKey -> Q.
Variable s : GameState.t.

(** One step of the scan, seen from the flattened list of visits. *)
Definition scanStep (acc : gmap TileKey Z) (v : TileKey * TileKey)
  : gmap TileKey Z :=
  if rollSucceeds config random s v.1 v.2 then
    match GameState.tiles s !! v.2 with
    | Some neighbor => bump acc v.2 neighbor
    | None => acc
    end
  else acc.

Lemma spreadTo_scanStep key acc nk :
  spreadTo config random s key acc nk = scanStep acc (key, nk).
Proof.
  unfold spreadTo, scanStep, rollSucceeds; simpl.
  destruct (GameState.tiles s !! nk) as [nb|]; [|done].
  destruct (Tile.impassable nb); [done|].
  destruct (_ && _); [done|]. by destruct (Qltb _ _).
Qed.

Lemma collectSpread_visits :
  collectSpread config random s = fold_left scanStep (visits s) ∅.
Proof.
  unfold collectSpread, visits. rewrite fold_left_flat_map.
  apply fold_left_ext_in. intros acc [key tile]; simpl.
  destruct (spreads tile); [|done].
  generalize (getNeighbors (Position.x (Tile.position tile))
                (Position.y (Tile.position tile)) s).
  intros nbs. revert acc. induction nbs as [|nk nbs IH]; intros acc; simpl.
  - done.
  - by rewrite spreadTo_scanStep, IH.
Qed.

(** On a tile of corruption 1 the accumulated level is 1 plus the number
    of successful rolls against it. *)
Lemma scan_level (k : TileKey) (tile : Tile.t) (vs : list (TileKey * TileKey)) (acc : gmap TileKey Z) :
  GameState.tiles s !! k = Some tile ->
  Tile.corruption tile = 1 ->
  (acc !! k = None \/ exists v, acc !! k = Some v /\ 2 <= v) ->
  fold_left scanStep vs acc !! k
  = match length
            (List.filter
               (fun v => rollSucceeds config random s v.1 v.2
                         && bool_decide (v.2 = k)) vs) with
    | O => acc !! k
    | S n => Some (default 1 (acc !! k) + Z.of_nat (S n))
    end.
Proof.
  intros Htile Hcor. revert acc.
  induction vs as [|[src nk] vs IH]; intros acc Hacc; [done|].
  cbn [fold_left List.filter]. unfold scanStep at 2. cbn [fst snd].
  destruct (rollSucceeds config random s src nk) eqn:Hroll; cbn [andb].
  - destruct (decide (nk = k)) as [->|Hne].
    + rewrite bool_decide_eq_true_2 by done. rewrite Htile.
      cbn [length].
      assert (Hb : bump acc k tile !! k
                   = Some (default 1 (acc !! k) + 1)).
      { unfold bump. rewrite lookup_insert_eq, Hcor.
        destruct Hacc as [->|(v & -> & Hv)]; simpl; [done|].
        destruct (Z.eqb_spec v 0); [lia|done]. }
      rewrite IH.
      * rewrite Hb. simpl default.
        destruct (length _); f_equal; lia.
      * right. eexists. split; [exact Hb|].
        destruct Hacc as [->|(v & -> & Hv)]; simpl; lia.
    + rewrite bool_decide_eq_false_2 by done.
      assert (Hk : forall acc',
                 acc' = match GameState.tiles s !! nk with
                        | Some neighbor => bump acc nk neighbor
                        | None => acc
                        end -> acc' !! k = acc !! k).
      { intros acc' ->. destruct (GameState.tiles s !! nk); [|done].
        unfold bump. by rewrite lookup_insert_ne. }
      rewrite IH; rewrite (Hk _ eq_refl); done.
  - by rewrite IH.
Qed.

Lemma collectSpread_level_two (k : TileKey) (tile : Tile.t) :
  GameState.tiles s !! k = Some tile ->
  Tile.corruption tile = 1 ->
  length (successfulRolls config random s k) = 1%nat ->
  collectSpread config random s !! k = Some 2.
Proof.
  intros Htile Hcor Hone. rewrite collectSpread_visits.
  rewrite (scan_level k tile) by (done || by left).
  unfold successfulRolls in Hone. by rewrite Hone.
Qed.

End Pass.

(** *** Applying the accumulated levels *)

Lemma applyCorruption_tiles_other s (key : TileKey) (level : Z) (k : TileKey) :
  key <> k ->
  GameState.tiles (applyCorruption s (key, level)) !! k
  = GameState.tiles s !! k.
Proof.
  intros Hne. unfold applyCorruption.
  destruct (GameState.tiles s !! key) as [tile|]; [|done].
  destruct (2 <=? _); [|by rewrite tiles_updateTile, decide_False].
  cbn [GameState.tiles GameState.set_shadowInfluence].
  destruct (isPlayerOwner (Tile.owner tile));
    rewrite ?tiles_updatePlayer, !tiles_updateTile, !decide_False; done.
Qed.

Lemma forgetTile_subseteq key p :
  PlayerState.ownedTiles (forgetTile key p) ⊆ PlayerState.ownedTiles p
  /\ PlayerState.sanctifiedTiles (forgetTile key p)
     ⊆ PlayerState.sanctifiedTiles p.
Proof. unfold forgetTile; simpl. set_solver. Qed.

(** Applying entries only ever removes keys from the players' sets. *)
Lemma applyCorruption_players s entry o p' :
  getPlayer (applyCorruption s entry) o = Some p' ->
  exists p, getPlayer s o = Some p
            /\ PlayerState.ownedTiles p' ⊆ PlayerState.ownedTiles p
            /\ PlayerState.sanctifiedTiles p' ⊆ PlayerState.sanctifiedTiles p.
Proof.
  destruct entry as [key level]. unfold applyCorruption.
  destruct (GameState.tiles s !! key) as [tile|]; [|by eauto].
  destruct (2 <=? _); [|by eauto].
  destruct (isPlayerOwner (Tile.owner tile)); [|by eauto].
  change (getPlayer (GameState.set_shadowInfluence ?v ?x) o)
    with (getPlayer x o).
  rewrite getPlayer_updatePlayer, !getPlayer_updateTile.
  case_decide; [|by eauto].
  destruct (getPlayer s o) as [p|]; simpl; [|done].
  intros Heq. simplify_eq. exists p. split; [done|]. apply forgetTile_subseteq.
Qed.

Lemma fold_applyCorruption_players l s o p' :
  getPlayer (fold_left applyCorruption l s) o = Some p' ->
  exists p, getPlayer s o = Some p
            /\ PlayerState.ownedTiles p' ⊆ PlayerState.ownedTiles p
            /\ PlayerState.sanctifiedTiles p' ⊆ PlayerState.sanctifiedTiles p.
Proof.
  revert s. induction l as [|e l IH]; intros s; simpl; [by eauto|].
  intros H. destruct (IH _ H) as (p1 & H1 & Ho1 & Hs1).
  destruct (applyCorruption_players _ _ _ _ H1) as (p & Hp & Ho & Hs).
  exists p. split; [done|]. set_solver.
Qed.

Lemma fold_applyCorruption_tiles_other (l : list (TileKey * Z)) s k :
  k ∉ l.*1 ->
  GameState.tiles (fold_left applyCorruption l s) !! k
  = GameState.tiles s !! k.
Proof.
  revert s. induction l as [|[key level] l IH]; intros s Hk; simpl; [done|].
  rewrite fmap_cons in Hk. apply not_elem_of_cons in Hk as [Hne Hk].
  rewrite IH by done. by apply applyCorruption_tiles_other.
Qed.

(** The entry of a tile whose accumulated level is 2. *)
Lemma applyCorruption_converts s (k : TileKey) (tile : Tile.t) :
  GameState.tiles s !! k = Some tile ->
  (exists tile',
      GameState.tiles (applyCorruption s (k, 2)) !! k = Some tile'
      /\ Tile.corruption tile' = 2
      /\ Tile.owner tile' = Owner.Shadow
      /\ Tile.sanctified tile' = false
      /\ Tile.domainAttunement tile' = None
      /\ Tile.stability tile' = 3)
  /\ (isPlayerOwner (Tile.owner tile) = true ->
      forall p,
        getPlayer (applyCorruption s (k, 2)) (Tile.owner tile) = Some p ->
        (k ∉ PlayerState.ownedTiles p) /\ (k ∉ PlayerState.sanctifiedTiles p)).
Proof.
  intros Htile. unfold applyCorruption. rewrite Htile.
  change (2 <=? Z.min 2 2) with true. cbn iota. split.
  - cbn [GameState.tiles GameState.set_shadowInfluence].
    eexists. split.
    + destruct (isPlayerOwner (Tile.owner tile));
        rewrite ?tiles_updatePlayer, !tiles_updateTile, !decide_True by done;
        rewrite Htile; reflexivity.
    + done.
  - intros Hown p. rewrite Hown.
    change (getPlayer (GameState.set_shadowInfluence ?v ?x) ?o)
      with (getPlayer x o).
    rewrite getPlayer_updatePlayer, decide_True by done.
    rewrite !getPlayer_updateTile.
    destruct (getPlayer s (Tile.owner tile)) as [p0|]; simpl; [|done].
    intros Heq. simplify_eq. unfold forgetTile; simpl. set_solver.
Qed.

(** The influence after applying a list of entries. *)
Lemma converts_applyCorruption s e e' :
  converts (applyCorruption s e') e = converts s e.
Proof.
  unfold converts. destruct e' as [key level].
  destruct (decide (key = e.1)) as [->|Hne].
  - unfold applyCorruption.
    destruct (GameState.tiles s !! e.1) as [tile|] eqn:Ht; [|by rewrite Ht].
    destruct (2 <=? _).
    + cbn [GameState.tiles GameState.set_shadowInfluence].
      destruct (isPlayerOwner (Tile.owner tile));
        rewrite ?tiles_updatePlayer, !tiles_updateTile, !decide_True by done;
        by rewrite Ht.
    + rewrite tiles_updateTile, decide_True by done. by rewrite Ht.
  - by rewrite applyCorruption_tiles_other.
Qed.

Lemma applyCorruption_influence s e :
  GameState.shadowInfluence (applyCorruption s e)
  = if converts s e then Z.min 100 (GameState.shadowInfluence s + 1)
    else GameState.shadowInfluence s.
Proof.
  destruct e as [key level]. unfold applyCorruption, converts; simpl.
  destruct (GameState.tiles s !! key) as [tile|]; [|done].
  destruct (Z.leb_spec 2 (Z.min 2 level)), (Z.leb_spec 2 level);
    try lia; [|done].
  simpl. by destruct (isPlayerOwner (Tile.owner tile)).
Qed.

Lemma fold_applyCorruption_influence l s :
  GameState.shadowInfluence (fold_left applyCorruption l s)
  = match length (List.filter (converts s) l) with
    | O => GameState.shadowInfluence s
    | S n => Z.min 100 (GameState.shadowInfluence s + Z.of_nat (S n))
    end.
Proof.
  revert s. induction l as [|e l IH]; intros s; [done|].
  cbn [fold_left List.filter]. rewrite IH, applyCorruption_influence.
  rewrite (List.filter_ext _ (converts s))
    by (intros; apply converts_applyCorruption).
  destruct (converts s e); cbn [length]; [|done].
  destruct (length _); lia.
Qed.

End SpreadFacts.

Module SpreadClaim.
Import ShadowSystem SpreadFacts.

(** C6 (as amended).  In one spread pass, a tile that starts at
    corruption 1 and receives exactly one successful roll ends the pass at
    corruption 2, owned by the Shadow, with stability 3, not sanctified and
    without attunement; its key is in neither the owned nor the sanctified
    set of the player who owned it; and the pass raises the global Shadow
    influence by one per tile it converts, this tile being one of them,
    capped at 100: by exactly 1 (capped) when this tile is the only one
    converted in the pass. *)
Theorem spread_pass_converts_tile config random s (k : TileKey)
  (tile : Tile.t) :
  GameState.tiles s !! k = Some tile ->
  Tile.corruption tile = 1 ->
  length (successfulRolls config random s k) = 1%nat ->
  let s' := spreadShadow config random s in
  (exists tile',
      GameState.tiles s' !! k = Some tile'
      /\ Tile.corruption tile' = 2
      /\ Tile.owner tile' = Owner.Shadow
      /\ Tile.sanctified tile' = false
      /\ Tile.domainAttunement tile' = None
      /\ Tile.stability tile' = 3)
  /\ (isPlayerOwner (Tile.owner tile) = true ->
      forall p, getPlayer s' (Tile.owner tile) = Some p ->
                (k ∉ PlayerState.ownedTiles p)
                /\ (k ∉ PlayerState.sanctifiedTiles p))
  /\ 1 <= conversions config random s
  /\ GameState.shadowInfluence s'
     = Z.min 100 (GameState.shadowInfluence s + conversions config random s)
  /\ (conversions config random s = 1 ->
      GameState.shadowInfluence s'
      = Z.min 100 (GameState.shadowInfluence s + 1)).
Proof.
  intros Htile Hcor Hone s'.
  pose proof (collectSpread_level_two config random s k tile Htile Hcor Hone)
    as Hlevel.
  set (acc := collectSpread config random s) in *.
  assert (Hin : (k, 2) ∈ map_to_list acc) by by apply elem_of_map_to_list.
  pose proof (NoDup_fst_map_to_list acc) as Hnd.
  destruct (list_elem_of_split _ _ Hin) as (l1 & l2 & Hl).
  rewrite Hl, fmap_app, fmap_cons in Hnd. cbn [fst] in Hnd.
  apply NoDup_app in Hnd as (_ & Hl1 & Hnd2).
  apply NoDup_cons in Hnd2 as [Hl2 _].
  assert (Hk1 : k ∉ l1.*1) by (intros Hk; by apply (Hl1 k Hk); left).
  set (s1 := fold_left applyCorruption l1 s).
  assert (Ht1 : GameState.tiles s1 !! k = Some tile)
    by (subst s1; by rewrite fold_applyCorruption_tiles_other).
  destruct (applyCorruption_converts s1 k tile Ht1) as [Htile2 Hsets2].
  set (s2 := applyCorruption s1 (k, 2)) in *.
  assert (Hs' : forall A (f : GameState.t -> A),
             (forall x, f (updateNeutralAlignment x) = f x) ->
             f s' = f (fold_left applyCorruption l2 s2)).
  { intros A f Hf. subst s' s2 s1. unfold spreadShadow. fold acc.
    by rewrite Hf, Hl, fold_left_app. }
  assert (Hna : forall A (f : GameState.t -> A),
             (forall v x, f (GameState.set_neutralFactionAlignment v x) = f x)
             -> forall x, f (updateNeutralAlignment x) = f x).
  { intros A f Hf x. unfold updateNeutralAlignment.
    by repeat destruct (_ <? _). }
  assert (Hfold : fold_left applyCorruption l2 s2
                  = fold_left applyCorruption (map_to_list acc) s)
    by (by rewrite Hl, fold_left_app).
  split; [|split; [|split; [|split]]].
  - rewrite (Hs' _ (fun x => GameState.tiles x !! k))
      by (apply (Hna _ (fun x => GameState.tiles x !! k)); done).
    by rewrite fold_applyCorruption_tiles_other.
  - intros Hown p.
    rewrite (Hs' _ (fun x => getPlayer x (Tile.owner tile)))
      by (apply (Hna _ (fun x => getPlayer x (Tile.owner tile))); done).
    intros Hp.
    destruct (fold_applyCorruption_players _ _ _ _ Hp)
      as (p2 & Hp2 & Ho & Hs).
    destruct (Hsets2 Hown p2 Hp2). set_solver.
  - unfold conversions. fold acc. rewrite Hl, List.filter_app.
    cbn [List.filter]. unfold converts at 2. cbn [fst snd]. rewrite Htile.
    change (2 <=? 2) with true. rewrite length_app. cbn [length]. lia.
  - rewrite (Hs' _ GameState.shadowInfluence)
      by (apply (Hna _ GameState.shadowInfluence); done).
    rewrite Hfold, fold_applyCorruption_influence.
    unfold conversions. fold acc.
    assert (Hpos : (1 <= length (List.filter (converts s) (map_to_list acc)))
                   %nat).
    { rewrite Hl, List.filter_app. cbn [List.filter].
      unfold converts at 2. cbn [fst snd]. rewrite Htile.
      change (2 <=? 2) with true. rewrite length_app. cbn [length]. lia. }
    destruct (length (List.filter (converts s) (map_to_list acc)));
      [lia|reflexivity].
  - intros Hone'.
    rewrite (Hs' _ GameState.shadowInfluence)
      by (apply (Hna _ GameState.shadowInfluence); done).
    rewrite Hfold, fold_applyCorruption_influence.
    unfold conversions in Hone'. fold acc in Hone'.
    destruct (length (List.filter (converts s) (map_to_list acc)))
      as [|[|n]]; [lia|reflexivity|lia].
Qed.

(** The pass on a two-tile board: one Shadow tile next to a sanctified
    rival tile at corruption 1, every draw being 0. *)
Lemma spread_pass_converts_tile_witness :
  length (successfulRolls defaultGameConfig Board2.alwaysZero
            Board2.spreadBoard (1, 0)) = 1%nat
  /\ (exists tile',
         GameState.tiles
           (spreadShadow defaultGameConfig Board2.alwaysZero
              Board2.spreadBoard) !! (1, 0) = Some tile'
         /\ Tile.corruption tile' = 2
         /\ Tile.owner tile' = Owner.Shadow
         /\ Tile.sanctified tile' = false
         /\ Tile.domainAttunement tile' = None
         /\ Tile.stability tile' = 3)
  /\ GameState.shadowInfluence
       (spreadShadow defaultGameConfig Board2.alwaysZero Board2.spreadBoard)
     = Z.min 100 (GameState.shadowInfluence Board2.spreadBoard + 1).
Proof.
  split; [by vm_compute|].
  destruct (spread_pass_converts_tile defaultGameConfig Board2.alwaysZero
              Board2.spreadBoard (1, 0)
              (Tile.set_domainAttunement (Some DomainType.Earth)
                 (Tile.set_sanctified true
                    (Board.tileAt 1 0 TileType.Plains Owner.AI1 3 1))))
    as (Htile & _ & _ & _ & Hone); [by vm_compute..|].
  split; [exact Htile|]. apply Hone. by vm_compute.
Defined.

(** C6 as stated fails: the influence counts every tile the pass
    converts.  On the board with a Shadow tile between two tiles at
    corruption 1, each of the two receives exactly one successful roll
    and both are converted: the influence goes from 20 to 22, not to 21. *)
Lemma influence_counts_every_conversion_counterexample :
  Tile.corruption <$> GameState.tiles Board2.twinBoard !! (0, 0) = Some 1
  /\ length (successfulRolls defaultGameConfig Board2.alwaysZero
               Board2.twinBoard (0, 0)) = 1%nat
  /\ GameState.shadowInfluence Board2.twinBoard = 20
  /\ conversions defaultGameConfig Board2.alwaysZero Board2.twinBoard = 2
  /\ GameState.shadowInfluence
       (spreadShadow defaultGameConfig Board2.alwaysZero Board2.twinBoard)
     = 22
  /\ GameState.shadowInfluence
       (spreadShadow defaultGameConfig Board2.alwaysZero Board2.twinBoard)
     <> Z.min 100 (GameState.shadowInfluence Board2.twinBoard + 1).
Proof.
  repeat split; by vm_compute.
Qed.

End SpreadClaim.

(* ================================================================== *)
(** ** Visibility                                                      *)
(* ================================================================== *)

Module FogFacts.
Import FogOfWarSystem.

(** A tile with its visibility forgotten. *)
Definition erase (tile : Tile.t) : Tile.t :=
  Tile.set_visibility TileVisibility.Hidden tile.

(** Two states that differ at most in tile visibility and in the revealed
    set: what the visibility pass reads is the same in both. *)
Definition sameBoard (s s' : GameState.t) : Prop :=
  GameState.players s = GameState.players s'
  /\ GameState.currentPlayer s = GameState.currentPlayer s'
  /\ GameState.mapSize s = GameState.mapSize s'
  /\ erase <$> GameState.tiles s = erase <$> GameState.tiles s'.

Definition vis (s : GameState.t) (k : TileKey) : option TileVisibility.t :=
  Tile.visibility <$> GameState.tiles s !! k.

Lemma sameBoard_refl s : sameBoard s s.
Proof. by repeat split. Qed.

Lemma sameBoard_sym s s' : sameBoard s s' -> sameBoard s' s.
Proof. intros (?&?&?&?). by repeat split. Qed.

Lemma sameBoard_trans s1 s2 s3 :
  sameBoard s1 s2 -> sameBoard s2 s3 -> sameBoard s1 s3.
Proof.
  intros (?&?&?&?) (?&?&?&?). repeat split; congruence.
Qed.

Lemma sameBoard_lookup s s' k :
  sameBoard s s' ->
  erase <$> GameState.tiles s !! k = erase <$> GameState.tiles s' !! k.
Proof.
  intros (_&_&_&H). by rewrite <- !lookup_fmap, H.
Qed.

Lemma sameBoard_present s s' k :
  sameBoard s s' ->
  is_Some (GameState.tiles s !! k) <-> is_Some (GameState.tiles s' !! k).
Proof.
  intros H. pose proof (sameBoard_lookup s s' k H) as E.
  destruct (GameState.tiles s !! k), (GameState.tiles s' !! k);
    simpl in E; try done; split; intros [? ?]; done.
Qed.

Lemma sameBoard_getPlayer s s' o :
  sameBoard s s' -> getPlayer s o = getPlayer s' o.
Proof. intros (H&_). unfold getPlayer. by rewrite H. Qed.

Lemma sameBoard_inBounds s s' x y :
  sameBoard s s' -> inBounds s x y = inBounds s' x y.
Proof.
  intros (_&_&H&_). unfold inBounds, GameState.width, GameState.height.
  by rewrite H.
Qed.

Lemma sameBoard_getNeighbors s s' x y :
  sameBoard s s' -> getNeighbors x y s = getNeighbors x y s'.
Proof.
  intros H. unfold getNeighbors. apply fold_left_ext_in.
  intros acc [dx dy]. by rewrite (sameBoard_inBounds s s').
Qed.

Lemma sameBoard_getTilesInRadius s s' x y r :
  sameBoard s s' -> getTilesInRadius x y r s = getTilesInRadius x y r s'.
Proof.
  intros H. unfold getTilesInRadius.
  apply flat_map_ext. intros a. apply flat_map_ext. intros b.
  by rewrite (sameBoard_inBounds s s').
Qed.

Lemma sameBoard_perception s s' unit :
  sameBoard s s' ->
  calculateUnitPerception unit s = calculateUnitPerception unit s'.
Proof.
  intros H. unfold calculateUnitPerception.
  rewrite <- (sameBoard_getPlayer s s' _ H).
  pose proof (sameBoard_lookup s s' (posKey (Unit.position unit)) H) as E.
  destruct (GameState.tiles s !! posKey (Unit.position unit)) as [t|],
    (GameState.tiles s' !! posKey (Unit.position unit)) as [t'|];
    simpl in E; try done.
  assert (Tile.type (erase t) = Tile.type (erase t')) as Hty by congruence.
  simpl in Hty. by rewrite Hty.
Qed.

(** *** Single writes *)

Lemma sameBoard_setVisibility s k v :
  sameBoard s (updateTile k (Tile.set_visibility v) s).
Proof.
  repeat split. unfold updateTile; simpl. apply map_eq. intros i.
  rewrite !lookup_fmap, lookup_alter. case_decide; [subst|done].
  by destruct (GameState.tiles s !! i).
Qed.

Lemma sameBoard_addRevealed s k : sameBoard s (addRevealed k s).
Proof. by repeat split. Qed.

Lemma vis_setVisibility s k' v k :
  vis (updateTile k' (Tile.set_visibility v) s) k
  = if decide (k' = k) then (fun _ => v) <$> vis s k else vis s k.
Proof.
  unfold vis. rewrite tiles_updateTile. case_decide; [|done].
  by destruct (GameState.tiles s !! k).
Qed.

(** *** What one step may do to the visibility of a tile *)

(** [raises s s' T]: the step from [s] to [s'] keeps the board, makes
    exactly the present tiles of [T] visible in addition to those already
    visible, and hides nothing. *)
Definition raises (s s' : GameState.t) (T : TileKey -> Prop) : Prop :=
  sameBoard s s'
  /\ (forall k, vis s' k = Some TileVisibility.Visible
                <-> vis s k = Some TileVisibility.Visible
                    \/ (T k /\ is_Some (vis s k)))
  /\ (forall k v, vis s k = Some v -> v <> TileVisibility.Hidden ->
                  exists v', vis s' k = Some v' /\ v' <> TileVisibility.Hidden).

Lemma raises_refl s : raises s s (fun _ => False).
Proof. split; [apply sameBoard_refl|]. split; [tauto|eauto]. Qed.

Lemma raises_trans s1 s2 s3 (T1 T2 : TileKey -> Prop) :
  raises s1 s2 T1 -> raises s2 s3 T2 ->
  raises s1 s3 (fun k => T1 k \/ T2 k).
Proof.
  intros (Hb1 & Hv1 & Hh1) (Hb2 & Hv2 & Hh2).
  split; [by eapply sameBoard_trans|]. split.
  - intros k. rewrite Hv2, Hv1.
    assert (is_Some (vis s2 k) <-> is_Some (vis s1 k)) as ->.
    { unfold vis. rewrite !fmap_is_Some. symmetry.
      by apply sameBoard_present. }
    tauto.
  - intros k v Hv Hne. destruct (Hh1 k v Hv Hne) as (v' & Hv' & Hne').
    by apply (Hh2 k v').
Qed.

Lemma raises_weaken s s' (T T' : TileKey -> Prop) :
  (forall k, T k <-> T' k) -> raises s s' T -> raises s s' T'.
Proof.
  intros HT (Hb & Hv & Hh). split; [done|]. split; [|done].
  intros k. rewrite Hv, HT. tauto.
Qed.

Lemma revealTile_raises s k' : raises s (revealTile s k') (fun k => k = k').
Proof.
  unfold revealTile.
  destruct (GameState.tiles s !! k') as [t|] eqn:Ht.
  - split; [|split].
    + eapply sameBoard_trans; [apply sameBoard_setVisibility|].
      apply sameBoard_addRevealed.
    + intros k. change (vis (addRevealed k' ?x) k) with (vis x k).
      rewrite vis_setVisibility. case_decide; [subst|naive_solver].
      unfold vis. rewrite Ht. simpl. naive_solver.
    + intros k v Hv Hne. change (vis (addRevealed k' ?x) k) with (vis x k).
      rewrite vis_setVisibility. case_decide; [subst|by eauto].
      rewrite Hv. simpl. by eauto.
  - split; [apply sameBoard_refl|]. split; [|by eauto].
    intros k. split; [tauto|]. intros [?|[-> Hs]]; [done|].
    unfold vis in Hs. rewrite Ht in Hs. by destruct Hs.
Qed.

Lemma glimpse_raises s k' : raises s (glimpse s k') (fun _ => False).
Proof.
  unfold glimpse.
  destruct (GameState.tiles s !! k') as [t|] eqn:Ht; [|apply raises_refl].
  case_decide as Hh; [|apply raises_refl].
  split; [|split].
  - eapply sameBoard_trans; [apply sameBoard_setVisibility|].
    apply sameBoard_addRevealed.
  - intros k. change (vis (addRevealed k' ?x) k) with (vis x k).
    rewrite vis_setVisibility. case_decide; [subst|tauto].
    unfold vis. rewrite Ht. simpl. rewrite Hh. naive_solver.
  - intros k v Hv Hne. change (vis (addRevealed k' ?x) k) with (vis x k).
    rewrite vis_setVisibility. case_decide; [subst|by eauto].
    rewrite Hv. simpl. by eauto.
Qed.

(** A fold of steps, each step allowed to read the current state. *)
Lemma fold_raises {A} (step : GameState.t -> A -> GameState.t)
  (T : GameState.t -> A -> TileKey -> Prop) (l : list A) (s : GameState.t) :
  (forall s a, raises s (step s a) (T s a)) ->
  (forall s s' a k, sameBoard s s' -> T s a k <-> T s' a k) ->
  raises s (fold_left step l s) (fun k => exists a, a ∈ l /\ T s a k).
Proof.
  intros Hstep HT. revert s. induction l as [|a l IH]; intros s; simpl.
  - eapply raises_weaken; [|apply raises_refl].
    intros k. split; [done|]. intros (a & Ha & _). by apply elem_of_nil in Ha.
  - assert (Hb : sameBoard s (step s a)) by apply Hstep.
    eapply raises_weaken; [|eapply raises_trans; [apply Hstep|apply IH]].
    intros k. simpl. split.
    + intros [H|(b & Hin & H)].
      * exists a. split; [left|done].
      * exists b. split; [by right|]. by apply (HT s (step s a) b k Hb).
    + intros (b & Hin & H). apply elem_of_cons in Hin as [->|Hin]; [by left|].
      right. exists b. split; [done|]. by apply (HT s (step s a) b k Hb).
Qed.

Lemma revealTilesAroundUnit_raises s unit :
  raises s (revealTilesAroundUnit s unit)
    (fun k => k ∈ getTilesInRadius (Position.x (Unit.position unit))
                    (Position.y (Unit.position unit))
                    (calculateUnitPerception unit s) s).
Proof.
  unfold revealTilesAroundUnit.
  eapply raises_weaken;
    [|apply (fold_raises revealTile (fun _ a k => k = a));
      [apply revealTile_raises|done]].
  intros k. simpl. naive_solver.
Qed.

Lemma revealSanctified_raises s k' :
  raises s (revealSanctified s k') (fun k => k = k').
Proof.
  unfold revealSanctified.
  destruct (GameState.tiles s !! k') as [t|] eqn:Ht.
  - eapply raises_weaken;
      [|eapply raises_trans;
        [|apply (fold_raises glimpse (fun _ _ _ => False));
          [apply glimpse_raises|done]]].
    2:{ pose proof (revealTile_raises s k') as H.
        unfold revealTile in H. rewrite Ht in H. exact H. }
    intros k. simpl. naive_solver.
  - split; [apply sameBoard_refl|]. split; [|by eauto].
    intros k. split; [tauto|]. intros [?|[-> Hs]]; [done|].
    unfold vis in Hs. rewrite Ht in Hs. by destruct Hs.
Qed.

Lemma sameBoard_downgrade s :
  sameBoard s (GameState.set_tiles (downgrade <$> GameState.tiles s) s).
Proof.
  repeat split. simpl. rewrite <- map_fmap_compose. apply map_fmap_ext.
  intros k t _. unfold downgrade; simpl. by case_decide.
Qed.

Lemma vis_downgrade s k :
  vis (GameState.set_tiles (downgrade <$> GameState.tiles s) s) k
  = (fun v => if decide (v = TileVisibility.Visible)
              then TileVisibility.Seen else v) <$> vis s k.
Proof.
  unfold vis; simpl. rewrite lookup_fmap.
  destruct (GameState.tiles s !! k) as [t|]; simpl; [|done].
  unfold downgrade. by case_decide.
Qed.

(** The tiles the current player's units and sanctified tiles light up;
    [s] is read for the map size, the unit tiles' terrain and the relics. *)
Definition lit (s : GameState.t) (player : PlayerState.t) (k : TileKey)
  : Prop :=
  (exists unit, unit ∈ PlayerState.units player
                /\ k ∈ getTilesInRadius (Position.x (Unit.position unit))
                         (Position.y (Unit.position unit))
                         (calculateUnitPerception unit s) s)
  \/ k ∈ PlayerState.sanctifiedTiles player.

Lemma lit_sameBoard s s' player k :
  sameBoard s s' -> lit s player k <-> lit s' player k.
Proof.
  intros H. unfold lit.
  split; intros [(u & Hu & Hk)|Hs]; try (by right); left; exists u;
    (split; [done|]).
  - by rewrite <- (sameBoard_perception s s'),
      <- (sameBoard_getTilesInRadius s s').
  - by rewrite (sameBoard_perception s s'),
      (sameBoard_getTilesInRadius s s').
Qed.

(** After a pass, the visible tiles are exactly the lit tiles present on
    the map; nothing that was seen or visible is hidden again. *)
Lemma updateVisibility_spec s player :
  getPlayer s (GameState.currentPlayer s) = Some player ->
  sameBoard s (updateVisibility s)
  /\ (forall k, vis (updateVisibility s) k = Some TileVisibility.Visible
                <-> lit s player k /\ is_Some (vis s k))
  /\ (forall k v, vis s k = Some v -> v <> TileVisibility.Hidden ->
                  exists v', vis (updateVisibility s) k = Some v'
                             /\ v' <> TileVisibility.Hidden).
Proof.
  intros Hp. unfold updateVisibility. rewrite Hp.
  set (s0 := GameState.set_tiles (downgrade <$> GameState.tiles s) s).
  assert (Hb0 : sameBoard s s0) by apply sameBoard_downgrade.
  pose proof (fold_raises revealTilesAroundUnit
                (fun s unit k =>
                   k ∈ getTilesInRadius (Position.x (Unit.position unit))
                         (Position.y (Unit.position unit))
                         (calculateUnitPerception unit s) s)
                (PlayerState.units player) s0
                revealTilesAroundUnit_raises) as H1.
  lapply H1; [clear H1; intros H1|].
  2:{ intros x x' u k Hb.
      by rewrite (sameBoard_perception x x'),
        (sameBoard_getTilesInRadius x x'). }
  set (s1 := fold_left revealTilesAroundUnit (PlayerState.units player) s0)
    in *.
  pose proof (fold_raises revealSanctified (fun _ a k => k = a)
                (elements (PlayerState.sanctifiedTiles player)) s1
                revealSanctified_raises) as H2.
  lapply H2; [clear H2; intros H2|done].
  pose proof (raises_trans _ _ _ _ _ H1 H2) as (Hb & Hv & Hh).
  split; [by eapply sameBoard_trans|]. split.
  - intros k. rewrite Hv. subst s0. rewrite vis_downgrade.
    assert (Hpres : is_Some
                      ((fun v => if decide (v = TileVisibility.Visible)
                                 then TileVisibility.Seen else v) <$> vis s k)
                    <-> is_Some (vis s k)) by apply fmap_is_Some.
    rewrite Hpres.
    assert (Hlit : ((exists a, a ∈ PlayerState.units player
                      /\ k ∈ getTilesInRadius
                               (Position.x (Unit.position a))
                               (Position.y (Unit.position a))
                               (calculateUnitPerception a
                                  (GameState.set_tiles
                                     (downgrade <$> GameState.tiles s) s))
                               (GameState.set_tiles
                                  (downgrade <$> GameState.tiles s) s))
                     \/ (exists a,
                            a ∈ elements (PlayerState.sanctifiedTiles player)
                            /\ k = a))
                    <-> lit s player k).
    { rewrite (lit_sameBoard s _ player k Hb0). unfold lit.
      split; intros [H|H]; try (by left).
      - destruct H as (a & Ha & ->). right. by apply elem_of_elements.
      - right. exists k. split; [by apply elem_of_elements|done]. }
    rewrite Hlit. split; [|tauto].
    intros [Hvis|H]; [|done].
    destruct (vis s k) as [v|]; simpl in Hvis; [|done].
    case_decide; simplify_eq.
  - intros k v Hv' Hne. subst s0.
    apply (Hh k (if decide (v = TileVisibility.Visible)
                 then TileVisibility.Seen else v)).
    + by rewrite vis_downgrade, Hv'.
    + by case_decide.
Qed.

Lemma elem_of_visibleTiles s k :
  k ∈ visibleTiles s <-> vis s k = Some TileVisibility.Visible.
Proof.
  unfold visibleTiles, vis. rewrite elem_of_dom. unfold is_Some.
  setoid_rewrite map_lookup_filter_Some. simpl.
  destruct (GameState.tiles s !! k) as [t|]; simpl; [|naive_solver].
  split.
  - intros (x & Hx & Hv). simplify_eq. by rewrite Hv.
  - intros Hv. exists t. split; [done|]. by simplify_eq.
Qed.

End FogFacts.

Module FogClaim.
Import FogOfWarSystem FogFacts.

(** C8.  Running the visibility pass twice in a row gives the same set of
    visible tiles as running it once, and neither the pass nor the reveal
    around a unit ever turns a Seen or Visible tile back to Hidden. *)
Theorem updateVisibility_idempotent_no_regression (s : GameState.t) :
  visibleTiles (updateVisibility (updateVisibility s))
  = visibleTiles (updateVisibility s)
  /\ (forall k tile,
         GameState.tiles s !! k = Some tile ->
         Tile.visibility tile <> TileVisibility.Hidden ->
         exists tile',
           GameState.tiles (updateVisibility s) !! k = Some tile'
           /\ Tile.visibility tile' <> TileVisibility.Hidden)
  /\ (forall unit k tile,
         GameState.tiles s !! k = Some tile ->
         Tile.visibility tile <> TileVisibility.Hidden ->
         exists tile',
           GameState.tiles (revealTilesAroundUnit s unit) !! k = Some tile'
           /\ Tile.visibility tile' <> TileVisibility.Hidden).
Proof.
  assert (Hkeep : forall x x' (T : TileKey -> Prop), raises x x' T ->
            forall k tile,
              GameState.tiles x !! k = Some tile ->
              Tile.visibility tile <> TileVisibility.Hidden ->
              exists tile',
                GameState.tiles x' !! k = Some tile'
                /\ Tile.visibility tile' <> TileVisibility.Hidden).
  { intros x x' T (_ & _ & Hh) k tile Ht Hv.
    destruct (Hh k (Tile.visibility tile)) as (v' & Hv' & Hne); [|done|].
    - unfold vis. by rewrite Ht.
    - unfold vis in Hv'.
      destruct (GameState.tiles x' !! k) as [t'|]; simpl in Hv'; [|done].
      exists t'. split; [done|]. by simplify_eq. }
  destruct (getPlayer s (GameState.currentPlayer s)) as [player|] eqn:Hp.
  - destruct (updateVisibility_spec s player Hp) as (Hb & Hv & Hh).
    split; [|split].
    + assert (Hp' : getPlayer (updateVisibility s)
                      (GameState.currentPlayer (updateVisibility s))
                    = Some player).
      { destruct Hb as (Hpl & Hcur & _). unfold getPlayer.
        by rewrite <- Hpl, <- Hcur. }
      destruct (updateVisibility_spec _ player Hp') as (_ & Hv' & _).
      apply set_eq. intros k. rewrite !elem_of_visibleTiles, Hv', Hv.
      rewrite <- (lit_sameBoard s _ player k Hb).
      assert (is_Some (vis (updateVisibility s) k) <-> is_Some (vis s k))
        as ->; [|done].
      unfold vis. rewrite !fmap_is_Some. symmetry.
      by apply sameBoard_present.
    + intros k tile Ht Hne.
      destruct (Hh k (Tile.visibility tile)) as (v' & Hv1 & Hne1); [|done|].
      * unfold vis. by rewrite Ht.
      * unfold vis in Hv1.
        destruct (GameState.tiles (updateVisibility s) !! k) as [t'|];
          simpl in Hv1; [|done].
        exists t'. split; [done|]. by simplify_eq.
    + intros unit. apply (Hkeep _ _ _ (revealTilesAroundUnit_raises s unit)).
  - assert (Hid : updateVisibility s = s)
      by (unfold updateVisibility; by rewrite Hp).
    rewrite !Hid. split; [done|]. split; [by eauto|].
    intros unit. apply (Hkeep _ _ _ (revealTilesAroundUnit_raises s unit)).
Qed.

(** On the scout board the tile under the explorer is Visible before the
    pass and is not Hidden after it. *)
Lemma updateVisibility_idempotent_no_regression_witness :
  exists tile',
    GameState.tiles (updateVisibility Board4.scoutBoard) !! (0, 0)
    = Some tile'
    /\ Tile.visibility tile' <> TileVisibility.Hidden.
Proof.
  apply (proj1 (proj2 (updateVisibility_idempotent_no_regression
                         Board4.scoutBoard))
           (0, 0)
           (Tile.set_visibility TileVisibility.Visible
              (Board.tileAt 0 0 TileType.Plains Owner.AI1 5 0)));
    by vm_compute.
Defined.

End FogClaim.

(* ================================================================== *)
(** ** Corruption level 2 and Shadow ownership                         *)
(* ================================================================== *)

Module CorruptionFacts.
Import ShadowSystem.

(** The spread pass itself keeps the invariant: whenever it writes level 2
    it also hands the tile to the Shadow. *)
Lemma applyCorruption_preserves s entry :
  corruptionInvariant s -> corruptionInvariant (applyCorruption s entry).
Proof.
  intros Hinv k tile. destruct entry as [key level].
  destruct (decide (key = k)) as [->|Hne].
  - unfold applyCorruption.
    destruct (GameState.tiles s !! k) as [t|] eqn:Ht; [|by apply Hinv].
    destruct (Z.leb_spec 2 (Z.min 2 level)).
    + cbn [GameState.tiles GameState.set_shadowInfluence].
      destruct (isPlayerOwner (Tile.owner t));
        rewrite ?tiles_updatePlayer, !tiles_updateTile, !decide_True by done;
        rewrite Ht; simpl; intros Heq _; by simplify_eq.
    + rewrite tiles_updateTile, decide_True by done. rewrite Ht. simpl.
      intros Heq Hc. simplify_eq. simpl in Hc. lia.
  - rewrite SpreadFacts.applyCorruption_tiles_other by done. apply Hinv.
Qed.

Lemma spreadShadow_preserves config random s :
  corruptionInvariant s -> corruptionInvariant (spreadShadow config random s).
Proof.
  intros Hinv. unfold spreadShadow.
  generalize (map_to_list (collectSpread config random s)). intros l.
  assert (H : corruptionInvariant (fold_left applyCorruption l s)).
  { revert s Hinv. induction l as [|e l IH]; intros s Hinv; simpl; [done|].
    by apply IH, applyCorruption_preserves. }
  unfold updateNeutralAlignment. by repeat destruct (_ <? _).
Qed.

End CorruptionFacts.

Module CorruptionClaim.
Import ShadowSystem.

(** C4 (the code departs from it).  On boards where the invariant
    "corruption 2 implies Shadow owner" holds:
    - [addCorruptionToRandomTiles] raises the rival's tile from corruption 1
      to 2 and leaves it to the rival;
    - the curse outcome of [triggerTileEvent] raises the player's ruins from
      1 to 2 and leaves them to the player;
    - capturing a Shadow tile of corruption 2 hands it to the player with
      its corruption still 2.
    Each result violates the invariant (which the spread pass keeps, see
    [CorruptionFacts.spreadShadow_preserves]). *)
Theorem corruption_invariant_not_preserved :
  corruptionInvariant Board2.rivalBoard
  /\ (exists tile,
         GameState.tiles
           (EventSystem.addCorruptionToRandomTiles (fun _ => 0%Q)
              Board2.rivalBoard Board2.human 1) !! (1, 0) = Some tile
         /\ Tile.corruption tile = 2 /\ Tile.owner tile = Owner.AI1)
  /\ ~ corruptionInvariant
         (EventSystem.addCorruptionToRandomTiles (fun _ => 0%Q)
            Board2.rivalBoard Board2.human 1)
  /\ (Tile.corruption
        (EventSystem.triggerTileEvent (2 # 3) Board2.human Board2.ruins).2 = 2
      /\ Tile.owner
           (EventSystem.triggerTileEvent (2 # 3) Board2.human Board2.ruins).2
         = Owner.Player)
  /\ corruptionInvariant Board2.shadowBoard
  /\ (exists s' action' tile,
         CaptureSystem.executeCapture defaultGameConfig "w1"
           Board2.shadowBoard Board2.captureShadowTile = (true, s', action')
         /\ GameState.tiles s' !! (1, 0) = Some tile
         /\ Tile.corruption tile = 2 /\ Tile.owner tile = Owner.Player).
Proof.
  assert (Hdec : forall s,
             bool_decide
               (map_Forall
                  (fun _ tile => Tile.corruption tile = 2
                                 -> Tile.owner tile = Owner.Shadow)
                  (GameState.tiles s)) = true ->
             corruptionInvariant s).
  { intros s H. apply bool_decide_eq_true_1 in H. exact H. }
  split; [by apply Hdec; vm_compute|].
  assert (Hex : exists tile,
             GameState.tiles
               (EventSystem.addCorruptionToRandomTiles (fun _ => 0%Q)
                  Board2.rivalBoard Board2.human 1) !! (1, 0) = Some tile
             /\ Tile.corruption tile = 2 /\ Tile.owner tile = Owner.AI1)
    by (eexists; by vm_compute).
  split; [exact Hex|].
  split.
  { intros H. destruct Hex as (tile & Ht & Hc & Ho).
    specialize (H _ _ Ht Hc). congruence. }
  split; [by vm_compute|].
  split; [by apply Hdec; vm_compute|].
  eexists _, _, _; by vm_compute.
Qed.

End CorruptionClaim.

(* ================================================================== *)
(** ** End of turn                                                     *)
(* ================================================================== *)

Lemma players_get_fmap (g : PlayerState.t -> PlayerState.t) ps o :
  players_get (prod_map Datatypes.id g <$> ps) o = g <$> players_get ps o.
Proof.
  induction ps as [|[k p] ps IH]; simpl; [done|].
  case_decide; [done|apply IH].
Qed.

Lemma playerField_editUnit {A} (g : PlayerState.t -> A) id f s o :
  (forall v p, g (PlayerState.set_units v p) = g p) ->
  playerField g (editUnit id f s) o = playerField g s o.
Proof.
  intros Hg. unfold playerField, editUnit, getPlayer; simpl.
  rewrite players_get_fmap. destruct (players_get _ o); simpl; [|done].
  by rewrite Hg.
Qed.

Lemma playerField_fold_editUnit {A} (g : PlayerState.t -> A)
  (f : Unit.t -> Unit.t) (units : list Unit.t) s o :
  (forall v p, g (PlayerState.set_units v p) = g p) ->
  playerField g
    (fold_left (fun s unit => editUnit (Unit.id unit) f s) units s) o
  = playerField g s o.
Proof.
  intros Hg. revert s. induction units as [|u units IH]; intros s; simpl.
  - done.
  - by rewrite IH, playerField_editUnit.
Qed.

Module EndTurnClaim.
Import GameEngine.

Lemma aegisConversion_zero config : TurnSystem.aegisConversion config 0 = 0.
Proof.
  unfold TurnSystem.aegisConversion.
  rewrite (Qfloor_comp _ 0%Q); [done|].
  change (inject_Z 0) with 0%Q. ring.
Qed.

(** Whatever the unspent divinity, the state that [GameEngine.endTurn]
    hands to the next [startTurn] has the ending player's aegis at 0:
    [TurnSystem.endTurn] recomputes it from the divinity that was just
    zeroed. *)
Lemma endTurnHandover_aegis config s :
  match endTurnHandover config s with
  | Some s' =>
      playerField PlayerState.aegis s' (GameState.currentPlayer s) = Some 0
      /\ playerField PlayerState.divinity s' (GameState.currentPlayer s)
         = Some 0
  | None => getPlayer s (GameState.currentPlayer s) = None
  end.
Proof.
  unfold endTurnHandover.
  destruct (getPlayer s (GameState.currentPlayer s)) as [player|] eqn:Hp;
    [|done].
  set (cur := GameState.currentPlayer s) in *.
  match goal with
  | |- context [TurnSystem.endTurn config cur ?x] => set (s1 := x)
  end.
  assert (H1 : getPlayer s1 cur
               = Some (PlayerState.set_divinity 0
                         (PlayerState.set_aegis
                            (PlayerState.divinity player / 2) player))).
  { subst s1. rewrite getPlayer_updatePlayer, decide_True by done.
    by rewrite Hp. }
  unfold TurnSystem.endTurn. rewrite H1.
  change (playerField ?g (GameState.set_currentPlayer ?v ?x) cur)
    with (playerField g x cur).
  rewrite !playerField_fold_editUnit by done.
  unfold playerField. rewrite getPlayer_updatePlayer, decide_True by done.
  rewrite H1. simpl. by rewrite aegisConversion_zero.
Qed.

(** C3 (the code departs from it).  The human player of the two-player
    board ends the turn with 8 unspent divinity: after [endTurn] the
    player's divinity is 0 but the aegis is 0 as well, not floor(8 / 2) = 4.
    [TurnSystem.endTurn] on its own converts with the Shadow-spread base
    rate 0.10: 8 divinity give aegis 0.  And in general the state handed to
    the next player has the ending player's aegis at 0. *)
Theorem endTurn_aegis_is_zero :
  playerField PlayerState.divinity Board2.rivalBoard Owner.Player = Some 8
  /\ (endTurn defaultGameConfig Board3.quiet Board2.rivalBoard).1 = true
  /\ playerField PlayerState.aegis
       (endTurn defaultGameConfig Board3.quiet Board2.rivalBoard).2 Owner.Player
     = Some 0
  /\ playerField PlayerState.divinity
       (endTurn defaultGameConfig Board3.quiet Board2.rivalBoard).2 Owner.Player
     = Some 0
  /\ playerField PlayerState.aegis
       (TurnSystem.endTurn defaultGameConfig Owner.Player Board2.rivalBoard)
       Owner.Player = Some 0
  /\ (forall config s,
         match endTurnHandover config s with
         | Some s' =>
             playerField PlayerState.aegis s' (GameState.currentPlayer s)
             = Some 0
             /\ playerField PlayerState.divinity s' (GameState.currentPlayer s)
                = Some 0
         | None => getPlayer s (GameState.currentPlayer s) = None
         end).
Proof.
  repeat split; try (by vm_compute). apply endTurnHandover_aegis.
Qed.

End EndTurnClaim.

(* ================================================================== *)
(** ** The action entry point                                          *)
(* ================================================================== *)

Module EngineFacts.
Import GameEngine EngineView.

(** The steps that follow the dispatch only touch the victory progress of
    the players (and tiles, the revealed set and the phase). *)
Definition progressOnly (s s' : GameState.t) : Prop :=
  GameState.currentPlayer s' = GameState.currentPlayer s
  /\ forall A (g : PlayerState.t -> A),
       (forall v p, g (PlayerState.set_victoryProgress v p) = g p) ->
       forall o, playerField g s' o = playerField g s o.

Lemma progressOnly_refl s : progressOnly s s.
Proof. by split. Qed.

Lemma progressOnly_trans s1 s2 s3 :
  progressOnly s1 s2 -> progressOnly s2 s3 -> progressOnly s1 s3.
Proof.
  intros [Hc1 Hg1] [Hc2 Hg2]. split; [congruence|].
  intros A g Hg o. by rewrite Hg2, Hg1.
Qed.

Lemma setProgress_progressOnly cur c v s :
  progressOnly s (VictorySystem.setProgress cur c v s).
Proof.
  split; [done|]. intros A g Hg o. unfold VictorySystem.setProgress.
  by apply playerField_updatePlayer.
Qed.

Lemma checkPlayerVictoryCondition_progressOnly cur player c s :
  progressOnly s (VictorySystem.checkPlayerVictoryCondition cur player c s).2.
Proof.
  destruct c; simpl;
    unfold VictorySystem.checkConquestVictory,
      VictorySystem.checkSanctifierVictory,
      VictorySystem.checkShadowAccordVictory,
      VictorySystem.checkRelicAscensionVictory;
    repeat (destruct (_ =? _)); simpl; apply setProgress_progressOnly.
Qed.

Lemma checkConditions_progressOnly cur conditions s :
  progressOnly s (VictorySystem.checkConditions cur conditions s).2.
Proof.
  revert s. induction conditions as [|c rest IH]; intros s; simpl.
  - apply progressOnly_refl.
  - destruct (getPlayer s cur) as [player|]; [|apply IH].
    pose proof (checkPlayerVictoryCondition_progressOnly cur player c s) as H.
    destruct (VictorySystem.checkPlayerVictoryCondition cur player c s)
      as [met s1]. simpl in H.
    destruct met; [done|]. eapply progressOnly_trans; [exact H|apply IH].
Qed.

Lemma checkPlayers_progressOnly owners s :
  progressOnly s (VictorySystem.checkPlayers owners s).2.
Proof.
  revert s. induction owners as [|o rest IH]; intros s; simpl.
  - apply progressOnly_refl.
  - pose proof (checkConditions_progressOnly o
                  (GameState.victoryConditions s) s) as H.
    destruct (VictorySystem.checkConditions o
                (GameState.victoryConditions s) s) as [[c|] s1]; simpl in H.
    + done.
    + eapply progressOnly_trans; [exact H|apply IH].
Qed.

Lemma checkVictory_progressOnly s :
  progressOnly s (VictorySystem.checkVictory s).2.
Proof.
  unfold VictorySystem.checkVictory.
  pose proof (checkPlayers_progressOnly (GameState.players s).*1 s) as H.
  destruct (VictorySystem.checkPlayers (GameState.players s).*1 s)
    as [[won|] s1]; simpl in H; [done|].
  by destruct (VictorySystem.checkDefeatConditions s1).
Qed.

Lemma updateVisibility_progressOnly s :
  progressOnly s (FogOfWarSystem.updateVisibility s).
Proof.
  destruct (getPlayer s (GameState.currentPlayer s)) as [player|] eqn:Hp.
  - destruct (FogFacts.updateVisibility_spec s player Hp)
      as ((Hpl & Hcur & _) & _).
    split; [done|]. intros A g _ o. unfold playerField, getPlayer.
    by rewrite Hpl.
  - unfold FogOfWarSystem.updateVisibility. rewrite Hp.
    apply progressOnly_refl.
Qed.

(** What [executeAction] returns for an action that passes validation. *)
Lemma executeAction_valid rnd e action :
  validateAction (state e) action = true ->
  exists s1 action1,
    dispatch (config e) rnd (state e) action
    = ((executeAction rnd e action).1, s1, action1)
    /\ progressOnly s1 (state (executeAction rnd e action).2)
    /\ GameState.phase (state (executeAction rnd e action).2)
       = GamePhase.Victory.
Proof.
  intros Hv. unfold executeAction. rewrite Hv. simpl.
  destruct (dispatch (config e) rnd (state e) action)
    as [[success s1] action1].
  pose proof (updateVisibility_progressOnly s1) as H1.
  pose proof (checkVictory_progressOnly
                (FogOfWarSystem.updateVisibility s1)) as H2.
  destruct (VictorySystem.checkVictory (FogOfWarSystem.updateVisibility s1))
    as [victory s2]. simpl in *.
  exists s1, action1. split; [done|]. split; [|done].
  eapply progressOnly_trans; [exact H1|].
  destruct H2 as [Hc Hg]. split; [done|]. intros A g Hg' o.
  by rewrite <- (Hg A g Hg' o).
Qed.

(** An action that fails validation is refused and the game state is not
    touched. *)
Lemma executeAction_invalid rnd e action :
  validateAction (state e) action = false ->
  (executeAction rnd e action).1 = false
  /\ state (executeAction rnd e action).2 = state e.
Proof. intros Hv. unfold executeAction. by rewrite Hv. Qed.

Lemma validateAction_phase s action phase :
  validateAction (GameState.set_phase phase s) action
  = validateAction s action.
Proof. reflexivity. Qed.

Lemma payDivinity_currencies action s player :
  getPlayer s (GameState.currentPlayer s) = Some player ->
  playerField currencies (payDivinity action s) (GameState.currentPlayer s)
  = Some (PlayerState.divinity player - costDivinity action,
          PlayerState.faith player, PlayerState.shadowEnergy player).
Proof.
  intros Hp. unfold payDivinity, playerField.
  rewrite getPlayer_updatePlayer, decide_True by done. by rewrite Hp.
Qed.

End EngineFacts.

Module CostClaim.
Import GameEngine EngineView EngineFacts.

(** What the matching handler deducts: the divinity component of the
    caller's cost for the five divinity-priced actions, its faith component
    for a miracle. *)
Definition deducted (action : GameAction.t) : Z * Z * Z :=
  match GameAction.type action with
  | ActionType.UseMiracle => (0, costFaith action, 0)
  | _ => (costDivinity action, 0, 0)
  end.

Ltac settle_handler Hp :=
  unfold payDivinity, playerField;
  repeat
    match goal with
    | |- context [GameState.currentPlayer (updateTile ?k ?f ?x)] =>
        change (GameState.currentPlayer (updateTile k f x))
          with (GameState.currentPlayer x)
    | |- context [GameState.currentPlayer (updatePlayer ?o ?f ?x)] =>
        change (GameState.currentPlayer (updatePlayer o f x))
          with (GameState.currentPlayer x)
    end;
  repeat first [ rewrite getPlayer_updatePlayer, decide_True by done
               | rewrite getPlayer_updateTile ];
  rewrite Hp; simpl; unfold currencies; simpl;
  repeat f_equal; lia.

Lemma dispatch_currencies config rnd s action s1 action1 player :
  callerPriced (GameAction.type action) ->
  getPlayer s (GameState.currentPlayer s) = Some player ->
  dispatch config rnd s action = (true, s1, action1) ->
  GameState.currentPlayer s1 = GameState.currentPlayer s
  /\ playerField currencies s1 (GameState.currentPlayer s)
     = Some (PlayerState.divinity player - (deducted action).1.1,
             PlayerState.faith player - (deducted action).1.2,
             PlayerState.shadowEnergy player - (deducted action).2).
Proof.
  intros Htype Hp. unfold dispatch, deducted.
  destruct Htype as [E|[E|[E|[E|[E|E]]]]]; rewrite E; simpl.
  - unfold executeFortify.
    destruct (GameAction.targetTile action) as [target|]; [|done].
    rewrite Hp. destruct (GameState.tiles s !! posKey target); [|done].
    destruct (negb _); [done|]. destruct (_ <=? _); [done|].
    simpl. intros Heq. simplify_eq. split; [done|]. settle_handler Hp.
  - unfold executePurify.
    destruct (GameAction.targetTile action) as [target|]; [|done].
    rewrite Hp. destruct (GameState.tiles s !! posKey target); [|done].
    destruct (_ =? _); [done|].
    simpl. intros Heq. simplify_eq. split; [done|]. settle_handler Hp.
  - unfold executeBuildShrine.
    destruct (GameAction.targetTile action) as [target|]; [|done].
    rewrite Hp. destruct (GameState.tiles s !! posKey target); [|done].
    destruct (_ || _); [done|].
    simpl. intros Heq. simplify_eq. split; [done|]. settle_handler Hp.
  - unfold executeSanctify.
    destruct (GameAction.targetTile action) as [target|]; [|done].
    rewrite Hp. destruct (GameState.tiles s !! posKey target); [|done].
    destruct (_ || _); [done|].
    simpl. intros Heq. simplify_eq. split; [done|]. settle_handler Hp.
  - unfold executeSummonUnit. rewrite Hp.
    destruct (GameAction.targetTile action) as [target|]; [|done].
    simpl. intros Heq. simplify_eq. split; [done|]. settle_handler Hp.
  - unfold executeMiracle. rewrite Hp.
    destruct (GameAction.miracleId action) as [miracleId|]; [|done].
    destruct (useMiracle miracleId (PlayerState.miracles player)); [|done].
    simpl. intros Heq. simplify_eq. split; [done|]. settle_handler Hp.
Qed.

(** C10 (as amended).  For a fortify, purify, build-shrine, sanctify, summon
    or miracle action that [executeAction] carries out successfully, the
    action passed validation against the caller-supplied cost record, and
    the acting player pays exactly the divinity component of that record
    (0 when absent) for the first five kinds, exactly its faith component
    for a miracle; no other currency is deducted. *)
Theorem handlers_deduct_caller_supplied_component rnd e action player :
  callerPriced (GameAction.type action) ->
  getPlayer (state e) (GameState.currentPlayer (state e)) = Some player ->
  (executeAction rnd e action).1 = true ->
  validateAction (state e) action = true
  /\ GameState.currentPlayer (state (executeAction rnd e action).2)
     = GameState.currentPlayer (state e)
  /\ playerField currencies (state (executeAction rnd e action).2)
       (GameState.currentPlayer (state e))
     = Some (PlayerState.divinity player
             - match GameAction.type action with
               | ActionType.UseMiracle => 0
               | _ => orZero (GameAction.cost action ≫= ResourceCost.divinity)
               end,
             PlayerState.faith player
             - match GameAction.type action with
               | ActionType.UseMiracle =>
                   orZero (GameAction.cost action ≫= ResourceCost.faith)
               | _ => 0
               end,
             PlayerState.shadowEnergy player).
Proof.
  intros Htype Hp Hok.
  destruct (validateAction (state e) action) eqn:Hv.
  2:{ destruct (executeAction_invalid rnd e action Hv) as [Hf _].
      congruence. }
  split; [done|].
  destruct (executeAction_valid rnd e action Hv)
    as (s1 & action1 & Hd & (Hcur & Hframe) & _).
  rewrite Hok in Hd.
  destruct (dispatch_currencies _ _ _ _ _ _ _ Htype Hp Hd) as [Hc1 Hcur1].
  split; [congruence|].
  rewrite (Hframe _ currencies) by done. rewrite Hcur1.
  unfold deducted, costDivinity, costFaith.
  destruct (GameAction.type action); simpl; repeat f_equal; lia.
Qed.

(** The human player fortifies for a stated 3 divinity: 8 - 3 = 5. *)
Lemma handlers_deduct_caller_supplied_component_witness :
  playerField currencies
    (state (executeAction Board3.quiet (Board3.engineOf Board3.openBoard)
              Board3.fortifyHome).2) Owner.Player
  = Some (5, 0, 0).
Proof.
  refine (proj2 (proj2 (handlers_deduct_caller_supplied_component
            Board3.quiet (Board3.engineOf Board3.openBoard)
            Board3.fortifyHome Board2.human _ _ _)));
    [left; reflexivity | by vm_compute..].
Defined.

(** C10 as stated fails: a fortify request whose cost record names 1
    divinity and 1 faith passes validation, succeeds and takes the 1
    divinity, but the player's faith stays at 2: the faith named in the
    record is checked and never deducted. *)
Lemma fortify_keeps_faith_counterexample :
  GameAction.cost Board3.fortifyHomeForFaith
  = Some (ResourceCost.mk (Some 1) (Some 1) None)
  /\ playerField currencies Board3.faithfulBoard Owner.Player
     = Some (8, 2, 0)
  /\ validateAction Board3.faithfulBoard Board3.fortifyHomeForFaith = true
  /\ (executeAction Board3.quiet (Board3.engineOf Board3.faithfulBoard)
        Board3.fortifyHomeForFaith).1 = true
  /\ playerField currencies
       (state (executeAction Board3.quiet
                 (Board3.engineOf Board3.faithfulBoard)
                 Board3.fortifyHomeForFaith).2) Owner.Player
     = Some (7, 2, 0).
Proof. by vm_compute. Qed.

End CostClaim.


(** ** The phase is never read *)

Module PhaseFacts.
Import GameEngine EngineView EngineFacts.

(** What is read from a state is read from a field other than the
    phase. *)
Ltac phase_reads :=
  repeat
    match goal with
    | |- context [?f (GameState.set_phase ?p ?s)] =>
        progress change (f (GameState.set_phase p s)) with (f s)
    | |- context [?f (GameState.set_phase ?p ?s) ?a] =>
        progress change (f (GameState.set_phase p s) a) with (f s a)
    | |- context [?f (GameState.set_phase ?p ?s) ?a ?b] =>
        progress change (f (GameState.set_phase p s) a b) with (f s a b)
    end.

(** The setters of the other fields leave the phase alone. *)
Ltac phase_out :=
  repeat
    match goal with
    | |- context [?f ?a (GameState.set_phase ?p ?s)] =>
        progress change (f a (GameState.set_phase p s))
          with (GameState.set_phase p (f a s))
    | |- context [?f ?a ?b (GameState.set_phase ?p ?s)] =>
        progress change (f a b (GameState.set_phase p s))
          with (GameState.set_phase p (f a b s))
    end.

Lemma fold_phase {A} (step : GameState.t -> A -> GameState.t) (l : list A)
  p s :
  (forall s a, step (GameState.set_phase p s) a
               = GameState.set_phase p (step s a)) ->
  fold_left step l (GameState.set_phase p s)
  = GameState.set_phase p (fold_left step l s).
Proof.
  intros Hstep. revert s. induction l as [|a l IH]; intros s; simpl; [done|].
  by rewrite Hstep, IH.
Qed.

Lemma revealTile_phase p s k :
  FogOfWarSystem.revealTile (GameState.set_phase p s) k
  = GameState.set_phase p (FogOfWarSystem.revealTile s k).
Proof.
  unfold FogOfWarSystem.revealTile. phase_reads. by case_match.
Qed.

Lemma revealTilesAroundUnit_phase p s unit :
  FogOfWarSystem.revealTilesAroundUnit (GameState.set_phase p s) unit
  = GameState.set_phase p (FogOfWarSystem.revealTilesAroundUnit s unit).
Proof.
  unfold FogOfWarSystem.revealTilesAroundUnit. phase_reads.
  apply fold_phase. intros. apply revealTile_phase.
Qed.

Lemma glimpse_phase p s k :
  FogOfWarSystem.glimpse (GameState.set_phase p s) k
  = GameState.set_phase p (FogOfWarSystem.glimpse s k).
Proof.
  unfold FogOfWarSystem.glimpse. phase_reads. by repeat case_match.
Qed.

Lemma revealSanctified_phase p s k :
  FogOfWarSystem.revealSanctified (GameState.set_phase p s) k
  = GameState.set_phase p (FogOfWarSystem.revealSanctified s k).
Proof.
  unfold FogOfWarSystem.revealSanctified. phase_reads.
  case_match; [|done].
  rewrite <- (fold_phase FogOfWarSystem.glimpse) by (intros; apply glimpse_phase).
  reflexivity.
Qed.

Lemma updateVisibility_phase p s :
  FogOfWarSystem.updateVisibility (GameState.set_phase p s)
  = GameState.set_phase p (FogOfWarSystem.updateVisibility s).
Proof.
  unfold FogOfWarSystem.updateVisibility. phase_reads.
  case_match; [|done].
  rewrite <- (fold_phase FogOfWarSystem.revealSanctified)
    by (intros; apply revealSanctified_phase).
  rewrite <- (fold_phase FogOfWarSystem.revealTilesAroundUnit)
    by (intros; apply revealTilesAroundUnit_phase).
  reflexivity.
Qed.

(** A function that returns a result together with the new state. *)
Definition withPhase {A} (p : GamePhase.t) (r : A * GameState.t)
  : A * GameState.t := (r.1, GameState.set_phase p r.2).

Lemma checkPlayerVictoryCondition_phase p cur player c s :
  VictorySystem.checkPlayerVictoryCondition cur player c
    (GameState.set_phase p s)
  = withPhase p (VictorySystem.checkPlayerVictoryCondition cur player c s).
Proof.
  destruct c; cbn [VictorySystem.checkPlayerVictoryCondition].
  - unfold VictorySystem.checkConquestVictory. phase_reads.
    by repeat case_match.
  - reflexivity.
  - reflexivity.
  - reflexivity.
Qed.

Lemma checkConditions_phase p cur conditions s :
  VictorySystem.checkConditions cur conditions (GameState.set_phase p s)
  = withPhase p (VictorySystem.checkConditions cur conditions s).
Proof.
  revert s. induction conditions as [|c l IH]; intros s;
    cbn [VictorySystem.checkConditions]; [done|].
  phase_reads. destruct (getPlayer s cur) as [player|]; [|apply IH].
  rewrite checkPlayerVictoryCondition_phase.
  destruct (VictorySystem.checkPlayerVictoryCondition cur player c s)
    as [met s1]. unfold withPhase at 1. cbn [fst snd].
  destruct met; [done|apply IH].
Qed.

Lemma checkPlayers_phase p owners s :
  VictorySystem.checkPlayers owners (GameState.set_phase p s)
  = withPhase p (VictorySystem.checkPlayers owners s).
Proof.
  revert s. induction owners as [|o l IH]; intros s;
    cbn [VictorySystem.checkPlayers]; [done|].
  phase_reads. rewrite checkConditions_phase.
  destruct (VictorySystem.checkConditions o (GameState.victoryConditions s) s)
    as [[c|] s1]; unfold withPhase at 1; cbn [fst snd]; [done|apply IH].
Qed.

Lemma checkVictory_phase p s :
  VictorySystem.checkVictory (GameState.set_phase p s)
  = withPhase p (VictorySystem.checkVictory s).
Proof.
  unfold VictorySystem.checkVictory. phase_reads. rewrite checkPlayers_phase.
  destruct (VictorySystem.checkPlayers (GameState.players s).*1 s)
    as [[won|] s1]; unfold withPhase at 1; cbn [fst snd]; [done|].
  phase_reads. by case_match.
Qed.

Definition withPhase3 {A B} (p : GamePhase.t) (r : A * GameState.t * B)
  : A * GameState.t * B := (r.1.1, GameState.set_phase p r.1.2, r.2).

Lemma applyDomainCaptureEffects_phase p uuid cur player tile k s :
  CaptureSystem.applyDomainCaptureEffects uuid cur player tile k
    (GameState.set_phase p s)
  = GameState.set_phase p
      (CaptureSystem.applyDomainCaptureEffects uuid cur player tile k s).
Proof.
  unfold CaptureSystem.applyDomainCaptureEffects. by case_match.
Qed.

Lemma triggerTileEvents_phase p cur player k s :
  CaptureSystem.triggerTileEvents cur player k (GameState.set_phase p s)
  = GameState.set_phase p (CaptureSystem.triggerTileEvents cur player k s).
Proof.
  unfold CaptureSystem.triggerTileEvents. phase_reads.
  by repeat case_match.
Qed.

Lemma executeCapture_phase p config uuid s action :
  CaptureSystem.executeCapture config uuid (GameState.set_phase p s) action
  = withPhase3 p (CaptureSystem.executeCapture config uuid s action).
Proof.
  unfold CaptureSystem.executeCapture. phase_reads.
  repeat case_match; try reflexivity;
    unfold withPhase3; cbn [fst snd]; f_equal; f_equal;
    rewrite <- triggerTileEvents_phase, <- applyDomainCaptureEffects_phase;
    reflexivity.
Qed.

Lemma executeMove_phase p s action :
  executeMove (GameState.set_phase p s) action
  = withPhase p (executeMove s action).
Proof.
  unfold executeMove. phase_reads.
  repeat case_match; try reflexivity.
  unfold withPhase; cbn [fst snd]. f_equal.
  rewrite <- revealTilesAroundUnit_phase. reflexivity.
Qed.

Lemma executeFortify_phase p config s action :
  executeFortify config (GameState.set_phase p s) action
  = withPhase p (executeFortify config s action).
Proof. unfold executeFortify. phase_reads. by repeat case_match. Qed.

Lemma executePurify_phase p config s action :
  executePurify config (GameState.set_phase p s) action
  = withPhase p (executePurify config s action).
Proof. unfold executePurify. phase_reads. by repeat case_match. Qed.

Lemma executeBuildShrine_phase p s action :
  executeBuildShrine (GameState.set_phase p s) action
  = withPhase p (executeBuildShrine s action).
Proof. unfold executeBuildShrine. phase_reads. by repeat case_match. Qed.

Lemma executeSanctify_phase p config s action :
  executeSanctify config (GameState.set_phase p s) action
  = withPhase p (executeSanctify config s action).
Proof. unfold executeSanctify. phase_reads. by repeat case_match. Qed.

Lemma executeSummonUnit_phase p s action :
  executeSummonUnit (GameState.set_phase p s) action
  = withPhase p (executeSummonUnit s action).
Proof. unfold executeSummonUnit. phase_reads. by repeat case_match. Qed.

Lemma executeAbility_phase p s action :
  executeAbility (GameState.set_phase p s) action
  = withPhase p (executeAbility s action).
Proof. unfold executeAbility. phase_reads. by repeat case_match. Qed.

Lemma executeMiracle_phase p s action :
  executeMiracle (GameState.set_phase p s) action
  = withPhase p (executeMiracle s action).
Proof. unfold executeMiracle. phase_reads. by repeat case_match. Qed.

Lemma TurnSystem_startTurn_phase p config cur s :
  TurnSystem.startTurn config cur (GameState.set_phase p s)
  = GameState.set_phase p (TurnSystem.startTurn config cur s).
Proof.
  unfold TurnSystem.startTurn. phase_reads.
  destruct (getPlayer s cur) as [player|]; [|done]. cbv zeta.
  set (s1 := updatePlayer cur _ s).
  change (updatePlayer cur ?f (GameState.set_phase p s))
    with (GameState.set_phase p s1).
  rewrite (fold_phase (fun s unit =>
                         editUnit (Unit.id unit) TurnSystem.refreshUnit s))
    by done.
  set (s2 := fold_left _ (PlayerState.units player) s1).
  phase_reads. destruct (getPlayer s2 cur) as [p2|]; [|done].
  rewrite (fold_phase
             (fun s unit =>
                GameState.set_units
                  (delete (Unit.id unit) (GameState.units s)) s)) by done.
  reflexivity.
Qed.

Lemma TurnSystem_endTurn_phase p config cur s :
  TurnSystem.endTurn config cur (GameState.set_phase p s)
  = GameState.set_phase p (TurnSystem.endTurn config cur s).
Proof.
  unfold TurnSystem.endTurn. phase_reads.
  destruct (getPlayer s cur) as [player|]; [|done].
  rewrite <- (fold_phase
                (fun s unit =>
                   editUnit (Unit.id unit)
                     (fun u => Unit.set_turnsAlive (Unit.turnsAlive u + 1) u)
                     s)) by done.
  reflexivity.
Qed.

Lemma revealLoop_phase p fuel pick i count hiddenTiles s :
  EventSystem.revealLoop fuel pick i count hiddenTiles
    (GameState.set_phase p s)
  = GameState.set_phase p
      (EventSystem.revealLoop fuel pick i count hiddenTiles s).
Proof.
  revert i hiddenTiles s.
  induction fuel as [|fuel IH]; intros i hiddenTiles s;
    cbn [EventSystem.revealLoop]; [done|].
  case_match; [|done]. cbv zeta. phase_reads.
  repeat case_match; rewrite <- IH; reflexivity.
Qed.

Lemma applyEventEffect_phase p pick cur player s effect :
  EventSystem.applyEventEffect pick cur player (GameState.set_phase p s)
    effect
  = GameState.set_phase p
      (EventSystem.applyEventEffect pick cur player s effect).
Proof.
  unfold EventSystem.applyEventEffect.
  destruct (GameEffect.type effect); try reflexivity.
  - unfold EventSystem.revealRandomTiles. phase_reads.
    apply revealLoop_phase.
  - unfold EventSystem.addCorruptionToRandomTiles. phase_reads.
    apply fold_phase. intros x a. phase_reads. by case_match.
  - unfold EventSystem.removeCorruptionFromTiles. phase_reads.
    by apply fold_phase.
  - unfold EventSystem.damageStability. case_match; [|done].
    by apply fold_phase.
  - unfold EventSystem.addStability. cbv zeta.
    repeat case_match; rewrite ?fold_phase by done; reflexivity.
Qed.

Lemma checkForRandomEvents_phase p rnd s :
  EventSystem.checkForRandomEvents rnd (GameState.set_phase p s)
  = GameState.set_phase p (EventSystem.checkForRandomEvents rnd s).
Proof.
  unfold EventSystem.checkForRandomEvents. phase_reads. cbv zeta.
  destruct (getPlayer s (GameState.currentPlayer s)) as [player|]; [|done].
  destruct (Qltb _ _); [|done].
  unfold EventSystem.triggerRandomEvent, EventSystem.applyEventEffects.
  destruct (EventSystem.eventPool !! _); [|done].
  apply fold_phase. intros. apply applyEventEffect_phase.
Qed.

Lemma processEvents_phase p rnd s :
  EventSystem.processEvents rnd (GameState.set_phase p s)
  = GameState.set_phase p (EventSystem.processEvents rnd s).
Proof.
  unfold EventSystem.processEvents. cbv zeta. phase_reads.
  exact (checkForRandomEvents_phase p rnd
           (GameState.set_activeGlobalEvents _ s)).
Qed.

Lemma applyCorruption_phase p s entry :
  ShadowSystem.applyCorruption (GameState.set_phase p s) entry
  = GameState.set_phase p (ShadowSystem.applyCorruption s entry).
Proof.
  destruct entry as [key level]. unfold ShadowSystem.applyCorruption.
  phase_reads. by repeat case_match.
Qed.

Lemma spreadShadow_phase p config random s :
  ShadowSystem.spreadShadow config random (GameState.set_phase p s)
  = GameState.set_phase p (ShadowSystem.spreadShadow config random s).
Proof.
  unfold ShadowSystem.spreadShadow. phase_reads. cbv zeta.
  rewrite (fold_phase ShadowSystem.applyCorruption)
    by (intros; apply applyCorruption_phase).
  unfold ShadowSystem.updateNeutralAlignment. phase_reads.
  by repeat case_match.
Qed.

Lemma startTurn_phase p config rnd s :
  startTurn config rnd (GameState.set_phase p s)
  = GameState.set_phase p (startTurn config rnd s).
Proof.
  unfold startTurn. cbv zeta. phase_reads. phase_out. phase_reads.
  set (s0 := GameState.set_turn _ s).
  destruct (getPlayer s0 (GameState.currentPlayer s0)); [|done].
  rewrite TurnSystem_startTurn_phase, processEvents_phase.
  set (s1 := EventSystem.processEvents _ _). phase_reads.
  assert (Hspread :
            (if decide (GameState.currentPlayer s1 = Owner.Player)
             then ShadowSystem.spreadShadow config (spread rnd)
                    (GameState.set_phase p s1)
             else GameState.set_phase p s1)
            = GameState.set_phase p
                (if decide (GameState.currentPlayer s1 = Owner.Player)
                 then ShadowSystem.spreadShadow config (spread rnd) s1
                 else s1)).
  { case_decide; [apply spreadShadow_phase|done]. }
  rewrite Hspread. clear Hspread.
  set (s2 := if decide _ then _ else _).
  rewrite updateVisibility_phase. phase_out. phase_reads.
  set (s3 := updatePlayer _ _ _).
  destruct (getPlayer s3 (GameState.currentPlayer s0)); [|done].
  by apply fold_phase.
Qed.

Lemma endTurn_phase p config rnd s :
  endTurn config rnd (GameState.set_phase p s)
  = withPhase p (endTurn config rnd s).
Proof.
  unfold endTurn, endTurnHandover. cbv zeta. phase_reads.
  destruct (getPlayer s (GameState.currentPlayer s)); [|done].
  phase_out. rewrite TurnSystem_endTurn_phase.
  set (s1 := TurnSystem.endTurn _ _ _). phase_reads. phase_out.
  unfold withPhase. cbn [fst snd]. f_equal. apply startTurn_phase.
Qed.

Lemma dispatch_phase p config rnd s action :
  dispatch config rnd (GameState.set_phase p s) action
  = withPhase3 p (dispatch config rnd s action).
Proof.
  unfold dispatch. cbv zeta.
  destruct (GameAction.type action); cbn [fst snd];
    rewrite ?executeMove_phase, ?executeCapture_phase,
      ?executeFortify_phase, ?executePurify_phase,
      ?executeBuildShrine_phase, ?executeSanctify_phase,
      ?executeSummonUnit_phase, ?executeAbility_phase,
      ?executeMiracle_phase, ?endTurn_phase;
    reflexivity.
Qed.

(** From two states that differ only in the phase, [executeAction]
    returns the same result, logs the same entry and reaches states that
    differ at most in the phase. *)
Lemma executeAction_phase p rnd e action :
  let e' := mk (GameState.set_phase p (state e)) (config e)
              (actionHistory e) in
  (executeAction rnd e' action).1 = (executeAction rnd e action).1
  /\ samePlay (state (executeAction rnd e' action).2)
       (state (executeAction rnd e action).2)
  /\ config (executeAction rnd e' action).2
     = config (executeAction rnd e action).2
  /\ actionHistory (executeAction rnd e' action).2
     = actionHistory (executeAction rnd e action).2.
Proof.
  cbv zeta. unfold executeAction. cbn [state config actionHistory].
  phase_reads.
  destruct (validateAction (state e) action); cbn [negb].
  2:{ by repeat split. }
  rewrite dispatch_phase.
  destruct (dispatch (config e) rnd (state e) action) as [[success s1] a1].
  unfold withPhase3. cbn [fst snd].
  rewrite updateVisibility_phase, checkVictory_phase.
  destruct (VictorySystem.checkVictory (FogOfWarSystem.updateVisibility s1))
    as [victory s2]. unfold withPhase. cbn [fst snd].
  by repeat split.
Qed.

End PhaseFacts.

Module PhaseClaim.
Import GameEngine EngineView EngineFacts.

Lemma cannotPay_unaffordable (c : option Z) (have : Z) :
  cannotPay c have = true <-> unaffordable c have.
Proof.
  unfold cannotPay, unaffordable. destruct c as [v|].
  - rewrite andb_true_iff, negb_true_iff, Z.eqb_neq, Z.ltb_lt.
    split; [intros [? ?]; by exists v|].
    intros (v' & [= <-] & ? & ?). done.
  - split; [done|]. by intros (v & ? & _).
Qed.

Lemma validateAction_invalid s action :
  validateAction s action = false <-> invalid s action.
Proof.
  unfold validateAction, invalid.
  destruct (getPlayer s (GameState.currentPlayer s)) as [player|]; [|done].
  destruct (decide (PlayerState.id player = GameAction.playerId action))
    as [Hid|Hid].
  2:{ rewrite bool_decide_eq_false_2 by done. cbn [negb]. split; auto. }
  rewrite bool_decide_eq_true_2 by done. cbn [negb].
  destruct (GameAction.cost action) as [cost|].
  2:{ split; [done|]. intros [?|(cost & ? & _)]; done. }
  pose proof (cannotPay_unaffordable (ResourceCost.divinity cost)
                (PlayerState.divinity player)) as Hd.
  pose proof (cannotPay_unaffordable (ResourceCost.faith cost)
                (PlayerState.faith player)) as Hf.
  pose proof (cannotPay_unaffordable (ResourceCost.shadowEnergy cost)
                (PlayerState.shadowEnergy player)) as Hs.
  destruct (cannotPay (ResourceCost.divinity cost) _).
  { split; [|done]. intros _. right. exists cost. split; [done|].
    left. by apply Hd. }
  destruct (cannotPay (ResourceCost.faith cost) _).
  { split; [|done]. intros _. right. exists cost. split; [done|].
    right. left. by apply Hf. }
  destruct (cannotPay (ResourceCost.shadowEnergy cost) _).
  { split; [|done]. intros _. right. exists cost. split; [done|].
    right. right. by apply Hs. }
  split; [done|].
  intros [?|(cost' & [= <-] & [H|[H|H]])]; [done|..].
  - by apply Hd in H.
  - by apply Hf in H.
  - by apply Hs in H.
Qed.

(** C2 (as amended).  Validation fails exactly when there is no current
    player, the action carries another player's id, or the action states a
    cost component that is not 0 and above what the current player holds.
    An action that fails validation is refused without the game state
    being touched: [executeAction] returns false and logs the action as
    failed with the message "Invalid action".  The phase is never read:
    started from two states that differ only in the phase, [executeAction]
    returns the same result, logs the same entry and ends in states that
    differ at most in the phase, so an action submitted in phase Victory is
    validated and carried out as in any other phase. *)
Theorem rejection_is_by_validation_not_phase rnd e action :
  (validateAction (state e) action = false <-> invalid (state e) action)
  /\ (invalid (state e) action ->
      executeAction rnd e action
      = (false,
         mk (state e) (config e)
           (actionHistory e
            ++ [GameAction.set_message (Some "Invalid action"%string)
                  (GameAction.set_success false action)])))
  /\ (forall phase,
         let e' :=
           mk (GameState.set_phase phase (state e)) (config e)
             (actionHistory e) in
         (executeAction rnd e' action).1 = (executeAction rnd e action).1
         /\ samePlay (state (executeAction rnd e' action).2)
              (state (executeAction rnd e action).2)
         /\ actionHistory (executeAction rnd e' action).2
            = actionHistory (executeAction rnd e action).2).
Proof.
  split; [apply validateAction_invalid|]. split.
  - intros Hinv. apply validateAction_invalid in Hinv.
    unfold executeAction. by rewrite Hinv.
  - intros phase.
    destruct (PhaseFacts.executeAction_phase phase rnd e action)
      as (Hresult & Hstate & _ & Hlog).
    by repeat split.
Qed.

(** A request carrying the rival's id during the human player's turn. *)
Lemma rejection_is_by_validation_not_phase_witness :
  executeAction Board3.quiet (Board3.engineOf Board3.openBoard)
    Board3.fortifyByRival
  = (false,
     mk Board3.openBoard defaultGameConfig
       [GameAction.set_message (Some "Invalid action"%string)
          (GameAction.set_success false Board3.fortifyByRival)]).
Proof.
  apply (proj1 (proj2 (rejection_is_by_validation_not_phase Board3.quiet
                         (Board3.engineOf Board3.openBoard)
                         Board3.fortifyByRival))).
  unfold invalid.
  change (getPlayer (state (Board3.engineOf Board3.openBoard))
            (GameState.currentPlayer
               (state (Board3.engineOf Board3.openBoard))))
    with (Some Board2.human).
  left. by vm_compute.
Defined.

(** C2 as stated fails: in a state whose phase is already Victory, the
    current player's fortify request is accepted; it returns true, raises
    the tile's stability from 3 to 5 and takes 3 divinity. *)
Lemma action_accepted_after_victory_counterexample :
  GameState.phase (state (Board3.engineOf Board3.wonBoard))
  = GamePhase.Victory
  /\ (executeAction Board3.quiet (Board3.engineOf Board3.wonBoard)
        Board3.fortifyHome).1 = true
  /\ Tile.stability <$> GameState.tiles Board3.wonBoard !! (0, 0) = Some 3
  /\ Tile.stability
       <$> GameState.tiles
             (state (executeAction Board3.quiet
                       (Board3.engineOf Board3.wonBoard)
                       Board3.fortifyHome).2) !! (0, 0) = Some 5
  /\ playerField PlayerState.divinity Board3.wonBoard Owner.Player = Some 8
  /\ playerField PlayerState.divinity
       (state (executeAction Board3.quiet (Board3.engineOf Board3.wonBoard)
                 Board3.fortifyHome).2) Owner.Player = Some 5
  /\ state (executeAction Board3.quiet (Board3.engineOf Board3.wonBoard)
              Board3.fortifyHome).2 <> Board3.wonBoard.
Proof.
  repeat split; by vm_compute.
Qed.

(** The test [if (victory)] that guards the phase change is on the object
    [checkVictory] returns, never on its [winner] field: every action that
    passes validation leaves the phase at Victory, also on a board where
    [checkVictory] reports no winner. *)
Lemma phase_set_after_every_valid_action rnd e action :
  validateAction (state e) action = true ->
  GameState.phase (state (executeAction rnd e action).2) = GamePhase.Victory.
Proof.
  intros Hv. by destruct (executeAction_valid rnd e action Hv)
    as (? & ? & _ & _ & H).
Qed.

Example phase_set_without_winner :
  GameState.phase Board3.openBoard = GamePhase.Playing
  /\ VictorySystem.conditionMet
       (VictorySystem.checkVictory
          (FogOfWarSystem.updateVisibility
             (executeFortify defaultGameConfig Board3.openBoard
                Board3.fortifyHome).2)).1 = false
  /\ GameState.phase
       (state (executeAction Board3.quiet (Board3.engineOf Board3.openBoard)
                 Board3.fortifyHome).2) = GamePhase.Victory.
Proof. by vm_compute. Qed.

End PhaseClaim.

(* ================================================================== *)
(** ** The AI turn loop                                                *)
(* ================================================================== *)

Lemma players_update_id ps o f :
  (forall p, players_get ps o = Some p -> f p = p) ->
  players_update ps o f = ps.
Proof.
  induction ps as [|[k p] ps IH]; intros Hf; simpl; [done|].
  simpl in Hf. destruct (decide (k = o)) as [->|Hne].
  - by rewrite Hf.
  - by rewrite IH.
Qed.

Module AIFacts.
Import AIController AIView.

Definition allExplore (candidates : list Candidate) : Prop :=
  Forall (fun c => GameAction.type (action c) = ActionType.Explore) candidates.

Lemma push_explore rnd player unitId target candidates :
  allExplore candidates ->
  allExplore (push rnd ActionType.Explore player unitId target candidates).
Proof.
  intros H. unfold push. apply Forall_app. split; [done|].
  by apply Forall_singleton.
Qed.

Lemma length_push rnd type player unitId target candidates :
  length (push rnd type player unitId target candidates)
  = S (length candidates).
Proof. unfold push. rewrite length_app. simpl. lia. Qed.

Lemma generateExploreActions_spec rnd s player candidates :
  allExplore candidates ->
  allExplore (generateExploreActions rnd s player candidates)
  /\ length (generateExploreActions rnd s player candidates)
     = (length candidates + length (exploreTargets s player))%nat.
Proof.
  unfold generateExploreActions, exploreTargets.
  generalize (PlayerState.units player). intros units.
  revert candidates. induction units as [|u units IH]; intros cs Hcs; simpl.
  - split; [done|lia].
  - rewrite length_app.
    set (radius := getTilesInRadius _ _ _ _).
    assert (Hinner : forall cs, allExplore cs ->
              let cs' :=
                fold_left
                  (fun candidates tileKey =>
                     match GameState.tiles s !! tileKey with
                     | Some tile =>
                         if decide (Tile.visibility tile
                                    = TileVisibility.Hidden)
                         then push rnd ActionType.Explore player
                                (Some (Unit.id u)) (Some (Tile.position tile))
                                candidates
                         else candidates
                     | None => candidates
                     end) radius cs in
              allExplore cs'
              /\ length cs'
                 = (length cs
                    + length
                        (List.filter
                           (fun tileKey =>
                              match GameState.tiles s !! tileKey with
                              | Some tile =>
                                  bool_decide (Tile.visibility tile
                                               = TileVisibility.Hidden)
                              | None => false
                              end) radius))%nat).
    { generalize radius. intros l. induction l as [|k l IHl]; intros cs0 H0;
        simpl; [split; [done|lia]|].
      destruct (GameState.tiles s !! k) as [tile|]; [|by apply IHl].
      case_decide as Hh.
      - rewrite bool_decide_eq_true_2 by done. simpl.
        destruct (IHl _ (push_explore rnd player (Some (Unit.id u))
                           (Some (Tile.position tile)) cs0 H0)) as [Ha Hl].
        split; [done|]. rewrite Hl, length_push. lia.
      - rewrite bool_decide_eq_false_2 by done. by apply IHl. }
    destruct (0 <? Unit.movePoints u).
    + destruct (Hinner cs Hcs) as [Ha Hl].
      destruct (IH _ Ha) as [Ha' Hl']. split; [done|].
      rewrite Hl', Hl. lia.
    + destruct (IH _ Hcs) as [Ha' Hl']. split; [done|].
      rewrite Hl'. simpl. lia.
Qed.

(** With less than 2 divinity the other four families propose nothing. *)
Lemma generateCandidates_poor rnd s player :
  PlayerState.divinity player < 2 ->
  generateCandidates rnd s player = generateExploreActions rnd s player [].
Proof.
  intros Hd. unfold generateCandidates.
  assert (H2 : (2 <=? PlayerState.divinity player) = false) by lia.
  assert (H3 : (3 <=? PlayerState.divinity player) = false) by lia.
  assert (H4 : (4 <=? PlayerState.divinity player) = false) by lia.
  assert (Hcap : generateCaptureActions rnd s player [] = []).
  { unfold generateCaptureActions.
    set (capturableTiles :=
           fold_left _ (elements (PlayerState.ownedTiles player)) []).
    assert (capturableTiles = []) as ->; [|done].
    subst capturableTiles.
    rewrite (fold_left_ext_in _ (fun capturable _ => capturable)).
    - by induction (elements (PlayerState.ownedTiles player)).
    - intros acc k. destruct (GameState.tiles s !! k) as [tile|]; [|done].
      generalize (getNeighbors (Position.x (Tile.position tile))
                    (Position.y (Tile.position tile)) s).
      intros nbs. revert acc. induction nbs as [|nk nbs IHn]; intros acc;
        simpl; [done|].
      destruct (GameState.tiles s !! nk) as [nb|]; [|apply IHn].
      destruct (negb (bool_decide (Tile.owner nb = PlayerState.owner player))
                && negb (Tile.impassable nb)
                && (2 <=? PlayerState.divinity player)) eqn:E;
        [|apply IHn].
      by rewrite H2, andb_false_r in E. }
  rewrite Hcap.
  assert (Hsan : generateSanctifyActions rnd s player [] = []).
  { unfold generateSanctifyActions.
    induction (elements (PlayerState.ownedTiles player)) as [|k l IH];
      simpl; [done|].
    destruct (GameState.tiles s !! k) as [tile|]; [|done].
    destruct (negb (Tile.sanctified tile)
              && (4 <=? PlayerState.divinity player)) eqn:E; [|done].
    by rewrite H4, andb_false_r in E. }
  rewrite Hsan.
  assert (Hfor : generateFortifyActions rnd s player [] = []).
  { unfold generateFortifyActions.
    induction (elements (PlayerState.ownedTiles player)) as [|k l IH];
      simpl; [done|].
    destruct (GameState.tiles s !! k) as [tile|]; [|done].
    destruct ((Tile.stability tile <? 5)
              && (3 <=? PlayerState.divinity player)) eqn:E; [|done].
    by rewrite H3, andb_false_r in E. }
  rewrite Hfor. unfold generateSummonActions. by rewrite H2.
Qed.

(** Sorting keeps the candidates. *)
Lemma insertByScore_perm c l : insertByScore c l ≡ₚ c :: l.
Proof.
  induction l as [|c' l IH]; simpl; [done|].
  destruct (Qle_bool _ _); [done|]. rewrite IH. apply Permutation_swap.
Qed.

Lemma sortByScore_perm l : sortByScore l ≡ₚ l.
Proof.
  induction l as [|c l IH]; simpl; [done|].
  by rewrite insertByScore_perm, IH.
Qed.

Lemma selectBestAction_poor rnd s player :
  PlayerState.divinity player < 2 ->
  exploreTargets s player <> [] ->
  exists best,
    selectBestAction rnd s player = Some best
    /\ GameAction.type best = ActionType.Explore.
Proof.
  intros Hd Htargets. unfold selectBestAction.
  rewrite generateCandidates_poor by done.
  destruct (generateExploreActions_spec rnd s player [] (Forall_nil_2 _))
    as [Hall Hlen].
  set (cs := generateExploreActions rnd s player []) in *.
  set (scored := applyPersonalityWeights player _).
  assert (Hactions : action <$> scored = action <$> cs).
  { subst scored. unfold applyPersonalityWeights.
    rewrite <- list_fmap_compose.
    assert (Hi : forall (f : nat -> Candidate -> Candidate) l,
               (forall n c, action (f n c) = action c) ->
               action <$> imap f l = action <$> l).
    { intros f l Hf. revert f Hf. induction l as [|c l IH]; intros f Hf;
        simpl; [done|].
      rewrite Hf. f_equal. apply IH. intros n c'. apply Hf. }
    rewrite <- (Hi (fun n candidate =>
                      mkCandidate (action candidate)
                        (calculateUtility (jitter rnd n) s player
                           (action candidate))) cs) by done.
    apply list_fmap_ext. intros i c _. simpl.
    destruct (default Personality.balanced (PlayerState.aiPersonality player));
      repeat (destruct (bool_decide _); simpl; try done); done. }
  pose proof (sortByScore_perm scored) as Hperm.
  destruct (sortByScore scored) as [|best sorted] eqn:Hsort.
  - apply Permutation_nil_l in Hperm.
    assert (length cs = 0%nat) as Hz.
    { rewrite <- (length_fmap action cs), <- Hactions, length_fmap.
      by rewrite <- Hperm. }
    rewrite Hz in Hlen. destruct (exploreTargets s player); [done|].
    simpl in Hlen. lia.
  - exists (action best). split; [done|].
    assert (Hin : action best ∈ action <$> cs).
    { rewrite <- Hactions. apply list_elem_of_fmap_2.
      rewrite <- Hperm. by left. }
    apply list_elem_of_fmap in Hin as (c & Hc & Hin). rewrite Hc.
    unfold allExplore in Hall. rewrite Forall_forall in Hall.
    by apply Hall.
Qed.

(** Simulating an explore action costs nothing and writes back the
    divinity that was there. *)
Lemma simulateAction_explore cur s player a :
  getPlayer s cur = Some player ->
  0 <= PlayerState.divinity player ->
  GameAction.type a = ActionType.Explore ->
  simulateAction cur s a = s.
Proof.
  intros Hp Hd Ha. unfold simulateAction, updatePlayer. rewrite Ha. simpl.
  rewrite players_update_id.
  - by destruct s.
  - intros p Hp'. unfold getPlayer in Hp. rewrite Hp in Hp'. simplify_eq.
    rewrite Z.sub_0_r, Z.max_r by done. by destruct p.
Qed.

(** A player with 1 divinity and something left to explore keeps the loop
    going for ever: whatever the draws, no number of iterations ends it. *)
Lemma executeTurnFrom_stuck fuel rnd cur s player actions :
  getPlayer s cur = Some player ->
  0 < PlayerState.divinity player < 2 ->
  exploreTargets s player <> [] ->
  executeTurnFrom fuel rnd cur s actions = None.
Proof.
  intros Hp Hd Htargets. revert actions.
  induction fuel as [|fuel IH]; intros actions; simpl; [done|].
  rewrite Hp. destruct (Z.ltb_spec 0 (PlayerState.divinity player)); [|lia].
  destruct (selectBestAction_poor (rnd (length actions)) s player)
    as (best & Hbest & Htype); [lia|done|].
  rewrite Hbest, (simulateAction_explore cur s player) by (done || lia).
  apply IH.
Qed.

End AIFacts.

Module AIClaim.
Import AIController AIView AIFacts.

(** C7 (the code departs from it).  The AI player of the scout board has 1
    divinity, an explorer with a move point left and an unseen tile next to
    it.  Only explore candidates exist, the best of them costs the
    simulation nothing, and the state after an iteration is the state
    before it: for every number of iterations and every sequence of random
    draws the loop of [executeTurn] is still running. *)
Theorem executeTurn_never_ends :
  playerField PlayerState.divinity Board4.scoutBoard Owner.AI1 = Some 1
  /\ exploreTargets Board4.scoutBoard Board4.scoutPlayer = [(1, 0)]
  /\ forall (fuel : nat) (rnd : nat -> Oracle),
       executeTurn fuel rnd Owner.AI1 Board4.scoutBoard = None.
Proof.
  split; [by vm_compute|]. split; [by vm_compute|].
  intros fuel rnd. unfold executeTurn.
  apply (executeTurnFrom_stuck fuel rnd Owner.AI1 Board4.scoutBoard
           Board4.scoutPlayer); by vm_compute.
Qed.

End AIClaim.

(* ================================================================== *)
(** ** Save and load                                                   *)
(* ================================================================== *)

Module JsonFacts.
Import Json.

(** The outcome expected of serializing then parsing one value. *)
Definition comesBack (n : nat) (x : value) : Prop :=
  if isUndefined x then stringify n x = Skip
  else exists j, stringify n x = Json j /\ parse j = Some (prune x).

Lemma reviver_Arr vs : reviver (Arr vs) = Some (Arr vs).
Proof. done. Qed.

Lemma items_roundtrip n (items : list value) :
  (forall x, x ∈ items -> isUndefined x = false /\ comesBack n x) ->
  exists js,
    collectItems (stringify n <$> items) = Some js
    /\ mapM parse js = Some (prune <$> items).
Proof.
  induction items as [|x items IH]; intros H.
  - by exists [].
  - destruct (H x) as [Hx Hback]; [by left|].
    unfold comesBack in Hback. rewrite Hx in Hback.
    destruct Hback as (j & Hj & Hp).
    destruct IH as (js & Hjs & Hps); [intros y Hy; apply H; by right|].
    exists (j :: js). rewrite !fmap_cons, Hj. cbn [collectItems].
    rewrite Hjs. split; [done|]. cbn [mapM]. by rewrite Hp, Hps.
Qed.

Lemma fields_roundtrip n (fields : list (string * value)) :
  (forall f, f ∈ fields -> comesBack n f.2) ->
  exists fs,
    collectFields (prod_map id (stringify n) <$> fields) = Some fs
    /\ mapM (fun f => pair f.1 <$> parse f.2) fs
       = Some (omap
                 (fun f =>
                    if isUndefined f.2 then None else Some (f.1, prune f.2))
                 fields).
Proof.
  induction fields as [|[k x] fields IH]; intros H.
  - by exists [].
  - pose proof (H (k, x) ltac:(by left)) as Hback.
    destruct IH as (fs & Hfs & Hps); [intros y Hy; apply H; by right|].
    unfold comesBack in Hback. cbn [snd] in Hback.
    rewrite fmap_cons. cbn [prod_map fst snd id omap list_omap].
    destruct (isUndefined x) eqn:Hx.
    + rewrite Hback. cbn [collectFields]. by exists fs.
    + destruct Hback as (j & Hj & Hp). exists ((k, j) :: fs).
      rewrite Hj. cbn [collectFields]. rewrite Hfs. split; [done|].
      cbn [mapM fst snd]. by rewrite Hp, Hps.
Qed.

(** *** Keys *)

Lemma sameValueZero_prune a b :
  sameValueZero (prune a) (prune b) = sameValueZero a b.
Proof. by destruct a, b. Qed.

Lemma distinct_prune l : distinct (prune <$> l) = distinct l.
Proof.
  induction l as [|a l IH]; [done|].
  rewrite fmap_cons. cbn [distinct]. rewrite IH. f_equal.
  clear IH. induction l as [|b l IHl]; [done|].
  rewrite fmap_cons. cbn [forallb]. by rewrite sameValueZero_prune, IHl.
Qed.

Lemma distinct_app_fresh (l r : list value) k :
  distinct (l ++ k :: r) = true ->
  existsb (fun a => sameValueZero a k) l = false.
Proof.
  induction l as [|a l IH]; [done|]. cbn [app distinct existsb].
  rewrite andb_true_iff, forallb_app. cbn [forallb].
  rewrite !andb_true_iff, negb_true_iff. intros [(_ & Ha & _) Hd].
  by rewrite Ha, IH.
Qed.

Lemma existsb_fst (acc : list (value * value)) k :
  existsb (fun e => sameValueZero e.1 k) acc
  = existsb (fun a => sameValueZero a k) acc.*1.
Proof. induction acc as [|e acc IH]; [done|]. simpl. by rewrite IH. Qed.

(** [new Map] on the entries of a map gives the map back. *)
Lemma newMap_entries (entries acc : list (value * value)) :
  distinct (acc.*1 ++ entries.*1) = true ->
  foldl
    (fun acc item =>
       entries ← acc;
       match item with
       | Arr [] => Some (mapSet entries Undefined Undefined)
       | Arr [k] => Some (mapSet entries k Undefined)
       | Arr (k :: x :: _) => Some (mapSet entries k x)
       | _ => None
       end)
    (Some acc) ((fun e => Arr [e.1; e.2]) <$> entries)
  = Some (acc ++ entries).
Proof.
  revert acc. induction entries as [|[k x] entries IH]; intros acc Hd.
  - by rewrite app_nil_r.
  - rewrite fmap_cons. cbn [foldl fst snd mbind option_bind].
    rewrite fmap_cons in Hd. cbn [fst] in Hd.
    unfold mapSet. rewrite existsb_fst, (distinct_app_fresh _ _ _ Hd).
    rewrite IH.
    + by rewrite <- app_assoc.
    + by rewrite fmap_app, <- app_assoc.
Qed.

Lemma newSet_elements (elements acc : list value) :
  distinct (acc ++ elements) = true ->
  foldl setAdd acc elements = acc ++ elements.
Proof.
  revert acc. induction elements as [|x elements IH]; intros acc Hd.
  - by rewrite app_nil_r.
  - cbn [foldl]. unfold setAdd at 2.
    rewrite (distinct_app_fresh _ _ _ Hd), IH; by rewrite <- app_assoc.
Qed.

(** *** Property names *)

Lemma getField_None name (fields : list (string * value)) :
  name ∉ fields.*1 -> getField name fields = None.
Proof.
  induction fields as [|[k x] fields IH]; [done|]. rewrite fmap_cons.
  intros Hn. apply not_elem_of_cons in Hn as [Hne Hn]. simpl.
  rewrite decide_False by done. by apply IH.
Qed.

Lemma omap_keys name (fields : list (string * value)) :
  name ∉ fields.*1 ->
  name ∉ (omap
            (fun f => if isUndefined f.2 then None else Some (f.1, prune f.2))
            fields).*1.
Proof.
  induction fields as [|[k x] fields IH]; [done|]. rewrite fmap_cons.
  intros Hn. apply not_elem_of_cons in Hn as [Hne Hn].
  cbn [omap list_omap fst snd]. destruct (isUndefined x); [by apply IH|].
  rewrite fmap_cons. apply not_elem_of_cons. split; [done|by apply IH].
Qed.

(** The [dataType] of a pruned plain object is never a tag. *)
Lemma pruned_untagged (fields : list (string * value)) :
  NoDup fields.*1 ->
  from_option isTag false (getField "dataType" fields) = false ->
  from_option isTag false
    (getField "dataType"
       (omap
          (fun f => if isUndefined f.2 then None else Some (f.1, prune f.2))
          fields)) = false.
Proof.
  induction fields as [|[k x] fields IH]; [done|]. rewrite fmap_cons.
  intros Hnd. apply NoDup_cons in Hnd as [Hk Hnd].
  cbn [getField omap list_omap fst snd].
  destruct (decide (k = "dataType"%string)) as [->|Hne].
  - intros Htag. destruct (isUndefined x) eqn:Hx.
    + by rewrite getField_None by by apply omap_keys.
    + cbn [getField]. rewrite decide_True by done. by destruct x.
  - intros Htag. destruct (isUndefined x).
    + by apply IH.
    + cbn [getField]. rewrite decide_False by done. by apply IH.
Qed.

Lemma reviver_untagged (fields : list (string * value)) :
  from_option isTag false (getField "dataType" fields) = false ->
  reviver (Obj fields) = Some (Obj fields).
Proof.
  unfold reviver. destruct (getField "dataType" fields) as [[]|]; try done.
  simpl. rewrite orb_false_iff. intros [H1 H2].
  apply bool_decide_eq_false_1 in H1, H2.
  by rewrite !decide_False.
Qed.

(** *** Depth *)

Lemma depth_item x (items : list value) :
  x ∈ items -> (depth x <= foldr (fun x m => depth x `max` m) 0 items)%nat.
Proof.
  induction items as [|y items IH]; intros Hx; [by apply elem_of_nil in Hx|].
  apply elem_of_cons in Hx as [->|Hx]; simpl; [lia|].
  specialize (IH Hx). lia.
Qed.

Lemma depth_field f (fields : list (string * value)) :
  f ∈ fields ->
  (depth f.2 <= foldr (fun f m => depth f.2 `max` m) 0 fields)%nat.
Proof.
  induction fields as [|y fields IH]; intros Hx;
    [by apply elem_of_nil in Hx|].
  apply elem_of_cons in Hx as [->|Hx]; simpl; [lia|].
  specialize (IH Hx). lia.
Qed.

Lemma depth_entry e (entries : list (value * value)) :
  e ∈ entries ->
  (depth e.1 `max` depth e.2
   <= foldr (fun e m => depth e.1 `max` (depth e.2 `max` m)) 0 entries)%nat.
Proof.
  induction entries as [|y entries IH]; intros Hx;
    [by apply elem_of_nil in Hx|].
  apply elem_of_cons in Hx as [->|Hx]; simpl; [lia|].
  specialize (IH Hx). lia.
Qed.

(** *** The replacer's encoding of a map *)

Definition pairs (entries : list (value * value)) : list value :=
  (fun e => Arr [e.1; e.2]) <$> entries.

Lemma depth_pairs entries :
  (depth (Arr (pairs entries))
   <= 2 + foldr (fun e m => depth e.1 `max` (depth e.2 `max` m)) 0 entries)
    %nat.
Proof.
  cbn [depth]. unfold pairs.
  induction entries as [|e entries IH]; [simpl; lia|].
  rewrite fmap_cons. cbn [foldr depth]. lia.
Qed.

Lemma serializable_pairs entries :
  forallb
    (fun e =>
       negb (isUndefined e.1) && serializable e.1
       && negb (isUndefined e.2) && serializable e.2) entries = true ->
  serializable (Arr (pairs entries)) = true.
Proof.
  cbn [serializable]. unfold pairs.
  induction entries as [|e entries IH]; [done|].
  rewrite fmap_cons. cbn [forallb]. intros Hall.
  apply andb_true_iff in Hall as [He H]. apply andb_true_iff.
  split; [|by apply IH]. cbn [isUndefined serializable negb forallb].
  by destruct (isUndefined e.1), (serializable e.1), (isUndefined e.2),
    (serializable e.2).
Qed.

Lemma prune_pairs entries :
  prune (Arr (pairs entries))
  = Arr (pairs ((fun e => (prune e.1, prune e.2)) <$> entries)).
Proof.
  cbn [prune]. f_equal. unfold pairs. rewrite <- !list_fmap_compose.
  by apply list_fmap_ext.
Qed.

Lemma pruned_keys (entries : list (value * value)) :
  ((fun e : value * value => (prune e.1, prune e.2)) <$> entries).*1
  = prune <$> entries.*1.
Proof.
  induction entries as [|e entries IH]; [done|].
  rewrite !fmap_cons. by rewrite IH.
Qed.

(** Every serializable graph comes back, pruned, once the fuel exceeds its
    depth. *)
Lemma roundtrip_depth n :
  forall v, (depth v < n)%nat -> serializable v = true -> comesBack n v.
Proof.
  induction n as [n IH] using lt_wf_ind. intros v Hd Hs.
  destruct n as [|n]; [lia|].
  destruct v as [| |b|[q| | |]|s|items|fields|entries|elements];
    unfold comesBack; cbn [isUndefined]; try done;
    try (by eexists).
  - (* array *)
    cbn [stringify replacer].
    destruct (items_roundtrip n items) as (js & Hjs & Hps).
    { intros x Hx. cbn [serializable] in Hs.
      rewrite forallb_forall in Hs.
      specialize (Hs x (proj1 (list_elem_of_In _ _) Hx)).
      apply andb_true_iff in Hs as [Hu Hsx]. apply negb_true_iff in Hu.
      split; [done|]. apply IH; [lia| |done].
      pose proof (depth_item x items Hx). cbn [depth] in Hd. lia. }
    rewrite Hjs. eexists. split; [done|]. cbn [parse]. by rewrite Hps.
  - (* plain object *)
    cbn [stringify replacer]. cbn [serializable] in Hs.
    apply andb_true_iff in Hs as [Hs Htag].
    apply andb_true_iff in Hs as [Hnd Hs].
    apply bool_decide_eq_true_1 in Hnd. apply negb_true_iff in Htag.
    destruct (fields_roundtrip n fields) as (fs & Hfs & Hps).
    { intros f Hf. rewrite forallb_forall in Hs.
      specialize (Hs f (proj1 (list_elem_of_In _ _) Hf)).
      apply IH; [lia| |done].
      pose proof (depth_field f fields Hf). cbn [depth] in Hd. lia. }
    rewrite Hfs. eexists. split; [done|]. cbn [parse prune].
    rewrite Hps. cbn [mbind option_bind].
    apply reviver_untagged. by apply pruned_untagged.
  - (* Map *)
    cbn [serializable] in Hs. apply andb_true_iff in Hs as [Hs Hdist].
    cbn [depth] in Hd.
    assert (Hpairs : comesBack n (Arr (pairs entries))).
    { apply IH; [lia| |by apply serializable_pairs].
      pose proof (depth_pairs entries). lia. }
    unfold comesBack in Hpairs. cbn [isUndefined] in Hpairs.
    destruct Hpairs as (j & Hj & Hp).
    destruct n as [|n]; [lia|].
    change (stringify (S (S n)) (MapV entries))
      with (match collectFields
                    [("dataType"%string, stringify (S n) (Str "Map"));
                     ("value"%string, stringify (S n) (Arr (pairs entries)))]
            with
            | Some fs => Json (JObj fs)
            | None => OutOfFuel
            end).
    rewrite Hj. cbn [stringify replacer collectFields fmap option_fmap
                       option_map].
    eexists. split; [reflexivity|]. cbn [parse mapM fst snd]. rewrite Hp.
    rewrite prune_pairs.
    cbn [reviver fmap option_fmap option_map mbind option_bind mret
           option_ret].
    cbn [reviver getField]. repeat case_decide; try discriminate; try done.
    unfold newMap, pairs. rewrite (newMap_entries _ []).
    + done.
    + change (distinct
                ((fun e : value * value => (prune e.1, prune e.2))
                   <$> entries).*1 = true).
      by rewrite pruned_keys, distinct_prune.
  - (* Set *)
    cbn [serializable] in Hs. apply andb_true_iff in Hs as [Hs Hdist].
    cbn [depth] in Hd.
    assert (Hitems : comesBack n (Arr elements)).
    { apply IH; [lia|cbn [depth]; lia|done]. }
    unfold comesBack in Hitems. cbn [isUndefined] in Hitems.
    destruct Hitems as (j & Hj & Hp).
    destruct n as [|n]; [lia|].
    change (stringify (S (S n)) (SetV elements))
      with (match collectFields
                    [("dataType"%string, stringify (S n) (Str "Set"));
                     ("value"%string, stringify (S n) (Arr elements))]
            with
            | Some fs => Json (JObj fs)
            | None => OutOfFuel
            end).
    rewrite Hj. cbn [stringify replacer collectFields fmap option_fmap
                       option_map].
    eexists. split; [reflexivity|]. cbn [parse mapM fst snd]. rewrite Hp.
    cbn [prune].
    cbn [reviver fmap option_fmap option_map mbind option_bind mret
           option_ret].
    cbn [reviver getField]. repeat case_decide; try discriminate; try done.
    unfold newSet. rewrite (newSet_elements _ []); [done|].
    cbn [app]. by rewrite distinct_prune.
Qed.

(** Reading a property sees the same value, pruned, before and after the
    properties that hold [undefined] are dropped. *)
Lemma prop_prune name (fields : list (string * value)) :
  NoDup fields.*1 ->
  prop name (prune (Obj fields)) = prune (prop name (Obj fields)).
Proof.
  unfold prop. cbn [prune].
  induction fields as [|[k x] fields IH]; [done|].
  rewrite fmap_cons. intros Hnd. apply NoDup_cons in Hnd as [Hk Hnd].
  cbn [omap list_omap getField fst snd].
  destruct (isUndefined x) eqn:Hx.
  - case_decide as Hkn.
    + subst k. rewrite getField_None by (by apply omap_keys).
      by destruct x.
    + by apply IH.
  - cbn [getField]. case_decide; [done|]. by apply IH.
Qed.

End JsonFacts.

Module JsonClaim.
Import Json JsonFacts SaveGame.

(** C9 (amended).  [exportState] followed by [importState] gives back the
    state, the configuration and the action log, with every Map and every
    Set rebuilt, whenever the three graphs are serializable: every number
    is finite, no array element, map key, map value or set element is
    [undefined], map keys and set elements are pairwise different, and no
    plain object has a [dataType] property equal to ['Map'] or ['Set'].
    Properties that hold [undefined] are left out of what comes back
    ([prune]), so they still read as [undefined].  The export terminates:
    any fuel above the nesting depth of the graphs gives the result. *)
Theorem exportState_importState_roundtrip (fuel : nat)
  (state config actionHistory : value) :
  serializable state = true ->
  serializable config = true ->
  serializable actionHistory = true ->
  (depth state + 1 < fuel)%nat ->
  (depth config + 1 < fuel)%nat ->
  (depth actionHistory + 1 < fuel)%nat ->
  exists data,
    exportState fuel state config actionHistory = Json data
    /\ importState data
       = Some (prune state, prune config, prune actionHistory).
Proof.
  intros Hs Hc Ha Hds Hdc Hda.
  set (fields := [("state"%string, state); ("config"%string, config);
                  ("actionHistory"%string, actionHistory)]).
  assert (Hnd : NoDup fields.*1)
    by (apply (bool_decide_unpack _); vm_compute; exact I).
  assert (Hroot : comesBack fuel (Obj fields)).
  { apply roundtrip_depth.
    - cbn [depth fields foldr snd]. lia.
    - cbn [serializable fields forallb snd]. rewrite Hs, Hc, Ha.
      by rewrite (bool_decide_eq_true_2 _ Hnd). }
  destruct Hroot as (data & Hdata & Hparse). exists data.
  split; [exact Hdata|]. unfold importState. rewrite Hparse.
  cbn [mbind option_bind]. cbn [prune].
  change (Obj (omap _ fields)) with (prune (Obj fields)).
  by rewrite !prop_prune.
Qed.

(** After a fortify on the two-player board with both tiles revealed the
    saved engine is read back as it was. *)
Lemma exportState_importState_roundtrip_witness :
  exists data,
    export 12 Board5.revealed = Json data
    /\ importState data
       = Some (prune (stateGraph (GameEngine.state Board5.revealed)),
               prune (configGraph (GameEngine.config Board5.revealed)),
               prune
                 (historyGraph (GameEngine.actionHistory Board5.revealed))).
Proof.
  apply (exportState_importState_roundtrip 12
           (stateGraph (GameEngine.state Board5.revealed))
           (configGraph (GameEngine.config Board5.revealed))
           (historyGraph (GameEngine.actionHistory Board5.revealed)));
    vm_compute; first [reflexivity | lia].
Defined.

(** C9 as stated fails: on a board on which no tile is revealed yet the
    conquest check divides by zero and stores [Infinity] as the human
    player's conquest progress.  The saved text holds [null] there, and
    the state that [importState] installs reads [null] where the state
    that was saved read [Infinity]. *)
Lemma conquest_progress_not_restored_counterexample :
  progressOf Owner.Player VictoryCondition.Conquest
    (stateGraph (GameEngine.state Board5.unrevealed))
  = Num Infinity
  /\ serializable (stateGraph (GameEngine.state Board5.unrevealed)) = false
  /\ exists data state' config' actionHistory',
       export 12 Board5.unrevealed = Json data
       /\ importState data = Some (state', config', actionHistory')
       /\ progressOf Owner.Player VictoryCondition.Conquest state' = Null
       /\ state' <> stateGraph (GameEngine.state Board5.unrevealed)
       /\ state' <> prune (stateGraph (GameEngine.state Board5.unrevealed)).
Proof.
  split; [by vm_compute|]. split; [by vm_compute|].
  destruct (export 12 Board5.unrevealed) as [| |data] eqn:E;
    [by vm_compute in E..|].
  vm_compute in E. injection E as <-.
  eexists _, _, _, _. split; [reflexivity|]. split; [reflexivity|].
  split; [by vm_compute|].
  split;
    intros H%(f_equal (progressOf Owner.Player VictoryCondition.Conquest));
    by vm_compute in H.
Qed.

End JsonClaim.

(* ================================================================== *)
(** * Further properties of the resolvers                              *)
(* ================================================================== *)

(** ** The resource ledger *)

Module ResourceExtra.
Import ResourceSystem.

Lemma lacks_false (c : option Z) (have : Z) :
  0 <= have -> lacks c have = false -> 0 <= less c have.
Proof.
  destruct c as [c|]; simpl; [|done]. intros Hh.
  destruct (Z.eqb_spec c 0); simpl; [done|].
  destruct (Z.ltb_spec have c); [done|lia].
Qed.

Lemma less_orZero (c : option Z) (have : Z) : less c have = have - orZero c.
Proof.
  destruct c as [c|]; simpl; [|lia]. destruct (Z.eqb_spec c 0); lia.
Qed.

(** X1.  [spendResources] succeeds exactly when [hasResources] holds; a
    refused payment leaves the player as it was; an accepted one takes
    exactly the stated components (an absent component counts as 0) and,
    for a player whose three currencies are not negative, leaves none of
    them negative. *)
Theorem spendResources_no_overdraft (player : PlayerState.t)
  (cost : ResourceCost.t) :
  0 <= PlayerState.divinity player ->
  0 <= PlayerState.faith player ->
  0 <= PlayerState.shadowEnergy player ->
  (spendResources player cost).1 = hasResources player cost
  /\ (hasResources player cost = false ->
      (spendResources player cost).2 = player)
  /\ (hasResources player cost = true ->
      PlayerState.divinity (spendResources player cost).2
      = PlayerState.divinity player - orZero (ResourceCost.divinity cost)
      /\ PlayerState.faith (spendResources player cost).2
         = PlayerState.faith player - orZero (ResourceCost.faith cost)
      /\ PlayerState.shadowEnergy (spendResources player cost).2
         = PlayerState.shadowEnergy player
           - orZero (ResourceCost.shadowEnergy cost)
      /\ PlayerState.aegis (spendResources player cost).2
         = PlayerState.aegis player
      /\ 0 <= PlayerState.divinity (spendResources player cost).2
      /\ 0 <= PlayerState.faith (spendResources player cost).2
      /\ 0 <= PlayerState.shadowEnergy (spendResources player cost).2).
Proof.
  intros Hd Hf Hs. unfold spendResources.
  destruct (hasResources player cost) eqn:Hhas; simpl.
  - split; [done|]. split; [done|]. intros _.
    rewrite <- !less_orZero. repeat split; try done.
    all: unfold hasResources in Hhas.
    all: destruct (lacks (ResourceCost.divinity cost) _) eqn:H1; [done|].
    all: destruct (lacks (ResourceCost.faith cost) _) eqn:H2; [done|].
    all: destruct (lacks (ResourceCost.shadowEnergy cost) _) eqn:H3; [done|].
    all: by apply lacks_false.
  - done.
Qed.

(** A player with 8 divinity and 2 faith pays 3 divinity and 1 faith. *)
Lemma spendResources_no_overdraft_witness :
  (spendResources
     (PlayerState.set_faith 2
        (Board.playerOf "p1" Owner.Player DomainType.Water 8 ∅))
     (ResourceCost.mk (Some 3) (Some 1) None)).1 = true
  /\ PlayerState.divinity
       (spendResources
          (PlayerState.set_faith 2
             (Board.playerOf "p1" Owner.Player DomainType.Water 8 ∅))
          (ResourceCost.mk (Some 3) (Some 1) None)).2 = 5.
Proof.
  pose proof (spendResources_no_overdraft
                (PlayerState.set_faith 2
                   (Board.playerOf "p1" Owner.Player DomainType.Water 8 ∅))
                (ResourceCost.mk (Some 3) (Some 1) None)) as H.
  destruct H as (H1 & _ & H3); [by vm_compute..|].
  split; [by rewrite H1|]. by destruct H3 as (-> & _).
Defined.

(** X2.  A conversion of faith or of shadow energy into divinity that the
    player can pay for always takes the full amount, but the divinity it
    grants in return is cut at 20: the gain is at most the amount times the
    rate, it is that product only while the sum stays at or below 20, and
    a player already at 20 pays and gains nothing. *)
Theorem conversions_pay_in_full_and_gain_up_to_cap (player : PlayerState.t)
  (amount rate : Z) :
  0 <= amount -> 0 <= rate -> PlayerState.divinity player <= 20 ->
  (amount <= PlayerState.faith player ->
   (convertFaithToDivinity player amount rate).1 = true
   /\ PlayerState.faith (convertFaithToDivinity player amount rate).2
      = PlayerState.faith player - amount
   /\ PlayerState.divinity (convertFaithToDivinity player amount rate).2
      = Z.min 20 (PlayerState.divinity player + amount * rate)
   /\ PlayerState.divinity player
      <= PlayerState.divinity (convertFaithToDivinity player amount rate).2
      <= 20)
  /\ (amount <= PlayerState.shadowEnergy player ->
      (convertShadowEnergyToDivinity player amount rate).1 = true
      /\ PlayerState.shadowEnergy
           (convertShadowEnergyToDivinity player amount rate).2
         = PlayerState.shadowEnergy player - amount
      /\ PlayerState.divinity
           (convertShadowEnergyToDivinity player amount rate).2
         = Z.min 20 (PlayerState.divinity player + amount * rate)
      /\ PlayerState.divinity player
         <= PlayerState.divinity
              (convertShadowEnergyToDivinity player amount rate).2
         <= 20)
  /\ (PlayerState.faith player < amount ->
      convertFaithToDivinity player amount rate = (false, player))
  /\ (PlayerState.shadowEnergy player < amount ->
      convertShadowEnergyToDivinity player amount rate = (false, player)).
Proof.
  intros Ha Hr Hd.
  unfold convertFaithToDivinity, convertShadowEnergyToDivinity.
  repeat split; intros; simpl in *.
  all: try (destruct (Z.ltb_spec (PlayerState.faith player) amount);
            [lia|]; simpl; try done; nia).
  all: try (destruct (Z.ltb_spec (PlayerState.shadowEnergy player) amount);
            [lia|]; simpl; try done; nia).
  - by destruct (Z.ltb_spec (PlayerState.faith player) amount); [|lia].
  - by destruct (Z.ltb_spec (PlayerState.shadowEnergy player) amount); [|lia].
Qed.

(** A player at 19 divinity converts 3 faith at the default rate 2: the
    faith is gone, the divinity rises by 1. *)
Lemma conversions_pay_in_full_and_gain_up_to_cap_witness :
  PlayerState.faith
    (convertFaithToDivinity
       (PlayerState.set_faith 3
          (Board.playerOf "p1" Owner.Player DomainType.Water 19 ∅)) 3 2).2 = 0
  /\ PlayerState.divinity
       (convertFaithToDivinity
          (PlayerState.set_faith 3
             (Board.playerOf "p1" Owner.Player DomainType.Water 19 ∅)) 3 2).2
     = 20.
Proof.
  destruct (conversions_pay_in_full_and_gain_up_to_cap
              (PlayerState.set_faith 3
                 (Board.playerOf "p1" Owner.Player DomainType.Water 19 ∅))
              3 2) as ((_ & H2 & H3 & _) & _); [by vm_compute..|].
  by rewrite H2, H3.
Defined.

End ResourceExtra.

(** ** The ownership indexes *)

Module IndexFacts.
Import BoardView.

(** What [indexed] reads of a player and of a tile. *)
Definition playerView (p : PlayerState.t)
  : Owner.t * gset TileKey * gset TileKey :=
  (PlayerState.owner p, PlayerState.ownedTiles p,
   PlayerState.sanctifiedTiles p).

Definition tileView (t : Tile.t) : Owner.t * bool :=
  (Tile.owner t, Tile.sanctified t).

Definition sameIndex (s s' : GameState.t) : Prop :=
  (forall o, playerView <$> getPlayer s' o = playerView <$> getPlayer s o)
  /\ (forall k,
         tileView <$> GameState.tiles s' !! k
         = tileView <$> GameState.tiles s !! k).

Lemma sameIndex_refl s : sameIndex s s.
Proof. by split. Qed.

Lemma sameIndex_trans s1 s2 s3 :
  sameIndex s1 s2 -> sameIndex s2 s3 -> sameIndex s1 s3.
Proof.
  intros [Hp1 Ht1] [Hp2 Ht2]. split; intros; [rewrite Hp2|rewrite Ht2]; done.
Qed.

Lemma sameIndex_updatePlayer o f s :
  (forall p, playerView (f p) = playerView p) ->
  sameIndex s (updatePlayer o f s).
Proof.
  intros Hf. split; [|done]. intros o'. rewrite getPlayer_updatePlayer.
  case_decide; [|done]. destruct (getPlayer s o'); simpl; by rewrite ?Hf.
Qed.

Lemma sameIndex_updateTile k f s :
  (forall t, tileView (f t) = tileView t) ->
  sameIndex s (updateTile k f s).
Proof.
  intros Hf. split; [done|]. intros k'. rewrite tiles_updateTile.
  case_decide; [|done].
  destruct (GameState.tiles s !! k'); simpl; by rewrite ?Hf.
Qed.

Lemma sameIndex_set_units v s : sameIndex s (GameState.set_units v s).
Proof. by split. Qed.

Lemma sameIndex_fold {A} (step : GameState.t -> A -> GameState.t)
  (l : list A) s :
  (forall x a, sameIndex x (step x a)) -> sameIndex s (fold_left step l s).
Proof.
  intros Hstep. revert s. induction l as [|a l IH]; intros s; simpl.
  - apply sameIndex_refl.
  - eapply sameIndex_trans; [apply Hstep|apply IH].
Qed.

Lemma indexed_sameIndex s s' : indexed s -> sameIndex s s' -> indexed s'.
Proof.
  intros Hi [Hp Ht] o p' Hp'.
  specialize (Hp o). rewrite Hp' in Hp.
  destruct (getPlayer s o) as [p|] eqn:Hpo; [|done].
  simpl in Hp. injection Hp as Ho Hown Hsan.
  destruct (Hi o p Hpo) as (Hio & Hpo' & Howned & Hsanct).
  split; [done|]. split; [congruence|].
  assert (Hsame : forall k (P : Owner.t * bool -> Prop),
             (exists t, GameState.tiles s' !! k = Some t /\ P (tileView t))
             <-> (exists t, GameState.tiles s !! k = Some t /\ P (tileView t))).
  { intros k P. specialize (Ht k).
    destruct (GameState.tiles s' !! k) as [t'|],
      (GameState.tiles s !! k) as [t|]; simpl in Ht; try done.
    injection Ht as Ho' Hs'.
    split; intros (x & [= <-] & HP); eexists; (split; [done|]);
      unfold tileView in *; by rewrite ?Ho', ?Hs' in *. }
  split; intros k.
  - rewrite Hown, Howned.
    symmetry. apply (Hsame k (fun v => v.1 = o)).
  - rewrite Hsan, Hsanct.
    symmetry. apply (Hsame k (fun v => v.1 = o /\ v.2 = true)).
Qed.

End IndexFacts.

(** ** Captures *)

Module CaptureExtra.
Import CaptureSystem CaptureFacts CaptureScenario BoardView IndexFacts.

Lemma condSub (c : Q) (v : Z) :
  0 <= v -> ((if 0 <? v then c - inject_Z v else c) == c - inject_Z v)%Q.
Proof.
  intros Hv. destruct (Z.ltb_spec 0 v); [reflexivity|].
  replace v with 0 by lia. change (inject_Z 0) with 0%Q. ring.
Qed.

Lemma condAdd (c d : Q) :
  ((if negb (Qeq_bool d 0) then c + d else c) == c + d)%Q.
Proof.
  destruct (Qeq_bool d 0) eqn:Hd; simpl; [|reflexivity].
  apply Qeq_bool_iff in Hd. rewrite Hd. ring.
Qed.

Lemma condPenalty (c : Q) (tile : Tile.t) :
  ((if 0 <? Tile.corruption tile then c + 1 else c)
   == c + inject_Z (corruptionPenalty_spec tile))%Q.
Proof.
  unfold corruptionPenalty_spec.
  destruct (Z.ltb_spec 0 (Tile.corruption tile)); case_decide; try lia.
  - reflexivity.
  - change (inject_Z 0) with 0%Q. ring.
Qed.

(** X3.  [canCapture] answers what [executeCapture] will do: for the
    current player and the tile an action targets, the capture succeeds
    exactly when [canCapture] says so, and a capture that [canCapture]
    rules out leaves the state untouched. *)
Theorem canCapture_agrees_with_executeCapture config uuid s action target
  player tile :
  GameAction.targetTile action = Some target ->
  getPlayer s (GameState.currentPlayer s) = Some player ->
  GameState.tiles s !! posKey target = Some tile ->
  (executeCapture config uuid s action).1.1 = canCapture config s player tile
  /\ (canCapture config s player tile = false ->
      (executeCapture config uuid s action).1.2 = s).
Proof.
  intros Htarget Hplayer Htile.
  unfold executeCapture, canCapture. rewrite Htarget, Hplayer, Htile.
  destruct (Tile.impassable tile); [done|].
  case_decide; [done|].
  destruct (Z.ltb_spec (PlayerState.divinity player)
              (calculateCaptureCost config s player tile));
    destruct (Z.leb_spec (calculateCaptureCost config s player tile)
                (PlayerState.divinity player)); try lia; done.
Qed.

(** On the 3x3 board the centre costs 7: a player with 7 divinity can
    capture it, and does. *)
Lemma canCapture_agrees_with_executeCapture_witness :
  (executeCapture defaultGameConfig "w1"
     (Board.captureBoard TileType.Plains 7) Board.captureCentre).1.1
  = canCapture defaultGameConfig (Board.captureBoard TileType.Plains 7)
      (Board.playerOf "p1" Owner.Player DomainType.Water 7 {[ (0, 0) ]})
      (Board.tileAt 1 1 TileType.Plains Owner.Neutral 3 0).
Proof.
  refine (proj1 (canCapture_agrees_with_executeCapture defaultGameConfig
                   "w1"%string (Board.captureBoard TileType.Plains 7)
                   Board.captureCentre (Position.mk 1 1) _ _ _ _ _));
    by vm_compute.
Defined.

(** X4.  The cost that [getCaptureInfo] displays leaves the relic
    modifiers out: it is max(1, floor(c)) for c = base + stability -
    adjacency bonus + domain modifier - unit support + corruption penalty,
    while the cost [calculateCaptureCost] charges is max(1, floor(c + the
    sum of the player's relic capture-cost modifiers)), the relics being
    added before the floor is taken.  The two agree when the relic
    modifiers add up to 0. *)
Theorem getCaptureInfo_leaves_relics_out config s player tile :
  let c :=
    (inject_Z (GameConfig.captureBaseCost config)
     + inject_Z (Tile.stability tile)
     - inject_Z (adjacencyBonus_spec (ownedNeighborCount s player tile))
     + getDomainCaptureModifier (PlayerState.domain player) tile
     - inject_Z (unitSupport_spec player tile)
     + inject_Z (corruptionPenalty_spec tile))%Q in
  CaptureInfo.cost (getCaptureInfo config s player tile)
  = Z.max 1 (Qfloor c)
  /\ calculateCaptureCost config s player tile
     = Z.max 1
         (Qfloor (c + inject_Z (sumZ (relicCaptureModifiers player)))%Q)
  /\ CaptureInfo.canAfford (getCaptureInfo config s player tile)
     = (Z.max 1 (Qfloor c) <=? PlayerState.divinity player)
  /\ (sumZ (relicCaptureModifiers player) = 0 ->
      CaptureInfo.cost (getCaptureInfo config s player tile)
      = calculateCaptureCost config s player tile).
Proof.
  intros c. set (raw := Qfloor c).
  assert (Hinfo : CaptureInfo.cost (getCaptureInfo config s player tile)
                  = Z.max 1 raw
                  /\ CaptureInfo.canAfford (getCaptureInfo config s player tile)
                     = (Z.max 1 raw <=? PlayerState.divinity player)).
  { unfold getCaptureInfo.
    rewrite calculateAdjacencyBonus_spec, calculateUnitSupport_spec.
    set (adj := adjacencyBonus_spec _). set (sup := unitSupport_spec _ _).
    set (dom := getDomainCaptureModifier _ _).
    assert (Hadj : 0 <= adj).
    { subst adj. unfold adjacencyBonus_spec. repeat case_decide; lia. }
    assert (Hsup : 0 <= sup) by (subst sup; unfold unitSupport_spec; lia).
    assert (Hraw :
              Z.max 1
                (Qfloor
                   (let c :=
                      (inject_Z (GameConfig.captureBaseCost config)
                       + inject_Z (Tile.stability tile))%Q in
                    let c := if 0 <? adj then (c - inject_Z adj)%Q else c in
                    let c :=
                      if negb (Qeq_bool dom 0) then (c + dom)%Q else c in
                    let c := if 0 <? sup then (c - inject_Z sup)%Q else c in
                    if 0 <? Tile.corruption tile then (c + 1)%Q else c))
              = Z.max 1 raw).
    { f_equal. apply Qfloor_comp. subst raw c.
      fold adj sup dom.
      rewrite condPenalty, (condSub _ sup Hsup), condAdd,
        (condSub _ adj Hadj).
      reflexivity. }
    destruct (0 <? adj), (negb (Qeq_bool dom 0)), (0 <? sup),
      (0 <? Tile.corruption tile); simpl in *; by rewrite Hraw. }
  destruct Hinfo as [Hcost Hafford].
  assert (Hcharge :
            calculateCaptureCost config s player tile
            = Z.max 1
                (Qfloor (c + inject_Z (sumZ (relicCaptureModifiers player)))
                   %Q)).
  { rewrite calculateCaptureCost_spec. reflexivity. }
  repeat split; try done.
  intros Hzero. rewrite Hcost, Hcharge, Hzero. f_equal. subst raw.
  apply Qfloor_comp. change (inject_Z 0) with 0%Q. ring.
Qed.

(** The player of the 3x3 board has no relic: the displayed cost of the
    centre is the cost charged. *)
Lemma getCaptureInfo_leaves_relics_out_witness :
  CaptureInfo.cost
    (getCaptureInfo defaultGameConfig (Board.captureBoard TileType.Plains 7)
       (Board.playerOf "p1" Owner.Player DomainType.Water 7 {[ (0, 0) ]})
       (Board.tileAt 1 1 TileType.Plains Owner.Neutral 3 0))
  = calculateCaptureCost defaultGameConfig
      (Board.captureBoard TileType.Plains 7)
      (Board.playerOf "p1" Owner.Player DomainType.Water 7 {[ (0, 0) ]})
      (Board.tileAt 1 1 TileType.Plains Owner.Neutral 3 0).
Proof.
  apply (getCaptureInfo_leaves_relics_out defaultGameConfig
           (Board.captureBoard TileType.Plains 7)
           (Board.playerOf "p1" Owner.Player DomainType.Water 7 {[ (0, 0) ]})
           (Board.tileAt 1 1 TileType.Plains Owner.Neutral 3 0)).
  by vm_compute.
Defined.

End CaptureExtra.

Module CaptureIndex.
Import CaptureSystem CaptureFacts CaptureScenario BoardView IndexFacts.

Lemma transferTile_view newOwner tile :
  tileView (transferTile newOwner tile) = (newOwner, false).
Proof.
  unfold transferTile, tileView; simpl.
  destruct (Tile.sanctified tile) eqn:E; simpl; [|by rewrite E].
  by destruct (0 <? Tile.divinityYield tile).
Qed.

Lemma sameIndex_applyDomainCaptureEffects uuid cur player tile k s :
  sameIndex s (applyDomainCaptureEffects uuid cur player tile k s).
Proof.
  unfold applyDomainCaptureEffects, spawnWight.
  destruct (PlayerState.domain player); try apply sameIndex_refl.
  - by apply sameIndex_updatePlayer.
  - eapply sameIndex_trans; [|apply sameIndex_set_units].
    by apply sameIndex_updatePlayer.
  - by apply sameIndex_updateTile.
Qed.

Lemma sameIndex_triggerTileEvents cur player k s :
  sameIndex s (triggerTileEvents cur player k s).
Proof.
  unfold triggerTileEvents.
  destruct (GameState.tiles s !! k) as [tile|]; [|apply sameIndex_refl].
  destruct (Tile.eventTriggered tile); [apply sameIndex_refl|].
  destruct (Tile.type tile); try apply sameIndex_refl.
  - eapply sameIndex_trans; [|by apply sameIndex_updateTile].
    by apply sameIndex_updatePlayer.
  - eapply sameIndex_trans; [|by apply sameIndex_updateTile].
    destruct (_ <? _);
      [by apply sameIndex_updateTile|by apply sameIndex_updatePlayer].
  - by apply sameIndex_updateTile.
Qed.

Lemma executeCapture_indexed config uuid s action :
  indexed s -> indexed (executeCapture config uuid s action).1.2.
Proof.
  intros Hi. unfold executeCapture.
  destruct (GameAction.targetTile action) as [target|]; [|done].
  destruct (getPlayer s (GameState.currentPlayer s)) as [player|] eqn:Hp;
    [|done].
  destruct (GameState.tiles s !! posKey target) as [tile|] eqn:Ht; [|done].
  destruct (Tile.impassable tile); [done|].
  case_decide as Hown; [done|].
  destruct (_ <? _); [done|]. cbn [fst snd]. cbv zeta.
  set (cur := GameState.currentPlayer s) in *.
  set (k0 := posKey target) in *.
  destruct (Hi cur player Hp) as (Hcur & Hpo & _).
  rewrite Hpo in *.
  eapply indexed_sameIndex;
    [|eapply sameIndex_trans;
      [apply sameIndex_applyDomainCaptureEffects
      |apply sameIndex_triggerTileEvents]].
  set (gain := fun p : PlayerState.t => _).
  set (forget := fun prevPlayer : PlayerState.t => _).
  set (s1 := if isPlayerOwner (Tile.owner tile)
             then updatePlayer (Tile.owner tile) forget s else s).
  assert (Hs1 : forall o,
             getPlayer s1 o
             = if decide (Tile.owner tile = o)
               then forget <$> getPlayer s o else getPlayer s o).
  { intros o. subst s1.
    destruct (isPlayerOwner (Tile.owner tile)) eqn:Hprev.
    - apply getPlayer_updatePlayer.
    - case_decide as E; [|done]. subst o.
      destruct (getPlayer s (Tile.owner tile)) as [p|] eqn:Hq; [|done].
      destruct (Hi _ _ Hq) as (Hio & _). congruence. }
  assert (Ht1 : GameState.tiles s1 = GameState.tiles s)
    by (subst s1; destruct (isPlayerOwner (Tile.owner tile)); reflexivity).
  intros o p3 Hp3.
  rewrite getPlayer_updatePlayer, getPlayer_updateTile, Hs1 in Hp3.
  assert (Htiles : forall k,
             GameState.tiles (updatePlayer cur gain (updateTile k0 (transferTile cur) s1)) !! k
             = if decide (k0 = k) then transferTile cur <$> GameState.tiles s !! k
               else GameState.tiles s !! k).
  { intros k. rewrite tiles_updatePlayer, tiles_updateTile. by rewrite Ht1. }
  assert (Hexists : forall k (P : Owner.t * bool -> Prop),
             (exists t,
                 GameState.tiles
                   (updatePlayer cur gain
                      (updateTile k0 (transferTile cur) s1)) !! k = Some t
                 /\ P (tileView t))
             <-> (if decide (k0 = k) then P (cur, false)
                  else exists t, GameState.tiles s !! k = Some t
                                 /\ P (tileView t))).
  { intros k P. rewrite Htiles.
    destruct (decide (k0 = k)) as [E|E]; [|reflexivity]. subst k.
    rewrite Ht. simpl. rewrite <- (transferTile_view cur tile).
    split; [by intros (t & [= <-] & HP)|by eauto]. }
  assert (Hview : forall k o',
             (exists t, GameState.tiles s !! k = Some t /\ Tile.owner t = o')
             <-> (exists t, GameState.tiles s !! k = Some t
                            /\ (tileView t).1 = o')) by done.
  destruct (decide (cur = o)) as [<-|Hc].
  - (* the capturer *)
    rewrite decide_False in Hp3 by done. rewrite Hp in Hp3.
    injection Hp3 as <-.
    destruct (Hi cur player Hp) as (_ & _ & Howned & Hsanct).
    split; [done|]. split; [by subst gain|]. split; intros k.
    + rewrite (Hexists k (fun v => v.1 = cur)). subst gain; simpl.
      rewrite elem_of_union, elem_of_singleton, Howned.
      destruct (decide (k0 = k)) as [<-|Hk]; naive_solver.
    + rewrite (Hexists k (fun v => v.1 = cur /\ v.2 = true)).
      subst gain; simpl. rewrite Hsanct.
      destruct (decide (k0 = k)) as [<-|Hk]; naive_solver.
  - destruct (decide (Tile.owner tile = o)) as [<-|Hprev].
    + (* the previous owner *)
      destruct (getPlayer s (Tile.owner tile)) as [p|] eqn:Hq; [|done].
      injection Hp3 as <-.
      destruct (Hi _ _ Hq) as (Hio & Hqo & Howned & Hsanct).
      split; [done|]. split; [by subst forget|]. split; intros k.
      * rewrite (Hexists k (fun v => v.1 = Tile.owner tile)).
        subst forget; simpl.
        rewrite elem_of_difference, elem_of_singleton, Howned.
        destruct (decide (k0 = k)) as [<-|Hk]; naive_solver.
      * rewrite (Hexists k (fun v => v.1 = Tile.owner tile /\ v.2 = true)).
        subst forget; simpl.
        rewrite elem_of_difference, elem_of_singleton, Hsanct.
        destruct (decide (k0 = k)) as [<-|Hk]; naive_solver.
    + (* anybody else *)
      destruct (Hi _ _ Hp3) as (Hio & Hqo & Howned & Hsanct).
      split; [done|]. split; [done|]. split; intros k.
      * rewrite (Hexists k (fun v => v.1 = o)), Howned.
        destruct (decide (k0 = k)) as [<-|Hk]; naive_solver.
      * rewrite (Hexists k (fun v => v.1 = o /\ v.2 = true)), Hsanct.
        destruct (decide (k0 = k)) as [<-|Hk]; naive_solver.
Qed.

End CaptureIndex.

Module SpreadIndex.
Import ShadowSystem BoardView IndexFacts.

(** A decision procedure for [indexed], for concrete boards. *)
Definition indexedb (s : GameState.t) : bool :=
  forallb
    (fun '(o, p) =>
       isPlayerOwner o
       && bool_decide (PlayerState.owner p = o)
       && bool_decide
            (PlayerState.ownedTiles p
             = dom (filter (fun kt => Tile.owner kt.2 = o)
                      (GameState.tiles s)))
       && bool_decide
            (PlayerState.sanctifiedTiles p
             = dom (filter
                      (fun kt => Tile.owner kt.2 = o
                                 /\ Tile.sanctified kt.2 = true)
                      (GameState.tiles s))))
    (GameState.players s).

Lemma players_get_elem ps o p :
  players_get ps o = Some p -> (o, p) ∈ ps.
Proof.
  induction ps as [|[o' p'] ps IH]; simpl; [done|].
  case_decide; [intros [= <-]; subst; by left|]. intros Hrest. right.
  by apply IH.
Qed.

Lemma indexedb_sound s : indexedb s = true -> indexed s.
Proof.
  unfold indexedb. rewrite forallb_forall. intros Hall o p Hp.
  apply players_get_elem, list_elem_of_In in Hp. apply Hall in Hp.
  apply andb_true_iff in Hp as [Hp Hsan].
  apply andb_true_iff in Hp as [Hp Hown].
  apply andb_true_iff in Hp as [Hio Hpo].
  apply bool_decide_eq_true_1 in Hsan, Hown, Hpo.
  split; [done|]. split; [done|]. split; intros k.
  - rewrite Hown. rewrite elem_of_dom. unfold is_Some.
    setoid_rewrite map_lookup_filter_Some. naive_solver.
  - rewrite Hsan. rewrite elem_of_dom. unfold is_Some.
    setoid_rewrite map_lookup_filter_Some. naive_solver.
Qed.

Lemma sameIndex_set_shadowInfluence v s :
  sameIndex s (GameState.set_shadowInfluence v s).
Proof. by split. Qed.

Lemma sameIndex_updateNeutralAlignment s :
  sameIndex s (updateNeutralAlignment s).
Proof. unfold updateNeutralAlignment. by repeat destruct (_ <? _). Qed.

Lemma applyCorruption_indexed s entry :
  indexed s -> indexed (applyCorruption s entry).
Proof.
  intros Hi. destruct entry as [k0 level]. unfold applyCorruption.
  destruct (GameState.tiles s !! k0) as [tile|] eqn:Ht; [|done].
  destruct (2 <=? Z.min 2 level).
  2:{ eapply indexed_sameIndex; [done|]. by apply sameIndex_updateTile. }
  eapply indexed_sameIndex; [|apply sameIndex_set_shadowInfluence].
  set (s1 := updateTile k0 (Tile.set_corruption (Z.min 2 level)) s).
  assert (Hi1 : indexed s1)
    by (eapply indexed_sameIndex; [done|by apply sameIndex_updateTile]).
  assert (Ht1 : GameState.tiles s1 !! k0
                = Some (Tile.set_corruption (Z.min 2 level) tile)).
  { subst s1. rewrite tiles_updateTile, decide_True by done. by rewrite Ht. }
  set (tile1 := Tile.set_corruption (Z.min 2 level) tile) in *.
  assert (Ho1 : Tile.owner tile1 = Tile.owner tile) by done.
  clearbody s1 tile1. clear Hi Ht.
  set (s2 := updateTile k0 shadowConversion s1).
  set (s3 := if isPlayerOwner (Tile.owner tile)
             then updatePlayer (Tile.owner tile) (forgetTile k0) s2 else s2).
  assert (Hs3 : forall o,
             getPlayer s3 o
             = if decide (Tile.owner tile = o)
               then forgetTile k0 <$> getPlayer s1 o else getPlayer s1 o).
  { intros o. subst s3.
    destruct (isPlayerOwner (Tile.owner tile)) eqn:Hprev.
    - rewrite getPlayer_updatePlayer. reflexivity.
    - destruct (decide (Tile.owner tile = o)) as [<-|E]; [|done].
      change (getPlayer s2 (Tile.owner tile))
        with (getPlayer s1 (Tile.owner tile)).
      destruct (getPlayer s1 (Tile.owner tile)) as [p|] eqn:Hq; [|done].
      destruct (Hi1 _ _ Hq) as (Hio & _). congruence. }
  assert (Hexists : forall k (P : Owner.t * bool -> Prop),
             (exists t, GameState.tiles s3 !! k = Some t /\ P (tileView t))
             <-> (if decide (k0 = k) then P (Owner.Shadow, false)
                  else exists t, GameState.tiles s1 !! k = Some t
                                 /\ P (tileView t))).
  { intros k P.
    assert (GameState.tiles s3 = GameState.tiles s2) as ->
      by (subst s3; destruct (isPlayerOwner _); reflexivity).
    subst s2. rewrite tiles_updateTile.
    destruct (decide (k0 = k)) as [<-|E]; [|done].
    rewrite Ht1. simpl. split; [by intros (t & [= <-] & HP)|by eauto]. }
  intros o p3 Hp3. rewrite Hs3 in Hp3. clear Hs3.
  destruct (decide (Tile.owner tile = o)) as [<-|Hprev].
  - destruct (getPlayer s1 (Tile.owner tile)) as [p|] eqn:Hq; [|done].
    injection Hp3 as <-.
    destruct (Hi1 _ _ Hq) as (Hio & Hqo & Howned & Hsanct).
    assert (Tile.owner tile <> Owner.Shadow).
    { intros E. rewrite E in Hio. done. }
    clear Hi1.
    split; [done|]. split; [done|]. split; intros k.
    + rewrite (Hexists k (fun v => v.1 = Tile.owner tile)). simpl.
      rewrite elem_of_difference, elem_of_singleton, Howned.
      clear Hexists Howned Hsanct.
      destruct (decide (k0 = k)) as [<-|Hk]; [|naive_solver].
      split; [by intros [_ ?]|]. simpl. congruence.
    + rewrite (Hexists k (fun v => v.1 = Tile.owner tile /\ v.2 = true)).
      simpl. rewrite elem_of_difference, elem_of_singleton, Hsanct.
      clear Hexists Howned Hsanct.
      destruct (decide (k0 = k)) as [<-|Hk]; [|naive_solver].
      split; [by intros [_ ?]|]. simpl. by intros [_ ?].
  - destruct (Hi1 _ _ Hp3) as (Hio & Hqo & Howned & Hsanct).
    assert (o <> Owner.Shadow).
    { intros E. rewrite E in Hio. done. }
    clear Hi1.
    split; [done|]. split; [done|]. split; intros k.
    + rewrite (Hexists k (fun v => v.1 = o)), Howned.
      clear Hexists Howned Hsanct.
      destruct (decide (k0 = k)) as [<-|Hk]; [|done]. simpl.
      split; [|congruence]. intros (t & Ht' & Ho'). congruence.
    + rewrite (Hexists k (fun v => v.1 = o /\ v.2 = true)), Hsanct.
      clear Hexists Howned Hsanct.
      destruct (decide (k0 = k)) as [<-|Hk]; [|done]. simpl.
      split; [|by intros [_ ?]]. intros (t & Ht' & Ho' & _). congruence.
Qed.

Lemma spreadShadow_indexed config random s :
  indexed s -> indexed (spreadShadow config random s).
Proof.
  intros Hi. unfold spreadShadow.
  eapply indexed_sameIndex; [|apply sameIndex_updateNeutralAlignment].
  generalize (map_to_list (collectSpread config random s)).
  intros l. revert s Hi. induction l as [|e l IH]; intros s Hi; simpl; [done|].
  by apply IH, applyCorruption_indexed.
Qed.

End SpreadIndex.

Module EngineIndex.
Import GameEngine BoardView IndexFacts.

Lemma sameBoard_sameIndex s s' : FogFacts.sameBoard s s' -> sameIndex s s'.
Proof.
  intros Hb. split.
  - intros o. by rewrite (FogFacts.sameBoard_getPlayer s s' o Hb).
  - intros k. pose proof (FogFacts.sameBoard_lookup s s' k Hb) as E.
    destruct (GameState.tiles s !! k) as [t|],
      (GameState.tiles s' !! k) as [t'|]; simpl in *; try done.
    assert (E' : FogFacts.erase t = FogFacts.erase t') by congruence.
    pose proof (f_equal Tile.owner E') as Ho.
    pose proof (f_equal Tile.sanctified E') as Hs.
    simpl in Ho, Hs. unfold tileView. congruence.
Qed.

Lemma sameIndex_editUnit id f s : sameIndex s (editUnit id f s).
Proof.
  split; [|done]. intros o. unfold editUnit, getPlayer; simpl.
  rewrite players_get_fmap. by destruct (players_get _ o).
Qed.

Lemma sameIndex_payDivinity action s : sameIndex s (payDivinity action s).
Proof. by apply sameIndex_updatePlayer. Qed.

Lemma sameIndex_revealTilesAroundUnit s unit :
  sameIndex s (FogOfWarSystem.revealTilesAroundUnit s unit).
Proof.
  apply sameBoard_sameIndex.
  by destruct (FogFacts.revealTilesAroundUnit_raises s unit) as (? & _).
Qed.

Lemma sameIndex_updateVisibility s :
  sameIndex s (FogOfWarSystem.updateVisibility s).
Proof.
  destruct (getPlayer s (GameState.currentPlayer s)) as [player|] eqn:Hp.
  - apply sameBoard_sameIndex.
    by destruct (FogFacts.updateVisibility_spec s player Hp) as (? & _).
  - unfold FogOfWarSystem.updateVisibility. rewrite Hp.
    apply sameIndex_refl.
Qed.

Lemma sameIndex_setProgress cur c v s :
  sameIndex s (VictorySystem.setProgress cur c v s).
Proof. by apply sameIndex_updatePlayer. Qed.

Lemma sameIndex_checkPlayerVictoryCondition cur player c s :
  sameIndex s (VictorySystem.checkPlayerVictoryCondition cur player c s).2.
Proof.
  destruct c; simpl;
    unfold VictorySystem.checkConquestVictory,
      VictorySystem.checkSanctifierVictory,
      VictorySystem.checkShadowAccordVictory,
      VictorySystem.checkRelicAscensionVictory;
    repeat (destruct (_ =? _)); simpl; apply sameIndex_setProgress.
Qed.

Lemma sameIndex_checkConditions cur conditions s :
  sameIndex s (VictorySystem.checkConditions cur conditions s).2.
Proof.
  revert s. induction conditions as [|c rest IH]; intros s; simpl.
  - apply sameIndex_refl.
  - destruct (getPlayer s cur) as [player|]; [|apply IH].
    pose proof (sameIndex_checkPlayerVictoryCondition cur player c s) as H.
    destruct (VictorySystem.checkPlayerVictoryCondition cur player c s)
      as [met s1]. simpl in H.
    destruct met; [done|]. eapply sameIndex_trans; [exact H|apply IH].
Qed.

Lemma sameIndex_checkPlayers owners s :
  sameIndex s (VictorySystem.checkPlayers owners s).2.
Proof.
  revert s. induction owners as [|o rest IH]; intros s; simpl.
  - apply sameIndex_refl.
  - pose proof (sameIndex_checkConditions o
                  (GameState.victoryConditions s) s) as H.
    destruct (VictorySystem.checkConditions o
                (GameState.victoryConditions s) s) as [[c|] s1]; simpl in H.
    + done.
    + eapply sameIndex_trans; [exact H|apply IH].
Qed.

Lemma sameIndex_checkVictory s :
  sameIndex s (VictorySystem.checkVictory s).2.
Proof.
  unfold VictorySystem.checkVictory.
  pose proof (sameIndex_checkPlayers (GameState.players s).*1 s) as H.
  destruct (VictorySystem.checkPlayers (GameState.players s).*1 s)
    as [[won|] s1]; simpl in H; [done|].
  by destruct (VictorySystem.checkDefeatConditions s1).
Qed.

(** *** Events *)

Lemma sameIndex_addRevealed k s :
  sameIndex s (FogOfWarSystem.addRevealed k s).
Proof. by split. Qed.

Lemma sameIndex_revealLoop fuel pick i count hiddenTiles s :
  sameIndex s (EventSystem.revealLoop fuel pick i count hiddenTiles s).
Proof.
  revert i hiddenTiles s.
  induction fuel as [|fuel IH]; intros i hiddenTiles s; simpl;
    [apply sameIndex_refl|].
  destruct (_ <? _); [|apply sameIndex_refl].
  eapply sameIndex_trans; [|apply IH].
  destruct (hiddenTiles !! _) as [k|]; [|apply sameIndex_refl].
  destruct (GameState.tiles s !! k); [|apply sameIndex_refl].
  eapply sameIndex_trans; [|apply sameIndex_addRevealed].
  by apply sameIndex_updateTile.
Qed.

Lemma sameIndex_applyEventEffect pick cur player s effect :
  sameIndex s (EventSystem.applyEventEffect pick cur player s effect).
Proof.
  unfold EventSystem.applyEventEffect.
  destruct (GameEffect.type effect).
  - by apply sameIndex_updatePlayer.
  - by apply sameIndex_updatePlayer.
  - by apply sameIndex_updatePlayer.
  - apply sameIndex_revealLoop.
  - unfold EventSystem.addCorruptionToRandomTiles.
    apply sameIndex_fold. intros x a.
    destruct (_ !! _); [by apply sameIndex_updateTile|apply sameIndex_refl].
  - unfold EventSystem.removeCorruptionFromTiles.
    apply sameIndex_fold. intros x a. by apply sameIndex_updateTile.
  - unfold EventSystem.damageStability.
    destruct (EventSystem.hasTag "owned" effect); [|apply sameIndex_refl].
    apply sameIndex_fold. intros x a. by apply sameIndex_updateTile.
  - unfold EventSystem.addStability. cbv zeta.
    destruct (EventSystem.hasTag "owned" effect),
      (EventSystem.hasTag "sanctified" effect);
      try apply sameIndex_refl;
      try (apply sameIndex_fold; intros x a; by apply sameIndex_updateTile).
    eapply sameIndex_trans;
      [|apply sameIndex_fold; intros x a; by apply sameIndex_updateTile].
    apply sameIndex_fold. intros x a. by apply sameIndex_updateTile.
Qed.

Lemma sameIndex_processEvents rnd s :
  sameIndex s (EventSystem.processEvents rnd s).
Proof.
  unfold EventSystem.processEvents.
  set (s0 := GameState.set_activeGlobalEvents _ s).
  apply (sameIndex_trans s s0); [by split|]. clearbody s0.
  unfold EventSystem.checkForRandomEvents.
  destruct (getPlayer _ _) as [player|]; [|apply sameIndex_refl].
  destruct (Qltb _ _); [|apply sameIndex_refl].
  unfold EventSystem.triggerRandomEvent.
  destruct (_ !! _); [|apply sameIndex_refl].
  apply sameIndex_fold. intros x a. apply sameIndex_applyEventEffect.
Qed.

(** *** The turn *)

Lemma sameIndex_TurnSystem_startTurn config cur s :
  sameIndex s (TurnSystem.startTurn config cur s).
Proof.
  unfold TurnSystem.startTurn.
  destruct (getPlayer s cur) as [player|]; [|apply sameIndex_refl].
  eapply sameIndex_trans; [|by apply sameIndex_updatePlayer].
  destruct (getPlayer _ cur) as [p|].
  - eapply sameIndex_trans; [|by apply sameIndex_updatePlayer].
    eapply sameIndex_trans;
      [|apply sameIndex_fold; intros x a; apply sameIndex_set_units].
    eapply sameIndex_trans;
      [|apply sameIndex_fold; intros x a; apply sameIndex_editUnit].
    by apply sameIndex_updatePlayer.
  - eapply sameIndex_trans;
      [|apply sameIndex_fold; intros x a; apply sameIndex_editUnit].
    by apply sameIndex_updatePlayer.
Qed.

Lemma sameIndex_TurnSystem_endTurn config cur s :
  sameIndex s (TurnSystem.endTurn config cur s).
Proof.
  unfold TurnSystem.endTurn.
  destruct (getPlayer s cur) as [player|]; [|apply sameIndex_refl].
  eapply sameIndex_trans;
    [|apply sameIndex_fold; intros x a; apply sameIndex_editUnit].
  by apply sameIndex_updatePlayer.
Qed.

Lemma sameIndex_set_currentPlayer v s :
  sameIndex s (GameState.set_currentPlayer v s).
Proof. by split. Qed.

Lemma startTurn_indexed config rnd s :
  indexed s -> indexed (startTurn config rnd s).
Proof.
  intros Hi. unfold startTurn.
  destruct (getPlayer _ _) as [player|]; [|done].
  set (s1 := EventSystem.processEvents (events rnd)
               (TurnSystem.startTurn config
                  (GameState.currentPlayer
                     (GameState.set_turn (GameState.turn s + 1) s))
                  (GameState.set_turn (GameState.turn s + 1) s))).
  assert (Hi1 : indexed s1).
  { eapply indexed_sameIndex; [exact Hi|]. subst s1.
    eapply sameIndex_trans; [|apply sameIndex_processEvents].
    eapply sameIndex_trans; [|apply sameIndex_TurnSystem_startTurn].
    by split. }
  set (s2 := if decide (GameState.currentPlayer s1 = Owner.Player)
             then ShadowSystem.spreadShadow config (spread rnd) s1 else s1).
  assert (Hi2 : indexed s2).
  { subst s2. case_decide; [|done]. by apply SpreadIndex.spreadShadow_indexed. }
  clearbody s2.
  eapply indexed_sameIndex; [exact Hi2|].
  destruct (getPlayer _ _) as [p|].
  - eapply sameIndex_trans;
      [|apply sameIndex_fold; intros x a; apply sameIndex_editUnit].
    eapply sameIndex_trans; [|by apply sameIndex_updatePlayer].
    apply sameIndex_updateVisibility.
  - eapply sameIndex_trans; [|by apply sameIndex_updatePlayer].
    apply sameIndex_updateVisibility.
Qed.

Lemma endTurn_indexed config rnd s :
  indexed s -> indexed (endTurn config rnd s).2.
Proof.
  intros Hi. unfold endTurn, endTurnHandover.
  destruct (getPlayer s (GameState.currentPlayer s)); [|done]. simpl.
  apply startTurn_indexed.
  eapply indexed_sameIndex; [exact Hi|].
  eapply sameIndex_trans; [|apply sameIndex_set_currentPlayer].
  eapply sameIndex_trans; [|apply sameIndex_TurnSystem_endTurn].
  by apply sameIndex_updatePlayer.
Qed.

(** *** The handlers *)

(** An edit of a tile that either leaves owner and sanctification alone or
    moves the tile between owners that are not players. *)
Lemma indexed_updateTile k f s :
  indexed s ->
  (forall t, GameState.tiles s !! k = Some t ->
             tileView (f t) = tileView t
             \/ (isPlayerOwner (Tile.owner t) = false
                 /\ isPlayerOwner (Tile.owner (f t)) = false)) ->
  indexed (updateTile k f s).
Proof.
  intros Hi Hf o p Hp. rewrite getPlayer_updateTile in Hp.
  destruct (Hi o p Hp) as (Hio & Hpo & Howned & Hsanct).
  assert (Hexists : forall k' (P : Owner.t * bool -> Prop),
             (forall v, P v -> v.1 = o) ->
             (exists t, GameState.tiles (updateTile k f s) !! k' = Some t
                        /\ P (tileView t))
             <-> (exists t, GameState.tiles s !! k' = Some t
                            /\ P (tileView t))).
  { intros k' P HP. rewrite tiles_updateTile.
    destruct (decide (k = k')) as [<-|E]; [|done].
    destruct (GameState.tiles s !! k) as [t|] eqn:Ht; simpl;
      [|split; by intros (? & ? & _)].
    destruct (Hf t eq_refl) as [Hsame|[Hn1 Hn2]].
    - split; intros (x & [= <-] & Hx); (eexists; split; [done|]);
        congruence.
    - split; intros (x & [= <-] & Hx); apply HP in Hx; simpl in Hx;
        congruence. }
  split; [done|]. split; [done|]. split; intros k'.
  - rewrite Howned. symmetry. by apply (Hexists k' (fun v => v.1 = o)).
  - rewrite Hsanct. symmetry.
    apply (Hexists k' (fun v => v.1 = o /\ v.2 = true)). by intros v [? _].
Qed.

Lemma executeFortify_indexed config s action :
  indexed s -> indexed (executeFortify config s action).2.
Proof.
  intros Hi. unfold executeFortify.
  destruct (GameAction.targetTile action); [|done].
  destruct (GameState.tiles s !! _); [|done].
  destruct (getPlayer s _); [|done].
  destruct (negb _); [done|]. destruct (_ <=? _); [done|]. simpl.
  eapply indexed_sameIndex; [exact Hi|].
  eapply sameIndex_trans; [|apply sameIndex_payDivinity].
  by apply sameIndex_updateTile.
Qed.

Lemma executePurify_indexed config s action :
  indexed s -> indexed (executePurify config s action).2.
Proof.
  intros Hi. unfold executePurify.
  destruct (GameAction.targetTile action); [|done].
  destruct (GameState.tiles s !! _); [|done].
  destruct (getPlayer s _); [|done].
  destruct (_ =? _); [done|]. simpl.
  eapply indexed_sameIndex; [|apply sameIndex_payDivinity].
  apply indexed_updateTile; [done|]. intros t _. simpl.
  destruct (_ =? _); simpl; [|by left].
  case_bool_decide as Ho; simpl; [|by left].
  right. by rewrite Ho.
Qed.

Lemma executeBuildShrine_indexed s action :
  indexed s -> indexed (executeBuildShrine s action).2.
Proof.
  intros Hi. unfold executeBuildShrine.
  destruct (GameAction.targetTile action); [|done].
  destruct (GameState.tiles s !! _); [|done].
  destruct (getPlayer s _); [|done].
  destruct (_ || _); [done|]. simpl.
  eapply indexed_sameIndex; [exact Hi|].
  eapply sameIndex_trans; [|apply sameIndex_payDivinity].
  by apply sameIndex_updateTile.
Qed.

Lemma executeSanctify_indexed config s action :
  indexed s -> indexed (executeSanctify config s action).2.
Proof.
  intros Hi. unfold executeSanctify.
  destruct (GameAction.targetTile action) as [target|]; [|done].
  destruct (GameState.tiles s !! posKey target) as [tile|] eqn:Ht; [|done].
  destruct (getPlayer s (GameState.currentPlayer s)) as [player|] eqn:Hp;
    [|done].
  case_bool_decide as Ho; simpl; [|done].
  destruct (Tile.sanctified tile) eqn:Hs; [done|]. simpl.
  eapply indexed_sameIndex; [|apply sameIndex_payDivinity].
  set (cur := GameState.currentPlayer s) in *.
  set (k0 := posKey target) in *.
  destruct (Hi cur player Hp) as (_ & Hpo & _). rewrite Hpo in Ho.
  set (f := fun t : Tile.t => _). set (g := fun p : PlayerState.t => _).
  assert (Hf : tileView (f tile) = (cur, true)).
  { subst f. unfold tileView. simpl. by rewrite Ho. }
  intros o p3 Hp3.
  change (GameState.currentPlayer (updateTile k0 f s)) with cur in *.
  assert (Hexists : forall k (P : Owner.t * bool -> Prop),
             (exists t,
                 GameState.tiles (updatePlayer cur g (updateTile k0 f s)) !! k
                 = Some t /\ P (tileView t))
             <-> (if decide (k0 = k) then P (cur, true)
                  else exists t, GameState.tiles s !! k = Some t
                                 /\ P (tileView t))).
  { intros k P. rewrite tiles_updatePlayer, tiles_updateTile.
    destruct (decide (k0 = k)) as [<-|E]; [|done].
    rewrite Ht. simpl. rewrite <- Hf.
    split; [by intros (t & [= <-] & HP)|by eauto]. }
  rewrite getPlayer_updatePlayer, getPlayer_updateTile in Hp3.
  destruct (decide (cur = o)) as [<-|Hc].
  - rewrite Hp in Hp3. injection Hp3 as <-.
    destruct (Hi cur player Hp) as (Hio & _ & Howned & Hsanct). clear Hi.
    split; [done|]. split; [by subst g|]. split; intros k.
    + rewrite (Hexists k (fun v => v.1 = cur)). subst g; simpl.
      rewrite Howned. clear Hexists Howned Hsanct.
      destruct (decide (k0 = k)) as [<-|Hk]; [|done].
      split; [done|]. intros _. by exists tile.
    + rewrite (Hexists k (fun v => v.1 = cur /\ v.2 = true)).
      subst g; simpl. rewrite elem_of_union, elem_of_singleton, Hsanct.
      clear Hexists Howned Hsanct.
      destruct (decide (k0 = k)) as [<-|Hk].
      * split; [done|]. intros _. by right.
      * split; [intros [?|?]; [done|congruence]|intros ?; by left].
  - destruct (Hi _ _ Hp3) as (Hio & Hqo & Howned & Hsanct). clear Hi.
    split; [done|]. split; [done|]. split; intros k.
    + rewrite (Hexists k (fun v => v.1 = o)), Howned.
      clear Hexists Howned Hsanct.
      destruct (decide (k0 = k)) as [<-|Hk]; [|done]. simpl.
      split; [|done]. intros (t & Ht' & Ho'). congruence.
    + rewrite (Hexists k (fun v => v.1 = o /\ v.2 = true)), Hsanct.
      clear Hexists Howned Hsanct.
      destruct (decide (k0 = k)) as [<-|Hk]; [|done]. simpl.
      split; [|by intros [? _]]. intros (t & Ht' & Ho' & _). congruence.
Qed.

Lemma executeMove_indexed s action :
  indexed s -> indexed (executeMove s action).2.
Proof.
  intros Hi. unfold executeMove.
  destruct (_ ≫= _) as [unit|]; [|done].
  destruct (GameAction.targetTile action) as [target|]; [|done].
  destruct (GameState.tiles s !! _) as [t|]; [|done].
  destruct (Tile.impassable t); [done|].
  destruct (_ <? _); [done|]. simpl.
  eapply indexed_sameIndex; [exact Hi|].
  eapply sameIndex_trans;
    [apply sameIndex_editUnit|apply sameIndex_revealTilesAroundUnit].
Qed.

Lemma executeMiracle_indexed s action :
  indexed s -> indexed (executeMiracle s action).2.
Proof.
  intros Hi. unfold executeMiracle.
  destruct (getPlayer s _) as [player|]; [|done].
  destruct (GameAction.miracleId action); [|done].
  destruct (useMiracle _ _); [|done]. simpl.
  eapply indexed_sameIndex; [exact Hi|]. by apply sameIndex_updatePlayer.
Qed.

Lemma dispatch_indexed config rnd s action :
  indexed s -> indexed (dispatch config rnd s action).1.2.
Proof.
  intros Hi. unfold dispatch.
  destruct (GameAction.type action); simpl; try done.
  - by apply executeMove_indexed.
  - by apply executeMove_indexed.
  - by apply CaptureIndex.executeCapture_indexed.
  - by apply executeFortify_indexed.
  - by apply executePurify_indexed.
  - by apply executeBuildShrine_indexed.
  - by apply executeSanctify_indexed.
  - unfold executeSummonUnit.
    destruct (getPlayer s _); [|done].
    destruct (GameAction.targetTile action); [|done]. simpl.
    eapply indexed_sameIndex; [exact Hi|apply sameIndex_payDivinity].
  - unfold executeAbility.
    destruct (getPlayer s _); [|done].
    by destruct (GameAction.abilityId action).
  - by apply executeMiracle_indexed.
  - by apply endTurn_indexed.
Qed.

End EngineIndex.

Module IndexExtra.
Import GameEngine BoardView IndexFacts.

(** X5.  A capture keeps the players' indexes in step with the board: if
    every player's [ownedTiles] and [sanctifiedTiles] agree with the owners
    and the sanctified flags of the tiles before [executeCapture], they
    agree after it, whether the capture succeeds or not.  (The captured
    tile is entered for the capturer, struck from the previous owner's two
    sets and loses its sanctification.) *)
Theorem executeCapture_keeps_indexes config uuid s action :
  indexed s ->
  indexed (CaptureSystem.executeCapture config uuid s action).1.2.
Proof. apply CaptureIndex.executeCapture_indexed. Qed.

(** The human player takes the rival's tile on the two-player board. *)
Lemma executeCapture_keeps_indexes_witness :
  indexed
    (CaptureSystem.executeCapture defaultGameConfig "w1" Board3.openBoard
       Board6.captureRival).1.2.
Proof.
  apply executeCapture_keeps_indexes.
  apply SpreadIndex.indexedb_sound. by vm_compute.
Defined.

(** X6.  A corruption-spread pass keeps the indexes in step with the
    board as well: every tile it converts to the Shadow is struck from the
    owned and the sanctified set of the player who held it. *)
Theorem spreadShadow_keeps_indexes config random s :
  indexed s -> indexed (ShadowSystem.spreadShadow config random s).
Proof. apply SpreadIndex.spreadShadow_indexed. Qed.

(** The pass that converts the rival's sanctified tile. *)
Lemma spreadShadow_keeps_indexes_witness :
  indexed
    (ShadowSystem.spreadShadow defaultGameConfig Board2.alwaysZero
       Board6.frontier).
Proof.
  apply spreadShadow_keeps_indexes.
  apply SpreadIndex.indexedb_sound. by vm_compute.
Defined.

(** X7.  Every call of [executeAction], whatever the action and whatever
    its outcome, keeps the indexes in step with the board: after it, each
    player's [ownedTiles] are exactly the tiles whose owner the player is,
    and its [sanctifiedTiles] exactly those of them that are sanctified.
    This covers the ten handlers, the end-of-turn hand-over with the next
    player's turn start (events, the spread pass), the visibility pass and
    the victory check. *)
Theorem executeAction_keeps_indexes rnd e action :
  indexed (state e) -> indexed (state (executeAction rnd e action).2).
Proof.
  intros Hi. unfold executeAction.
  destruct (negb (validateAction (state e) action)); [done|].
  pose proof (EngineIndex.dispatch_indexed (config e) rnd (state e) action Hi)
    as Hd.
  destruct (dispatch (config e) rnd (state e) action) as [[success s1] a1].
  simpl in Hd.
  pose proof (EngineIndex.sameIndex_checkVictory
                (FogOfWarSystem.updateVisibility s1)) as Hv.
  destruct (VictorySystem.checkVictory (FogOfWarSystem.updateVisibility s1))
    as [victory s2]. simpl in *.
  eapply indexed_sameIndex; [exact Hd|].
  eapply sameIndex_trans; [apply EngineIndex.sameIndex_updateVisibility|].
  eapply sameIndex_trans; [exact Hv|]. by split.
Qed.

(** The human player sanctifies the home tile on the two-player board. *)
Lemma executeAction_keeps_indexes_witness :
  indexed
    (state
       (executeAction Board3.quiet (Board3.engineOf Board3.openBoard)
          Board6.sanctifyHome).2).
Proof.
  apply executeAction_keeps_indexes.
  apply SpreadIndex.indexedb_sound. by vm_compute.
Defined.

End IndexExtra.

(** ** Events *)

Module EventExtra.
Import EventSystem BoardView EventView.

Lemma elem_of_hiddenTiles s k :
  k ∈ hiddenTiles s
  <-> exists tile, GameState.tiles s !! k = Some tile
                   /\ Tile.visibility tile = TileVisibility.Hidden.
Proof.
  unfold hiddenTiles. rewrite elem_of_dom. unfold is_Some.
  by setoid_rewrite map_lookup_filter_Some.
Qed.

Lemma hiddenTiles_seen s k :
  hiddenTiles
    (FogOfWarSystem.addRevealed k
       (updateTile k (Tile.set_visibility TileVisibility.Seen) s))
  = hiddenTiles s ∖ {[k]}.
Proof.
  apply set_eq. intros k'.
  rewrite elem_of_difference, elem_of_singleton, !elem_of_hiddenTiles.
  change (GameState.tiles (FogOfWarSystem.addRevealed k ?x))
    with (GameState.tiles x).
  rewrite tiles_updateTile.
  destruct (decide (k = k')) as [<-|Hk].
  - split; [|by intros [_ ?]].
    intros (t & Ht & Hv).
    destruct (GameState.tiles s !! k); simpl in Ht; [|done].
    by injection Ht as <-.
  - split; [intros H; split; [done|congruence]|by intros [? _]].
Qed.

Lemma filter_keys {A} (P : TileKey * A -> bool) (l : list (TileKey * A)) :
  NoDup l.*1 ->
  NoDup (List.filter P l).*1
  /\ forall k, k ∈ (List.filter P l).*1
               <-> exists v, (k, v) ∈ l /\ P (k, v) = true.
Proof.
  induction l as [|[k0 v0] l IH]; intros Hnd.
  - split; [constructor|]. intros k. split; [by intros ?%elem_of_nil|].
    by intros (v & ?%elem_of_nil & _).
  - rewrite fmap_cons in Hnd. apply NoDup_cons in Hnd as [Hk0 Hnd].
    destruct (IH Hnd) as [IH1 IH2]. simpl.
    destruct (P (k0, v0)) eqn:HP; simpl.
    + split.
      * apply NoDup_cons. split; [|done]. rewrite IH2.
        intros (v & Hin & _). apply Hk0.
        apply list_elem_of_fmap. by exists (k0, v).
      * intros k. rewrite elem_of_cons, IH2. split.
        -- intros [->|(v & Hin & Hv)]; [exists v0|exists v];
             (split; [|done]); [by left|by right].
        -- intros (v & Hin & Hv). apply elem_of_cons in Hin as [[= -> ->]|Hin];
             [by left|right; by exists v].
    + split; [done|]. intros k. rewrite IH2. split.
      * intros (v & Hin & Hv). exists v. split; [by right|done].
      * intros (v & Hin & Hv). apply elem_of_cons in Hin as [[= -> ->]|Hin];
          [congruence|by exists v].
Qed.

Lemma tileKeysWhere_hidden s :
  NoDup
    (tileKeysWhere
       (fun tile => bool_decide (Tile.visibility tile = TileVisibility.Hidden))
       s)
  /\ hiddenTiles s
     = list_to_set
         (tileKeysWhere
            (fun tile =>
               bool_decide (Tile.visibility tile = TileVisibility.Hidden)) s).
Proof.
  unfold tileKeysWhere.
  destruct (filter_keys
              (fun kt : TileKey * Tile.t =>
                 bool_decide (Tile.visibility kt.2 = TileVisibility.Hidden))
              (map_to_list (GameState.tiles s))
              (NoDup_fst_map_to_list _)) as [Hnd Hin].
  split; [done|]. apply set_eq. intros k.
  rewrite elem_of_list_to_set, Hin, elem_of_hiddenTiles.
  split.
  - intros (t & Ht & Hv). exists t. split; [by apply elem_of_map_to_list|].
    by apply bool_decide_eq_true_2.
  - intros (t & Ht & Hv). exists t. split; [by apply elem_of_map_to_list|].
    by apply bool_decide_eq_true_1 in Hv.
Qed.

Lemma randomIndex_lt (r : Q) (n : nat) :
  (0 <= r)%Q -> (r < 1)%Q -> (0 < n)%nat -> (randomIndex r n < n)%nat.
Proof.
  intros H0 H1 Hn. unfold randomIndex.
  assert (Hpos : (0 < inject_Z (Z.of_nat n))%Q).
  { change 0%Q with (inject_Z 0). rewrite <- Zlt_Qlt. lia. }
  assert (Hlo : 0 <= Qfloor (r * inject_Z (Z.of_nat n))).
  { change 0 with (Qfloor 0). apply Qfloor_resp_le.
    apply Qmult_le_0_compat; [done|]. by apply Qlt_le_weak. }
  assert (Hhi : Qfloor (r * inject_Z (Z.of_nat n)) < Z.of_nat n).
  { rewrite Zlt_Qlt.
    eapply Qle_lt_trans; [apply Qfloor_le|].
    rewrite <- (Qmult_1_l (inject_Z (Z.of_nat n))) at 2.
    by apply Qmult_lt_compat_r. }
  lia.
Qed.

Lemma delete_keys (l : list TileKey) (idx : nat) (k : TileKey) :
  NoDup l -> l !! idx = Some k ->
  NoDup (delete idx l)
  /\ (list_to_set (delete idx l) : gset TileKey) = list_to_set l ∖ {[k]}
  /\ S (length (delete idx l)) = length l.
Proof.
  intros Hnd Hk.
  pose proof (take_drop_middle l idx k Hk) as Hl.
  assert (Hmem : forall x,
             x ∈ l <-> x ∈ take idx l \/ x = k \/ x ∈ drop (S idx) l).
  { intros x. transitivity (x ∈ take idx l ++ k :: drop (S idx) l);
      [by rewrite Hl|]. by rewrite elem_of_app, elem_of_cons. }
  assert (Hlen : length l = (length (take idx l) + S (length (drop (S idx) l)))%nat).
  { transitivity (length (take idx l ++ k :: drop (S idx) l));
      [by rewrite Hl|]. by rewrite length_app. }
  rewrite delete_take_drop. rewrite <- Hl in Hnd.
  apply NoDup_app in Hnd as (Hn1 & Hn12 & Hn2).
  apply NoDup_cons in Hn2 as [Hk2 Hn2].
  split; [|split].
  - apply NoDup_app. split; [done|]. split; [|done].
    intros x Hx1 Hx2. apply (Hn12 x Hx1). by right.
  - apply set_eq. intros x.
    rewrite elem_of_difference, !elem_of_list_to_set, elem_of_app,
      elem_of_singleton, Hmem.
    split.
    + intros [Hx|Hx]; (split; [tauto|]); intros ->;
        [apply (Hn12 k Hx); by left|done].
    + intros [[Hx|[->|Hx]] Hne]; tauto.
  - rewrite Hlen, length_app. lia.
Qed.

Lemma half_step (x : Z) : 0 < x -> (x + 1) / 2 = 1 + (x - 1) / 2.
Proof.
  intros Hx. replace (x + 1) with (x - 1 + 1 * 2) by lia.
  rewrite Z.div_add by lia. lia.
Qed.

Lemma half_nonpos (x : Z) : x <= 0 -> (x + 1) / 2 <= 0.
Proof.
  intros Hx. destruct (Z.eq_dec x 0) as [->|Hne]; [done|].
  assert ((x + 1) / 2 <= 0 / 2) by (apply Z.div_le_mono; lia).
  by rewrite Z.div_0_l in H by lia.
Qed.

Lemma revealLoop_count pick count :
  (forall i, (0 <= pick i)%Q /\ (pick i < 1)%Q) ->
  forall fuel i (l : list TileKey) s,
    NoDup l -> hiddenTiles s = list_to_set l -> (length l < fuel)%nat ->
    Z.of_nat (size (hiddenTiles (revealLoop fuel pick i count l s)))
    = Z.of_nat (length l)
      - Z.min (Z.max (count - Z.of_nat i) 0)
          (Z.max ((Z.of_nat (length l) - Z.of_nat i + 1) / 2) 0)
    /\ hiddenTiles (revealLoop fuel pick i count l s) ⊆ hiddenTiles s.
Proof.
  intros Hpick. induction fuel as [|fuel IH]; intros i l s Hnd Hset Hfuel;
    [lia|].
  cbn [revealLoop].
  destruct (Z.ltb_spec (Z.of_nat i)
              (Z.min count (Z.of_nat (length l)))) as [Hgo|Hstop].
  - destruct (Hpick i) as [Hr0 Hr1].
    assert (Hlen : (0 < length l)%nat) by lia.
    pose proof (randomIndex_lt (pick i) (length l) Hr0 Hr1 Hlen) as Hidx.
    destruct (lookup_lt_is_Some_2 l _ Hidx) as [k Hk]. rewrite Hk.
    assert (Hin : k ∈ hiddenTiles s).
    { rewrite Hset, elem_of_list_to_set. by eapply list_elem_of_lookup_2. }
    apply elem_of_hiddenTiles in Hin as (t & Ht & _). rewrite Ht.
    destruct (delete_keys l _ k Hnd Hk) as (Hnd' & Hset' & Hlen').
    destruct (IH (S i) (delete (randomIndex (pick i) (length l)) l)
                (FogOfWarSystem.addRevealed k
                   (updateTile k (Tile.set_visibility TileVisibility.Seen) s))
                Hnd') as [IH1 IH2].
    { by rewrite hiddenTiles_seen, Hset, Hset'. }
    { lia. }
    split.
    + rewrite IH1.
      replace (Z.of_nat (length (delete (randomIndex (pick i) (length l)) l)))
        with (Z.of_nat (length l) - 1) by lia.
      replace (Z.of_nat (S i)) with (Z.of_nat i + 1) by lia.
      replace (Z.of_nat (length l) - 1 - (Z.of_nat i + 1) + 1)
        with (Z.of_nat (length l) - Z.of_nat i - 1) by lia.
      rewrite (half_step (Z.of_nat (length l) - Z.of_nat i)) by lia.
      assert (0 <= (Z.of_nat (length l) - Z.of_nat i - 1) / 2)
        by (apply Z.div_pos; lia).
      lia.
    + etrans; [exact IH2|]. rewrite hiddenTiles_seen. set_solver.
  - split; [|done].
    rewrite Hset, size_list_to_set by done.
    destruct (Z.le_gt_cases count (Z.of_nat i)) as [Hc|Hc]; [lia|].
    assert (Z.of_nat (length l) - Z.of_nat i <= 0) by lia.
    pose proof (half_nonpos _ H). lia.
Qed.

(** X8.  [revealRandomTiles] reveals fewer tiles than it is asked for when
    many are hidden: its loop bound is re-read from the list the loop
    shortens, so with n hidden tiles it reveals min(count, ceil(n / 2)) of
    them (none for a count of 0 or less), each of which was hidden
    before.  The draws are numbers in [0, 1), as [Math.random()] gives. *)
Theorem revealRandomTiles_reveals_half pick s count :
  (forall i, (0 <= pick i)%Q /\ (pick i < 1)%Q) ->
  Z.of_nat (size (hiddenTiles (revealRandomTiles pick s count)))
  = Z.of_nat (size (hiddenTiles s))
    - Z.min (Z.max count 0) ((Z.of_nat (size (hiddenTiles s)) + 1) / 2)
  /\ hiddenTiles (revealRandomTiles pick s count) ⊆ hiddenTiles s.
Proof.
  intros Hpick. unfold revealRandomTiles.
  destruct (tileKeysWhere_hidden s) as [Hnd Hset].
  set (l := tileKeysWhere _ s) in *.
  destruct (revealLoop_count pick count Hpick (S (length l)) 0%nat l s
              Hnd Hset) as [H1 H2]; [lia|].
  split; [|done]. rewrite H1, Hset, size_list_to_set by done.
  rewrite Z.sub_0_r.
  assert (0 <= (Z.of_nat (length l) + 1) / 2) by (apply Z.div_pos; lia).
  change (Z.of_nat 0) with 0. rewrite Z.sub_0_r. lia.
Qed.

(** Six tiles are hidden on the capture board; asked for six, the event
    reveals three. *)
Lemma revealRandomTiles_reveals_half_witness :
  Z.of_nat
    (size
       (hiddenTiles
          (revealRandomTiles (fun _ => 0%Q)
             (Board.captureBoard TileType.Plains 7) 6))) = 3.
Proof.
  destruct (revealRandomTiles_reveals_half (fun _ => 0%Q)
              (Board.captureBoard TileType.Plains 7) 6) as [H _];
    [by intros; split; vm_compute|].
  rewrite H. by vm_compute.
Defined.

(** *** The list of active events *)

Definition sameEvents (s s' : GameState.t) : Prop :=
  GameState.activeGlobalEvents s' = GameState.activeGlobalEvents s.

Lemma sameEvents_fold {A} (step : GameState.t -> A -> GameState.t)
  (l : list A) s :
  (forall x a, sameEvents x (step x a)) -> sameEvents s (fold_left step l s).
Proof.
  intros Hstep. revert s. induction l as [|a l IH]; intros s; simpl; [done|].
  unfold sameEvents in *. by rewrite IH, Hstep.
Qed.

Lemma sameEvents_revealLoop fuel pick i count hiddenTiles s :
  sameEvents s (revealLoop fuel pick i count hiddenTiles s).
Proof.
  revert i hiddenTiles s.
  induction fuel as [|fuel IH]; intros i hiddenTiles s; simpl; [done|].
  destruct (_ <? _); [|done]. unfold sameEvents in *. rewrite IH.
  destruct (hiddenTiles !! _) as [k|]; [|done].
  by destruct (GameState.tiles s !! k).
Qed.

Lemma sameEvents_applyEventEffect pick cur player s effect :
  sameEvents s (applyEventEffect pick cur player s effect).
Proof.
  unfold applyEventEffect.
  destruct (GameEffect.type effect); try done.
  - apply sameEvents_revealLoop.
  - unfold addCorruptionToRandomTiles. apply sameEvents_fold.
    intros x a. by destruct (_ !! _).
  - unfold removeCorruptionFromTiles. by apply sameEvents_fold.
  - unfold damageStability.
    destruct (hasTag "owned" effect); [|done]. by apply sameEvents_fold.
  - unfold addStability. cbv zeta. unfold sameEvents.
    destruct (hasTag "owned" effect), (hasTag "sanctified" effect);
      try done; rewrite ?sameEvents_fold by done; try done.
Qed.

Lemma checkForRandomEvents_events rnd s :
  sameEvents s (checkForRandomEvents rnd s).
Proof.
  unfold checkForRandomEvents.
  destruct (getPlayer _ _) as [player|]; [|done].
  destruct (Qltb _ _); [|done]. unfold triggerRandomEvent.
  destruct (_ !! _); [|done].
  apply sameEvents_fold. intros x a. apply sameEvents_applyEventEffect.
Qed.

Lemma aged_0 event : aged 0 event = Some event.
Proof.
  unfold aged, GlobalEvent.set_duration. destruct event as [id d a]. simpl.
  by rewrite Z.sub_0_r.
Qed.

Lemma aged_S n event :
  aged (S n) event
  = aged n event
    ≫= (fun e => if GlobalEvent.duration e <=? 0 then None
                 else Some (GlobalEvent.set_duration
                              (GlobalEvent.duration e - 1) e)).
Proof.
  unfold aged, GlobalEvent.set_duration. destruct event as [id d a].
  cbn [GlobalEvent.duration GlobalEvent.id GlobalEvent.isActive].
  destruct n as [|n].
  - change (Z.of_nat 1) with 1. change (Z.of_nat 0) with 0.
    cbn [Nat.eqb orb mbind option_bind GlobalEvent.duration GlobalEvent.id
           GlobalEvent.isActive].
    rewrite Z.sub_0_r.
    destruct (Z.leb_spec 1 d), (Z.leb_spec d 0); try lia; done.
  - cbn [Nat.eqb orb].
    destruct (Z.leb_spec (Z.of_nat (S (S n))) d),
      (Z.leb_spec (Z.of_nat (S n)) d); try lia;
      cbn [mbind option_bind GlobalEvent.duration GlobalEvent.id
             GlobalEvent.isActive]; try done.
    + destruct (Z.leb_spec (d - Z.of_nat (S n)) 0); [lia|].
      do 2 f_equal. lia.
    + destruct (Z.leb_spec (d - Z.of_nat (S n)) 0); [done|lia].
Qed.

Lemma omap_cons {A B} (f : A -> option B) (x : A) (l : list A) :
  omap f (x :: l)
  = match f x with Some y => y :: omap f l | None => omap f l end.
Proof. reflexivity. Qed.

Lemma omap_aged_S n (l : list GlobalEvent.t) :
  omap
    (fun event =>
       if GlobalEvent.duration event <=? 0 then None
       else Some (GlobalEvent.set_duration
                    (GlobalEvent.duration event - 1) event))
    (omap (aged n) l)
  = omap (aged (S n)) l.
Proof.
  induction l as [|e l IHl]; [done|].
  rewrite !omap_cons, aged_S.
  destruct (aged n e) as [e'|]; cbn [mbind option_bind]; [|exact IHl].
  rewrite omap_cons.
  destruct (GlobalEvent.duration e' <=? 0); by rewrite IHl.
Qed.

(** X9.  [processEvents] keeps an event in the active list for one call
    more than its duration says: after n calls, whatever the random draws,
    the list holds exactly the events whose duration was at least n, in
    the same order, with durations lowered by n.  An event of duration d
    is still listed (at duration 0) after d calls and is dropped by call
    d + 1; nothing else in the pass touches the list, and [isActive] is
    never read. *)
Theorem processEvents_lifetime (rnds : list Oracle) (s : GameState.t) :
  GameState.activeGlobalEvents
    (fold_left (fun s rnd => processEvents rnd s) rnds s)
  = omap (aged (length rnds)) (GameState.activeGlobalEvents s).
Proof.
  revert s. induction rnds as [|rnd rnds IH] using rev_ind; intros s.
  - simpl. induction (GameState.activeGlobalEvents s) as [|e l IHl];
      [done|].
    by rewrite omap_cons, aged_0, <- IHl.
  - rewrite fold_left_app, length_app. simpl.
    replace (length rnds + 1)%nat with (S (length rnds)) by lia.
    unfold processEvents at 1. rewrite checkForRandomEvents_events. simpl.
    rewrite IH. apply omap_aged_S.
Qed.

(** *** Tile effects *)

Lemma fold_updateTile (f : Tile.t -> Tile.t) (l : list TileKey) s k :
  NoDup l ->
  GameState.tiles (fold_left (fun s key => updateTile key f s) l s) !! k
  = if decide (k ∈ l) then f <$> GameState.tiles s !! k
    else GameState.tiles s !! k.
Proof.
  revert s. induction l as [|a l IH]; intros s Hnd.
  - destruct (decide (k ∈ [])) as [Hin|_]; [|done].
    by apply elem_of_nil in Hin.
  - apply NoDup_cons in Hnd as [Ha Hnd]. cbn [fold_left].
    rewrite IH by done. rewrite tiles_updateTile.
    destruct (decide (a = k)) as [->|Hak].
    + destruct (decide (k ∈ l)) as [?|_]; [done|].
      destruct (decide (k ∈ k :: l)) as [_|Hn]; [done|].
      destruct Hn. by left.
    + destruct (decide (k ∈ l)) as [Hin|Hout];
        destruct (decide (k ∈ a :: l)) as [Hin'|Hout']; try done.
      * destruct Hout'. by right.
      * apply elem_of_cons in Hin' as [->|?]; done.
Qed.

(** X10.  [removeCorruptionFromTiles] does not use its amount: whatever
    the amount (0 and negative amounts included), every tile of the
    player's [ownedTiles] that carries corruption loses exactly one level,
    and every other tile, as well as every player, is left as it was. *)
Theorem removeCorruptionFromTiles_one_level s player amount :
  (forall k,
      GameState.tiles (removeCorruptionFromTiles s player amount) !! k
      = (fun tile =>
           if bool_decide (k ∈ PlayerState.ownedTiles player)
              && (0 <? Tile.corruption tile)
           then Tile.set_corruption (Tile.corruption tile - 1) tile
           else tile) <$> GameState.tiles s !! k)
  /\ GameState.players (removeCorruptionFromTiles s player amount)
     = GameState.players s.
Proof.
  unfold removeCorruptionFromTiles.
  set (P := fun key : TileKey => _).
  split.
  - intros k. rewrite fold_updateTile.
    2:{ apply NoDup_ListNoDup, List.NoDup_filter, NoDup_ListNoDup,
          NoDup_elements. }
    destruct (GameState.tiles s !! k) as [tile|] eqn:Ht; simpl.
    + case_decide as Hin.
      * apply list_elem_of_In, List.filter_In in Hin as [Hin HP].
        apply list_elem_of_In, elem_of_elements in Hin.
        subst P. simpl in HP. rewrite Ht in HP.
        rewrite bool_decide_eq_true_2, HP by done. simpl.
        do 2 f_equal. apply Z.ltb_lt in HP. lia.
      * destruct (bool_decide _ && _) eqn:E; [|done].
        apply andb_true_iff in E as [E1 E2].
        apply bool_decide_eq_true_1 in E1.
        destruct Hin. apply list_elem_of_In, List.filter_In.
        split; [by apply list_elem_of_In, elem_of_elements|].
        subst P. simpl. by rewrite Ht.
    + by case_decide.
  - generalize (List.filter P (elements (PlayerState.ownedTiles player))).
    clear P. intros l. revert s. induction l as [|a l IH]; intros s; simpl; [done|].
    by rewrite IH.
Qed.

(** X11.  The ruins event fires once: [triggerTileEvent] marks the tile,
    and a second call on the result, whatever it draws, changes nothing;
    on a tile that is not an ancient ruin it never does anything.  No
    outcome lifts divinity above 20, shadow energy above 10, stability
    above 10 or corruption above 2 when they were within these bounds. *)
Theorem triggerTileEvent_fires_once (r r' : Q) (player : PlayerState.t)
  (tile : Tile.t) :
  triggerTileEvent r' (triggerTileEvent r player tile).1
    (triggerTileEvent r player tile).2
  = triggerTileEvent r player tile
  /\ (Tile.type tile <> TileType.AncientRuins ->
      triggerTileEvent r player tile = (player, tile))
  /\ (Tile.type tile = TileType.AncientRuins ->
      Tile.eventTriggered (triggerTileEvent r player tile).2 = true)
  /\ (PlayerState.divinity player <= 20 ->
      PlayerState.divinity (triggerTileEvent r player tile).1 <= 20)
  /\ (PlayerState.shadowEnergy player <= 10 ->
      PlayerState.shadowEnergy (triggerTileEvent r player tile).1 <= 10)
  /\ (Tile.stability tile <= 10 ->
      Tile.stability (triggerTileEvent r player tile).2 <= 10)
  /\ (Tile.corruption tile <= 2 ->
      Tile.corruption (triggerTileEvent r player tile).2 <= 2).
Proof.
  unfold triggerTileEvent.
  destruct (bool_decide (Tile.type tile = TileType.AncientRuins)) eqn:Hruin;
    destruct (Tile.eventTriggered tile) eqn:Htrig; cbn [andb negb fst snd];
    rewrite ?Hruin, ?Htrig; cbn [andb negb fst snd];
    try apply bool_decide_eq_true_1 in Hruin;
    try apply bool_decide_eq_false_1 in Hruin;
    try (repeat split; done).
  destruct (outcomes !! randomIndex r (length outcomes)) as [[| |]|];
    simpl; rewrite ?andb_false_r; repeat split; try done; try lia.
Qed.

(** The curse on the player's ruins, then a second visit. *)
Lemma triggerTileEvent_fires_once_witness :
  Tile.eventTriggered
    (triggerTileEvent (2 # 3) Board2.human Board2.ruins).2 = true
  /\ Tile.corruption
       (triggerTileEvent (2 # 3) Board2.human Board2.ruins).2 <= 2.
Proof.
  destruct (triggerTileEvent_fires_once (2 # 3) 0 Board2.human Board2.ruins)
    as (_ & _ & H3 & _ & _ & _ & H7).
  split; [by apply H3|apply H7; by vm_compute].
Defined.

End EventExtra.

(** *** Stability effects and the list of active events *)

Module EffectExtra.
Import EventSystem.

(** X12.  The two stability effects work on the tiles of the player's
    sets that their tags name and on nothing else; an absent or zero value
    counts as 1.  [damageStability] lowers the stability of each owned
    tile by the value, not below 0.  [addStability] raises it by the
    value, not above 10 whatever the configured cap is; with both tags a
    tile that is owned and sanctified is raised twice. *)
Theorem stability_effects_per_tile s player effect :
  let value := orOne (GameEffect.value effect) in
  let raise tile :=
    Tile.set_stability (Z.min 10 (Tile.stability tile + value)) tile in
  (forall k,
      GameState.tiles (damageStability s player effect) !! k
      = (fun tile =>
           if hasTag "owned" effect
              && bool_decide (k ∈ PlayerState.ownedTiles player)
           then Tile.set_stability (Z.max 0 (Tile.stability tile - value))
                  tile
           else tile) <$> GameState.tiles s !! k)
  /\ (forall k,
         GameState.tiles (addStability s player effect) !! k
         = (fun tile =>
              let tile :=
                if hasTag "owned" effect
                   && bool_decide (k ∈ PlayerState.ownedTiles player)
                then raise tile else tile in
              if hasTag "sanctified" effect
                 && bool_decide (k ∈ PlayerState.sanctifiedTiles player)
              then raise tile else tile) <$> GameState.tiles s !! k)
  /\ 1 <= Z.abs value.
Proof.
  cbv zeta.
  assert (Hfold : forall (f : Tile.t -> Tile.t) (keys : gset TileKey) x k,
             GameState.tiles
               (fold_left (fun s key => updateTile key f s) (elements keys) x)
               !! k
             = (fun tile => if bool_decide (k ∈ keys) then f tile else tile)
                 <$> GameState.tiles x !! k).
  { intros f keys x k.
    rewrite EventExtra.fold_updateTile by apply NoDup_elements.
    destruct (decide (k ∈ elements keys)) as [Hin|Hin];
      rewrite elem_of_elements in Hin.
    - rewrite bool_decide_eq_true_2 by done. done.
    - rewrite bool_decide_eq_false_2 by done.
      by destruct (GameState.tiles x !! k). }
  split; [|split].
  - intros k. unfold damageStability.
    destruct (hasTag "owned" effect); simpl.
    + apply Hfold.
    + by destruct (GameState.tiles s !! k).
  - intros k. unfold addStability.
    destruct (hasTag "owned" effect), (hasTag "sanctified" effect); simpl.
    + rewrite !Hfold. by destruct (GameState.tiles s !! k).
    + rewrite Hfold. by destruct (GameState.tiles s !! k).
    + rewrite Hfold. by destruct (GameState.tiles s !! k).
    + by destruct (GameState.tiles s !! k).
  - unfold orOne. destruct (GameEffect.value effect) as [v|]; [|done].
    destruct (Z.eqb_spec v 0); lia.
Qed.

Lemma filter_fresh (l : list GlobalEvent.t) (eventId : string) :
  (forall e, e ∈ l -> GlobalEvent.id e <> eventId) ->
  List.filter (fun e => negb (bool_decide (GlobalEvent.id e = eventId))) l = l.
Proof.
  induction l as [|e l IH]; intros Hfresh; cbn [List.filter]; [done|].
  rewrite bool_decide_eq_false_2.
  - cbn [negb]. f_equal. apply IH. intros e' He'. apply Hfresh.
    apply elem_of_cons. by right.
  - apply Hfresh. apply elem_of_cons. by left.
Qed.

(** X13.  [addGlobalEvent] puts the event at the end of the active
    events; [removeGlobalEvent] takes out every event of the given id,
    not only the first, and keeps the others.  Removing by its id an event
    that was added under an id no active event had gives back the state
    before the addition. *)
Theorem removeGlobalEvent_undoes_addGlobalEvent s event :
  (forall e, e ∈ getActiveEvents s ->
             GlobalEvent.id e <> GlobalEvent.id event) ->
  getActiveEvents (addGlobalEvent s event) = getActiveEvents s ++ [event]
  /\ removeGlobalEvent (addGlobalEvent s event) (GlobalEvent.id event) = s
  /\ (forall eventId e,
         e ∈ getActiveEvents (removeGlobalEvent s eventId)
         <-> e ∈ getActiveEvents s /\ GlobalEvent.id e <> eventId).
Proof.
  intros Hfresh. split; [done|]. split.
  - unfold removeGlobalEvent, addGlobalEvent, getActiveEvents in *.
    cbn [GameState.activeGlobalEvents GameState.set_activeGlobalEvents].
    rewrite List.filter_app. cbn [List.filter].
    rewrite bool_decide_eq_true_2 by done. cbn [negb]. rewrite app_nil_r.
    rewrite filter_fresh by done. by destruct s.
  - intros eventId e. unfold getActiveEvents, removeGlobalEvent; simpl.
    rewrite list_elem_of_In, List.filter_In, <- list_elem_of_In.
    rewrite negb_true_iff, bool_decide_eq_false. done.
Qed.

(** An event is added to a board without events and removed again. *)
Lemma removeGlobalEvent_undoes_addGlobalEvent_witness :
  removeGlobalEvent
    (addGlobalEvent Board2.rivalBoard (GlobalEvent.mk "e1" 3 true))
    "e1"
  = Board2.rivalBoard.
Proof.
  refine (proj1 (proj2 (removeGlobalEvent_undoes_addGlobalEvent
                          Board2.rivalBoard (GlobalEvent.mk "e1" 3 true) _))).
  intros e He. vm_compute in He. by apply elem_of_nil in He.
Defined.

End EffectExtra.

(** ** Turns *)

Module TurnExtra.
Import TurnSystem TurnView.

Lemma indexOf_absent (o : Owner.t) (l : list Owner.t) :
  o ∉ l -> indexOf o l = -1.
Proof.
  induction l as [|a l IH]; [done|]. intros Hn.
  apply not_elem_of_cons in Hn as [Hne Hn]. simpl.
  rewrite decide_False by done. by rewrite IH.
Qed.

Lemma indexOf_lookup (o : Owner.t) (l : list Owner.t) (i : nat) :
  NoDup l -> l !! i = Some o -> indexOf o l = Z.of_nat i.
Proof.
  revert i. induction l as [|a l IH]; intros i Hnd Hi; [done|].
  apply NoDup_cons in Hnd as [Ha Hnd]. simpl.
  destruct i as [|i]; simpl in Hi.
  - injection Hi as ->. by rewrite decide_True.
  - rewrite decide_False.
    + rewrite (IH i Hnd Hi).
      destruct (Z.ltb_spec (Z.of_nat i) 0); lia.
    + intros ->. apply Ha. by eapply list_elem_of_lookup_2.
Qed.

Lemma advance_step s (i : nat) :
  NoDup (GameState.players s).*1 ->
  (GameState.players s).*1 !! i = Some (GameState.currentPlayer s) ->
  exists o,
    (GameState.players s).*1
      !! ((i + 1) mod length (GameState.players s).*1)%nat = Some o
    /\ advanceToNextPlayer s = Some (GameState.set_currentPlayer o s).
Proof.
  intros Hnd Hi. unfold advanceToNextPlayer.
  rewrite (indexOf_lookup _ _ i Hnd Hi).
  set (keys := (GameState.players s).*1) in *.
  assert (Hlen : (i < length keys)%nat) by (by eapply lookup_lt_Some).
  destruct keys as [|k keys'] eqn:E; [simpl in Hlen; lia|].
  rewrite <- E in *. clear E k keys'.
  assert (Hidx : Z.to_nat ((Z.of_nat i + 1) `mod` Z.of_nat (length keys))
                 = ((i + 1) mod length keys)%nat).
  { replace (Z.of_nat i + 1) with (Z.of_nat (i + 1)) by lia.
    rewrite <- Nat2Z.inj_mod. lia. }
  rewrite Hidx.
  assert (Hlt : ((i + 1) mod length keys < length keys)%nat)
    by (apply Nat.mod_upper_bound; lia).
  destruct (lookup_lt_is_Some_2 keys _ Hlt) as [o Ho].
  exists o. split; [done|]. by rewrite Ho.
Qed.

(** X14.  [advanceToNextPlayer] is a round-robin over the player table:
    from the player at position i it moves to the player at position
    (i + 1) mod n, so n calls in a row bring the turn back to the player
    it started from; from an owner that is not in the table it moves to
    the first player; on an empty table it has no player to move to. *)
Theorem advanceToNextPlayer_round_robin s :
  NoDup (GameState.players s).*1 ->
  (forall i j,
      (GameState.players s).*1 !! i = Some (GameState.currentPlayer s) ->
      exists o,
        (GameState.players s).*1
          !! ((i + j) mod length (GameState.players s).*1)%nat = Some o
        /\ advanceTimes j s = Some (GameState.set_currentPlayer o s))
  /\ (GameState.currentPlayer s ∈ (GameState.players s).*1 ->
      advanceTimes (length (GameState.players s)) s = Some s)
  /\ (GameState.currentPlayer s ∉ (GameState.players s).*1 ->
      advanceToNextPlayer s
      = (fun first => GameState.set_currentPlayer first s)
          <$> head (GameState.players s).*1)
  /\ (GameState.players s = [] -> advanceToNextPlayer s = None).
Proof.
  intros Hnd.
  assert (Hcycle : forall j s0 i,
             NoDup (GameState.players s0).*1 ->
             (GameState.players s0).*1 !! i
             = Some (GameState.currentPlayer s0) ->
             exists o,
               (GameState.players s0).*1
                 !! ((i + j) mod length (GameState.players s0).*1)%nat
               = Some o
               /\ advanceTimes j s0
                  = Some (GameState.set_currentPlayer o s0)).
  { induction j as [|j IH]; intros s0 i Hnd0 Hi.
    - exists (GameState.currentPlayer s0).
      assert (Hlt : (i < length (GameState.players s0).*1)%nat)
        by (by eapply lookup_lt_Some).
      rewrite Nat.add_0_r, Nat.mod_small by done.
      split; [done|]. simpl. by destruct s0.
    - destruct (advance_step s0 i Hnd0 Hi) as (o & Ho & Hadv).
      cbn [advanceTimes]. rewrite Hadv. cbn [mbind option_bind].
      destruct (IH (GameState.set_currentPlayer o s0)
                  ((i + 1) mod length (GameState.players s0).*1)%nat
                  Hnd0 Ho) as (o' & Ho' & Hadv').
      exists o'. split; [|by rewrite Hadv'].
      cbn [GameState.players GameState.set_currentPlayer] in Ho'.
      rewrite <- Ho'. f_equal.
      rewrite Nat.Div0.add_mod_idemp_l. f_equal. lia. }
  split; [intros i j; by apply Hcycle|]. split; [|split].
  - intros Hin. apply list_elem_of_lookup_1 in Hin as [i Hi].
    destruct (Hcycle (length (GameState.players s)) s i Hnd Hi)
      as (o & Ho & Hadv).
    rewrite Hadv. f_equal.
    assert (Hlt : (i < length (GameState.players s).*1)%nat)
      by (by eapply lookup_lt_Some).
    rewrite length_fmap in Ho, Hlt.
    replace ((i + length (GameState.players s))
               mod length (GameState.players s))%nat with i in Ho.
    2:{ rewrite <- Nat.Div0.add_mod_idemp_r, Nat.Div0.mod_same, Nat.add_0_r.
        by rewrite Nat.mod_small. }
    assert (o = GameState.currentPlayer s) as -> by congruence.
    by destruct s.
  - intros Hout. unfold advanceToNextPlayer.
    rewrite (indexOf_absent _ _ Hout).
    destruct (GameState.players s).*1 as [|k keys]; [done|].
    change (-1 + 1) with 0. rewrite Z.mod_0_l by (simpl; lia). done.
  - intros E. unfold advanceToNextPlayer. by rewrite E.
Qed.

(** On the two-player board two advances bring the turn back to the human
    player. *)
Lemma advanceToNextPlayer_round_robin_witness :
  advanceTimes 2 Board2.rivalBoard = Some Board2.rivalBoard.
Proof.
  refine (proj1 (proj2 (advanceToNextPlayer_round_robin Board2.rivalBoard _))
            _).
  - apply (bool_decide_unpack _). by vm_compute.
  - apply (bool_decide_unpack _). by vm_compute.
Defined.

(** *** The start of a turn *)

Lemma getPlayer_fold_set_units {A} (f : GameState.t -> A -> gmap string Unit.t)
  (l : list A) s o :
  getPlayer (fold_left (fun s a => GameState.set_units (f s a) s) l s) o
  = getPlayer s o.
Proof.
  revert s. induction l as [|a l IH]; intros s; simpl; [done|].
  by rewrite IH.
Qed.

Lemma tiles_fold_editUnit (f : Unit.t -> Unit.t) (units : list Unit.t) s :
  GameState.tiles
    (fold_left (fun s unit => editUnit (Unit.id unit) f s) units s)
  = GameState.tiles s.
Proof.
  revert s. induction units as [|u units IH]; intros s; simpl; [done|].
  by rewrite IH.
Qed.

Lemma tiles_fold_set_units {A} (f : GameState.t -> A -> gmap string Unit.t)
  (l : list A) s :
  GameState.tiles (fold_left (fun s a => GameState.set_units (f s a) s) l s)
  = GameState.tiles s.
Proof.
  revert s. induction l as [|a l IH]; intros s; simpl; [done|].
  by rewrite IH.
Qed.

(** X15.  [TurnSystem.startTurn] replaces the player's divinity by the
    income of the turn, which is at most 20, whatever was left unspent;
    it adds the faith income, which is at most 10, to the faith the
    player holds; it cuts shadow energy at 10; it leaves the aegis as it
    is and resets the two per-turn counters.  The board is not touched. *)
Theorem startTurn_resources config cur s player :
  getPlayer s cur = Some player ->
  playerField ledger (startTurn config cur s) cur
  = Some (calculateDivinityIncome config s player,
          PlayerState.faith player + calculateFaithIncome s player,
          Z.min 10
            (PlayerState.shadowEnergy player
             + calculateShadowEnergyIncome s player),
          PlayerState.aegis player, 0, 0)
  /\ calculateDivinityIncome config s player <= 20
  /\ calculateFaithIncome s player <= 10
  /\ GameState.tiles (startTurn config cur s) = GameState.tiles s.
Proof.
  intros Hp. unfold startTurn. rewrite Hp.
  cbv zeta.
  set (s1 := fold_left
               (fun s unit => editUnit (Unit.id unit) refreshUnit s)
               (PlayerState.units player) _).
  assert (H1 : playerField ledger s1 cur
               = Some (calculateDivinityIncome config s player,
                       PlayerState.faith player + calculateFaithIncome s player,
                       Z.min 10
                         (PlayerState.shadowEnergy player
                          + calculateShadowEnergyIncome s player),
                       PlayerState.aegis player,
                       PlayerState.capturedThisTurn player,
                       PlayerState.sanctifiedThisTurn player)).
  { subst s1. rewrite playerField_fold_editUnit by done.
    unfold playerField. rewrite getPlayer_updatePlayer, decide_True by done.
    by rewrite Hp. }
  assert (Ht1 : GameState.tiles s1 = GameState.tiles s)
    by (subst s1; by rewrite tiles_fold_editUnit).
  clearbody s1. unfold playerField in H1.
  destruct (getPlayer s1 cur) as [p1|] eqn:Hp1; [|done].
  injection H1 as H1.
  split; [|split; [|split]].
  - unfold playerField.
    rewrite !getPlayer_updatePlayer, !decide_True by done.
    rewrite getPlayer_fold_set_units, Hp1. simpl. f_equal.
    unfold ledger in *. simpl in *. congruence.
  - unfold calculateDivinityIncome. lia.
  - unfold calculateFaithIncome. lia.
  - by rewrite !tiles_updatePlayer, tiles_fold_set_units.
Qed.

(** The human player of the two-player board holds 8 divinity; the turn
    starts with the base income 6. *)
Lemma startTurn_resources_witness :
  playerField ledger
    (startTurn defaultGameConfig Owner.Player Board2.rivalBoard) Owner.Player
  = Some (6, 0, 0, 0, 0, 0).
Proof.
  destruct (startTurn_resources defaultGameConfig Owner.Player
              Board2.rivalBoard Board2.human) as (H & _); [done|].
  rewrite H. by vm_compute.
Defined.

End TurnExtra.

(** *** The units at the start of a turn *)

Module UnitExtra.
Import TurnSystem.

Lemma refreshUnit_id unit : Unit.id (refreshUnit unit) = Unit.id unit.
Proof. done. Qed.

Lemma isExpiredWight_refreshUnit unit :
  isExpiredWight (refreshUnit unit) = isExpiredWight unit.
Proof. done. Qed.

Lemma set_units_same (p : PlayerState.t) (l : list Unit.t) :
  l = PlayerState.units p -> PlayerState.set_units l p = p.
Proof. intros ->. by destruct p. Qed.

Lemma set_units_twice (g h : Unit.t -> Unit.t) (p : PlayerState.t) :
  PlayerState.set_units
    (g <$> PlayerState.units
             (PlayerState.set_units (h <$> PlayerState.units p) p))
    (PlayerState.set_units (h <$> PlayerState.units p) p)
  = PlayerState.set_units ((g ∘ h) <$> PlayerState.units p) p.
Proof. destruct p; cbn. by rewrite <- list_fmap_compose. Qed.

(** An edit that keeps the ids, applied once for each unit of a list with
    distinct ids. *)
Lemma fold_editUnit_players (f : Unit.t -> Unit.t) (us : list Unit.t) s o :
  (forall u, Unit.id (f u) = Unit.id u) ->
  NoDup (Unit.id <$> us) ->
  getPlayer (fold_left (fun s unit => editUnit (Unit.id unit) f s) us s) o
  = (fun p =>
       PlayerState.set_units
         ((fun u => if decide (Unit.id u ∈ Unit.id <$> us) then f u else u)
            <$> PlayerState.units p) p) <$> getPlayer s o.
Proof.
  intros Hid. revert s. induction us as [|a us IH]; intros s Hnd.
  - cbn [fold_left]. destruct (getPlayer s o) as [p|]; [|done].
    cbn. f_equal. symmetry. apply set_units_same.
    rewrite <- (list_fmap_id (PlayerState.units p)) at 2.
    apply list_fmap_ext.
    intros i u _. destruct (decide (Unit.id u ∈ Unit.id <$> [])) as [H|_];
      [by apply elem_of_nil in H|done].
  - rewrite fmap_cons in Hnd. apply NoDup_cons in Hnd as [Ha Hnd].
    cbn [fold_left]. rewrite IH by done.
    unfold editUnit at 1, getPlayer at 1.
    cbn [GameState.players GameState.set_players GameState.set_units].
    fold (getPlayer s o). rewrite players_get_fmap. fold (getPlayer s o).
    destruct (getPlayer s o) as [p|]; [|done].
    cbn [fmap option_fmap option_map]. f_equal.
    rewrite set_units_twice. f_equal. apply list_fmap_ext.
    intros i u _. cbn.
    destruct (decide (Unit.id u = Unit.id a)) as [Heq|Hne].
    + rewrite Hid, Heq.
      destruct (decide (Unit.id a ∈ Unit.id <$> us)) as [?|_]; [done|].
      destruct (decide (Unit.id a ∈ Unit.id a :: _)) as [_|Hn]; [done|].
      destruct Hn. apply elem_of_cons. by left.
    + destruct (decide (Unit.id u ∈ Unit.id <$> us)) as [Hin|Hin];
        destruct (decide (Unit.id u ∈ Unit.id a :: _)) as [Hin'|Hin'];
        try done.
      * destruct Hin'. apply elem_of_cons. by right.
      * apply elem_of_cons in Hin' as [?|?]; done.
Qed.

Lemma units_editUnit id f s :
  GameState.units (editUnit id f s) = alter f id (GameState.units s).
Proof. reflexivity. Qed.

Lemma fold_editUnit_units (f : Unit.t -> Unit.t) (us : list Unit.t) s i :
  NoDup (Unit.id <$> us) ->
  GameState.units
    (fold_left (fun s unit => editUnit (Unit.id unit) f s) us s) !! i
  = if decide (i ∈ Unit.id <$> us) then f <$> GameState.units s !! i
    else GameState.units s !! i.
Proof.
  revert s. induction us as [|a us IH]; intros s Hnd.
  - destruct (decide (i ∈ Unit.id <$> [])) as [H|_];
      [by apply elem_of_nil in H|done].
  - rewrite fmap_cons in Hnd. apply NoDup_cons in Hnd as [Ha Hnd].
    cbn [fold_left]. rewrite IH by done.
    rewrite !units_editUnit, lookup_alter.
    destruct (decide (Unit.id a = i)) as [<-|Hne].
    + rewrite (decide_False (P := Unit.id a ∈ Unit.id <$> us)) by done.
      rewrite decide_True; [done|]. rewrite fmap_cons, elem_of_cons.
      by left.
    + destruct (decide (i ∈ Unit.id <$> us)) as [Hin|Hin].
      * rewrite decide_True; [done|].
        rewrite fmap_cons, elem_of_cons. by right.
      * rewrite decide_False; [done|].
        rewrite fmap_cons, elem_of_cons. by intros [?|?].
Qed.

Lemma fold_delete_units (us : list Unit.t) s i :
  GameState.units
    (fold_left
       (fun s unit =>
          GameState.set_units (delete (Unit.id unit) (GameState.units s)) s)
       us s) !! i
  = if decide (i ∈ Unit.id <$> us) then None else GameState.units s !! i.
Proof.
  revert s. induction us as [|a us IH]; intros s; cbn [fold_left].
  - destruct (decide (i ∈ Unit.id <$> [])) as [H|_];
      [by apply elem_of_nil in H|done].
  - rewrite IH. cbn [GameState.units GameState.set_units].
    rewrite fmap_cons.
    destruct (decide (i ∈ Unit.id <$> us)) as [Hin|Hin].
    + rewrite decide_True; [done|]. rewrite elem_of_cons. by right.
    + destruct (decide (Unit.id a = i)) as [<-|Hne].
      * rewrite lookup_delete_eq. rewrite decide_True; [done|].
        rewrite elem_of_cons. by left.
      * rewrite lookup_delete_ne by done. rewrite decide_False; [done|].
        rewrite elem_of_cons. by intros [?|?].
Qed.

Lemma filter_fmap_refresh (P : Unit.t -> bool) (us : list Unit.t) :
  (forall u, P (refreshUnit u) = P u) ->
  List.filter P (refreshUnit <$> us) = refreshUnit <$> List.filter P us.
Proof.
  intros HP. induction us as [|u us IH]; cbn; [done|].
  rewrite HP. destruct (P u); cbn; by rewrite IH.
Qed.

(** X16.  At the start of a turn of a player whose units carry distinct
    ids, every unit in the player's list gets its movement points back and
    each positive cooldown is lowered by 1, and the Wights that have been
    alive for a turn or more are taken from the list; in the unit table of
    the state the entries under the ids of those Wights are deleted, and
    the entries under ids that no unit of the player carries are left
    alone. *)
Theorem startTurn_refreshes_units_and_drops_wights config cur s player :
  getPlayer s cur = Some player ->
  NoDup (Unit.id <$> PlayerState.units player) ->
  playerField PlayerState.units (startTurn config cur s) cur
  = Some (refreshUnit
            <$> List.filter (fun unit => negb (isExpiredWight unit))
                  (PlayerState.units player))
  /\ (forall unit,
         unit ∈ PlayerState.units player ->
         isExpiredWight unit = true ->
         GameState.units (startTurn config cur s) !! Unit.id unit = None)
  /\ (forall i,
         i ∉ Unit.id <$> PlayerState.units player ->
         GameState.units (startTurn config cur s) !! i
         = GameState.units s !! i).
Proof.
  intros Hp Hnd. unfold startTurn. rewrite Hp. cbv zeta.
  set (s1 := updatePlayer cur _ s).
  set (s2 := fold_left
               (fun s unit => editUnit (Unit.id unit) refreshUnit s)
               (PlayerState.units player) s1).
  assert (Hp1 : exists p1, getPlayer s1 cur = Some p1
                           /\ PlayerState.units p1 = PlayerState.units player).
  { subst s1. rewrite getPlayer_updatePlayer, decide_True, Hp by done.
    by eexists. }
  destruct Hp1 as (p1 & Hp1 & Hu1).
  assert (Hp2 : exists p2, getPlayer s2 cur = Some p2
                           /\ PlayerState.units p2
                              = refreshUnit <$> PlayerState.units player).
  { subst s2. rewrite fold_editUnit_players, Hp1 by done.
    eexists. split; [reflexivity|]. cbn. rewrite Hu1.
    apply list_fmap_ext. intros i u Hu. cbn.
    rewrite decide_True; [done|].
    apply list_elem_of_fmap. exists u. split; [done|].
    by eapply list_elem_of_lookup_2. }
  destruct Hp2 as (p2 & Hp2 & Hu2).
  assert (Hunits1 : GameState.units s1 = GameState.units s) by done.
  assert (Htable : forall i,
             GameState.units
               (updatePlayer cur
                  (fun p =>
                     PlayerState.set_sanctifiedThisTurn 0
                       (PlayerState.set_capturedThisTurn 0 p))
                  (updatePlayer cur
                     (fun p =>
                        PlayerState.set_units
                          (List.filter
                             (fun unit => negb (isExpiredWight unit))
                             (PlayerState.units p)) p)
                     (fold_left
                        (fun s unit =>
                           GameState.set_units
                             (delete (Unit.id unit) (GameState.units s)) s)
                        (List.filter isExpiredWight (PlayerState.units p2))
                        s2))) !! i
             = if decide (i ∈ Unit.id
                            <$> List.filter isExpiredWight
                                  (PlayerState.units player))
               then None
               else if decide (i ∈ Unit.id <$> PlayerState.units player)
                    then refreshUnit <$> GameState.units s !! i
                    else GameState.units s !! i).
  { intros i.
    change (GameState.units (updatePlayer ?o ?f ?x))
      with (GameState.units x).
    change (GameState.units (updatePlayer ?o ?f ?x))
      with (GameState.units x).
    rewrite fold_delete_units. rewrite Hu2.
    rewrite (filter_fmap_refresh isExpiredWight) by done.
    rewrite <- list_fmap_compose.
    change (Unit.id ∘ refreshUnit) with Unit.id.
    destruct (decide (i ∈ Unit.id <$> List.filter isExpiredWight
                            (PlayerState.units player))); [done|].
    subst s2. rewrite fold_editUnit_units by done. by rewrite Hunits1. }
  rewrite Hp2. split; [|split].
  - unfold playerField.
    rewrite !getPlayer_updatePlayer, !decide_True by done.
    rewrite TurnExtra.getPlayer_fold_set_units, Hp2. cbn.
    rewrite Hu2. f_equal. apply filter_fmap_refresh. done.
  - intros unit Hin Hexp. rewrite Htable. rewrite decide_True; [done|].
    apply list_elem_of_fmap. exists unit. split; [done|].
    apply list_elem_of_In, List.filter_In. split; [|done].
    by apply list_elem_of_In.
  - intros i Hout. rewrite Htable.
    rewrite decide_False, decide_False; [done|done|].
    intros Hin. apply Hout.
    apply list_elem_of_fmap in Hin as (u & -> & Hu).
    apply list_elem_of_fmap. exists u. split; [done|].
    apply list_elem_of_In, List.filter_In in Hu as [Hu _].
    by apply list_elem_of_In.
Qed.

(** The AI player has a scout and a Wight that has been alive for a turn:
    the scout is left, with its three movement points. *)
Lemma startTurn_refreshes_units_and_drops_wights_witness :
  playerField PlayerState.units
    (startTurn defaultGameConfig Owner.AI1 Board6.hauntedBoard) Owner.AI1
  = Some [Unit.set_movePoints 3 Board4.scout]
  /\ GameState.units
       (startTurn defaultGameConfig Owner.AI1 Board6.hauntedBoard)
       !! "w1"%string = None.
Proof.
  destruct (startTurn_refreshes_units_and_drops_wights defaultGameConfig
              Owner.AI1 Board6.hauntedBoard
              (PlayerState.set_units [Board4.scout; Board6.wight]
                 Board4.scoutPlayer)) as (Hlist & Hgone & _).
  - by vm_compute.
  - apply (bool_decide_unpack _). by vm_compute.
  - split.
    + rewrite Hlist. by vm_compute.
    + apply (Hgone Board6.wight); [|done].
      apply elem_of_cons. right. apply elem_of_cons. by left.
Defined.

End UnitExtra.

(** ** The fog of war *)

Module FogExtra.
Import FogOfWarSystem FogFacts FogView BoardView.

Lemma visibility_cases (v : TileVisibility.t) :
  v = TileVisibility.Hidden \/ v = TileVisibility.Seen
  \/ v = TileVisibility.Visible.
Proof. destruct v; auto. Qed.

(** X17.  After [updateVisibility] a tile is Visible exactly when it is in
    sight of the current player: within the perception radius of one of
    the player's units, or one of the player's sanctified tiles.  A tile
    that was Visible or Seen and is out of sight is Seen afterwards, and a
    Hidden tile never becomes Visible unless it is in sight. *)
Theorem updateVisibility_lights_what_is_in_sight s player :
  getPlayer s (GameState.currentPlayer s) = Some player ->
  (forall k,
      visibilityAt (updateVisibility s) k = Some TileVisibility.Visible
      <-> inSight s player k /\ is_Some (GameState.tiles s !! k))
  /\ (forall k v,
         visibilityAt s k = Some v -> v <> TileVisibility.Hidden ->
         ~ inSight s player k ->
         visibilityAt (updateVisibility s) k = Some TileVisibility.Seen).
Proof.
  intros Hp.
  destruct (updateVisibility_spec s player Hp) as (Hb & Hv & Hk).
  split.
  - intros k. change (visibilityAt (updateVisibility s) k) with
      (vis (updateVisibility s) k).
    rewrite Hv. unfold vis. rewrite fmap_is_Some. reflexivity.
  - intros k v Hvis Hh Hout.
    destruct (Hk k v Hvis Hh) as (v' & Hv' & Hh').
    change (vis (updateVisibility s) k = Some TileVisibility.Seen).
    rewrite Hv'. f_equal.
    destruct (visibility_cases v') as [E|[E|E]]; [done|done|].
    subst v'. apply Hv in Hv'. by destruct Hv' as [Hs _].
Qed.

(** The human player of the two-player board has neither units nor
    sanctified tiles: the home tile, Visible before, is Seen afterwards. *)
Lemma updateVisibility_lights_what_is_in_sight_witness :
  visibilityAt
    (updateVisibility
       (updateTile (0, 0) (Tile.set_visibility TileVisibility.Visible)
          Board2.rivalBoard)) (0, 0)
  = Some TileVisibility.Seen.
Proof.
  refine (proj2 (updateVisibility_lights_what_is_in_sight
                   (updateTile (0, 0)
                      (Tile.set_visibility TileVisibility.Visible)
                      Board2.rivalBoard) Board2.human _)
            (0, 0) TileVisibility.Visible _ _ _).
  - by vm_compute.
  - by vm_compute.
  - done.
  - intros [(unit & Hu & _)|Hs].
    + vm_compute in Hu. by apply elem_of_nil in Hu.
    + by vm_compute in Hs.
Defined.

(** *** [revealArea] *)

(** What a glimpse makes of a visibility. *)
Definition fogged (v : TileVisibility.t) : TileVisibility.t :=
  if decide (v = TileVisibility.Hidden) then TileVisibility.Seen else v.

Lemma glimpse_vis s k' k :
  vis (glimpse s k') k
  = if decide (k' = k) then fogged <$> vis s k else vis s k.
Proof.
  unfold glimpse.
  destruct (GameState.tiles s !! k') as [t|] eqn:Ht.
  - destruct (decide (Tile.visibility t = TileVisibility.Hidden)) as [Hh|Hh].
    + change (vis (updateTile k' (Tile.set_visibility TileVisibility.Seen) s) k
              = if decide (k' = k) then fogged <$> vis s k else vis s k).
      rewrite vis_setVisibility.
      destruct (decide (k' = k)) as [<-|]; [|done].
      unfold vis. rewrite Ht. simpl. unfold fogged. by rewrite Hh, decide_True.
    + destruct (decide (k' = k)) as [<-|]; [|done].
      unfold vis. rewrite Ht. simpl. unfold fogged. by rewrite decide_False.
  - destruct (decide (k' = k)) as [<-|]; [|done].
    unfold vis. by rewrite Ht.
Qed.

Lemma fogged_fogged (x : option TileVisibility.t) :
  fogged <$> (fogged <$> x) = fogged <$> x.
Proof. by destruct x as [[]|]. Qed.

Lemma fold_glimpse_vis (l : list TileKey) s k :
  vis (fold_left glimpse l s) k
  = if decide (k ∈ l) then fogged <$> vis s k else vis s k.
Proof.
  revert s. induction l as [|a l IH]; intros s; cbn [fold_left].
  - destruct (decide (k ∈ [])) as [H|_]; [by apply elem_of_nil in H|done].
  - rewrite IH, glimpse_vis.
    destruct (decide (k ∈ a :: l)) as [Hin|Hin]; rewrite elem_of_cons in Hin.
    + destruct (decide (k ∈ l)) as [Hl|Hl].
      * destruct (decide (a = k)); [apply fogged_fogged|done].
      * destruct (decide (a = k)) as [->|Hne]; [done|]. naive_solver.
    + destruct (decide (k ∈ l)) as [Hl|Hl]; [naive_solver|].
      destruct (decide (a = k)) as [->|Hne]; [naive_solver|done].
Qed.

Lemma glimpse_revealed s k' k :
  k ∈ GameState.revealedTiles (glimpse s k')
  <-> k ∈ GameState.revealedTiles s
      \/ (k = k' /\ vis s k = Some TileVisibility.Hidden).
Proof.
  unfold glimpse, vis.
  destruct (GameState.tiles s !! k') as [t|] eqn:Ht.
  - destruct (decide (Tile.visibility t = TileVisibility.Hidden)) as [Hh|Hh].
    + simpl. rewrite elem_of_union, elem_of_singleton.
      split; intros [?|H]; auto.
      * subst k. rewrite Ht. simpl. right. by rewrite Hh.
      * right. by destruct H.
    + split; [by left|]. intros [?|[-> H]]; [done|].
      rewrite Ht in H. simpl in H. congruence.
  - split; [by left|]. intros [?|[-> H]]; [done|].
    by rewrite Ht in H.
Qed.

Lemma fold_glimpse_revealed (l : list TileKey) s k :
  k ∈ GameState.revealedTiles (fold_left glimpse l s)
  <-> k ∈ GameState.revealedTiles s
      \/ (k ∈ l /\ vis s k = Some TileVisibility.Hidden).
Proof.
  revert s. induction l as [|a l IH]; intros s; simpl.
  - split; [by left|]. intros [?|[H _]]; [done|].
    by apply elem_of_nil in H.
  - rewrite IH, glimpse_revealed, glimpse_vis, elem_of_cons.
    destruct (decide (a = k)) as [->|Hne].
    + assert (fogged <$> vis s k <> Some TileVisibility.Hidden)
        by (by destruct (vis s k) as [[]|]).
      naive_solver.
    + naive_solver.
Qed.

Lemma glimpse_seen s k :
  vis s k <> Some TileVisibility.Hidden -> glimpse s k = s.
Proof.
  unfold glimpse, vis. intros H.
  destruct (GameState.tiles s !! k) as [t|]; [|done].
  simpl in H. rewrite decide_False; [done|]. congruence.
Qed.

Lemma fold_glimpse_seen (l : list TileKey) s :
  (forall k, k ∈ l -> vis s k <> Some TileVisibility.Hidden) ->
  fold_left glimpse l s = s.
Proof.
  induction l as [|a l IH]; intros H; simpl; [done|].
  rewrite glimpse_seen by (apply H, elem_of_cons; by left).
  apply IH. intros k Hk. apply H, elem_of_cons. by right.
Qed.

Lemma fold_glimpse_sameBoard (l : list TileKey) s :
  sameBoard s (fold_left glimpse l s).
Proof.
  revert s. induction l as [|a l IH]; intros s; simpl;
    [apply sameBoard_refl|].
  eapply sameBoard_trans; [|apply IH].
  by destruct (glimpse_raises s a) as [H _].
Qed.

Lemma elem_of_getTilesInRadius s x y r a b :
  tileKey a b ∈ getTilesInRadius x y r s
  <-> Z.abs (a - x) + Z.abs (b - y) <= r /\ inBounds s a b = true.
Proof.
  unfold getTilesInRadius.
  rewrite list_elem_of_In, in_flat_map. split.
  - intros (a' & _ & Hin). apply in_flat_map in Hin.
    destruct Hin as (b' & _ & Hin).
    destruct (_ <=? _) eqn:Hd; simpl in Hin; [|done].
    destruct (inBounds s a' b') eqn:Hb; simpl in Hin; [|done].
    destruct Hin as [E|[]]. unfold tileKey in E. injection E as -> ->.
    split; [lia|done].
  - intros [Hd Hb]. exists a. split.
    + apply list_elem_of_In, elem_of_seqZ. lia.
    + apply in_flat_map. exists b. split.
      * apply list_elem_of_In, elem_of_seqZ. lia.
      * rewrite (proj2 (Z.leb_le _ _) Hd), Hb. simpl. by left.
Qed.

(** X18.  [revealArea] turns the Hidden tiles within the Manhattan
    distance [radius] of the centre into Seen ones and records them as
    revealed; it changes no other visibility (a Visible tile stays
    Visible), nothing else on a tile and no player; the tiles it looks at
    are the in-bounds positions of the diamond; and a second call with the
    same arguments changes nothing. *)
Theorem revealArea_fogs_the_hidden s x y r :
  (forall k,
      visibilityAt (revealArea s x y r) k
      = if decide (k ∈ getTilesInRadius x y r s)
        then (fun v => if decide (v = TileVisibility.Hidden)
                       then TileVisibility.Seen else v) <$> visibilityAt s k
        else visibilityAt s k)
  /\ (forall k,
         k ∈ GameState.revealedTiles (revealArea s x y r)
         <-> k ∈ GameState.revealedTiles s
             \/ (k ∈ getTilesInRadius x y r s /\ k ∈ hiddenTiles s))
  /\ (forall a b,
         tileKey a b ∈ getTilesInRadius x y r s
         <-> Z.abs (a - x) + Z.abs (b - y) <= r /\ inBounds s a b = true)
  /\ (forall k,
         Tile.set_visibility TileVisibility.Hidden
           <$> GameState.tiles (revealArea s x y r) !! k
         = Tile.set_visibility TileVisibility.Hidden
             <$> GameState.tiles s !! k)
  /\ GameState.players (revealArea s x y r) = GameState.players s
  /\ revealArea (revealArea s x y r) x y r = revealArea s x y r.
Proof.
  unfold revealArea. split; [|split; [|split; [|split; [|split]]]].
  - intros k. apply fold_glimpse_vis.
  - intros k. rewrite fold_glimpse_revealed.
    unfold hiddenTiles, vis. rewrite elem_of_dom. unfold is_Some.
    setoid_rewrite map_lookup_filter_Some. simpl.
    destruct (GameState.tiles s !! k) as [t|]; simpl; [|naive_solver].
    split; (intros [?|[? H]]; [by left|right; split; [done|]]).
    + exists t. split; [done|]. congruence.
    + destruct H as (t' & E & Hh). congruence.
  - apply elem_of_getTilesInRadius.
  - intros k. symmetry.
    apply (sameBoard_lookup _ _ k
             (fold_glimpse_sameBoard (getTilesInRadius x y r s) s)).
  - by destruct (fold_glimpse_sameBoard (getTilesInRadius x y r s) s)
      as (H & _).
  - rewrite <- (sameBoard_getTilesInRadius s _ x y r
                  (fold_glimpse_sameBoard (getTilesInRadius x y r s) s)).
    apply fold_glimpse_seen. intros k Hk.
    rewrite fold_glimpse_vis, decide_True by done.
    by destruct (vis s k) as [[]|].
Qed.

(** *** [getVisibleTiles] *)

(** The test of the loop of [getVisibleTiles]. *)
Definition listed (s : GameState.t) (player : PlayerState.t) (tile : Tile.t)
  : bool :=
  bool_decide (Tile.owner tile = PlayerState.owner player)
  || isTileVisibleToPlayer s tile player.

Lemma getVisibleTiles_filter s player (l : list (TileKey * Tile.t))
  (acc : list TileKey) :
  fold_left
    (fun visible '(key, tile) =>
       if decide (Tile.owner tile = PlayerState.owner player)
       then visible ++ [key]
       else if isTileVisibleToPlayer s tile player then visible ++ [key]
       else visible) l acc
  = acc ++ (filter (fun kt => listed s player kt.2 = true) l).*1.
Proof.
  revert acc. induction l as [|[k t] l IH]; intros acc; cbn [fold_left].
  - by rewrite app_nil_r.
  - rewrite IH, filter_cons. unfold listed. cbn [snd].
    destruct (decide (Tile.owner t = PlayerState.owner player)) as [Ho|Ho].
    + rewrite bool_decide_true by done. cbn [orb].
      rewrite decide_True by done. by rewrite <- app_assoc.
    + rewrite bool_decide_false by done. cbn [orb].
      destruct (isTileVisibleToPlayer s t player).
      * rewrite decide_True by done. by rewrite <- app_assoc.
      * rewrite decide_False by done. done.
Qed.

(** X19.  [getVisibleTiles] lists, each once, the keys of the tiles the
    player owns and of the tiles within the perception radius of one of
    the player's units or at distance at most 1 from one of the player's
    sanctified tiles.  The visibility stored on the tiles plays no part
    in it. *)
Theorem getVisibleTiles_lists_owned_and_in_reach s player :
  (forall k,
      k ∈ getVisibleTiles s player
      <-> exists tile,
            GameState.tiles s !! k = Some tile
            /\ (Tile.owner tile = PlayerState.owner player
                \/ isTileVisibleToPlayer s tile player = true))
  /\ (forall tile,
         isTileVisibleToPlayer s tile player = true
         <-> (exists unit,
                 unit ∈ PlayerState.units player
                 /\ Z.abs (Position.x (Unit.position unit)
                           - Position.x (Tile.position tile))
                    + Z.abs (Position.y (Unit.position unit)
                             - Position.y (Tile.position tile))
                    <= calculateUnitPerception unit s)
             \/ (exists key sanctified,
                    key ∈ PlayerState.sanctifiedTiles player
                    /\ GameState.tiles s !! key = Some sanctified
                    /\ Z.abs (Position.x (Tile.position sanctified)
                              - Position.x (Tile.position tile))
                       + Z.abs (Position.y (Tile.position sanctified)
                                - Position.y (Tile.position tile))
                       <= 1))
  /\ NoDup (getVisibleTiles s player).
Proof.
  unfold getVisibleTiles. split; [|split].
  - intros k. rewrite getVisibleTiles_filter, app_nil_l.
    rewrite list_elem_of_fmap. split.
    + intros ([k' t] & -> & Hin). apply list_elem_of_filter in Hin.
      destruct Hin as [Hl Hin]. apply elem_of_map_to_list in Hin.
      exists t. split; [done|]. simpl in Hl. unfold listed in Hl.
      apply orb_true_iff in Hl. destruct Hl as [Hl|Hl]; [left|by right].
      by apply bool_decide_eq_true in Hl.
    + intros (t & Ht & Hl). exists (k, t). split; [done|].
      apply list_elem_of_filter. split; [|by apply elem_of_map_to_list].
      simpl. unfold listed. apply orb_true_iff.
      destruct Hl as [Hl|Hl]; [left|by right].
      by apply bool_decide_eq_true.
  - intros tile. unfold isTileVisibleToPlayer.
    destruct (existsb _ (PlayerState.units player)) eqn:Hu.
    + split; [intros _; left|done].
      apply existsb_exists in Hu. destruct Hu as (unit & Hin & Hd).
      exists unit. split; [by apply list_elem_of_In|]. by apply Z.leb_le.
    + rewrite existsb_exists. split.
      * intros (key & Hin & Hd). right.
        destruct (GameState.tiles s !! key) as [sanctified|] eqn:Hk; [|done].
        exists key, sanctified. split; [|split; [done|by apply Z.leb_le]].
        by apply elem_of_elements, list_elem_of_In.
      * intros [(unit & Hin & Hd)|(key & sanctified & Hin & Hk & Hd)].
        -- assert (existsb
                     (fun unit =>
                        Z.abs (Position.x (Unit.position unit)
                               - Position.x (Tile.position tile))
                        + Z.abs (Position.y (Unit.position unit)
                                 - Position.y (Tile.position tile))
                        <=? calculateUnitPerception unit s)
                     (PlayerState.units player) = true) as Hex.
           { apply existsb_exists. exists unit.
             split; [by apply list_elem_of_In|by apply Z.leb_le]. }
           congruence.
        -- exists key. split; [by apply list_elem_of_In, elem_of_elements|].
           rewrite Hk. by apply Z.leb_le.
  - rewrite getVisibleTiles_filter, app_nil_l.
    eapply sublist_NoDup; [apply (NoDup_fst_map_to_list (GameState.tiles s))|].
    apply fmap_sublist, sublist_filter.
Qed.

End FogExtra.

(** ** The handlers of the engine *)

Module EngineExtra.
Import GameEngine EngineView EngineFacts.

(** Neither [updateTile] nor [updatePlayer] changes whose turn it is. *)
Ltac same_current :=
  repeat
    match goal with
    | |- context [GameState.currentPlayer (updateTile ?k ?f ?x)] =>
        change (GameState.currentPlayer (updateTile k f x))
          with (GameState.currentPlayer x)
    | |- context [GameState.currentPlayer (updatePlayer ?o ?f ?x)] =>
        change (GameState.currentPlayer (updatePlayer o f x))
          with (GameState.currentPlayer x)
    end.

Lemma useMiracle_twice id (miracles miracles' : list Miracle.t) :
  useMiracle id miracles = Some miracles' -> useMiracle id miracles' = None.
Proof.
  revert miracles'. induction miracles as [|m rest IH]; intros miracles';
    cbn [useMiracle]; [done|].
  destruct (decide (Miracle.id m = id)) as [Hid|Hid].
  - destruct (Miracle.isUsed m) eqn:Hu; [done|].
    intros [= <-]. cbn [useMiracle].
    rewrite decide_True by (by destruct m). by destruct m.
  - destruct (useMiracle id rest) as [rest'|] eqn:Hr; [|done].
    intros [= <-]. cbn [useMiracle]. rewrite decide_False by done.
    by rewrite (IH rest').
Qed.

(** X20.  Sanctifying a tile, building a shrine on it and working a
    miracle can each be done once: after the handler has succeeded, the
    same request is refused and leaves the state as it is. *)
Theorem once_only_actions config rnd rnd' s action s1 action1 :
  GameAction.type action = ActionType.Sanctify
  \/ GameAction.type action = ActionType.ManageBuildShrine
  \/ GameAction.type action = ActionType.UseMiracle ->
  dispatch config rnd s action = (true, s1, action1) ->
  dispatch config rnd' s1 action = (false, s1, action).
Proof.
  intros Htype. unfold dispatch.
  destruct Htype as [E|[E|E]]; rewrite E; cbn [fst snd].
  - unfold executeSanctify.
    destruct (GameAction.targetTile action) as [target|]; [|done].
    destruct (GameState.tiles s !! posKey target) as [tile|] eqn:Ht; [|done].
    destruct (getPlayer s (GameState.currentPlayer s)) as [player|] eqn:Hp;
      [|done].
    destruct (negb (bool_decide (Tile.owner tile = PlayerState.owner player))
              || Tile.sanctified tile) eqn:Hc; [done|].
    cbn [fst snd]. intros [= <- <-].
    unfold payDivinity.
    rewrite !tiles_updatePlayer, tiles_updateTile, decide_True, Ht by done.
    cbn [fmap option_fmap option_map].
    same_current.
    rewrite !getPlayer_updatePlayer, !decide_True by done.
    rewrite getPlayer_updateTile, Hp. cbn [fmap option_fmap option_map].
    cbn [Tile.sanctified Tile.set_corruption Tile.set_stability
         Tile.set_divinityYield Tile.set_domainAttunement Tile.set_sanctified].
    by rewrite orb_true_r.
  - unfold executeBuildShrine.
    destruct (GameAction.targetTile action) as [target|]; [|done].
    destruct (GameState.tiles s !! posKey target) as [tile|] eqn:Ht; [|done].
    destruct (getPlayer s (GameState.currentPlayer s)) as [player|] eqn:Hp;
      [|done].
    destruct (negb (bool_decide (Tile.owner tile = PlayerState.owner player))
              || Tile.hasShrine tile) eqn:Hc; [done|].
    cbn [fst snd]. intros [= <- <-].
    unfold payDivinity.
    rewrite !tiles_updatePlayer, tiles_updateTile, decide_True, Ht by done.
    cbn [fmap option_fmap option_map].
    same_current.
    rewrite !getPlayer_updatePlayer, !decide_True by done.
    rewrite getPlayer_updateTile, Hp. cbn [fmap option_fmap option_map].
    cbn [Tile.hasShrine Tile.set_faithYield Tile.set_divinityYield
         Tile.set_hasShrine].
    by rewrite orb_true_r.
  - unfold executeMiracle.
    destruct (getPlayer s (GameState.currentPlayer s)) as [player|] eqn:Hp;
      [|done].
    destruct (GameAction.miracleId action) as [miracleId|]; [|done].
    destruct (useMiracle miracleId (PlayerState.miracles player))
      as [miracles|] eqn:Hm; [|done].
    cbn [fst snd]. intros [= <- <-].
    same_current.
    rewrite !getPlayer_updatePlayer, !decide_True, Hp by done.
    cbn [fmap option_fmap option_map].
    cbn [PlayerState.miracles PlayerState.set_faith PlayerState.set_miracles].
    by rewrite (useMiracle_twice _ _ _ Hm).
Qed.

(** The human player sanctifies the home tile; asking again is refused. *)
Lemma once_only_actions_witness :
  dispatch defaultGameConfig Board3.quiet
    (dispatch defaultGameConfig Board3.quiet Board3.openBoard
       Board6.sanctifyHome).1.2 Board6.sanctifyHome
  = (false,
     (dispatch defaultGameConfig Board3.quiet Board3.openBoard
        Board6.sanctifyHome).1.2, Board6.sanctifyHome).
Proof.
  apply (once_only_actions defaultGameConfig Board3.quiet Board3.quiet
           Board3.openBoard Board6.sanctifyHome _ Board6.sanctifyHome).
  - left. reflexivity.
  - by vm_compute.
Defined.

Lemma cannotPay_false (c : option Z) (have : Z) :
  cannotPay c have = false -> 0 <= have -> 0 <= have - orZero c.
Proof.
  unfold cannotPay, orZero. destruct c as [c|]; simpl; [|lia].
  destruct (Z.eqb_spec c 0); simpl; [lia|].
  destruct (Z.ltb_spec have c); [done|lia].
Qed.

Lemma validateAction_affordable s action player :
  getPlayer s (GameState.currentPlayer s) = Some player ->
  validateAction s action = true ->
  0 <= PlayerState.divinity player -> 0 <= PlayerState.faith player ->
  0 <= PlayerState.divinity player - costDivinity action
  /\ 0 <= PlayerState.faith player - costFaith action.
Proof.
  intros Hp Hv Hd Hf. unfold validateAction in Hv. rewrite Hp in Hv.
  destruct (negb _); [done|].
  unfold costDivinity, costFaith.
  destruct (GameAction.cost action) as [cost|]; simpl; [|lia].
  destruct (cannotPay (ResourceCost.divinity cost) _) eqn:H1; [done|].
  destruct (cannotPay (ResourceCost.faith cost) _) eqn:H2; [done|].
  split; by apply cannotPay_false.
Qed.

(** X21.  A fortify, purify, build-shrine, sanctify, summon or miracle
    action that [executeAction] carries out never overdraws the acting
    player: with divinity and faith that were not negative before, neither
    is negative afterwards, and the shadow energy is not touched. *)
Theorem executeAction_no_overdraft rnd e action player :
  callerPriced (GameAction.type action) ->
  getPlayer (state e) (GameState.currentPlayer (state e)) = Some player ->
  0 <= PlayerState.divinity player ->
  0 <= PlayerState.faith player ->
  (executeAction rnd e action).1 = true ->
  exists divinity faith,
    playerField currencies (state (executeAction rnd e action).2)
      (GameState.currentPlayer (state e))
    = Some (divinity, faith, PlayerState.shadowEnergy player)
    /\ 0 <= divinity /\ 0 <= faith.
Proof.
  intros Htype Hp Hd Hf Hok.
  destruct (validateAction (state e) action) eqn:Hv.
  2:{ destruct (executeAction_invalid rnd e action Hv) as [Hfalse _].
      congruence. }
  destruct (executeAction_valid rnd e action Hv)
    as (s1 & action1 & Hdis & (Hcur & Hframe) & _).
  rewrite Hok in Hdis.
  destruct (CostClaim.dispatch_currencies _ _ _ _ _ _ _ Htype Hp Hdis)
    as [Hc1 Hcur1].
  destruct (validateAction_affordable _ _ _ Hp Hv Hd Hf) as [Had Haf].
  rewrite (Hframe _ currencies) by done. rewrite Hcur1.
  eexists _, _. split; [|split].
  - f_equal. f_equal. unfold CostClaim.deducted.
    destruct (GameAction.type action); simpl; lia.
  - unfold CostClaim.deducted.
    destruct (GameAction.type action); simpl; lia.
  - unfold CostClaim.deducted.
    destruct (GameAction.type action); simpl; lia.
Qed.

(** The human player holds 8 divinity and fortifies for a stated 3. *)
Lemma executeAction_no_overdraft_witness :
  exists divinity faith,
    playerField currencies
      (state (executeAction Board3.quiet (Board3.engineOf Board3.openBoard)
                Board3.fortifyHome).2) Owner.Player
    = Some (divinity, faith, 0)
    /\ 0 <= divinity /\ 0 <= faith.
Proof.
  apply (executeAction_no_overdraft Board3.quiet
           (Board3.engineOf Board3.openBoard) Board3.fortifyHome Board2.human).
  - left. reflexivity.
  - by vm_compute.
  - by vm_compute.
  - by vm_compute.
  - by vm_compute.
Defined.

(** *** Moving a unit *)

Lemma getPlayer_editUnit id f s o :
  getPlayer (editUnit id f s) o
  = (fun p =>
       PlayerState.set_units
         ((fun u => if decide (Unit.id u = id) then f u else u)
            <$> PlayerState.units p) p) <$> getPlayer s o.
Proof. unfold editUnit, getPlayer; simpl. apply players_get_fmap. Qed.

Lemma perception_editUnit unit id f s :
  FogOfWarSystem.calculateUnitPerception unit (editUnit id f s)
  = FogOfWarSystem.calculateUnitPerception unit s.
Proof.
  unfold FogOfWarSystem.calculateUnitPerception.
  rewrite getPlayer_editUnit.
  change (GameState.tiles (editUnit id f s)) with (GameState.tiles s).
  by destruct (getPlayer s (Unit.owner unit)).
Qed.

Lemma units_revealTilesAroundUnit s unit :
  GameState.units (FogOfWarSystem.revealTilesAroundUnit s unit)
  = GameState.units s.
Proof.
  unfold FogOfWarSystem.revealTilesAroundUnit.
  generalize (FogOfWarSystem.getTilesInRadius
                (Position.x (Unit.position unit))
                (Position.y (Unit.position unit))
                (FogOfWarSystem.calculateUnitPerception unit s) s).
  intros l. revert s. induction l as [|k l IH]; intros s; simpl; [done|].
  rewrite IH. unfold FogOfWarSystem.revealTile.
  by destruct (GameState.tiles s !! k).
Qed.

(** X22.  [executeMove] checks two things about a unit and a target tile
    that exist: the tile is passable, and the movement points of the unit
    cover the Manhattan distance to the target times the move cost of the
    tile.  Then it takes that product from the movement points, puts the
    unit on the target and makes the tiles within the perception radius of
    the new position Visible, and charges no player anything; otherwise it
    refuses and changes nothing.  Neither the owner of the unit nor the
    length of the move is checked. *)
Theorem executeMove_moves_the_unit s action id unit target targetTile :
  GameAction.unitId action = Some id ->
  GameState.units s !! id = Some unit ->
  Unit.id unit = id ->
  GameAction.targetTile action = Some target ->
  GameState.tiles s !! posKey target = Some targetTile ->
  let moveCost :=
    (Z.abs (Position.x (Unit.position unit) - Position.x target)
     + Z.abs (Position.y (Unit.position unit) - Position.y target))
    * Tile.moveCost targetTile in
  let moved :=
    Unit.set_movePoints (Unit.movePoints unit - moveCost)
      (Unit.set_position target unit) in
  if negb (Tile.impassable targetTile) && (moveCost <=? Unit.movePoints unit)
  then
    (executeMove s action).1 = true
    /\ 0 <= Unit.movePoints moved
    /\ GameState.units (executeMove s action).2 !! id = Some moved
    /\ (forall k,
           k ∈ FogOfWarSystem.getTilesInRadius (Position.x target)
                 (Position.y target)
                 (FogOfWarSystem.calculateUnitPerception moved s) s ->
           is_Some (GameState.tiles s !! k) ->
           FogView.visibilityAt (executeMove s action).2 k
           = Some TileVisibility.Visible)
    /\ (forall o,
           playerField currencies (executeMove s action).2 o
           = playerField currencies s o)
  else executeMove s action = (false, s).
Proof.
  intros Hid Hu Hwf Htarget Ht. cbv zeta. unfold executeMove.
  rewrite Hid. cbn [mbind option_bind]. rewrite Hu, Htarget, Ht.
  destruct (Tile.impassable targetTile) eqn:Himp; [done|]. cbn [negb andb].
  set (moveCost := _ * Tile.moveCost targetTile).
  destruct (Z.ltb_spec (Unit.movePoints unit) moveCost) as [Hlt|Hle].
  { destruct (Z.leb_spec moveCost (Unit.movePoints unit)); [lia|done]. }
  destruct (Z.leb_spec moveCost (Unit.movePoints unit)); [|lia].
  cbn [fst snd].
  set (moved := Unit.set_movePoints (Unit.movePoints unit - moveCost)
                  (Unit.set_position target unit)).
  set (move := fun u : Unit.t =>
                 Unit.set_movePoints (Unit.movePoints u - moveCost)
                   (Unit.set_position target u)).
  destruct (FogFacts.revealTilesAroundUnit_raises
              (editUnit (Unit.id unit) move s) moved) as (Hb & Hv & _).
  split; [done|]. split; [|split; [|split]].
  - simpl. lia.
  - rewrite units_revealTilesAroundUnit. unfold editUnit; simpl.
    rewrite Hwf, lookup_alter, decide_True, Hu by done. done.
  - intros k Hk Hsome. apply Hv. right. split.
    + rewrite perception_editUnit. exact Hk.
    + unfold FogFacts.vis. by rewrite fmap_is_Some.
  - intros o. unfold playerField.
    rewrite <- (FogFacts.sameBoard_getPlayer _ _ o Hb).
    apply (playerField_editUnit currencies). done.
Qed.

(** The scout of the AI player walks from (0,0) to (1,0) with its one
    movement point. *)
Lemma executeMove_moves_the_unit_witness :
  (executeMove Board4.scoutBoard Board6.scoutMove).1 = true
  /\ GameState.units (executeMove Board4.scoutBoard Board6.scoutMove).2
       !! "u1"%string
     = Some (Unit.set_movePoints 0
               (Unit.set_position (Position.mk 1 0) Board4.scout)).
Proof.
  pose proof (executeMove_moves_the_unit Board4.scoutBoard Board6.scoutMove
                "u1"%string Board4.scout (Position.mk 1 0)
                (Board.tileAt 1 0 TileType.Plains Owner.Neutral 1 0)
                eq_refl eq_refl eq_refl eq_refl eq_refl) as H.
  cbv zeta in H.
  change (negb _ && _) with true in H. cbv iota in H.
  destruct H as (Hok & _ & Hunit & _). split; [exact Hok|].
  rewrite Hunit. reflexivity.
Defined.

End EngineExtra.

(** ** The Shadow *)

Module ShadowExtra.
Import ShadowSystem SpreadFacts.

Section Pass.
Variable config : GameConfig.t.
Variable random : TileKey -> TileKey -> Q.
Variable s : GameState.t.

(** The level accumulated for a tile is absent as long as no roll against
    it succeeds, and above the corruption of the tile from then on. *)
Lemma scan_bounds (k : TileKey) (tile : Tile.t)
  (vs : list (TileKey * TileKey)) (acc : gmap TileKey Z) :
  GameState.tiles s !! k = Some tile ->
  (acc !! k = None
   \/ exists v, acc !! k = Some v /\ Tile.corruption tile + 1 <= v) ->
  match List.filter
          (fun v => rollSucceeds config random s v.1 v.2
                    && bool_decide (v.2 = k)) vs with
  | [] => fold_left (scanStep config random s) vs acc !! k = acc !! k
  | _ :: _ =>
      exists v, fold_left (scanStep config random s) vs acc !! k = Some v
                /\ Tile.corruption tile + 1 <= v
  end.
Proof.
  intros Htile. revert acc.
  induction vs as [|[src nk] vs IH]; intros acc Hacc; [done|].
  cbn [fold_left List.filter]. unfold scanStep at 2 4. cbn [fst snd].
  destruct (rollSucceeds config random s src nk) eqn:Hroll; cbn [andb].
  - destruct (decide (nk = k)) as [->|Hne].
    + rewrite bool_decide_eq_true_2 by done. rewrite Htile.
      assert (Hb : exists v, bump acc k tile !! k = Some v
                             /\ Tile.corruption tile + 1 <= v).
      { unfold bump. rewrite lookup_insert_eq. eexists. split; [done|].
        destruct Hacc as [->|(v & -> & Hv)]; [lia|].
        destruct (Z.eqb_spec v 0); lia. }
      specialize (IH (bump acc k tile) (or_intror Hb)).
      destruct (List.filter _ vs); [|exact IH].
      rewrite IH. exact Hb.
    + rewrite bool_decide_eq_false_2 by done.
      assert (Hk : match GameState.tiles s !! nk with
                   | Some neighbor => bump acc nk neighbor
                   | None => acc
                   end !! k = acc !! k).
      { destruct (GameState.tiles s !! nk); [|done].
        unfold bump. by rewrite lookup_insert_ne. }
      rewrite <- Hk. apply IH. by rewrite Hk.
  - by apply IH.
Qed.

End Pass.

(** The tile an accumulated level [level] makes of [tile]. *)
Definition tileAfter (level : Z) (tile : Tile.t) : Tile.t :=
  let tile := Tile.set_corruption (Z.min 2 level) tile in
  if 2 <=? Z.min 2 level then shadowConversion tile else tile.

Lemma applyCorruption_tile_self s (k : TileKey) (level : Z) :
  GameState.tiles (applyCorruption s (k, level)) !! k
  = tileAfter level <$> GameState.tiles s !! k.
Proof.
  unfold applyCorruption, tileAfter.
  destruct (GameState.tiles s !! k) as [tile|] eqn:Ht; [|by rewrite Ht].
  destruct (2 <=? Z.min 2 level).
  - cbn [GameState.tiles GameState.set_shadowInfluence].
    destruct (isPlayerOwner (Tile.owner tile));
      rewrite ?tiles_updatePlayer, !tiles_updateTile, !decide_True by done;
      by rewrite Ht.
  - rewrite tiles_updateTile, decide_True by done. by rewrite Ht.
Qed.

Lemma fold_applyCorruption_tile (l : list (TileKey * Z)) s k level :
  NoDup l.*1 -> (k, level) ∈ l ->
  GameState.tiles (fold_left applyCorruption l s) !! k
  = tileAfter level <$> GameState.tiles s !! k.
Proof.
  revert s. induction l as [|[key v] l IH]; intros s Hnd Hin.
  - by apply elem_of_nil in Hin.
  - rewrite fmap_cons in Hnd. apply NoDup_cons in Hnd as [Hkey Hnd].
    cbn [fold_left]. apply elem_of_cons in Hin as [Heq|Hin].
    + injection Heq as <- <-.
      rewrite fold_applyCorruption_tiles_other by done.
      apply applyCorruption_tile_self.
    + assert (key <> k) as Hne.
      { intros ->. apply Hkey. apply list_elem_of_fmap.
        by exists (k, level). }
      rewrite IH by done. by rewrite applyCorruption_tiles_other.
Qed.

(** X23.  One pass of [spreadShadow] leaves alone every tile against
    which no roll succeeded; on a tile whose corruption is at most 2 the
    corruption does not go down and stays at most 2, and it goes up when a
    roll succeeded and it was below 2; position and type of a tile are
    kept.  No player gains a tile, and the Shadow influence, when it is at
    most 100, does not go down and stays at most 100. *)
Theorem spreadShadow_only_adds_corruption config random s :
  GameState.shadowInfluence s <= 100 ->
  (forall k tile,
      GameState.tiles s !! k = Some tile ->
      Tile.corruption tile <= 2 ->
      exists tile',
        GameState.tiles (spreadShadow config random s) !! k = Some tile'
        /\ Tile.position tile' = Tile.position tile
        /\ Tile.type tile' = Tile.type tile
        /\ Tile.corruption tile <= Tile.corruption tile' <= 2
        /\ (successfulRolls config random s k = [] -> tile' = tile)
        /\ (successfulRolls config random s k <> [] ->
            Tile.corruption tile < 2 ->
            Tile.corruption tile < Tile.corruption tile'))
  /\ (forall o p',
         getPlayer (spreadShadow config random s) o = Some p' ->
         exists p,
           getPlayer s o = Some p
           /\ PlayerState.ownedTiles p' ⊆ PlayerState.ownedTiles p
           /\ PlayerState.sanctifiedTiles p' ⊆ PlayerState.sanctifiedTiles p)
  /\ GameState.shadowInfluence s
     <= GameState.shadowInfluence (spreadShadow config random s) <= 100.
Proof.
  intros Hinf.
  assert (Htiles : forall x,
             GameState.tiles (updateNeutralAlignment x) = GameState.tiles x).
  { intros x. unfold updateNeutralAlignment.
    by repeat destruct (_ <? _). }
  assert (Hplayers : forall x o,
             getPlayer (updateNeutralAlignment x) o = getPlayer x o).
  { intros x o. unfold updateNeutralAlignment.
    by repeat destruct (_ <? _). }
  assert (Hinfl : forall x,
             GameState.shadowInfluence (updateNeutralAlignment x)
             = GameState.shadowInfluence x).
  { intros x. unfold updateNeutralAlignment.
    by repeat destruct (_ <? _). }
  unfold spreadShadow. split; [|split].
  - intros k tile Htile Hcor. rewrite Htiles.
    pose proof (scan_bounds config random s k tile (visits s) ∅ Htile
                  (or_introl (lookup_empty k))) as Hscan.
    fold (successfulRolls config random s k) in Hscan.
    rewrite <- collectSpread_visits in Hscan.
    destruct (successfulRolls config random s k) as [|roll rolls].
    + rewrite lookup_empty in Hscan.
      rewrite fold_applyCorruption_tiles_other.
      * exists tile. repeat split; try done; lia.
      * intros Hin. apply list_elem_of_fmap in Hin as ([k' v] & -> & Hin).
        apply elem_of_map_to_list in Hin. simpl in *. congruence.
    + destruct Hscan as (v & Hv & Hle).
      rewrite (fold_applyCorruption_tile _ _ k v).
      * rewrite Htile. eexists. split; [reflexivity|].
        unfold tileAfter.
        destruct (Z.leb_spec 2 (Z.min 2 v)); simpl;
          repeat split; try done; lia.
      * apply NoDup_fst_map_to_list.
      * by apply elem_of_map_to_list.
  - intros o p'. rewrite Hplayers. apply fold_applyCorruption_players.
  - rewrite Hinfl, fold_applyCorruption_influence.
    destruct (length _); lia.
Qed.

(** On the frontier scene every draw succeeds and the rival's tile is
    converted: the influence does not go down. *)
Lemma spreadShadow_only_adds_corruption_witness :
  GameState.shadowInfluence Board6.frontier
  <= GameState.shadowInfluence
       (spreadShadow defaultGameConfig Board2.alwaysZero Board6.frontier)
  <= 100.
Proof.
  refine (proj2 (proj2 (spreadShadow_only_adds_corruption defaultGameConfig
                          Board2.alwaysZero Board6.frontier _))).
  by vm_compute.
Defined.

(** *** Aiding and fighting the Shadow *)

(** X24.  [fightShadow] by the amount of an [aidShadow] before it brings
    the alignment of the player back to where it was (when that was not
    negative) and takes the amount from the Shadow influence, never below
    0.  If the aid lifted the alignment to the Shadow Accord threshold of
    the configuration, the progress of 100 written then is still on the
    player: fighting does not take it back. *)
Theorem fightShadow_undoes_aid_but_keeps_accord config s playerId amount :
  0 <= orZero (GameState.shadowAlignmentMeter s !! playerId) ->
  let s' := fightShadow (aidShadow config s playerId amount) playerId amount in
  GameState.shadowAlignmentMeter s' !! playerId
  = Some (orZero (GameState.shadowAlignmentMeter s !! playerId))
  /\ GameState.shadowInfluence s'
     = Z.max 0 (GameState.shadowInfluence s - amount)
  /\ (forall player,
         getPlayer s playerId = Some player ->
         GameConfig.shadowAccord config
         <= orZero (GameState.shadowAlignmentMeter s !! playerId) + amount ->
         playerField
           (fun p => PlayerState.victoryProgress p
                       !! VictoryCondition.ShadowAccord) s' playerId
         = Some (Some (Pct 100))).
Proof.
  intros Hmeter. cbv zeta. unfold fightShadow, aidShadow.
  set (current := orZero (GameState.shadowAlignmentMeter s !! playerId)) in *.
  destruct (Z.leb_spec (GameConfig.shadowAccord config) (current + amount))
    as [Hle|Hlt].
  - split; [|split].
    + cbn. rewrite lookup_insert_eq. cbn. rewrite lookup_insert_eq.
      unfold orZero. simpl. f_equal. lia.
    + done.
    + intros player Hp _. unfold playerField.
      change (getPlayer (GameState.set_shadowAlignmentMeter ?m ?x) playerId)
        with (getPlayer x playerId).
      change (getPlayer (GameState.set_shadowInfluence ?m ?x) playerId)
        with (getPlayer x playerId).
      rewrite getPlayer_updatePlayer, decide_True by done.
      change (getPlayer (GameState.set_shadowAlignmentMeter ?m ?x) playerId)
        with (getPlayer x playerId).
      rewrite Hp. cbn. by rewrite lookup_insert_eq.
  - split; [|split].
    + cbn. rewrite lookup_insert_eq. cbn. rewrite lookup_insert_eq.
      unfold orZero. simpl. f_equal. lia.
    + done.
    + intros player Hp Hle. lia.
Qed.

(** A player without alignment aids the Shadow by 100, the threshold of
    the default configuration, and then fights it by 100. *)
Lemma fightShadow_undoes_aid_but_keeps_accord_witness :
  GameState.shadowAlignmentMeter
    (fightShadow
       (aidShadow defaultGameConfig Board2.rivalBoard Owner.Player 100)
       Owner.Player 100) !! Owner.Player
  = Some 0
  /\ playerField
       (fun p => PlayerState.victoryProgress p
                   !! VictoryCondition.ShadowAccord)
       (fightShadow
          (aidShadow defaultGameConfig Board2.rivalBoard Owner.Player 100)
          Owner.Player 100) Owner.Player
     = Some (Some (Pct 100)).
Proof.
  destruct (fightShadow_undoes_aid_but_keeps_accord defaultGameConfig
              Board2.rivalBoard Owner.Player 100) as (Hm & _ & Hp).
  - by vm_compute.
  - split; [exact Hm|]. apply (Hp Board2.human); by vm_compute.
Defined.

End ShadowExtra.

(** *** Purifying a tile *)

Module PurifyExtra.
Import GameEngine.

(** X25.  [executePurify] asks one thing of a tile that exists: its
    corruption is not 0; whose tile it is plays no part.  It then does to
    the corruption and the owner of the tile what [cleanseCorruption] by
    one level does (a Shadow tile that reaches corruption 0 becomes
    Neutral), raises the stability by 1 up to the cap, where
    [cleanseCorruption] would set the stability of a released tile to 1,
    and touches no other tile.  On a tile without corruption it refuses
    and changes nothing. *)
Theorem executePurify_cleanses_one_level config s action target tile player :
  GameAction.targetTile action = Some target ->
  GameState.tiles s !! posKey target = Some tile ->
  getPlayer s (GameState.currentPlayer s) = Some player ->
  if Tile.corruption tile =? 0 then executePurify config s action = (false, s)
  else
    (executePurify config s action).1 = true
    /\ (exists tile',
          GameState.tiles (executePurify config s action).2 !! posKey target
          = Some tile'
          /\ Tile.corruption tile'
             = Tile.corruption (ShadowSystem.cleanseCorruption tile 1)
          /\ Tile.owner tile'
             = Tile.owner (ShadowSystem.cleanseCorruption tile 1)
          /\ Tile.stability tile'
             = Z.min (Tile.stability tile + 1)
                 (GameConfig.stabilityCap config)
          /\ Tile.sanctified tile' = Tile.sanctified tile)
    /\ (forall k,
           k <> posKey target ->
           GameState.tiles (executePurify config s action).2 !! k
           = GameState.tiles s !! k).
Proof.
  intros Htarget Htile Hp. unfold executePurify.
  rewrite Htarget, Htile, Hp.
  destruct (Tile.corruption tile =? 0); [done|].
  cbn [fst snd]. split; [done|]. unfold payDivinity. split.
  - rewrite tiles_updatePlayer, tiles_updateTile, decide_True, Htile by done.
    eexists. split; [reflexivity|].
    unfold ShadowSystem.cleanseCorruption. cbn.
    destruct (Z.max 0 (Tile.corruption tile - 1) =? 0); cbn;
      [|by repeat split].
    destruct (bool_decide (Tile.owner tile = Owner.Shadow)); by repeat split.
  - intros k Hk.
    by rewrite tiles_updatePlayer, tiles_updateTile, decide_False.
Qed.

(** The human player purifies the rival's tile, which carries
    corruption 1 and becomes clean; the rival keeps it. *)
Lemma executePurify_cleanses_one_level_witness :
  exists tile',
    GameState.tiles
      (executePurify defaultGameConfig Board3.openBoard Board6.purifyRival).2
      !! (1, 0) = Some tile'
    /\ Tile.corruption tile' = 0
    /\ Tile.owner tile' = Owner.AI1
    /\ Tile.stability tile' = 4
    /\ Tile.sanctified tile' = false.
Proof.
  pose proof (executePurify_cleanses_one_level defaultGameConfig
                Board3.openBoard Board6.purifyRival (Position.mk 1 0)
                (Board.tileAt 1 0 TileType.Plains Owner.AI1 3 1)
                Board2.human eq_refl eq_refl eq_refl) as H.
  change (Tile.corruption _ =? 0) with false in H. cbv iota in H.
  exact (proj1 (proj2 H)).
Defined.

End PurifyExtra.

(** ** The victory evaluator *)

Module VictoryExtra.
Import VictorySystem VictoryView.

(** The progress of one condition, as [getVictoryProgress] computes it. *)
Definition progressValue (s : GameState.t) (player : PlayerState.t)
  (condition : VictoryCondition.t) : Progress :=
  match condition with
  | VictoryCondition.Conquest =>
      percentOf (Z.of_nat (size (PlayerState.ownedTiles player)))
        (Z.of_nat (size (GameState.revealedTiles s)))
  | VictoryCondition.Sanctifier =>
      Pct (inject_Z
             (fold_left
                (fun count key =>
                   match GameState.tiles s !! key with
                   | Some tile =>
                       if isHolySite (Tile.type tile) then count + 1
                       else count
                   | None => count
                   end)
                (elements (PlayerState.sanctifiedTiles player)) 0)
           / threshold s condition 6 * 100)
  | VictoryCondition.ShadowAccord =>
      Pct (inject_Z
             (orZero (GameState.shadowAlignmentMeter s
                        !! PlayerState.owner player))
           / threshold s condition 100 * 100)
  | VictoryCondition.RelicAscension =>
      Pct (inject_Z
             (Z.of_nat
                (length
                   (List.filter
                      (fun r =>
                         bool_decide (Relic.rarity r = Rarity.mythic)
                         && match Relic.victoryPoints r with
                            | Some v => negb (v =? 0) && (0 <? v)
                            | None => false
                            end)
                      (PlayerState.relics player))))
           / threshold s condition 3 * 100)
  end.

Lemma getVictoryProgress_fold s player :
  getVictoryProgress s player
  = fold_left
      (fun progress condition =>
         progressSet condition (progressValue s player condition) progress)
      (GameState.victoryConditions s) [].
Proof.
  unfold getVictoryProgress. apply fold_left_ext_in.
  intros progress condition. by destruct condition.
Qed.

Lemma progressSet_keys c v (l : list (VictoryCondition.t * Progress)) :
  (progressSet c v l).*1 = if decide (c ∈ l.*1) then l.*1 else l.*1 ++ [c].
Proof.
  induction l as [|[c' v'] l IH]; cbn [progressSet fmap list_fmap fst].
  - destruct (decide (c ∈ [])) as [H|_]; [by apply elem_of_nil in H|done].
  - destruct (decide (c' = c)) as [->|Hne].
    + rewrite decide_True by (apply elem_of_cons; by left). done.
    + cbn [fmap list_fmap fst]. fold (@fmap list _ _ _ (@fst VictoryCondition.t Progress)).
      rewrite IH. destruct (decide (c ∈ l.*1)) as [Hin|Hin].
      * rewrite decide_True by (apply elem_of_cons; by right). done.
      * rewrite decide_False; [done|].
        intros H. apply elem_of_cons in H as [->|H]; done.
Qed.

Lemma progressSet_get c v (l : list (VictoryCondition.t * Progress)) c' :
  progressGet c' (progressSet c v l)
  = if decide (c' = c) then Some v else progressGet c' l.
Proof.
  unfold progressGet.
  induction l as [|[c0 v0] l IH]; cbn [progressSet List.find fst].
  - destruct (decide (c' = c)) as [->|Hne].
    + by rewrite bool_decide_eq_true_2.
    + rewrite bool_decide_eq_false_2; [done|]. congruence.
  - destruct (decide (c0 = c)) as [->|Hne]; cbn [List.find fst].
    + destruct (decide (c' = c)) as [->|Hne'].
      * by rewrite bool_decide_eq_true_2.
      * rewrite !bool_decide_eq_false_2 by congruence. done.
    + destruct (decide (c0 = c')) as [->|Hne0].
      * rewrite bool_decide_eq_true_2 by done.
        by rewrite decide_False.
      * rewrite bool_decide_eq_false_2 by done. apply IH.
Qed.

Lemma fold_progressSet_get (val : VictoryCondition.t -> Progress)
  (conditions : list VictoryCondition.t)
  (acc : list (VictoryCondition.t * Progress)) c :
  progressGet c
    (fold_left (fun progress condition =>
                  progressSet condition (val condition) progress)
       conditions acc)
  = if decide (c ∈ conditions) then Some (val c) else progressGet c acc.
Proof.
  revert acc. induction conditions as [|c0 l IH]; intros acc;
    cbn [fold_left].
  - destruct (decide (c ∈ [])) as [H|_]; [by apply elem_of_nil in H|done].
  - rewrite IH, progressSet_get.
    destruct (decide (c ∈ c0 :: l)) as [Hin|Hin];
      rewrite elem_of_cons in Hin.
    + destruct (decide (c ∈ l)); [done|].
      destruct (decide (c = c0)) as [->|]; [done|naive_solver].
    + destruct (decide (c ∈ l)); [naive_solver|].
      destruct (decide (c = c0)); [naive_solver|done].
Qed.

Lemma fold_progressSet_NoDup (val : VictoryCondition.t -> Progress)
  (conditions : list VictoryCondition.t)
  (acc : list (VictoryCondition.t * Progress)) :
  NoDup acc.*1 ->
  NoDup (fold_left (fun progress condition =>
                      progressSet condition (val condition) progress)
           conditions acc).*1.
Proof.
  revert acc. induction conditions as [|c0 l IH]; intros acc Hnd;
    cbn [fold_left]; [done|].
  apply IH. rewrite progressSet_keys.
  destruct (decide (c0 ∈ acc.*1)) as [Hin|Hin]; [done|].
  apply NoDup_app. split; [done|]. split.
  - intros x Hx Hx0. apply list_elem_of_singleton in Hx0. by subst.
  - apply NoDup_singleton.
Qed.

Lemma progressGet_elem (l : list (VictoryCondition.t * Progress)) c v :
  NoDup l.*1 -> progressGet c l = Some v <-> (c, v) ∈ l.
Proof.
  unfold progressGet.
  induction l as [|[c0 v0] l IH]; intros Hnd; cbn [List.find fst].
  - split; [done|]. intros H. by apply elem_of_nil in H.
  - rewrite fmap_cons in Hnd. apply NoDup_cons in Hnd as [Hc0 Hnd].
    rewrite elem_of_cons. destruct (decide (c0 = c)) as [->|Hne].
    + rewrite bool_decide_eq_true_2 by done. simpl. split.
      * intros [= ->]. by left.
      * intros [[= ->]|Hin]; [done|].
        exfalso. apply Hc0. apply list_elem_of_fmap. by exists (c, v).
    + rewrite bool_decide_eq_false_2 by done. rewrite IH by done.
      split; [by right|]. intros [[= -> ->]|Hin]; done.
Qed.

Lemma check_stores_progressValue cur player c s :
  (checkPlayerVictoryCondition cur player c s).2
  = setProgress cur c (progressValue s player c) s.
Proof.
  destruct c; cbn [checkPlayerVictoryCondition progressValue]; try done.
  unfold checkConquestVictory, percentOf.
  destruct (_ =? 0); [|done]. by destruct (_ =? 0).
Qed.

(** X26.  For every enabled victory condition, [getVictoryProgress]
    reports for a player the progress that the check of that condition
    writes on the player, with the same two results of a division by zero
    for Conquest when nothing is revealed; it reports nothing for a
    condition that is not enabled, and each condition once.
    [isCloseToVictory] names a condition only if the progress reported for
    it reaches the threshold, and none only if no reported progress
    does. *)
Theorem getVictoryProgress_agrees_with_checks s cur player c :
  getPlayer s cur = Some player ->
  c ∈ GameState.victoryConditions s ->
  (exists v,
      progressGet c (getVictoryProgress s player) = Some v
      /\ playerField (fun p => PlayerState.victoryProgress p !! c)
           (checkPlayerVictoryCondition cur player c s).2 cur
         = Some (Some v))
  /\ (forall c',
         c' ∉ GameState.victoryConditions s ->
         progressGet c' (getVictoryProgress s player) = None)
  /\ NoDup (getVictoryProgress s player).*1
  /\ (forall threshold c',
         isCloseToVictory s player threshold = Some c' ->
         exists v',
           progressGet c' (getVictoryProgress s player) = Some v'
           /\ reaches v' threshold = true)
  /\ (forall threshold,
         isCloseToVictory s player threshold = None ->
         forall c' v',
           progressGet c' (getVictoryProgress s player) = Some v' ->
           reaches v' threshold = false).
Proof.
  intros Hp Hc.
  assert (Hnd : NoDup (getVictoryProgress s player).*1).
  { rewrite getVictoryProgress_fold. apply fold_progressSet_NoDup.
    apply NoDup_nil_2. }
  split; [|split; [|split; [|split]]].
  - exists (progressValue s player c). split.
    + rewrite getVictoryProgress_fold, fold_progressSet_get.
      by rewrite decide_True.
    + rewrite check_stores_progressValue. unfold playerField, setProgress.
      rewrite getPlayer_updatePlayer, decide_True, Hp by done.
      cbn. by rewrite lookup_insert_eq.
  - intros c' Hc'. rewrite getVictoryProgress_fold, fold_progressSet_get.
    by rewrite decide_False.
  - done.
  - intros threshold c'. unfold isCloseToVictory.
    destruct (List.find _ _) as [[c0 v0]|] eqn:Hfind; [|done].
    intros [= <-]. apply find_some in Hfind as [Hin Hreach].
    exists v0. split; [|done].
    apply progressGet_elem; [done|]. by apply list_elem_of_In.
  - intros threshold. unfold isCloseToVictory.
    destruct (List.find _ _) as [[c0 v0]|] eqn:Hfind; [done|].
    intros _ c' v' Hget.
    apply progressGet_elem in Hget; [|done].
    apply list_elem_of_In in Hget.
    apply (find_none _ _ Hfind (c', v') Hget).
Qed.

(** On the open board the human player owns one of the two revealed
    tiles: 50 percent of the way to Conquest. *)
Lemma getVictoryProgress_agrees_with_checks_witness :
  exists v,
    progressGet VictoryCondition.Conquest
      (getVictoryProgress Board3.openBoard Board2.human) = Some v
    /\ playerField
         (fun p => PlayerState.victoryProgress p !! VictoryCondition.Conquest)
         (checkPlayerVictoryCondition Owner.Player Board2.human
            VictoryCondition.Conquest Board3.openBoard).2 Owner.Player
       = Some (Some v).
Proof.
  refine (proj1 (getVictoryProgress_agrees_with_checks Board3.openBoard
                   Owner.Player Board2.human VictoryCondition.Conquest _ _)).
  - by vm_compute.
  - apply (bool_decide_unpack _). by vm_compute.
Defined.

End VictoryExtra.

(** ** The choice of the AI *)

Module AIExtra.
Import AIController AIView AIScores AIFacts.

(** The head of the sorted list, computed from the right. *)
Fixpoint best (l : list Candidate) : option Candidate :=
  match l with
  | [] => None
  | c :: l =>
      Some match best l with
           | None => c
           | Some h => if Qle_bool (score h) (score c) then c else h
           end
  end.

Lemma head_insertByScore c l :
  head (insertByScore c l)
  = Some match head l with
         | None => c
         | Some h => if Qle_bool (score h) (score c) then c else h
         end.
Proof. destruct l as [|h l]; simpl; [done|]. by destruct (Qle_bool _ _). Qed.

Lemma head_sortByScore l : head (sortByScore l) = best l.
Proof.
  induction l as [|c l IH]; simpl; [done|].
  by rewrite head_insertByScore, IH.
Qed.

Lemma best_None l : best l = None -> l = [].
Proof. by destruct l. Qed.

Lemma best_spec l c :
  best l = Some c ->
  exists i : nat,
    l !! i = Some c
    /\ (forall (j : nat) c', l !! j = Some c' -> (score c' <= score c)%Q)
    /\ (forall (j : nat) c',
           (j < i)%nat -> l !! j = Some c' -> (score c' < score c)%Q).
Proof.
  revert c. induction l as [|c0 l IH]; intros c; simpl; [done|].
  intros [= <-]. destruct (best l) as [h|] eqn:Hbest.
  - destruct (IH h eq_refl) as (i & Hi & Hall & Hbefore).
    destruct (Qle_bool (score h) (score c0)) eqn:Hle.
    + apply Qle_bool_iff in Hle. exists 0%nat. split; [done|]. split.
      * intros [|j] c' Hj; simpl in Hj.
        -- injection Hj as <-. apply Qle_refl.
        -- eapply Qle_trans; [by eapply Hall|done].
      * intros j c' Hj. lia.
    + assert (score c0 < score h)%Q as Hlt.
      { apply Qnot_le_lt. intros H. apply Qle_bool_iff in H. congruence. }
      exists (S i). split; [done|]. split.
      * intros [|j] c' Hj; simpl in Hj.
        -- injection Hj as <-. by apply Qlt_le_weak.
        -- by eapply Hall.
      * intros [|j] c' Hj Hc'; simpl in Hc'.
        -- by injection Hc' as <-.
        -- eapply Hbefore; [|done]. lia.
  - apply best_None in Hbest. subst l. exists 0%nat. split; [done|]. split.
    + intros [|j] c' Hj; simpl in Hj; [|done].
      injection Hj as <-. apply Qle_refl.
    + intros j c' Hj. lia.
Qed.

(** X27.  [selectBestAction] returns the action of a candidate whose
    weighted score no other candidate exceeds, and among the candidates of
    that score the one generated first; it returns nothing exactly when no
    candidate was generated. *)
Theorem selectBestAction_first_of_highest_score rnd s player :
  match selectBestAction rnd s player with
  | Some bestAction =>
      exists (i : nat) c,
        scored rnd s player !! i = Some c
        /\ action c = bestAction
        /\ (forall (j : nat) c',
               scored rnd s player !! j = Some c' ->
               (score c' <= score c)%Q)
        /\ (forall (j : nat) c',
               (j < i)%nat -> scored rnd s player !! j = Some c' ->
               (score c' < score c)%Q)
  | None => generateCandidates rnd s player = []
  end.
Proof.
  unfold selectBestAction. fold (scored rnd s player).
  rewrite head_sortByScore.
  destruct (best (scored rnd s player)) as [c|] eqn:Hbest; simpl.
  - destruct (best_spec _ _ Hbest) as (i & Hi & Hall & Hbefore).
    by exists i, c.
  - apply best_None in Hbest. unfold scored, applyPersonalityWeights in Hbest.
    apply fmap_nil_inv in Hbest.
    destruct (generateCandidates rnd s player); [done|]. done.
Qed.

(** *** The end of the turn loop *)

Lemma scored_actions rnd s player :
  action <$> scored rnd s player = action <$> generateCandidates rnd s player.
Proof.
  unfold scored, applyPersonalityWeights.
  generalize (generateCandidates rnd s player). intros cs.
  rewrite <- list_fmap_compose.
  assert (Hi : forall (f : nat -> Candidate -> Candidate) l,
             (forall n c, action (f n c) = action c) ->
             action <$> imap f l = action <$> l).
  { intros f l Hf. revert f Hf. induction l as [|c l IH]; intros f Hf;
      simpl; [done|].
    rewrite Hf. f_equal. apply IH. intros n c'. apply Hf. }
  rewrite <- (Hi (fun n candidate =>
                    mkCandidate (action candidate)
                      (calculateUtility (jitter rnd n) s player
                         (action candidate))) cs) by done.
  apply list_fmap_ext. intros i c _. simpl.
  destruct (default Personality.balanced (PlayerState.aiPersonality player));
    repeat (destruct (bool_decide _); simpl; try done); done.
Qed.

Lemma selectBestAction_candidate rnd s player bestAction :
  selectBestAction rnd s player = Some bestAction ->
  bestAction ∈ action <$> generateCandidates rnd s player.
Proof.
  unfold selectBestAction. fold (scored rnd s player).
  rewrite head_sortByScore.
  destruct (best (scored rnd s player)) as [c|] eqn:Hbest; [|done].
  intros [= <-]. destruct (best_spec _ _ Hbest) as (i & Hi & _).
  rewrite <- scored_actions. apply list_elem_of_fmap_2.
  by eapply list_elem_of_lookup_2.
Qed.

(** The candidates whose simulation costs at least 2 divinity. *)
Definition priced (candidates : list Candidate) : Prop :=
  Forall (fun c => 2 <= baseCost (GameAction.type (action c))) candidates.

Lemma push_priced rnd type player unitId target candidates :
  2 <= baseCost type -> priced candidates ->
  priced (push rnd type player unitId target candidates).
Proof.
  intros Ht H. unfold push. apply Forall_app. split; [done|].
  by apply Forall_singleton.
Qed.

Lemma generateCaptureActions_priced rnd s player candidates :
  priced candidates ->
  priced (generateCaptureActions rnd s player candidates).
Proof.
  unfold generateCaptureActions. cbv zeta.
  set (tiles := fold_left _ (elements (PlayerState.ownedTiles player)) []).
  clearbody tiles. revert candidates.
  induction tiles as [|t tiles IH]; intros cs Hcs; simpl; [done|].
  apply IH. by apply push_priced.
Qed.

Lemma generateSanctifyActions_priced rnd s player candidates :
  priced candidates ->
  priced (generateSanctifyActions rnd s player candidates).
Proof.
  unfold generateSanctifyActions.
  generalize (elements (PlayerState.ownedTiles player)). intros keys.
  revert candidates. induction keys as [|k keys IH]; intros cs Hcs; simpl;
    [done|].
  apply IH. destruct (GameState.tiles s !! k) as [tile|]; [|done].
  destruct (_ && _); [|done]. by apply push_priced.
Qed.

Lemma generateFortifyActions_priced rnd s player candidates :
  priced candidates ->
  priced (generateFortifyActions rnd s player candidates).
Proof.
  unfold generateFortifyActions.
  generalize (elements (PlayerState.ownedTiles player)). intros keys.
  revert candidates. induction keys as [|k keys IH]; intros cs Hcs; simpl;
    [done|].
  apply IH. destruct (GameState.tiles s !! k) as [tile|]; [|done].
  destruct (_ && _); [|done]. by apply push_priced.
Qed.

Lemma generateSummonActions_priced rnd s player candidates :
  priced candidates ->
  priced (generateSummonActions rnd s player candidates).
Proof.
  unfold generateSummonActions. intros H.
  destruct (_ && _); [|done].
  destruct (elements (PlayerState.ownedTiles player)); [done|].
  by apply push_priced.
Qed.

Lemma generateExploreActions_prefix rnd s player candidates :
  candidates `prefix_of` generateExploreActions rnd s player candidates.
Proof.
  unfold generateExploreActions.
  generalize (PlayerState.units player). intros units.
  revert candidates. induction units as [|u units IH]; intros cs; simpl;
    [done|].
  etrans; [|apply IH].
  destruct (0 <? Unit.movePoints u); [|done].
  generalize (getTilesInRadius (Position.x (Unit.position u))
                (Position.y (Unit.position u)) (Unit.movePoints u) s).
  intros keys. revert cs. induction keys as [|k keys IHk]; intros cs; simpl;
    [done|].
  etrans; [|apply IHk].
  destruct (GameState.tiles s !! k) as [tile|]; [|done].
  case_decide; [|done]. unfold push. by apply prefix_app_r.
Qed.

Lemma generateExploreActions_nothing rnd s player candidates :
  exploreTargets s player = [] ->
  generateExploreActions rnd s player candidates = candidates.
Proof.
  intros Hnone. symmetry. apply prefix_length_eq.
  - apply generateExploreActions_prefix.
  - generalize (generateExploreActions_prefix rnd s player candidates).
    intros [extra Hextra].
    assert (length (generateExploreActions rnd s player candidates)
            = length candidates) as Hlen.
    { clear Hextra. revert candidates.
      unfold generateExploreActions, exploreTargets in *.
      induction (PlayerState.units player) as [|u units IH]; intros cs;
        simpl; [done|].
      simpl in Hnone. apply app_eq_nil in Hnone as [Hu Hrest].
      rewrite (IH Hrest).
      destruct (0 <? Unit.movePoints u); [|done].
      revert Hu cs.
      generalize (getTilesInRadius (Position.x (Unit.position u))
                    (Position.y (Unit.position u)) (Unit.movePoints u) s).
      intros keys. induction keys as [|k keys IHk]; intros Hu cs; simpl;
        [done|].
      simpl in Hu. destruct (GameState.tiles s !! k) as [tile|].
      - case_decide as Hh.
        + by rewrite bool_decide_eq_true_2 in Hu.
        + rewrite bool_decide_eq_false_2 in Hu by done. by apply IHk.
      - by apply IHk. }
    lia.
Qed.

Lemma generateCandidates_priced rnd s player :
  exploreTargets s player = [] ->
  priced (generateCandidates rnd s player).
Proof.
  intros Hnone. unfold generateCandidates.
  apply generateSummonActions_priced.
  rewrite generateExploreActions_nothing by done.
  apply generateFortifyActions_priced, generateSanctifyActions_priced,
    generateCaptureActions_priced, Forall_nil_2.
Qed.

Lemma executeTurnFrom_S fuel rnd cur s actions :
  executeTurnFrom (S fuel) rnd cur s actions
  = match getPlayer s cur with
    | None => Some (actions, s)
    | Some player =>
        if 0 <? PlayerState.divinity player then
          match selectBestAction (rnd (length actions)) s player with
          | None => Some (actions, s)
          | Some bestAction =>
              executeTurnFrom fuel rnd cur (simulateAction cur s bestAction)
                (actions ++ [bestAction])
          end
        else Some (actions, s)
    end.
Proof. reflexivity. Qed.

Lemma executeTurnFrom_ends (n : nat) rnd cur :
  forall s player actions,
    getPlayer s cur = Some player ->
    exploreTargets s player = [] ->
    PlayerState.divinity player <= Z.of_nat n ->
    exists done s',
      executeTurnFrom (S n) rnd cur s actions = Some (actions ++ done, s')
      /\ 2 * Z.of_nat (length done) <= Z.max 0 (PlayerState.divinity player)
      /\ Forall (fun a => 2 <= baseCost (GameAction.type a)) done.
Proof.
  induction n as [|n IH]; intros s player actions Hp Hnone Hd;
    rewrite executeTurnFrom_S, Hp.
  - destruct (Z.ltb_spec 0 (PlayerState.divinity player)); [lia|].
    exists [], s. rewrite app_nil_r. split; [done|]. split; [simpl; lia|done].
  - destruct (Z.ltb_spec 0 (PlayerState.divinity player)) as [Hpos|Hneg].
    2:{ exists [], s. rewrite app_nil_r. split; [done|].
        split; [simpl; lia|done]. }
    destruct (selectBestAction (rnd (length actions)) s player)
      as [bestAction|] eqn:Hbest.
    2:{ exists [], s. rewrite app_nil_r. split; [done|].
        split; [simpl; lia|done]. }
    assert (Hcost : 2 <= baseCost (GameAction.type bestAction)).
    { apply selectBestAction_candidate in Hbest.
      apply list_elem_of_fmap in Hbest as (c & -> & Hin).
      pose proof (generateCandidates_priced (rnd (length actions)) s player
                    Hnone) as Hall.
      unfold priced in Hall. rewrite Forall_forall in Hall. by apply Hall. }
    assert (Hrich : 2 <= PlayerState.divinity player).
    { destruct (Z.le_gt_cases 2 (PlayerState.divinity player)) as [|Hpoor];
        [done|].
      apply selectBestAction_candidate in Hbest.
      rewrite generateCandidates_poor in Hbest by lia.
      rewrite generateExploreActions_nothing in Hbest by done.
      by apply elem_of_nil in Hbest. }
    set (player' :=
           PlayerState.set_divinity
             (Z.max 0 (PlayerState.divinity player
                       - baseCost (GameAction.type bestAction))) player).
    destruct (IH (simulateAction cur s bestAction) player'
                (actions ++ [bestAction])) as (rest & s' & Hrun & Hlen & Hall).
    + unfold simulateAction.
      rewrite getPlayer_updatePlayer, decide_True, Hp by done. done.
    + exact Hnone.
    + subst player'. simpl. lia.
    + exists (bestAction :: rest), s'. split; [|split].
      * rewrite Hrun. by rewrite <- app_assoc.
      * subst player'.
        cbn [PlayerState.divinity PlayerState.set_divinity] in Hlen.
        cbn [length]. rewrite Nat2Z.inj_succ. lia.
      * by apply Forall_cons.
Qed.

(** X28.  When no unit of the player has a Hidden tile within reach, the
    loop of [executeTurn] ends: every action it simulates costs at least 2
    divinity, so with divinity [d] at the start it has ended after at most
    [d / 2] actions, within [d + 1] iterations, whatever is drawn. *)
Theorem executeTurn_ends_without_explore rnd cur s player :
  getPlayer s cur = Some player ->
  exploreTargets s player = [] ->
  exists actions s',
    executeTurn (S (Z.to_nat (PlayerState.divinity player))) rnd cur s
    = Some (actions, s')
    /\ 2 * Z.of_nat (length actions) <= Z.max 0 (PlayerState.divinity player)
    /\ Forall (fun a => GameAction.type a <> ActionType.Explore
                        /\ GameAction.type a <> ActionType.Move) actions.
Proof.
  intros Hp Hnone. unfold executeTurn.
  destruct (executeTurnFrom_ends (Z.to_nat (PlayerState.divinity player))
              rnd cur s player [] Hp Hnone) as (done & s' & Hrun & Hlen & Hall);
    [lia|].
  exists done, s'. split; [done|]. split; [done|].
  eapply Forall_impl; [exact Hall|].
  intros a Ha. simpl in Ha. split; intros E; rewrite E in Ha; simpl in Ha; lia.
Qed.

(** The rival of the two-player board has 6 divinity and no units. *)
Lemma executeTurn_ends_without_explore_witness :
  exists actions s',
    executeTurn 7 (fun _ => mkOracle (fun _ => "a"%string) (fun _ => 0)
                              (fun _ => 0%Q))
      Owner.AI1 Board2.rivalBoard
    = Some (actions, s')
    /\ 2 * Z.of_nat (length actions) <= Z.max 0 6
    /\ Forall (fun a => GameAction.type a <> ActionType.Explore
                        /\ GameAction.type a <> ActionType.Move) actions.
Proof.
  apply (executeTurn_ends_without_explore
           (fun _ => mkOracle (fun _ => "a"%string) (fun _ => 0)
                       (fun _ => 0%Q))
           Owner.AI1 Board2.rivalBoard Board2.rival).
  - by vm_compute.
  - by vm_compute.
Defined.

End AIExtra.
